(* ===== verification/_CoqProject ===== *)
-Q . S2P
Prelude.v
Bytes.v
Random.v
ByteReader.v
Utf8.v
VaultFormat.v
VaultFormatCorrect.v
VaultCrypto.v
Persistence.v
Runtime.v
RuntimeCorrect.v
Nvs.v
NvsPersistence.v
NvsPersistenceCorrect.v
NvsAtomic.v
NvsRestart.v
VaultDevice.v
Base64url.v
Psa.v
DeviceSession.v
UserPresence.v
Transcript.v
Attempt.v
AttemptCorrect.v
Binding.v
RegistrationStore.v
Registration.v
VmkSink.v
VmkSinkCorrect.v
Json.v
JsonWipe.v
SessionHandler.v
SessionHandlerCorrect.v
TrustedTime.v
TimeService.v
TimeServiceCorrect.v
Base32.v
Hmac.v
Totp.v
TotpCorrect.v
LabelScroll.v
Display.v
Ui.v
UiCorrect.v
UiSafety.v
CanonicalProtocol.v
CanonicalProtocolCorrect.v
Transport.v
AppMain.v
AppMainCorrect.v
RegistrationCorrect.v
AppSample.v
Diagnostics.v
DiagnosticsCorrect.v
DiagnosticPass.v
DiagnosticPassCorrect.v
AccountState.v
SensitiveString.v
AccountStateCorrect.v
AccountStore.v
AccountBook.v
AccountStoreCorrect.v
AccountSecurity.v
AccountSample.v
UiModel.v
UiModelCorrect.v
AccountTime.v
AccountProtocol.v
AccountProtocolCorrect.v
AccountUi.v
AccountUiCorrect.v
HostCrypto.v
HostCryptoCorrect.v
HostGcm.v
