(* ===== verification/Prelude.v ===== *)
(** * Verification of the M5Authenticator firmware

    M5Authenticator is a hardware authenticator: a device with one display and
    one button that keeps a Vault of TOTP secrets encrypted under a Vault Master
    Key (VMK) which the device itself never stores.  The key lives in a browser
    and is delivered over USB, through a protocol with an ephemeral key
    agreement, a browser signature and a press of the device's button.  This
    library models the firmware of [src/firmware/components] that decides about
    keys and secrets, and proves what makes it correct.

    ** How the program fits together

    main/app_main.cpp starts the device and runs the serial loop: it cuts the
    bytes of the USB port (usb_protocol_transport.cpp) into lines and, by the
    phase of the session, ignores a line, ends the session or gives the line to
    the protocol.  Such a line goes to [CanonicalProtocolV2Handler]
    (m5auth_provisioning/canonical_protocol_v2.cpp).  Session messages go on to
    [StagedSessionV2Handler] (session_protocol_v2.cpp), which drives one attempt
    through [AttemptCoordinator] (m5auth_session/attempt_coordinator.cpp, with
    session_crypto.cpp, user_presence.cpp and the transcript of
    session_protocol_v2.cpp), and compares it with the device
    (session_binding_v2.cpp).  A delivered key reaches [CanonicalVmkSink]
    (canonical_v2_state.cpp), which opens or installs the Vault in the Vault
    [Runtime] (m5auth_vault_runtime/runtime.cpp, rekey.cpp, metadata.cpp) and
    updates the registration (m5auth_registration).  The runtime decrypts with
    m5auth_vault (vault_crypto.cpp, vault_format.cpp) and persists through
    nvs_persistence.cpp and compatible_nvs_persistence.cpp.  The time service
    (m5auth_time) uses the Vault's Wi-Fi record.

    The task of the user interface, [CanonicalUiController]
    (m5auth_device_sticks3/canonical_device.cpp), samples the button, confirms
    requests of the protocol through [CanonicalPresence], follows the state of
    the runtime and the clock, and shows a code that [VaultGenerator]
    (m5auth_totp/vault_generator.cpp, totp_core.cpp, totp_mbedtls.cpp) computes
    from the Vault for a few seconds.  Locking the Vault calls its
    [security_boundary_clear] from another task.

    The repository also keeps the first generation of the firmware: an account store
    with its own format (m5auth_storage), and over it a time service, a protocol, a
    code generator and a user interface (m5auth_time/time_service.cpp,
    m5auth_provisioning/protocol.cpp, m5auth_totp/generator.cpp,
    m5auth_device_sticks3/device.cpp and ui_model.cpp).  The [Account...] files and
    [UiModel] model it.  The version-2 build links none of them, and some of their
    classes are no longer declared in its headers.

    ** Conventions

    A byte is a [Z] in [0, 256), a byte string or array a list of bytes, a w-bit
    word a [Z] with its bounds and wrap-around written out.  A class is a record
    of its members; a member function is a function from the state to its result
    and the state it leaves, written in the early-return monad of this file
    ([fn], [call], [leave], [leave_if]), in the order of the source.  An output
    parameter written on success is an [option].  References that several
    objects share are stored once and reached through lenses.  Values the code
    wipes are zeroed in the model when they are members of a state; wiping a
    local variable or a retired buffer has no counterpart (but see [JsonWipe] and
    [SensitiveString]), nor have mutexes (an operation is one step) or failing
    allocations.

    ** The files

    - [Prelude], [Bytes], [ByteReader]: record updates, the monad and its
      tactics, byte and word encodings, the bounds-checked readers and the
      theory of parsers ([recognises]).
    - [Utf8], [VaultFormat], [VaultFormatCorrect], [VaultCrypto]:
      m5auth_vault.  [encode_plaintext] and [decode_plaintext] are inverse on
      exactly the Vaults within the limits; the authenticated data is injective
      and domain-separated; decryption opens exactly what encryption produces.
    - [Persistence], [Runtime], [RuntimeCorrect]: the interface
      [vault_runtime::Persistence] with its contract [PersistenceLaws], the
      member functions of [Runtime] over it, its invariant, what each operation
      does on success and failure, and durability across a restart.
    - [Nvs], [NvsPersistence], [NvsPersistenceCorrect], [NvsAtomic],
      [NvsRestart], [VaultDevice]: the two-slot store over the NVS calls, the
      framing of an envelope, atomicity of a replacement at a power loss between
      any two calls, the start on a partition that can be read (it finds what is
      stored), and the runtime over it, end to end: after a power loss at any call
      of an update the next start succeeds with the old Vault or the new one.
    - [Base64url], [Psa], [DeviceSession], [UserPresence], [Transcript],
      [Attempt], [AttemptCorrect]: m5auth_session.  Canonical base64url, the
      transcript that determines every field, the gesture that confirms, and
      the coordinator: a key is delivered only to an authenticated, confirmed
      and unexpired attempt, and nothing is left behind.
    - [Binding], [RegistrationStore], [VmkSink], [VmkSinkCorrect]: which
      attempts fit the device, the contract of the registration, and what a
      delivered key does.
    - [Random], [Registration], [RegistrationCorrect]: the draw of a non-zero
      identifier, the registration store over the NVS calls, which obeys the
      contract of [RegistrationStore], and its changes at every power loss: the
      next start succeeds and shows the old registration or the new one.
    - [Json], [SessionHandler], [SessionHandlerCorrect]: the fields of requests
      and the session messages: one attempt, ended by every refusal and by its
      deadline, and no change of the device without authorisation.
    - [TrustedTime], [TimeService], [TimeServiceCorrect]: the clock, how far
      network time can move it, and the synchronisation, which never leaves the
      driver up and waits for an address at most sixty looks ([wait_terminates]).
    - [Base32], [Hmac], [Totp], [TotpCorrect]: m5auth_totp.  The Base32 decoder
      accepts exactly a reference grammar, a code is that of RFC 6238, and what
      a request for a code gives, writes and leaves is a table of its cases: a code
      is only made from an unlocked Vault with a current clock.
    - [LabelScroll], [Display], [Ui], [UiCorrect], [UiSafety]:
      m5auth_device_sticks3.  The scrolling of a label, the layout and the
      commands given to the display, the controller with the loop of its task,
      and what a user can see: a code that a pass leaves on the screen is the one
      that stood there, in its period, or the current code of the selected account
      of the Vault unlocked in that pass, drawn by it ([shown_code_current]).
      [ui_reachable] are the states reached when other tasks run between the two
      parts of any pass.
    - [Transport], [AppMain], [AppMainCorrect], [AppSample]: main/.  The frames the
      loop takes are those of the byte stream in whatever pieces it arrives, the
      phases of a session, what the host can do outside one, what holds after
      power on, and the erasure of the Vault from end to end ([app_reachable]).
    - [Diagnostics], [DiagnosticsCorrect]: what development builds add to
      main/app_main.cpp: operation times that survive a reset of the same build,
      the one form of request about the screen that is answered, and answers
      that always fit their buffers.
    - [DiagnosticPass], [DiagnosticPassCorrect]: the serial loop of such a build.
      With both switches off it is the loop of a release ([release_pass_exact]); a
      diagnostic line never reaches the protocol ([diagnostic_line_isolated]); timing
      changes nothing else ([timing_transparent]).
    - [JsonWipe]: the wiping of a request before it is freed, in all three protocol
      files ([no_key_material_is_freed]).
    - [HostCrypto], [HostCryptoCorrect], [HostGcm]: the OpenSSL branches of the
      cryptography, with which the repository tests the firmware on a host.  Every
      function frees what it creates and a session owns exactly its key
      ([host_calls_free_all], [host_session_owns_key]); the host's AES-256-GCM is the
      firmware's ([host_equals_firmware]).
    - [AccountState], [AccountStateCorrect], [AccountStore], [AccountBook],
      [AccountStoreCorrect], [AccountSecurity], [AccountSample]: m5auth_storage, the
      account store of the first generation.  Its state is valid exactly when it is
      well-formed and is encoded exactly; over any NVS the store refines an abstract
      account book ([book_step]), and its answer is the book's or, over an NVS that
      records what its calls report, the error of the first that failed; its check that the partition is encrypted finds
      the probe wherever it is; coming up never loses what is stored.
    - [SensitiveString]: the strings that store's secrets are kept in leave no trace
      in a buffer that is given back ([move_leaves_no_trace], [released_is_zero]).
    - [UiModel], [UiModelCorrect], [AccountTime], [AccountProtocol],
      [AccountProtocolCorrect], [AccountUi], [AccountUiCorrect]: the rest of the first
      generation (m5auth_device_sticks3/ui_model.cpp and device.cpp,
      m5auth_time/time_service.cpp, m5auth_provisioning/protocol.cpp,
      m5auth_totp/generator.cpp).  The model of the user interface shows only codes
      it was given to show, and its gestures visit the accounts in turn
      ([model_reachable_ok], [select_next_visits]); synchronising leaves the network
      down and hands over the stored credentials ([store_time_safe],
      [runtime_time_safe], [wifi_credentials_exact]); a line of the protocol changes the store exactly
      as the abstract book ([line_refines_book]), replaces the accounts only by a
      validated import ([import_replaces_all]) and frees no secret that was not
      wiped ([no_secret_is_freed]); a held button shows the TOTP of the selected
      account ([generate_for_account_exact], [held_code_exact]).
    - [CanonicalProtocol], [CanonicalProtocolCorrect]: the whole protocol: the
      Vault is erased only after a confirmation for that reset, the automatic
      lock is enforced first, and junk ends everything under way.

    ** What is assumed, and where

    Code outside the repository is a class with, where a theorem needs it, its
    documented behaviour as a second class of laws; each has a concrete instance
    with which the hypotheses are shown to hold together.
    - [MbedtlsGcm], [GcmLaws] (VaultCrypto): AES-256-GCM opens exactly what it
      sealed.
    - [Nvs], [NvsLaws] (Nvs): reads see the last writes, a commit makes them
      durable, a power loss keeps some of the uncommitted ones.  Any call may fail;
      [NvsReadable] is a partition whose reads do not, for the starts after a power
      loss.
    - [Psa], [PsaLaws] (Psa): the key store, signatures and key agreement;
      [PsaReliable], for the starts: it initialises and imports a point of the curve.
    - [EspNetwork] (TimeService), without laws: every theorem holds whatever the
      network stack answers.
    - [NvsNotFoundLaws] (Nvs), [NvsEraseAll], [NvsEraseAllLaws] (Registration):
      what a missing key or namespace reads as, and what erasing a namespace
      leaves.
    - [EspPartition], [EspPartitionLaws] (AccountStore, AccountSecurity): the raw
      flash of a partition; [NvsGetU32NotFound] (AccountSecurity): how a missing
      number reads.
    - [EspRandom], [EspRandomLaws] (Random): a fill has the size asked for.  That
      the generator does not return zeros for ever is nowhere documented: the models
      cover the runs in which the loop [draw_loop] ends, and no theorem claims that
      it does.
    - [MbedtlsHmac], [HmacLaws] (Hmac): a successful HMAC-SHA-1 fills its
      twenty bytes; the instance [Sha1.software] is SHA-1 itself and
      reproduces the vectors of RFC 6238.
    - [M5Display] (Display), without laws: the measurements M5Unified reports.
      The samples of the button are an argument of a pass.
    - [UsbDriver], [UsbDriverLaws] (Transport): the USB Serial/JTAG driver; a read
      returns at most what was asked for, a write hands a first part of its bytes
      to the host.
    - [OpenSsl], [OpenSslLaws], [GcmContexts], [GcmReliable] (HostCrypto,
      HostCryptoCorrect, HostGcm): the objects of OpenSSL, its GCM contexts as a
      machine ([gcm_step]), and, for [host_equals_firmware], a library in which no
      allowed call fails; [SameCipher]: OpenSSL and mbed TLS implement one cipher.
    - [cJSON_ParseWithLength] is an argument of the handlers, unconstrained; a
      response is the JSON value handed to the printer.  The serial loop also
      takes cJSON's strict parser ([strict_parser]: it accepts nothing the other
      one reads differently) and the printer.
    Interfaces of the program itself ([Persistence], [PresenceBinding],
    [RegistrationStore], [SessionV2Device], [SecurityBackend]) are classes with their contracts,
    and the program's implementations are instances.

    ** Recursion

    Recursion is structural on the data except for three loops.  [wait_for_ip]
    runs on fuel [wait_fuel] = 60, the number of polls of 100 ms that fit the
    time limit of 6 s, and [wait_terminates] shows that more changes nothing.
    [draw_nonzero] runs on a number of draws that ends the loop [draw_loop] of the
    run at hand ([nonzero_bytes_loop]).  The
    retries of [boot_sync] are three, the attempts of [refresh_attempts] two, as
    in the source.  [write_chunks] runs on the length of the frame, no chunk being
    empty ([write_chunks_fuel]).  The task of the user interface never ends: one pass of its
    loop is a function, and its runs are the relation [ui_reachable]; likewise
    [serial_pass], [app_run] and [app_reachable] for the serial loop.  The scan of
    a partition ([scan_partition]) runs on the number of its chunks, which
    [plain_probe_exact] shows is enough.

    ** Not modelled

    - cJSON's parser and printer, and failing allocations.
    - Mutexes as such: the firmware takes a recursive mutex around every
      operation of the runtime, so an operation is one step here.
    - Creating the task of the user interface and the start of the periodic task.
    - Everything outside the firmware. *)

From stdpp Require Export prelude gmap strings list_numbers.
From Stdlib Require Export ZArith Lia.
#[global] Open Scope Z_scope.

(** lia decides goals with division and modulo by constants. *)
#[global] Ltac Zify.zify_post_hook ::= Z.to_euclidean_division_equations.

(** Lemmas that automate the common cases. *)
Create HintDb m5.

(** ** Record update

    [upd get f r] is [r] with the field read by [get] mapped through [f].  A
    record type declares the eta-expansion of its constructor as an [Eta]
    instance, from which the updater of every field is computed. *)

Class Eta (R : Type) := eta : R → R.
Class Upd {R F : Type} (get : R → F) := upd_field : (F → F) → R → R.
Arguments upd_field {R F} get {_} _ _ /.

Ltac solve_upd :=
  lazymatch goal with
  | |- @Upd ?R ?F ?get =>
      let e := constr:(_ : Eta R) in
      let e := eval unfold eta in e in
      let e := (eval red in e) in
      lazymatch (eval pattern get in e) with
      | ?body get => exact (λ (f : F → F) (r : R), body (λ x, f (get x)) r)
      end
  end.
#[export] Hint Extern 1 (Upd _) => solve_upd : typeclass_instances.

Declare Scope m5_scope.
Delimit Scope m5_scope with m5.
#[global] Open Scope m5_scope.

#[warnings="-postfix-notation-not-level-1"]
Notation "r <| get := v |>" := (upd_field get (λ _, v) r)
  (at level 12, left associativity, get at level 11, v at level 99,
   format "r  <| get  :=  v |>") : m5_scope.

(** ** Early-return control flow

    [ctl S R A] is a computation over a mutable state [S], inside a function
    whose result type is [R]; it continues with an [A] or leaves the function
    with an [R], as the [if (...) return ...;] chains of the source do. *)

Inductive flow (A R : Type) : Type :=
  | Next (a : A)
  | Return (r : R).
Arguments Next {A R} a.
Arguments Return {A R} r.

Definition ctl (S R A : Type) : Type := S → flow A R * S.

#[export] Instance ctl_ret S R : MRet (ctl S R) := λ A a s, (Next a, s).
#[export] Instance ctl_bind S R : MBind (ctl S R) := λ A B k c s,
  match c s with
  | (Next a, s') => k a s'
  | (Return r, s') => (Return r, s')
  end.

Section Control.
Context {S R : Type}.
Definition leave {A} (r : R) : ctl S R A := λ s, (Return r, s).
Definition leave_if (b : bool) (r : R) : ctl S R unit :=
  if b then leave r else mret tt.
Definition get_state : ctl S R S := λ s, (Next s, s).
Definition modify (f : S → S) : ctl S R unit := λ s, (Next tt, f s).
Definition call {A} (f : S → A * S) : ctl S R A :=
  λ s, let '(a, s') := f s in (Next a, s').
(** The body of a function, run: its result and the state it leaves. *)
Definition fn (body : ctl S R R) (s : S) : R * S :=
  match body s with
  | (Next r, s') => (r, s')
  | (Return r, s') => (r, s')
  end.
End Control.

(** *** Symbolic execution

    [exec H] runs a hypothesis [H : fn body s = (r, s')] through the body,
    leaving one goal for each way the function returns. *)

Section Exec.
Context {S R : Type}.
Implicit Types (s : S) (r : R).

Lemma fn_leave_if b r0 (k : unit → ctl S R R) s r s' :
  fn (leave_if b r0 ≫= k) s = (r, s') →
  b = true ∧ r0 = r ∧ s = s' ∨ b = false ∧ fn (k tt) s = (r, s').
Proof. destruct b; [intros [= <- <-]; by left|by right]. Qed.

Lemma fn_get (k : S → ctl S R R) s : fn (get_state ≫= k) s = fn (k s) s.
Proof. done. Qed.
Lemma fn_bind_ret {A} (a : A) (k : A → ctl S R R) s : fn (mret a ≫= k) s = fn (k a) s.
Proof. done. Qed.
Lemma fn_modify f (k : unit → ctl S R R) s : fn (modify f ≫= k) s = fn (k tt) (f s).
Proof. done. Qed.
Lemma fn_call {A} (f : S → A * S) (k : A → ctl S R R) s a s1 :
  f s = (a, s1) → fn (call f ≫= k) s = fn (k a) s1.
Proof. intros E. unfold fn, mbind, ctl_bind, call. by rewrite E. Qed.
Lemma fn_bind_bind {A B} (m : ctl S R A) (k1 : A → ctl S R B) (k : B → ctl S R R) s :
  fn ((m ≫= k1) ≫= k) s = fn (m ≫= λ a, k1 a ≫= k) s.
Proof. unfold fn, mbind, ctl_bind. by destruct (m s) as [[] ?]. Qed.
Lemma fn_bind_leave {A} r0 (k : A → ctl S R R) s r s' :
  fn (leave r0 ≫= k) s = (r, s') → r0 = r ∧ s = s'.
Proof. by intros [= <- <-]. Qed.
Lemma fn_call_tail (f : S → R * S) s : fn (call f) s = f s.
Proof. unfold fn, call. by destruct (f s). Qed.
Lemma fn_leave r0 s r s' : fn (leave r0) s = (r, s') → r0 = r ∧ s = s'.
Proof. by intros [= <- <-]. Qed.
Lemma fn_ret r0 s r s' : fn (mret r0) s = (r, s') → r0 = r ∧ s = s'.
Proof. by intros [= <- <-]. Qed.
End Exec.

Ltac exec_step H :=
  lazymatch type of H with
  | fn (mbind _ (leave_if ?b ?r0)) ?s = _ =>
      let E := fresh "Ec" in
      apply fn_leave_if in H; destruct H as [(E & ? & ?)|[E H]]; [subst|cbv beta in H]
  | fn (mbind _ get_state) ?s = _ => rewrite fn_get in H
  | fn (mbind _ (mret _)) ?s = _ => rewrite fn_bind_ret in H
  | fn (mbind _ (mbind _ _)) ?s = _ => rewrite fn_bind_bind in H
  | fn (mbind _ (leave _)) ?s = _ => apply fn_bind_leave in H; destruct H; subst
  | fn (mbind _ (if ?b then _ else _)) ?s = _ => let E := fresh "Eb" in destruct b eqn:E
  | fn (mbind _ (match ?x with _ => _ end)) _ = _ => let E := fresh "Em" in destruct x eqn:E
  | fn (mbind _ (modify ?f)) ?s = _ => rewrite fn_modify in H
  | fn (mbind _ (call ?f)) ?s = _ =>
      let E := fresh "Ef" in let a := fresh "a" in let s1 := fresh "s" in
      destruct (f s) as [a s1] eqn:E; rewrite (fn_call _ _ _ _ _ E) in H; cbv beta in H
  | fn (call ?f) ?s = _ => rewrite fn_call_tail in H
  | fn (leave _) _ = _ => apply fn_leave in H; destruct H; subst
  | fn (mret _) _ = _ => apply fn_ret in H; destruct H; subst
  | fn (if ?b then _ else _) _ = _ => let E := fresh "Eb" in destruct b eqn:E
  | fn (match ?x with _ => _ end) _ = _ => let E := fresh "Em" in destruct x eqn:E
  end.
Ltac exec H := repeat (exec_step H).

(** ** Lists *)

Lemma prefix_snoc_cases {A} (l k : list A) (x : A) :
  l `prefix_of` k ++ [x] → l = k ++ [x] ∨ l `prefix_of` k.
Proof.
  intros [r E]. destruct r as [|y r _] using rev_ind.
  - left. by rewrite app_nil_r in E.
  - right. rewrite app_assoc in E. apply app_inj_tail in E as [-> _]. by exists r.
Qed.
