(* ===== verification/Bytes.v ===== *)
(** * Bytes, machine words and their encodings

    A byte is a [Z] in [0, 256); [std::vector<uint8_t>], [std::array<uint8_t,N>],
    [std::string] and [std::span] are lists of bytes.  A w-bit unsigned integer
    is a [Z] in [0, 2^w), with every wrap-around written out.  This file holds
    the big- and little-endian encodings the components share, the byte-array
    predicates that the sources repeat ([all_zero], [constant_time_equal],
    [deadline_from]) and the lemmas about them. *)

From S2P Require Import Prelude.

Abbreviation byte := Z (only parsing).
Abbreviation bytes := (list Z) (only parsing).

Definition u8 (z : Z) : Z := Z.land z 0xff.
Definition u8_max : Z := 2 ^ 8 - 1.
Definition u16_max : Z := 2 ^ 16 - 1.
Definition u32_max : Z := 2 ^ 32 - 1.
Definition u64_max : Z := 2 ^ 64 - 1.

Definition is_byte (b : Z) : Prop := 0 ≤ b < 256.
Definition is_u16 (z : Z) : Prop := 0 ≤ z ≤ u16_max.
Definition is_u32 (z : Z) : Prop := 0 ≤ z ≤ u32_max.
Definition is_u64 (z : Z) : Prop := 0 ≤ z ≤ u64_max.
Abbreviation bytes_ok := (Forall is_byte).

#[export] Instance is_byte_dec b : Decision (is_byte b).
Proof. unfold is_byte. apply _. Defined.

(** The bytes of a string literal, as [std::string_view] and [char[]] hold them. *)
Definition str (s : string) : bytes :=
  (λ c, Z.of_N (Ascii.N_of_ascii c)) <$> String.list_ascii_of_string s.
(** A [char[]] initialised by a literal has a terminating NUL, which [sizeof] counts. *)
Definition c_array (s : string) : bytes := str s ++ [0].

(** [static_cast<uint8_t>((value >> shift) & 0xff)]. *)
Definition byte_at (value shift : Z) : byte := Z.land (Z.shiftr value shift) 0xff.

(** [std::all_of(..., byte == 0)]. *)
Definition all_zero (value : bytes) : bool := forallb (λ b, b =? 0) value.

(** A zero-initialised [std::array<uint8_t, n>]; also what [fill(0)] and
    [secure_zero] leave in one. *)
Definition zeros (n : nat) : bytes := replicate n 0.

(** The comparison loop every component writes: accumulate the differences of
    two arrays.  The operands are bytes, so the cast of each difference to
    [uint8_t] keeps its value. *)
Fixpoint difference (left right : bytes) : Z :=
  match left, right with
  | l :: left', r :: right' => Z.lor (Z.lxor l r) (difference left' right')
  | _, _ => 0
  end.

Definition constant_time_equal (left right : bytes) : bool :=
  if Nat.eqb (length left) (length right) then difference left right =? 0 else false.

(** [now > max - ttl ? max : now + ttl], the saturating deadline. *)
Definition deadline (ttl now_ms : Z) : Z :=
  if now_ms >? u64_max - ttl then u64_max else now_ms + ttl.

(** Whether [line] has [needle] in it: [std::search], or [find] of a string view. *)
Fixpoint starts_with (needle line : bytes) : bool :=
  match needle, line with
  | [], _ => true
  | _, [] => false
  | a :: needle, b :: line => (a =? b) && starts_with needle line
  end.
Fixpoint contains (needle line : bytes) : bool :=
  starts_with needle line || match line with [] => false | _ :: line => contains needle line end.

(** ** Integer and bit lemmas *)

Lemma land_ff z : Z.land z 0xff = z mod 256.
Proof. change 0xff with (Z.ones 8). apply Z.land_ones. lia. Qed.

Lemma byte_at_div v s : 0 ≤ s → byte_at v s = (v / 2 ^ s) mod 256.
Proof. intros. unfold byte_at. by rewrite land_ff, Z.shiftr_div_pow2. Qed.

Lemma byte_at_is_byte v s : is_byte (byte_at v s).
Proof. unfold byte_at, is_byte. rewrite land_ff. lia. Qed.

Lemma land_shiftl_small a b n : 0 ≤ n → 0 ≤ b < 2 ^ n → Z.land (Z.shiftl a n) b = 0.
Proof.
  intros Hn Hb. apply Z.bits_inj'. intros i Hi.
  rewrite Z.land_spec, Z.bits_0, Z.shiftl_spec by done.
  destruct (decide (i < n)).
  - by rewrite (Z.testbit_neg_r a) by lia.
  - rewrite <- (Z.mod_small b (2 ^ n)), Z.mod_pow2_bits_high by lia.
    apply andb_false_r.
Qed.

Lemma lor_shiftl_add a b n :
  0 ≤ n → 0 ≤ b < 2 ^ n → Z.lor (Z.shiftl a n) b = a * 2 ^ n + b.
Proof.
  intros Hn Hb. rewrite <- Z.shiftl_mul_pow2 by done.
  pose proof (land_shiftl_small a b n Hn Hb).
  by rewrite <- Z.lxor_lor, Z.add_nocarry_lxor.
Qed.

Lemma lor_add_shiftl a b n :
  0 ≤ n → 0 ≤ a < 2 ^ n → Z.lor a (Z.shiftl b n) = a + b * 2 ^ n.
Proof. intros. rewrite Z.lor_comm, lor_shiftl_add by done. lia. Qed.

(** Every property of a byte that is decided by a boolean test is decided by
    running the test on the 256 bytes. *)
Lemma byte_forall (f : Z → bool) :
  forallb f (seqZ 0 256) = true → ∀ b, is_byte b → f b = true.
Proof.
  intros H b Hb. rewrite forallb_forall in H. apply H.
  apply list_elem_of_In, elem_of_seqZ. unfold is_byte in Hb. lia.
Qed.

(** ** Endianness *)

Fixpoint le_bytes (n : nat) (v : Z) : bytes :=
  match n with O => [] | S n => v mod 256 :: le_bytes n (v / 256) end.
Definition be_bytes (n : nat) (v : Z) : bytes := reverse (le_bytes n v).
Definition le_value (bs : bytes) : Z := foldr (λ b acc, b + 256 * acc) 0 bs.
Definition be_value (bs : bytes) : Z := le_value (reverse bs).

Lemma le_bytes_length n v : length (le_bytes n v) = n.
Proof. revert v. induction n; intros; simpl; [done|]. by rewrite IHn. Qed.
Lemma be_bytes_length n v : length (be_bytes n v) = n.
Proof. unfold be_bytes. by rewrite length_reverse, le_bytes_length. Qed.

Lemma le_bytes_ok n v : bytes_ok (le_bytes n v).
Proof.
  revert v. induction n; intros; simpl; constructor; [unfold is_byte; lia|done].
Qed.
Lemma be_bytes_ok n v : bytes_ok (be_bytes n v).
Proof. apply Forall_reverse, le_bytes_ok. Qed.

Lemma le_value_bytes n v : 0 ≤ v < 256 ^ Z.of_nat n → le_value (le_bytes n v) = v.
Proof.
  revert v. induction n as [|n IH]; intros v Hv; simpl.
  - change (256 ^ Z.of_nat 0) with 1 in Hv. lia.
  - rewrite Nat2Z.inj_succ, Z.pow_succ_r in Hv by lia.
    rewrite IH; [lia|]. split; [lia|]. apply Z.div_lt_upper_bound; lia.
Qed.
Lemma be_value_bytes n v : 0 ≤ v < 256 ^ Z.of_nat n → be_value (be_bytes n v) = v.
Proof.
  intros. unfold be_value, be_bytes. rewrite reverse_involutive. by apply le_value_bytes.
Qed.

Lemma le_bytes_value bs : bytes_ok bs → le_bytes (length bs) (le_value bs) = bs.
Proof.
  induction 1 as [|b bs Hb _ IH]; simpl; [done|]. unfold is_byte in Hb.
  f_equal; [lia|].
  transitivity (le_bytes (length bs) (le_value bs)); [f_equal; lia|done].
Qed.
Lemma be_bytes_value bs : bytes_ok bs → be_bytes (length bs) (be_value bs) = bs.
Proof.
  intros. unfold be_bytes, be_value. rewrite <- (length_reverse bs).
  rewrite le_bytes_value by by apply Forall_reverse. apply reverse_involutive.
Qed.

Lemma le_value_bounds bs : bytes_ok bs → 0 ≤ le_value bs < 256 ^ Z.of_nat (length bs).
Proof.
  induction 1 as [|b bs Hb _ IH]; simpl; [lia|]. unfold is_byte in Hb.
  change (length (b :: bs)) with (S (length bs)).
  rewrite Nat2Z.inj_succ, Z.pow_succ_r by lia. lia.
Qed.
Lemma be_value_bounds bs : bytes_ok bs → 0 ≤ be_value bs < 256 ^ Z.of_nat (length bs).
Proof.
  intros. rewrite <- (length_reverse bs). apply le_value_bounds. by apply Forall_reverse.
Qed.

Lemma le_bytes_inj n v w :
  0 ≤ v < 256 ^ Z.of_nat n → 0 ≤ w < 256 ^ Z.of_nat n →
  le_bytes n v = le_bytes n w → v = w.
Proof.
  intros Hv Hw E. by rewrite <- (le_value_bytes n v), E, le_value_bytes.
Qed.
Lemma be_bytes_inj n v w :
  0 ≤ v < 256 ^ Z.of_nat n → 0 ≤ w < 256 ^ Z.of_nat n →
  be_bytes n v = be_bytes n w → v = w.
Proof.
  intros Hv Hw E. by rewrite <- (be_value_bytes n v), E, be_value_bytes.
Qed.

(** The byte-by-byte shift loops of the sources write these encodings. *)
Lemma le_bytes_shift n v i :
  0 ≤ i → map (λ k, byte_at v (i + 8 * Z.of_nat k)) (seq 0 n) = le_bytes n (v / 2 ^ i).
Proof.
  revert i. induction n as [|n IH]; intros i Hi; [done|].
  simpl le_bytes. rewrite <- cons_seq, <- seq_shift. simpl map. f_equal.
  - rewrite Z.add_0_r. by apply byte_at_div.
  - rewrite Z.div_div by lia. change 256 with (2 ^ 8). rewrite <- Z.pow_add_r by lia.
    rewrite <- (IH (i + 8)) by lia. rewrite map_map. apply map_ext. intros k. f_equal. lia.
Qed.

Lemma le_bytes_loop n v :
  map (λ k, byte_at v (8 * Z.of_nat k)) (seq 0 n) = le_bytes n v.
Proof.
  pose proof (le_bytes_shift n v 0 ltac:(lia)) as H.
  by rewrite Z.pow_0_r, Z.div_1_r in H.
Qed.

Lemma be_bytes_loop n v :
  map (λ k, byte_at v (8 * Z.of_nat k)) (reverse (seq 0 n)) = be_bytes n v.
Proof. unfold be_bytes. rewrite <- le_bytes_loop.
  apply (fmap_reverse (λ k : nat, byte_at v (8 * Z.of_nat k))). Qed.

(** ** Byte-array predicates *)

Lemma str_ok s : bytes_ok (str s).
Proof.
  unfold str. apply Forall_fmap, Forall_true. intros c. unfold compose, is_byte.
  pose proof (Ascii.N_ascii_bounded c). lia.
Qed.

Lemma zeros_ok n : bytes_ok (zeros n).
Proof. apply Forall_replicate. unfold is_byte. lia. Qed.
Lemma zeros_length n : length (zeros n) = n.
Proof. apply length_replicate. Qed.

Lemma all_zero_spec l : all_zero l = true ↔ l = zeros (length l).
Proof.
  unfold all_zero, zeros. induction l as [|b l IH]; simpl; [done|].
  rewrite andb_true_iff, IH, Z.eqb_eq. split.
  - intros [-> ->]. by rewrite length_replicate.
  - intros E. by injection E.
Qed.
Lemma all_zero_zeros n : all_zero (zeros n) = true.
Proof. apply all_zero_spec. by rewrite zeros_length. Qed.

Lemma difference_refl l : difference l l = 0.
Proof. induction l; simpl; [done|]. by rewrite Z.lxor_nilpotent. Qed.

Lemma difference_eq l r : length l = length r → difference l r = 0 → l = r.
Proof.
  revert r. induction l as [|a l IH]; intros [|b r] Hlen H; simpl in *; try done.
  apply Z.lor_eq_0_iff in H as [H1 H2]. apply Z.lxor_eq in H1. f_equal; [done|].
  apply IH; [lia|done].
Qed.

Lemma constant_time_equal_spec l r : constant_time_equal l r = true ↔ l = r.
Proof.
  unfold constant_time_equal. destruct (Nat.eqb_spec (length l) (length r)) as [E|E].
  - rewrite Z.eqb_eq. split; [by apply difference_eq|]. intros ->. apply difference_refl.
  - split; [done|]. by intros ->.
Qed.

Lemma constant_time_equal_bool l r : constant_time_equal l r = bool_decide (l = r).
Proof. apply eq_true_iff_eq. by rewrite constant_time_equal_spec, bool_decide_eq_true. Qed.

Lemma deadline_min ttl now : deadline ttl now = Z.min u64_max (now + ttl).
Proof. unfold deadline. destruct (Z.gtb_spec now (u64_max - ttl)); lia. Qed.

#[export] Hint Resolve byte_at_is_byte le_bytes_ok be_bytes_ok str_ok zeros_ok : m5.
#[export] Hint Rewrite le_bytes_length be_bytes_length zeros_length : m5.
