(* ===== verification/Random.v ===== *)
(** * Random identifiers

    The hardware generator behind [esp_fill_random] and the loop that draws an
    identifier until it is not zero: [canonical_protocol_v2.cpp] makes attempt
    identifiers with it and [registration.cpp] the device identifier.

    The loop has no bound in the source and nothing documented ends it.  [draw_loop]
    is the loop itself, as a relation that holds of its terminating runs;
    [nonzero_bytes] is the function the models of its callers use, which covers
    exactly those runs: a state of the generator comes with a number of draws
    among which one is not zero.  That the loop ends is therefore an assumption
    of those models, and no theorem claims it. *)

From S2P Require Import Prelude Bytes.

Class EspRandom (Q : Type) := {
  esp_fill_random : nat → Q → bytes * Q;
  (** how many draws the loop below makes at most, in a run in which it ends *)
  esp_random_draws : Q → nat;
}.
(** A fill has the size asked for; the runs considered are those in which the
    loop ends. *)
Class EspRandomLaws (Q : Type) `{EspRandom Q} := {
  random_length n q b q' : esp_fill_random n q = (b, q') → length b = n;
  random_nonzero n q : (0 < n)%nat → ∃ k, (k < esp_random_draws q)%nat ∧
    all_zero (fst (esp_fill_random n (Nat.iter k (λ q, snd (esp_fill_random n q)) q))) = false;
}.

(** [do esp_fill_random while all_zero], its terminating runs. *)
Inductive draw_loop `{EspRandom Q} (n : nat) : Q → bytes * Q → Prop :=
  | loop_ends q b q' : esp_fill_random n q = (b, q') → all_zero b = false → draw_loop n q (b, q')
  | loop_again q b q' x : esp_fill_random n q = (b, q') → all_zero b = true → draw_loop n q' x → draw_loop n q x.

(** The loop, given a number of draws. *)
Fixpoint draw_nonzero `{EspRandom Q} (n fuel : nat) (q : Q) : bytes * Q :=
  let '(drawn, q') := esp_fill_random n q in
  match fuel with
  | S (S _ as fuel) => if all_zero drawn then draw_nonzero n fuel q' else (drawn, q')
  | _ => (drawn, q')
  end.
Definition nonzero_bytes `{EspRandom Q} (n : nat) (q : Q) : bytes * Q := draw_nonzero n (esp_random_draws q) q.

Section Random.
Context {Q : Type} `{EspRandom Q}.
Implicit Types (q : Q).

Lemma draw_loop_fun n q x y : draw_loop n q x → draw_loop n q y → x = y.
Proof.
  induction 1 as [q b q' E Hz|q b q' x E Hz _ IH]; inversion 1; subst; rewrite E in *; simplify_eq; try congruence.
  auto.
Qed.

(** Enough draws are exactly the loop. *)
Lemma draw_nonzero_loop n k : ∀ fuel q, (k < fuel)%nat →
  all_zero (fst (esp_fill_random n (Nat.iter k (λ q, snd (esp_fill_random n q)) q))) = false →
  draw_loop n q (draw_nonzero n fuel q).
Proof.
  induction k as [|k IH]; intros fuel q Hk Hn.
  - destruct fuel as [|fuel]; [lia|]. change (all_zero (fst (esp_fill_random n q)) = false) in Hn.
    cbn [draw_nonzero]. destruct (esp_fill_random n q) as [b q'] eqn:E. cbn [fst] in Hn.
    rewrite Hn. destruct fuel; by apply loop_ends.
  - destruct fuel as [|[|fuel]]; [lia..|]. rewrite Nat.iter_succ_r in Hn. cbn [draw_nonzero].
    destruct (esp_fill_random n q) as [b q'] eqn:E. cbn [snd] in Hn.
    destruct (all_zero b) eqn:Ez; [|by apply loop_ends].
    eapply loop_again; [done..|]. apply (IH (S fuel)); [lia|done].
Qed.

Context `{!EspRandomLaws Q}.

(** What the loop draws has the size asked for and is not zero. *)
Lemma draw_loop_nonzero n q b q' : draw_loop n q (b, q') → length b = n ∧ all_zero b = false.
Proof.
  remember (b, q') as x eqn:Ex. induction 1; simplify_eq; [|auto].
  split; [by eapply random_length|done].
Qed.

(** The function is the loop, on the runs in which it ends. *)
Lemma nonzero_bytes_loop n q x : (0 < n)%nat → nonzero_bytes n q = x ↔ draw_loop n q x.
Proof.
  intros Hn. destruct (random_nonzero n q Hn) as (k & Hk & Hz).
  pose proof (draw_nonzero_loop n k _ q Hk Hz) as Hd. split; [by intros <-|].
  intros Hx. by eapply draw_loop_fun.
Qed.

Lemma nonzero_bytes_spec n q b q' :
  (0 < n)%nat → nonzero_bytes n q = (b, q') → length b = n ∧ all_zero b = false.
Proof. intros Hn ?%nonzero_bytes_loop; [|done]. by eapply draw_loop_nonzero. Qed.
End Random.

(** ** A generator that counts

    It returns zeros every fourth time. *)

#[export] Instance counter_random : EspRandom Z := {|
  esp_fill_random n q := (replicate n (q mod 4), q + 1);
  esp_random_draws _ := 2%nat;
|}.
Lemma replicate_nonzero n x : (0 < n)%nat → x ≠ 0 → all_zero (replicate n x) = false.
Proof. destruct n; [lia|]. intros _ Hx. cbn. by rewrite (proj2 (Z.eqb_neq x 0)). Qed.
#[export] Instance counter_random_laws : EspRandomLaws Z.
Proof.
  constructor.
  - intros n q b q' [= <- _]. apply length_replicate.
  - intros n q Hn. destruct (decide (q mod 4 = 0)) as [Hq|Hq].
    + exists 1%nat. split; [cbn; lia|]. apply replicate_nonzero; [done|]. cbn. lia.
    + exists 0%nat. split; [cbn; lia|]. by apply replicate_nonzero.
Defined.

(** Eight draws zeros, and nine ends the loop. *)
Example counter_loop : draw_loop 16 8 (replicate 16 1, 10).
Proof. apply nonzero_bytes_loop; [lia|]. vm_compute. reflexivity. Qed.
