(* ===== verification/ByteReader.v ===== *)
(** * Bounds-checked byte readers

    The [Reader] class of [vault_format.cpp] and the one of
    [nvs_persistence.cpp]: an input vector and an offset, every read checked
    against what is left.  A read that fails ends the decoding, so a parser is
    a function from a reader to an optional value and the advanced reader.

    The second half is the theory the two codecs are proved with: a parser
    [recognises] a relation between values and encodings when it accepts
    exactly the related encodings, and sequencing parsers sequences relations. *)

From S2P Require Import Prelude Bytes.

Record Reader := mkReader { input : bytes; offset : nat }.

Definition parser (A : Type) : Type := Reader → option (A * Reader).

#[export] Instance parser_ret : MRet parser := λ A a r, Some (a, r).
#[export] Instance parser_bind : MBind parser := λ A B k p r,
  match p r with
  | Some (a, r') => k a r'
  | None => None
  end.

(** [if (!condition) return false;] *)
Definition check (condition : bool) : parser unit :=
  λ r, if condition then Some (tt, r) else None.

Definition read_bytes (n : nat) : parser bytes := λ r,
  if Nat.ltb (length (input r)) (offset r) || Nat.ltb (length (input r) - offset r) n
  then None
  else Some (take n (drop (offset r) (input r)), mkReader (input r) (offset r + n)).

Definition read_u8 : parser Z :=
  encoded ← read_bytes 1; mret (encoded !!! 0%nat).

Definition at_end : parser bool :=
  λ r, Some (Nat.eqb (offset r) (length (input r)), r).

(** Run a parser on a whole vector. *)
Definition run_parser {A} (p : parser A) (encoded : bytes) : option A :=
  fst <$> p (mkReader encoded 0).

(** ** What a parser recognises *)

(** [r ⊳ l]: the reader [r] is in bounds and [l] is what is left to read. *)
Definition remaining (r : Reader) (l : bytes) : Prop :=
  (offset r ≤ length (input r))%nat ∧ drop (offset r) (input r) = l ∧ bytes_ok l.
Notation "r ⊳ l" := (remaining r l) (at level 70) : m5_scope.

Definition format (A : Type) : Type := A → bytes → Prop.

Record recognises {A} (p : parser A) (F : format A) : Prop := {
  rec_sound : ∀ r l a r', r ⊳ l → p r = Some (a, r') →
    ∃ e l', l = e ++ l' ∧ F a e ∧ r' ⊳ l';
  rec_complete : ∀ r a e l', r ⊳ (e ++ l') → F a e →
    ∃ r', p r = Some (a, r') ∧ r' ⊳ l';
}.
Arguments rec_sound {A p F}.
Arguments rec_complete {A p F}.

Definition format_ret {A} (a : A) : format A := λ a' e, a' = a ∧ e = [].
Definition format_bind {A B} (F : format A) (G : A → format B) : format B :=
  λ b e, ∃ a e1 e2, e = e1 ++ e2 ∧ F a e1 ∧ G a b e2.
Definition format_check (b : bool) : format unit := λ _ e, b = true ∧ e = [].
Definition format_bytes (n : nat) : format bytes := λ a e, a = e ∧ length e = n.
Definition format_u8 : format Z := λ v e, e = [v].

Lemma remaining_start l : bytes_ok l → mkReader l 0 ⊳ l.
Proof. intros. split; simpl; [lia|]. by rewrite drop_0. Qed.

Lemma remaining_advance r e l :
  r ⊳ (e ++ l) → mkReader (input r) (offset r + length e) ⊳ l.
Proof.
  intros (Hb & Hd & Hok). apply Forall_app in Hok as [_ Hok].
  pose proof (f_equal length Hd) as Hl. rewrite length_drop, length_app in Hl.
  split; simpl; [lia|]. split; [|done].
  rewrite <- drop_drop, Hd. apply drop_app_length.
Qed.

Lemma recognises_ext {A} (p : parser A) (F G : format A) :
  (∀ a e, bytes_ok e → F a e ↔ G a e) → recognises p F → recognises p G.
Proof.
  intros HFG [HS HC]. split.
  - intros r l a r' Hr Hp. destruct (HS _ _ _ _ Hr Hp) as (e & l' & -> & ? & ?).
    exists e, l'. split_and!; [done| |done]. apply HFG; [|done].
    destruct Hr as (_ & _ & Hok). by apply Forall_app in Hok as [? _].
  - intros r a e l' Hr Ha. apply HFG in Ha; [eauto|].
    destruct Hr as (_ & _ & Hok). by apply Forall_app in Hok as [? _].
Qed.

Lemma recognises_eq {A} (p q : parser A) (F : format A) :
  (∀ r, p r = q r) → recognises q F → recognises p F.
Proof. intros Hpq [HS HC]. split; intros; rewrite ?Hpq in *; eauto. Qed.

Lemma recognises_ret {A} (a : A) : recognises (mret a) (format_ret a).
Proof.
  split.
  - intros r l a' r' Hr [= <- <-]. by exists [], l.
  - intros r a' e l' Hr [-> ->]. by exists r.
Qed.

Lemma recognises_check b : recognises (check b) (format_check b).
Proof.
  unfold check. split.
  - intros r l [] r' Hr Hp. destruct b; [|done]. injection Hp as <-. by exists [], l.
  - intros r [] e l' Hr [-> ->]. by exists r.
Qed.

Lemma recognises_bind {A B} (p : parser A) (k : A → parser B) F G :
  recognises p F → (∀ a, recognises (k a) (G a)) →
  recognises (p ≫= k) (format_bind F G).
Proof.
  intros Hp Hk. split.
  - intros r l b r' Hr E. unfold mbind, parser_bind in E.
    destruct (p r) as [[a r1]|] eqn:Ep; [|done].
    destruct (rec_sound Hp _ _ _ _ Hr Ep) as (e1 & l1 & -> & ? & Hr1).
    destruct (rec_sound (Hk a) _ _ _ _ Hr1 E) as (e2 & l2 & -> & ? & ?).
    exists (e1 ++ e2), l2. split_and!; [by rewrite app_assoc| |done].
    exists a, e1, e2. done.
  - intros r b e l' Hr (a & e1 & e2 & -> & HF & HG). rewrite <- app_assoc in Hr.
    destruct (rec_complete Hp _ _ _ _ Hr HF) as (r1 & Ep & Hr1).
    unfold mbind, parser_bind. rewrite Ep. eapply (rec_complete (Hk a)); done.
Qed.

Lemma recognises_bytes n : recognises (read_bytes n) (format_bytes n).
Proof.
  unfold read_bytes. split.
  - intros r l a r' Hr E. destruct (_ || _) eqn:Ec; [done|]. injection E as <- <-.
    apply orb_false_iff in Ec as [_ Ec]. apply Nat.ltb_ge in Ec.
    pose proof Hr as (Hb & Hd & Hok).
    assert (Hlen : length (take n l) = n).
    { rewrite length_take, <- Hd, length_drop. lia. }
    exists (take n l), (drop n l). rewrite take_drop, Hd.
    split_and!; [done|done|]. rewrite <- Hlen at 1. apply remaining_advance.
    by rewrite take_drop.
  - intros r a e l' Hr [-> <-]. pose proof Hr as (Hb & Hd & Hok).
    pose proof (f_equal length Hd) as Hl. rewrite length_drop, length_app in Hl.
    destruct (_ || _) eqn:Ec.
    { apply orb_true_iff in Ec as [Ec|Ec]; apply Nat.ltb_lt in Ec; lia. }
    eexists. rewrite Hd, take_app_length. split; [done|]. by apply remaining_advance.
Qed.

Lemma recognises_u8 : recognises read_u8 format_u8.
Proof.
  eapply recognises_ext; [|apply recognises_bind; [apply recognises_bytes|];
    intros a; apply recognises_ret].
  intros v e _. split.
  - intros (a & e1 & e2 & -> & [-> Hl] & [-> ->]).
    destruct e1 as [|b [|]]; simplify_eq/=. done.
  - intros ->. by exists [v], [v], [].
Qed.

(** Running a recogniser to the end of a vector. *)
Lemma run_parser_spec {A} (p : parser A) F :
  recognises p F →
  ∀ encoded a, bytes_ok encoded →
  run_parser (a ← p; e ← at_end; _ ← check e; mret a) encoded = Some a ↔ F a encoded.
Proof.
  intros Hp encoded a Hok. pose proof (remaining_start _ Hok) as Hr.
  unfold run_parser, mbind, parser_bind, at_end, check. split.
  - destruct (p (mkReader encoded 0)) as [[a' r']|] eqn:E; [|done].
    destruct (rec_sound Hp _ _ _ _ Hr E) as (e & l' & -> & HF & (Hb & Hd & _)).
    destruct (Nat.eqb_spec (offset r') (length (input r'))) as [Ee|]; [|done].
    intros [= <-]. rewrite Ee, drop_all in Hd. subst l'. by rewrite app_nil_r.
  - intros HF. rewrite <- (app_nil_r encoded) in Hr at 2.
    destruct (rec_complete Hp _ _ _ _ Hr HF) as (r' & -> & (Hb & Hd & _)).
    apply (f_equal length) in Hd. rewrite length_drop in Hd. simpl in Hd.
    destruct (Nat.eqb_spec (offset r') (length (input r'))); [done|lia].
Qed.

Definition format_if {A} (b : bool) (F G : format A) : format A := if b then F else G.

Lemma recognises_if {A} (b : bool) (p q : parser A) F G :
  recognises p F → recognises q G → recognises (if b then p else q) (format_if b F G).
Proof. by destruct b. Qed.

#[export] Hint Resolve recognises_ret recognises_check recognises_bytes recognises_u8 : m5.

(** Split a [recognises] goal along the binds of the parser. *)
Ltac recognise :=
  repeat first
    [ apply recognises_ret | apply recognises_check | apply recognises_bytes
    | apply recognises_u8 | solve [eauto with m5]
    | apply recognises_if | apply recognises_bind; [|intro] ].

(** Take a sequence of formats apart, or put it together. *)

Lemma format_bind_intro {A B} (F : format A) (G : A → format B) a b e1 e2 :
  F a e1 → G a b e2 → format_bind F G b (e1 ++ e2).
Proof. by exists a, e1, e2. Qed.

Lemma format_bind_last {A B} (F : format A) (G : A → format B) a b e :
  F a e → G a b [] → format_bind F G b e.
Proof. rewrite <- (app_nil_r e) at 2. apply format_bind_intro. Qed.

Lemma format_check_intro {B} c (G : unit → format B) b e :
  c = true → G tt b e → format_bind (format_check c) G b e.
Proof. intros. by apply (format_bind_intro _ _ tt b []). Qed.

(** [exactly P enc]: the values in [P], each with the one encoding [enc] gives. *)
Definition exactly {A} (P : A → Prop) (enc : A → bytes) : format A := λ a e, P a ∧ e = enc a.

Ltac open_format :=
  repeat match goal with
  | H : format_bind _ _ _ _ |- _ =>
      let a := fresh "a" in let e1 := fresh "e" in let e2 := fresh "e" in
      destruct H as (a & e1 & e2 & -> & ? & ?)
  | H : format_check _ ?a _ |- _ => destruct H as [? ->]; destruct a
  | H : format_ret _ _ _ |- _ => destruct H as [-> ->]
  | H : format_bytes _ _ _ |- _ => destruct H as [-> ?]
  | H : format_u8 _ _ |- _ => unfold format_u8 in H; subst
  | H : exactly _ _ _ _ |- _ => destruct H as [? ->]
  end.

Ltac format_piece :=
  first [ reflexivity
        | split; [reflexivity | done || lia]
        | split; cycle 1; [reflexivity | done || lia] ].

Ltac build_format :=
  repeat first
    [ apply format_check_intro
    | lazymatch goal with
      | |- format_if ?b ?F ?G ?a ?e =>
          let b' := eval vm_compute in b in
          lazymatch b' with true => change (F a e) | false => change (G a e) end
      end
    | eapply format_bind_intro; [format_piece|]
    | eapply format_bind_last; [format_piece|] ];
  try (split; reflexivity).
