(* ===== verification/Utf8.v ===== *)
(** * UTF-8 validation

    [is_valid_utf8] of [vault_format.cpp] (every text field of a Vault passes
    it, on encoding and on decoding), against the definition of UTF-8: a byte
    string is valid exactly when it is the encoding of a sequence of Unicode
    scalar values. *)

From S2P Require Import Prelude Bytes.

Definition is_continuation (byte : Z) : bool := Z.land byte 0xc0 =? 0x80.

(** The loop reads [bytes[index]] onwards; the list is what [index] has left,
    and [index >= text.size()] and its like are the patterns that run out. *)
Fixpoint is_valid_utf8 (text : bytes) : bool :=
  match text with
  | [] => true
  | first :: rest =>
    if first <=? 0x7f then is_valid_utf8 rest
    else if (first >=? 0xc2) && (first <=? 0xdf) then
      match rest with
      | second :: rest' =>
        if negb (is_continuation second) then false else is_valid_utf8 rest'
      | _ => false
      end
    else if (first >=? 0xe0) && (first <=? 0xef) then
      match rest with
      | second :: third :: rest' =>
        if negb (is_continuation third) then false
        else if first =? 0xe0 then
          if (second <? 0xa0) || (second >? 0xbf) then false else is_valid_utf8 rest'
        else if first =? 0xed then
          if (second <? 0x80) || (second >? 0x9f) then false else is_valid_utf8 rest'
        else if negb (is_continuation second) then false
        else is_valid_utf8 rest'
      | _ => false
      end
    else if (first >=? 0xf0) && (first <=? 0xf4) then
      match rest with
      | second :: third :: fourth :: rest' =>
        if negb (is_continuation third) || negb (is_continuation fourth) then false
        else if first =? 0xf0 then
          if (second <? 0x90) || (second >? 0xbf) then false else is_valid_utf8 rest'
        else if first =? 0xf4 then
          if (second <? 0x80) || (second >? 0x8f) then false else is_valid_utf8 rest'
        else if negb (is_continuation second) then false
        else is_valid_utf8 rest'
      | _ => false
      end
    else false
  end.

(** ** The reference: Unicode scalar values and their encodings *)

Definition scalar_value (c : Z) : Prop :=
  0 ≤ c ≤ 0x10ffff ∧ ¬ (0xd800 ≤ c ≤ 0xdfff).

Definition utf8_encode (c : Z) : bytes :=
  if c <? 0x80 then [c]
  else if c <? 0x800 then [0xc0 + c / 64; 0x80 + c mod 64]
  else if c <? 0x10000 then [0xe0 + c / 4096; 0x80 + c / 64 mod 64; 0x80 + c mod 64]
  else [0xf0 + c / 262144; 0x80 + c / 4096 mod 64; 0x80 + c / 64 mod 64; 0x80 + c mod 64].

Definition utf8_text (cs : list Z) : bytes := cs ≫= utf8_encode.

(** ** Correctness *)

Lemma is_continuation_range b : is_byte b → is_continuation b = (0x80 <=? b) && (b <=? 0xbf).
Proof.
  intros Hb. pose proof (byte_forall
    (λ b, Bool.eqb (is_continuation b) ((0x80 <=? b) && (b <=? 0xbf)))) as H.
  by apply Bool.eqb_prop, H.
Qed.

Ltac split_utf8 :=
  repeat match goal with
  | H : context [if ?b then _ else _] |- _ => destruct b eqn:?
  | H : context [match ?l with [] => _ | _ :: _ => _ end] |- _ => destruct l
  | |- context [if ?b then _ else _] => destruct b eqn:?
  | H : bytes_ok (_ :: _) |- _ => inversion H; subst; clear H
  | H : is_byte ?b, E : context [is_continuation ?b] |- _ =>
      rewrite (is_continuation_range b H) in E
  end.

Ltac bools :=
  rewrite ?negb_false_iff, ?negb_true_iff, ?andb_true_iff, ?andb_false_iff,
    ?orb_false_iff, ?orb_true_iff in *.

Lemma utf8_encode_2 c : 0x80 ≤ c < 0x800 → utf8_encode c = [0xc0 + c / 64; 0x80 + c mod 64].
Proof. intros. unfold utf8_encode. repeat case_match; try done; lia. Qed.
Lemma utf8_encode_3 c :
  0x800 ≤ c < 0x10000 →
  utf8_encode c = [0xe0 + c / 4096; 0x80 + c / 64 mod 64; 0x80 + c mod 64].
Proof. intros. unfold utf8_encode. repeat case_match; try done; lia. Qed.
Lemma utf8_encode_4 c :
  0x10000 ≤ c →
  utf8_encode c =
    [0xf0 + c / 262144; 0x80 + c / 4096 mod 64; 0x80 + c / 64 mod 64; 0x80 + c mod 64].
Proof. intros. unfold utf8_encode. repeat case_match; try done; lia. Qed.

Lemma utf8_step text :
  bytes_ok text → is_valid_utf8 text = true → text ≠ [] →
  ∃ c rest, scalar_value c ∧ text = utf8_encode c ++ rest ∧ is_valid_utf8 rest = true.
Proof.
  intros Hok Hv Hne. destruct text as [|b0 rest]; [done|]. clear Hne.
  inversion Hok as [|? ? Hb0 Hrest]; subst. unfold is_byte in Hb0. simpl in Hv.
  destruct (b0 <=? 0x7f) eqn:E1; [exists b0, rest|].
  { unfold scalar_value, utf8_encode. destruct (Z.ltb_spec b0 0x80); [|lia].
    split; [lia|by split]. }
  destruct ((b0 >=? 0xc2) && (b0 <=? 0xdf)) eqn:E2;
    [|destruct ((b0 >=? 0xe0) && (b0 <=? 0xef)) eqn:E3;
      [|destruct ((b0 >=? 0xf0) && (b0 <=? 0xf4)) eqn:E4; [|done]]].
  - destruct rest as [|b1 rest]; [done|]. inversion Hrest as [|? ? Hb1 _]; subst.
    rewrite !is_continuation_range in Hv by done. unfold is_byte in *.
    exists ((b0 - 0xc0) * 64 + (b1 - 0x80)), rest.
    assert (is_valid_utf8 rest = true ∧ 0x80 ≤ b1 ≤ 0xbf) as [Hr ?].
    { split_utf8; try done; split; try done; lia. }
    split; [unfold scalar_value; lia|]. split; [|done].
    rewrite utf8_encode_2 by lia. simpl. repeat f_equal; lia.
  - destruct rest as [|b1 [|b2 rest]]; [done..|]. inversion Hrest as [|? ? Hb1 H2]; subst.
    inversion H2 as [|? ? Hb2 _]; subst. rewrite !is_continuation_range in Hv by done.
    unfold is_byte in *.
    exists ((b0 - 0xe0) * 4096 + (b1 - 0x80) * 64 + (b2 - 0x80)), rest.
    assert (is_valid_utf8 rest = true ∧ 0x80 ≤ b1 ≤ 0xbf ∧ 0x80 ≤ b2 ≤ 0xbf ∧
      (b0 = 0xe0 → 0xa0 ≤ b1) ∧ (b0 = 0xed → b1 ≤ 0x9f)) as (Hr & ? & ? & ? & ?).
    { split_utf8; try done; split; try done; lia. }
    split; [unfold scalar_value; lia|]. split; [|done].
    rewrite utf8_encode_3 by lia. simpl. repeat f_equal; lia.
  - destruct rest as [|b1 [|b2 [|b3 rest]]]; [done..|].
    inversion Hrest as [|? ? Hb1 H2]; subst. inversion H2 as [|? ? Hb2 H3]; subst.
    inversion H3 as [|? ? Hb3 _]; subst. rewrite !is_continuation_range in Hv by done.
    unfold is_byte in *.
    exists ((b0 - 0xf0) * 262144 + (b1 - 0x80) * 4096 + (b2 - 0x80) * 64 + (b3 - 0x80)), rest.
    assert (is_valid_utf8 rest = true ∧ 0x80 ≤ b1 ≤ 0xbf ∧ 0x80 ≤ b2 ≤ 0xbf ∧ 0x80 ≤ b3 ≤ 0xbf ∧
      (b0 = 0xf0 → 0x90 ≤ b1) ∧ (b0 = 0xf4 → b1 ≤ 0x8f)) as (Hr & ? & ? & ? & ? & ?).
    { split_utf8; try done; split; try done; lia. }
    split; [unfold scalar_value; lia|]. split; [|done].
    rewrite utf8_encode_4 by lia. simpl. repeat f_equal; lia.
Qed.

Lemma utf8_encode_ok c : scalar_value c → bytes_ok (utf8_encode c).
Proof.
  intros [? ?]. unfold utf8_encode, is_byte.
  repeat case_match; repeat (apply Forall_cons; split); try apply Forall_nil; lia.
Qed.

Lemma utf8_encode_nonempty c : utf8_encode c ≠ [].
Proof. unfold utf8_encode. by repeat case_match. Qed.

Lemma is_valid_utf8_encode c rest :
  scalar_value c → is_valid_utf8 (utf8_encode c ++ rest) = is_valid_utf8 rest.
Proof.
  intros Hc. pose proof (utf8_encode_ok c Hc) as Hok. destruct Hc as [Hc Hs].
  unfold utf8_encode in *.
  destruct (Z.ltb_spec c 0x80); [|destruct (Z.ltb_spec c 0x800);
    [|destruct (Z.ltb_spec c 0x10000)]]; simpl app; cbn [is_valid_utf8];
    repeat match goal with H : bytes_ok (_ :: _) |- _ =>
      apply Forall_cons in H as [? H] end;
    rewrite ?is_continuation_range by done;
    repeat match goal with |- context [if ?b then _ else _] => destruct b eqn:? end;
    try done; exfalso; lia.
Qed.

Lemma is_valid_utf8_text cs : Forall scalar_value cs → is_valid_utf8 (utf8_text cs) = true.
Proof.
  induction 1 as [|c cs Hc _ IH]; [done|]. unfold utf8_text. simpl.
  by rewrite is_valid_utf8_encode.
Qed.

Lemma is_valid_utf8_decode text :
  bytes_ok text → is_valid_utf8 text = true →
  ∃ cs, Forall scalar_value cs ∧ text = utf8_text cs.
Proof.
  induction text as [text IH] using (induction_ltof1 _ (@length Z)). unfold ltof in IH.
  intros Hok Hv. destruct (decide (text = [])) as [->|Hne]; [by exists []|].
  destruct (utf8_step text Hok Hv Hne) as (c & rest & Hc & -> & Hr).
  apply Forall_app in Hok as [_ Hok].
  destruct (IH rest) as (cs & Hcs & ->); [|done..|].
  - rewrite length_app. pose proof (utf8_encode_nonempty c).
    destruct (utf8_encode c); [done|simpl; lia].
  - exists (c :: cs). split; [by constructor|done].
Qed.

(** C35:  The validator accepts exactly UTF-8: a byte string passes if and only
    if it is the encoding of a sequence of Unicode scalar values (so overlong
    forms, surrogates, values past U+10FFFF and truncated sequences all fail). *)
Theorem is_valid_utf8_correct text :
  bytes_ok text ∧ is_valid_utf8 text = true ↔
  ∃ cs, Forall scalar_value cs ∧ text = utf8_text cs.
Proof.
  split; [by intros []; apply is_valid_utf8_decode|].
  intros (cs & Hcs & ->). split; [|by apply is_valid_utf8_text].
  apply Forall_bind. eapply Forall_impl; [done|]. apply utf8_encode_ok.
Qed.
