(* ===== verification/VaultFormat.v ===== *)
(** * The Vault plaintext format and the authenticated-data encodings

    [m5auth_vault/vault_format.cpp] with the data of [m5auth/vault.hpp]: what a
    decrypted Vault is ([VaultPlaintext]), its binary encoding in Formats 1 and
    2 ([encode_plaintext], [decode_plaintext]) and the additional authenticated
    data of the two AES-GCM uses ([build_vault_aad], [build_vmk_wrap_aad]).

    Output parameters written only on success are the payload of an [option].
    Overwriting retired buffers with zeros ([secure_zero_memory], the wipe
    guards) acts on memory no later step of these functions reads, so it has no
    counterpart in a model of their results. *)

From S2P Require Import Prelude Bytes ByteReader Utf8.

(** ** Data *)

Definition kVaultFormatVersion1 : Z := 1.
Definition kVaultFormatVersion2 : Z := 2.
Definition kTargetStorageSchemaVersion : Z := 2.
Definition kRecoveryPackageVersion : Z := 1.
Definition kVmkWrapVersion : Z := 1.
Definition kVaultIdBytes : nat := 16.
Definition kCredentialIdBytes : nat := 16.
Definition kVaultNonceBytes : nat := 12.
Definition kVaultTagBytes : nat := 16.
Definition kVmkBytes : nat := 32.
Definition kMaxCredentials : nat := 32.
Definition kMinAutoLockDays : Z := 1.
Definition kMaxAutoLockDays : Z := 31.

Definition is_supported_vault_format (version : Z) : bool :=
  (version =? kVaultFormatVersion1) || (version =? kVaultFormatVersion2).

Inductive TotpAlgorithm := kSha1.
Definition algorithm_code (a : TotpAlgorithm) : Z := match a with kSha1 => 1 end.

Record CredentialRecord := mkCredential {
  credential_id : bytes;
  secret : bytes;
  issuer : bytes;
  account : bytes;
  display_name : bytes;
  algorithm : TotpAlgorithm;
  digits : Z;
  period_seconds : Z;
  manual_order : Z;
}.

Record WifiRecord := mkWifi { ssid : bytes; password : bytes }.

Record VaultPlaintext := mkPlaintext {
  credentials : list CredentialRecord;
  wifi : option WifiRecord;
  auto_lock_days : option Z;
}.

Record VaultEnvelope := mkEnvelope {
  vault_format_version : Z;
  storage_schema_version : Z;
  vault_id : bytes;
  generation : Z;
  nonce : bytes;
  ciphertext : bytes;
  tag : bytes;
}.

#[export] Instance eta_envelope : Eta VaultEnvelope := λ e,
  mkEnvelope (vault_format_version e) (storage_schema_version e) (vault_id e) (generation e)
    (nonce e) (ciphertext e) (tag e).

(** [vault::VaultEnvelope{}]: the member initialisers. *)
Definition empty_envelope : VaultEnvelope :=
  mkEnvelope kVaultFormatVersion1 kTargetStorageSchemaVersion
    (zeros kVaultIdBytes) 0 (zeros kVaultNonceBytes) [] (zeros kVaultTagBytes).

#[export] Instance algorithm_eq_dec : EqDecision TotpAlgorithm.
Proof. solve_decision. Defined.
#[export] Instance credential_eq_dec : EqDecision CredentialRecord.
Proof. solve_decision. Defined.
#[export] Instance wifi_eq_dec : EqDecision WifiRecord.
Proof. solve_decision. Defined.
#[export] Instance envelope_eq_dec : EqDecision VaultEnvelope.
Proof. solve_decision. Defined.

(** ** Encoding *)

Definition kMaxFieldBytes : nat := 1024.
Definition kMaxSecretBytes : nat := 512.
Definition kPlaintextMagicV1 : bytes := c_array "M5AUTH-VLT-PT1".
Definition kPlaintextMagicV2 : bytes := c_array "M5AUTH-VLT-PT2".
Definition kVaultAadMagicV1 : bytes := c_array "M5AUTH-VLT-AAD1".
Definition kVaultAadMagicV2 : bytes := c_array "M5AUTH-VLT-AAD2".
Definition kVmkWrapAadMagic : bytes := c_array "M5AUTH-VMK-WRAP1".

Definition append_u16 (output : bytes) (value : Z) : bytes :=
  output ++ [Z.land (Z.shiftr value 8) 0xff; Z.land value 0xff].

Definition append_u64 (output : bytes) (value : Z) : bytes :=
  fold_left (λ out shift, out ++ [byte_at value shift])
    [56; 48; 40; 32; 24; 16; 8; 0] output.

Definition append_sized_bytes (output value : bytes) (maximum : nat) : option bytes :=
  if Nat.ltb maximum (length value) || (Z.of_nat (length value) >? u16_max) then None
  else Some (append_u16 output (Z.of_nat (length value)) ++ value).

Definition append_sized_text (output value : bytes) : option bytes :=
  if negb (is_valid_utf8 value) || Nat.ltb kMaxFieldBytes (length value)
     || (Z.of_nat (length value) >? u16_max) then None
  else Some (append_u16 output (Z.of_nat (length value)) ++ value).

Definition valid_credential (record : CredentialRecord) : bool :=
  negb (Nat.eqb (length (secret record)) 0) &&
  Nat.leb (length (secret record)) kMaxSecretBytes &&
  (algorithm_code (algorithm record) =? algorithm_code kSha1) &&
  (digits record >=? 1) && (digits record <=? 10) &&
  (period_seconds record >=? 1).

Definition valid_auto_lock_days (days : option Z) : bool :=
  match days with
  | None => true
  | Some d => (d >=? kMinAutoLockDays) && (d <=? kMaxAutoLockDays)
  end.

Definition plaintext_magic (format : Z) : option bytes :=
  if format =? kVaultFormatVersion1 then Some kPlaintextMagicV1
  else if format =? kVaultFormatVersion2 then Some kPlaintextMagicV2
  else None.

Definition aad_magic (format : Z) : option bytes :=
  if format =? kVaultFormatVersion1 then Some kVaultAadMagicV1
  else if format =? kVaultFormatVersion2 then Some kVaultAadMagicV2
  else None.

(** The credential loop of [encode_plaintext]: the identifiers seen so far and
    the bytes written so far. *)
Fixpoint encode_credentials (records : list CredentialRecord)
    (ids : gset (list Z)) (candidate : bytes) : option bytes :=
  match records with
  | [] => Some candidate
  | record :: records' =>
    if negb (valid_credential record) || bool_decide (credential_id record ∈ ids) then None
    else
      let candidate := candidate ++ credential_id record in
      candidate ← append_sized_bytes candidate (secret record) kMaxSecretBytes;
      candidate ← append_sized_text candidate (issuer record);
      candidate ← append_sized_text candidate (account record);
      candidate ← append_sized_text candidate (display_name record);
      let candidate := candidate ++ [algorithm_code (algorithm record)] in
      let candidate := candidate ++ [digits record] in
      let candidate := append_u16 candidate (period_seconds record) in
      let candidate := append_u16 candidate (manual_order record) in
      encode_credentials records' ({[credential_id record]} ∪ ids) candidate
  end.

(** Its Wi-Fi part, and the part Format 2 adds. *)
Definition encode_wifi (candidate : bytes) (wifi : option WifiRecord) : option bytes :=
  match wifi with
  | None => Some (candidate ++ [0])
  | Some w =>
    candidate ← append_sized_text (candidate ++ [1]) (ssid w);
    append_sized_text candidate (password w)
  end.

Definition encode_auto_lock_days (candidate : bytes) (auto_lock_days : option Z) : bytes :=
  match auto_lock_days with
  | None => candidate ++ [0]
  | Some days => (candidate ++ [1]) ++ [days]
  end.

Definition encode_plaintext (value : VaultPlaintext) (vault_format_version : Z) : option bytes :=
  if negb (is_supported_vault_format vault_format_version)
     || Nat.ltb kMaxCredentials (length (credentials value))
     || negb (valid_auto_lock_days (auto_lock_days value))
     || ((vault_format_version =? kVaultFormatVersion1)
         && bool_decide (is_Some (auto_lock_days value)))
  then None
  else
    magic ← plaintext_magic vault_format_version;
    let candidate := magic in
    let candidate := append_u16 candidate vault_format_version in
    let candidate := append_u16 candidate (Z.of_nat (length (credentials value))) in
    candidate ← encode_credentials (credentials value) ∅ candidate;
    candidate ← encode_wifi candidate (wifi value);
    if vault_format_version =? kVaultFormatVersion2
    then Some (encode_auto_lock_days candidate (auto_lock_days value))
    else Some candidate.

(** ** Decoding *)

Definition read_u16 : parser Z :=
  encoded ← read_bytes 2;
  mret (Z.lor (Z.shiftl (encoded !!! 0%nat) 8) (encoded !!! 1%nat)).

Definition read_sized_bytes (maximum : nat) : parser bytes :=
  length ← read_u16;
  _ ← check (negb (length >? Z.of_nat maximum));
  read_bytes (Z.to_nat length).

Definition read_sized_text : parser bytes :=
  length ← read_u16;
  _ ← check (negb (length >? Z.of_nat kMaxFieldBytes));
  value ← read_bytes (Z.to_nat length);
  if length =? 0 then mret []
  else _ ← check (is_valid_utf8 value); mret value.

(** One turn of the credential loop of [decode_common_body]. *)
Definition decode_credential (ids : gset (list Z)) : parser CredentialRecord :=
  id ← read_bytes kCredentialIdBytes;
  _ ← check (negb (bool_decide (id ∈ ids)));
  secret ← read_sized_bytes kMaxSecretBytes;
  _ ← check (negb (Nat.eqb (length secret) 0));
  issuer ← read_sized_text;
  account ← read_sized_text;
  display_name ← read_sized_text;
  algorithm ← read_u8;
  _ ← check (algorithm =? algorithm_code kSha1);
  digits ← read_u8;
  period_seconds ← read_u16;
  manual_order ← read_u16;
  let record := mkCredential id secret issuer account display_name kSha1
                  digits period_seconds manual_order in
  _ ← check (valid_credential record);
  mret record.

Fixpoint decode_credentials (count : nat) (ids : gset (list Z)) : parser (list CredentialRecord) :=
  match count with
  | O => mret []
  | S count' =>
    record ← decode_credential ids;
    records ← decode_credentials count' ({[credential_id record]} ∪ ids);
    mret (record :: records)
  end.

(** The Wi-Fi part of [decode_common_body]. *)
Definition decode_wifi : parser (option WifiRecord) :=
  wifi_present ← read_u8;
  _ ← check (negb (wifi_present >? 1));
  if wifi_present =? 1 then
    ssid ← read_sized_text;
    password ← read_sized_text;
    mret (Some (mkWifi ssid password))
  else mret None.

Definition decode_common_body : parser (list CredentialRecord * option WifiRecord) :=
  count ← read_u16;
  _ ← check (negb (count >? Z.of_nat kMaxCredentials));
  records ← decode_credentials (Z.to_nat count) ∅;
  wifi ← decode_wifi;
  mret (records, wifi).

(** The tail of [decode_plaintext] that Format 2 adds. *)
Definition decode_auto_lock_days : parser (option Z) :=
  present ← read_u8;
  _ ← check (negb (present >? 1));
  if present =? 1 then
    days ← read_u8;
    _ ← check (negb ((days <? kMinAutoLockDays) || (days >? kMaxAutoLockDays)));
    mret (Some days)
  else mret None.

Definition detect_format : parser Z :=
  magic ← read_bytes (length kPlaintextMagicV1);
  if bool_decide (magic = kPlaintextMagicV1) then mret kVaultFormatVersion1
  else if bool_decide (magic = kPlaintextMagicV2) then mret kVaultFormatVersion2
  else _ ← check false; mret 0.

Definition decode_body : parser (VaultPlaintext * Z) :=
  detected_format ← detect_format;
  encoded_version ← read_u16;
  _ ← check (encoded_version =? detected_format);
  body ← decode_common_body;
  if detected_format =? kVaultFormatVersion1 then
    mret (mkPlaintext (fst body) (snd body) None, detected_format)
  else
    days ← decode_auto_lock_days;
    mret (mkPlaintext (fst body) (snd body) days, detected_format).

(** The plaintext and the format its magic names. *)
Definition decode_plaintext (encoded : bytes) : option (VaultPlaintext * Z) :=
  run_parser (a ← decode_body; e ← at_end; _ ← check e; mret a) encoded.

(** ** Additional authenticated data *)

Definition build_vault_aad (vault_id : bytes) (generation : Z)
    (vault_format_version storage_schema_version : Z) : option bytes :=
  if negb (is_supported_vault_format vault_format_version)
     || negb (storage_schema_version =? kTargetStorageSchemaVersion) then None
  else
    magic ← aad_magic vault_format_version;
    let candidate := magic in
    let candidate := append_u16 candidate vault_format_version in
    let candidate := append_u16 candidate storage_schema_version in
    let candidate := candidate ++ vault_id in
    Some (append_u64 candidate generation).

Definition build_vmk_wrap_aad (vault_id : bytes) (package_version wrap_version : Z)
    : option bytes :=
  if negb (package_version =? kRecoveryPackageVersion)
     || negb (wrap_version =? kVmkWrapVersion) then None
  else
    let candidate := kVmkWrapAadMagic in
    let candidate := append_u16 candidate package_version in
    let candidate := append_u16 candidate wrap_version in
    Some (candidate ++ vault_id).
