(* ===== verification/VaultFormatCorrect.v ===== *)
(** * Correctness of the Vault plaintext format

    What [encode_plaintext] accepts and writes is given by two plain
    definitions, [encodable] and [plaintext_bytes]; [decode_plaintext] inverts
    them and accepts nothing else.  The authenticated data of the AES-GCM uses
    is injective and domain-separated. *)

From S2P Require Import Prelude Bytes ByteReader Utf8 VaultFormat.

#[local] Arguments be_bytes : simpl never.
#[local] Arguments Z.of_nat : simpl never.

(** ** The reference encoding *)

Definition text_ok (t : bytes) : Prop :=
  is_valid_utf8 t = true ∧ (length t ≤ kMaxFieldBytes)%nat.

Definition sized (t : bytes) : bytes := be_bytes 2 (Z.of_nat (length t)) ++ t.

#[local] Arguments sized : simpl never.

Definition record_encodable (r : CredentialRecord) : Prop :=
  (1 ≤ length (secret r) ≤ kMaxSecretBytes)%nat ∧
  1 ≤ digits r ≤ 10 ∧ 1 ≤ period_seconds r ∧
  text_ok (issuer r) ∧ text_ok (account r) ∧ text_ok (display_name r).

Definition record_bytes (r : CredentialRecord) : bytes :=
  credential_id r ++ sized (secret r) ++ sized (issuer r) ++ sized (account r) ++
  sized (display_name r) ++ [1] ++ [digits r] ++
  be_bytes 2 (period_seconds r) ++ be_bytes 2 (manual_order r).

Definition wifi_bytes (w : option WifiRecord) : bytes :=
  match w with
  | None => [0]
  | Some w => [1] ++ sized (ssid w) ++ sized (password w)
  end.

Definition days_bytes (days : option Z) : bytes :=
  match days with None => [0] | Some d => [1] ++ [d] end.

Definition magic_bytes (format : Z) : bytes :=
  if format =? 1 then kPlaintextMagicV1 else kPlaintextMagicV2.

Definition plaintext_bytes (v : VaultPlaintext) (format : Z) : bytes :=
  magic_bytes format ++ be_bytes 2 format ++
  be_bytes 2 (Z.of_nat (length (credentials v))) ++ (credentials v ≫= record_bytes) ++
  wifi_bytes (wifi v) ++ (if format =? 2 then days_bytes (auto_lock_days v) else []).

Definition wifi_encodable (w : WifiRecord) : Prop := text_ok (ssid w) ∧ text_ok (password w).

(** What a Vault must satisfy to be encoded in a format. *)
Definition encodable (v : VaultPlaintext) (format : Z) : Prop :=
  (format = 1 ∧ auto_lock_days v = None ∨ format = 2) ∧
  (length (credentials v) ≤ kMaxCredentials)%nat ∧
  Forall record_encodable (credentials v) ∧
  NoDup (credential_id <$> credentials v) ∧
  from_option wifi_encodable True (wifi v) ∧
  from_option (λ d, 1 ≤ d ≤ 31) True (auto_lock_days v).

(** What the C++ types guarantee of a record: the array is 16 bytes and the
    integers are in the range of their types. *)
Definition record_wf (r : CredentialRecord) : Prop :=
  length (credential_id r) = kCredentialIdBytes ∧
  bytes_ok (credential_id r) ∧ bytes_ok (secret r) ∧
  bytes_ok (issuer r) ∧ bytes_ok (account r) ∧ bytes_ok (display_name r) ∧
  is_byte (digits r) ∧ is_u16 (period_seconds r) ∧ is_u16 (manual_order r).

Definition plaintext_wf (v : VaultPlaintext) : Prop :=
  Forall record_wf (credentials v) ∧
  from_option (λ w, bytes_ok (ssid w) ∧ bytes_ok (password w)) True (wifi v) ∧
  from_option is_byte True (auto_lock_days v).

(** ** Writing *)

Lemma append_u16_be output v : append_u16 output v = output ++ be_bytes 2 v.
Proof.
  unfold append_u16. f_equal. unfold be_bytes, reverse. simpl.
  rewrite !land_ff, Z.shiftr_div_pow2 by lia. done.
Qed.

Lemma append_u64_be output v : append_u64 output v = output ++ be_bytes 8 v.
Proof.
  unfold append_u64. rewrite <- be_bytes_loop. simpl fold_left. rewrite <- !app_assoc. done.
Qed.

Lemma append_sized_bytes_spec output t n :
  (n ≤ 512)%nat →
  append_sized_bytes output t n =
    if decide (length t ≤ n)%nat then Some (output ++ sized t) else None.
Proof.
  intros. unfold append_sized_bytes, sized. rewrite append_u16_be, <- app_assoc.
  destruct (Nat.ltb_spec n (length t)); simpl; case_decide; try done; try lia.
  destruct (Z.gtb_spec (Z.of_nat (length t)) u16_max); [|done]. unfold u16_max in *. lia.
Qed.

#[export] Instance text_ok_dec t : Decision (text_ok t).
Proof. unfold text_ok. apply _. Defined.

Lemma append_sized_text_spec output t :
  append_sized_text output t = if decide (text_ok t) then Some (output ++ sized t) else None.
Proof.
  unfold append_sized_text, sized. rewrite append_u16_be, <- app_assoc.
  case_decide as Hd; unfold text_ok in Hd.
  - destruct Hd as [-> Hl]. unfold kMaxFieldBytes, u16_max in *.
    destruct (Nat.ltb_spec 1024 (length t)), (Z.gtb_spec (Z.of_nat (length t)) (2 ^ 16 - 1));
      simpl; done || lia.
  - destruct (is_valid_utf8 t); simpl; [|done].
    destruct (Nat.ltb_spec kMaxFieldBytes (length t)); simpl; [done|].
    destruct Hd; split; [done|lia].
Qed.

Lemma valid_credential_spec r :
  valid_credential r = true ↔
  (1 ≤ length (secret r) ≤ kMaxSecretBytes)%nat ∧ 1 ≤ digits r ≤ 10 ∧ 1 ≤ period_seconds r.
Proof.
  unfold valid_credential. destruct (algorithm r). simpl.
  rewrite !andb_true_iff, negb_true_iff, Nat.eqb_neq, Nat.leb_le. lia.
Qed.

#[export] Instance record_encodable_dec r : Decision (record_encodable r).
Proof. unfold record_encodable. apply _. Defined.

(** Identifiers that the duplicate check lets through. *)
Definition fresh_ids (ids : gset (list Z)) (rs : list CredentialRecord) : Prop :=
  NoDup (credential_id <$> rs) ∧ Forall (λ r, credential_id r ∉ ids) rs.

Lemma fresh_ids_cons ids r rs :
  fresh_ids ids (r :: rs) ↔
  credential_id r ∉ ids ∧ fresh_ids ({[credential_id r]} ∪ ids) rs.
Proof.
  unfold fresh_ids. rewrite fmap_cons, NoDup_cons, Forall_cons. split.
  - intros ([Hn Hd] & Hi & Hr). split_and!; [done|done|].
    apply Forall_forall. intros r' Hin. rewrite Forall_forall in Hr.
    specialize (Hr r' Hin). intros [E|]%elem_of_union; [|done].
    apply elem_of_singleton in E. apply Hn. rewrite <- E. by apply list_elem_of_fmap_2.
  - intros (Hi & Hd & Hr). rewrite Forall_forall in Hr. split_and!; [|done|done|].
    + intros (r' & E & Hin)%list_elem_of_fmap. apply (Hr r' Hin). set_solver.
    + apply Forall_forall. intros r' Hin. specialize (Hr r' Hin). set_solver.
Qed.

Lemma encode_credentials_spec rs : ∀ ids candidate out,
  encode_credentials rs ids candidate = Some out ↔
  Forall record_encodable rs ∧ fresh_ids ids rs ∧ out = candidate ++ (rs ≫= record_bytes).
Proof.
  induction rs as [|r rs IH]; intros ids candidate out; cbn [encode_credentials].
  { rewrite app_nil_r. split; [intros [= <-]|by intros (_ & _ & ->)].
    split_and!; [constructor|split; constructor|done]. }
  rewrite fresh_ids_cons, Forall_cons. unfold record_encodable at 1.
  destruct (valid_credential r) eqn:Ev; simpl.
  2: { split; [done|]. intros (((? & ? & ? & _) & _) & _).
       assert (valid_credential r = true); [apply valid_credential_spec; tauto|congruence]. }
  apply valid_credential_spec in Ev as (Hs & Hd & Hp).
  case_bool_decide as Hid.
  { split; [done|]. intros (_ & [Hn _] & _). by destruct Hn. }
  rewrite append_sized_bytes_spec by done. rewrite decide_True by lia. simpl.
  rewrite !append_sized_text_spec. case_decide; simpl; [|split; [done|tauto]].
  rewrite !append_sized_text_spec. case_decide; simpl; [|split; [done|tauto]].
  rewrite !append_sized_text_spec. case_decide; simpl; [|split; [done|tauto]].
  rewrite IH, !append_u16_be. unfold record_bytes at 2. destruct (algorithm r).
  rewrite <- !app_assoc. tauto.
Qed.

Lemma encode_credentials_some rs candidate out :
  encode_credentials rs ∅ candidate = Some out ↔
  Forall record_encodable rs ∧ NoDup (credential_id <$> rs) ∧
  out = candidate ++ (rs ≫= record_bytes).
Proof.
  rewrite encode_credentials_spec. unfold fresh_ids. split; [tauto|].
  intros (? & ? & ?). split_and!; try done. apply Forall_true. set_solver.
Qed.

Lemma format_guard v f :
  negb (is_supported_vault_format f) || Nat.ltb kMaxCredentials (length (credentials v))
    || negb (valid_auto_lock_days (auto_lock_days v))
    || ((f =? kVaultFormatVersion1) && bool_decide (is_Some (auto_lock_days v))) = false ↔
  (f = 1 ∧ auto_lock_days v = None ∨ f = 2) ∧
  (length (credentials v) ≤ kMaxCredentials)%nat ∧
  from_option (λ d, 1 ≤ d ≤ 31) True (auto_lock_days v).
Proof.
  unfold is_supported_vault_format, kVaultFormatVersion1, kVaultFormatVersion2,
    valid_auto_lock_days, kMinAutoLockDays, kMaxAutoLockDays.
  rewrite !orb_false_iff, !negb_false_iff, orb_true_iff, !Z.eqb_eq, Nat.ltb_ge.
  destruct (auto_lock_days v) as [d|]; simpl.
  - rewrite andb_true_r, Z.eqb_neq, andb_true_iff, Z.geb_le, Z.leb_le.
    split; [lia|]. intros ([[_ ?]|] & ? & ?); [done|lia].
  - rewrite andb_false_r. lia || tauto.
Qed.

Lemma encode_wifi_spec candidate w out :
  encode_wifi candidate w = Some out ↔
  from_option wifi_encodable True w ∧ out = candidate ++ wifi_bytes w.
Proof.
  destruct w as [w|]; simpl; [|split; [by intros [= <-]|by intros [_ ->]]].
  unfold wifi_encodable. rewrite append_sized_text_spec. case_decide; simpl; [|split; [done|tauto]].
  rewrite append_sized_text_spec. case_decide; [|split; [done|tauto]].
  rewrite <- !app_assoc. split; [by intros [= <-]|by intros [_ ->]].
Qed.

Lemma encode_plaintext_spec v f out :
  encode_plaintext v f = Some out ↔ encodable v f ∧ out = plaintext_bytes v f.
Proof.
  unfold encode_plaintext. destruct (_ || _) eqn:Eg.
  { split; [done|]. intros [(H1 & H2 & _ & _ & _ & H3) _].
    assert (H := conj H1 (conj H2 H3)). apply format_guard in H. congruence. }
  apply format_guard in Eg as (Hf & Hn & Hd). unfold encodable, plaintext_bytes.
  assert (Hm : plaintext_magic f = Some (magic_bytes f)).
  { unfold plaintext_magic, magic_bytes. by destruct Hf as [[-> _]| ->]. }
  assert (Hend : ∀ c, (if f =? kVaultFormatVersion2
      then Some (encode_auto_lock_days c (auto_lock_days v)) else Some c) =
      Some (c ++ (if f =? 2 then days_bytes (auto_lock_days v) else []))).
  { intros c. unfold kVaultFormatVersion2. destruct (f =? 2); [|by rewrite app_nil_r].
    by destruct (auto_lock_days v); simpl; rewrite <- ?app_assoc. }
  rewrite Hm. simpl. rewrite !append_u16_be. rewrite bind_Some.
  setoid_rewrite encode_credentials_some. setoid_rewrite bind_Some.
  setoid_rewrite encode_wifi_spec. setoid_rewrite Hend. split.
  - intros (c & (? & ? & ->) & c' & (? & ->) & [= <-]). rewrite <- !app_assoc. done.
  - intros ((_ & _ & ? & ? & ? & _) & ->). do 2 eexists; [done|].
    eexists; split; [done|]. by rewrite <- !app_assoc.
Qed.

(** ** Reading *)

Lemma recognises_u16 : recognises read_u16 (exactly is_u16 (be_bytes 2)).
Proof.
  eapply recognises_ext; [|unfold read_u16; recognise]. intros v e Hok. split.
  - intros (bs & e1 & e2 & -> & [-> Hl] & -> & ->). rewrite app_nil_r in *.
    destruct e1 as [|a [|b [|]]]; try done.
    apply Forall_cons in Hok as [Ha [Hb _]%Forall_cons]. cbn.
    unfold is_byte in *. rewrite lor_shiftl_add by lia. split.
    + unfold is_u16, u16_max. lia.
    + unfold be_bytes. simpl. unfold reverse. simpl. f_equal; [lia|]. f_equal. lia.
  - intros [Hv ->]. exists (be_bytes 2 v), (be_bytes 2 v), [].
    rewrite app_nil_r. split_and!; try done. unfold format_ret. split; [|done].
    unfold be_bytes, reverse, is_u16, u16_max in *. cbn.
    rewrite lor_shiftl_add by lia. lia.
Qed.

Lemma sized_length_u16 (t : bytes) (n : nat) : (length t ≤ n)%nat → (n ≤ 1024)%nat → is_u16 (Z.of_nat (length t)).
Proof. unfold is_u16, u16_max. lia. Qed.

(** A length, a bound on it and as many bytes. *)
Lemma sized_format (n : nat) (t e : bytes) :
  (n ≤ 1024)%nat →
  (∃ l e1 e2, e = e1 ++ e2 ∧ exactly is_u16 (be_bytes 2) l e1 ∧
     ∃ (_ : unit) e3 e4, e2 = e3 ++ e4 ∧ format_check (negb (l >? Z.of_nat n)) tt e3 ∧
       format_bytes (Z.to_nat l) t e4) ↔
  (length t ≤ n)%nat ∧ e = sized t.
Proof.
  intros Hn. unfold sized, exactly, format_bytes, format_check. split.
  - intros (l & e1 & e2 & -> & [Hl ->] & _ & e3 & e4 & -> & [Hc ->] & -> & Hlen).
    unfold is_u16 in Hl. destruct (Z.gtb_spec l (Z.of_nat n)); [done|]. split; [lia|].
    rewrite app_nil_l. do 2 f_equal. lia.
  - intros [Hl ->]. eexists _, _, _. split; [done|].
    split; [split; [by eapply sized_length_u16|done]|].
    eexists tt, [], _. split; [done|]. rewrite Nat2Z.id. split_and!; try done.
    destruct (Z.gtb_spec (Z.of_nat (length t)) (Z.of_nat n)); [lia|done].
Qed.

Lemma recognises_sized_bytes n :
  (n ≤ 1024)%nat → recognises (read_sized_bytes n) (exactly (λ t, (length (A:=Z) t ≤ n)%nat) sized).
Proof.
  intros Hn. eapply recognises_ext;
    [|unfold read_sized_bytes; apply recognises_bind; [apply recognises_u16|intro]; recognise].
  intros t e _. by apply sized_format.
Qed.

Lemma recognises_secret :
  recognises (read_sized_bytes kMaxSecretBytes)
    (exactly (λ t, (length (A:=Z) t ≤ kMaxSecretBytes)%nat) sized).
Proof. apply recognises_sized_bytes. unfold kMaxSecretBytes. lia. Qed.

(** [read_sized_text] spells the empty text out; validating it would accept it too. *)
Lemma read_sized_text_alt r :
  read_sized_text r =
  (t ← read_sized_bytes kMaxFieldBytes; _ ← check (is_valid_utf8 t); mret t) r.
Proof.
  unfold read_sized_text, read_sized_bytes, mbind, parser_bind.
  destruct (read_u16 r) as [[l r1]|]; [|done].
  destruct (check _ r1) as [[[] r2]|]; [|done].
  destruct (Z.eqb_spec l 0) as [->|]; [|done].
  unfold read_bytes. simpl. by destruct (_ || _).
Qed.

Lemma recognises_sized_text : recognises read_sized_text (exactly text_ok sized).
Proof.
  eapply recognises_eq; [apply read_sized_text_alt|].
  eapply recognises_ext;
    [|apply recognises_bind; [by apply recognises_sized_bytes|intro]; recognise].
  intros t e _. unfold exactly, text_ok. split.
  - intros (t' & e1 & e2 & -> & [? ->] & _ & e3 & e4 & -> & [? ->] & -> & ->).
    by rewrite !app_nil_r.
  - intros [[? ?] ->]. exists t, (sized t), []. rewrite app_nil_r. split_and!; try done.
    by exists tt, [], [].
Qed.

#[local] Hint Resolve recognises_u16 recognises_secret recognises_sized_text : m5.


Lemma sized_ok t : (length t ≤ 1024)%nat → bytes_ok (sized t) ↔ bytes_ok t.
Proof. intros. unfold sized. rewrite Forall_app. split; [tauto|]. split; [apply be_bytes_ok|done]. Qed.

Lemma text_ok_length t : text_ok t → (length t ≤ 1024)%nat.
Proof. by intros [_ ?]. Qed.

(** What the types guarantee of the bytes that were read. *)
Ltac split_bytes_ok :=
  repeat match goal with
  | H : bytes_ok (_ ++ _) |- _ => apply Forall_app in H as [? ?]
  | H : bytes_ok (_ :: _) |- _ => apply Forall_cons in H as [? ?]
  | H : bytes_ok (sized _) |- _ =>
      rewrite sized_ok in H by first [by apply text_ok_length | unfold kMaxSecretBytes in *; lia]
  end.

Definition credential_format (ids : gset (list Z)) : format CredentialRecord :=
  exactly (λ r, credential_id r ∉ ids ∧ record_encodable r ∧ record_wf r) record_bytes.

Lemma recognises_credential ids : recognises (decode_credential ids) (credential_format ids).
Proof.
  eapply recognises_ext; [|unfold decode_credential; recognise].
  intros r e Hok. unfold credential_format, record_encodable, record_wf. split.
  - intros H. open_format. simpl in *.
    split_bytes_ok. repeat match goal with
    | H : valid_credential _ = true |- _ => apply valid_credential_spec in H as (? & ? & ?); simpl in *
    | H : (_ =? _) = true |- _ => apply Z.eqb_eq in H; subst
    end.
    rewrite negb_true_iff, bool_decide_eq_false in *.
    split; [simpl; tauto|]. unfold record_bytes. simpl. by rewrite <- ?app_assoc.
  - intros [(Hid & (Hs & Hd & Hp & Hi & Ha & Hn) & (Hl & ? & ? & ? & ? & ? & ? & Hpp & Hm)) ->].
    destruct r as [id sec iss acc name [] dig per ord].
    unfold record_bytes. cbn [credential_id secret issuer account display_name algorithm digits
      period_seconds manual_order] in *.
    build_format.
    + by rewrite bool_decide_eq_false_2.
    + apply negb_true_iff, Nat.eqb_neq. lia.
    + apply valid_credential_spec. simpl. tauto.
Qed.

#[local] Hint Resolve recognises_credential : m5.

Lemma recognises_credentials n ids :
  recognises (decode_credentials n ids)
    (exactly (λ rs, length rs = n ∧ fresh_ids ids rs ∧ Forall record_encodable rs ∧
                    Forall record_wf rs) (λ rs, rs ≫= record_bytes)).
Proof.
  revert ids. induction n as [|n IH]; intros ids.
  { eapply recognises_ext; [|apply recognises_ret]. intros rs e _. split.
    - intros [-> ->]. split; [|done]. by repeat constructor.
    - intros [[Hl _] ->]. by destruct rs. }
  eapply recognises_ext; [|apply recognises_bind; [eauto with m5|intros r];
    apply recognises_bind; [apply IH|intros rs]; apply recognises_ret].
  intros rs e _. split.
  - intros H. unfold credential_format in *. open_format. rewrite app_nil_r.
    split; [|done]. destruct_and!.
    rewrite fresh_ids_cons, !Forall_cons. simpl. split_and!; done || congruence.
  - intros [(Hl & Hf & He & Hw) ->]. destruct rs as [|r rs]; [done|].
    apply fresh_ids_cons in Hf as [? ?]. apply Forall_cons in He as [? ?], Hw as [? ?].
    injection Hl as Hl. simpl. eapply format_bind_intro; [by split|].
    eapply format_bind_last; [|by split]. split; [by split_and!|done].
Qed.

#[local] Hint Resolve recognises_credentials : m5.

Lemma bit_cases p : negb (p >? 1) = true → is_byte p → p = 0 ∨ p = 1.
Proof. unfold is_byte. destruct (Z.gtb_spec p 1); [done|lia]. Qed.

Definition wifi_wf (w : WifiRecord) : Prop := bytes_ok (ssid w) ∧ bytes_ok (password w).

Lemma recognises_wifi :
  recognises decode_wifi
    (exactly (from_option (λ w, wifi_encodable w ∧ wifi_wf w) True) wifi_bytes).
Proof.
  eapply recognises_ext; [|unfold decode_wifi; recognise].
  intros w e Hok. unfold wifi_encodable, wifi_wf. split.
  - intros H. open_format. unfold format_if in *. split_bytes_ok.
    assert (Hp : a = 0 ∨ a = 1) by eauto using bit_cases.
    destruct Hp; subst a; simpl in *; open_format; [done|].
    split_bytes_ok.
    split; simpl; [by split_and!|]. by rewrite app_nil_r.
  - intros [Hw ->]. destruct w as [[ssid pass]|]; cbn [from_option] in Hw.
    + destruct Hw as [[? ?] _]. apply (format_bind_intro _ _ 1 _ [1]); [done|]. build_format.
    + apply (format_bind_intro _ _ 0 _ [0] []); [done|]. build_format.
Qed.

Lemma recognises_auto_lock_days :
  recognises decode_auto_lock_days (exactly (from_option (λ d, 1 ≤ d ≤ 31) True) days_bytes).
Proof.
  eapply recognises_ext; [|unfold decode_auto_lock_days; recognise].
  intros d e Hok. split.
  - intros H. open_format. unfold format_if in *. split_bytes_ok.
    assert (Hp : a = 0 ∨ a = 1) by eauto using bit_cases.
    destruct Hp; subst a; simpl in *; open_format; [done|].
    split; [|done]. simpl. unfold kMinAutoLockDays, kMaxAutoLockDays in *. lia.
  - intros [Hd ->]. destruct d as [d|]; cbn [from_option] in Hd.
    + apply (format_bind_intro _ _ 1 _ [1]); [done|]. build_format.
      unfold kMinAutoLockDays, kMaxAutoLockDays in *. lia.
    + apply (format_bind_intro _ _ 0 _ [0] []); [done|]. build_format.
Qed.

#[local] Hint Resolve recognises_wifi recognises_auto_lock_days : m5.

Definition common_bytes (b : list CredentialRecord * option WifiRecord) : bytes :=
  be_bytes 2 (Z.of_nat (length (fst b))) ++ (fst b ≫= record_bytes) ++ wifi_bytes (snd b).
Definition common_ok (b : list CredentialRecord * option WifiRecord) : Prop :=
  (length (fst b) ≤ kMaxCredentials)%nat ∧ NoDup (credential_id <$> fst b) ∧
  Forall record_encodable (fst b) ∧ Forall record_wf (fst b) ∧
  from_option (λ w, wifi_encodable w ∧ wifi_wf w) True (snd b).

Lemma recognises_common_body : recognises decode_common_body (exactly common_ok common_bytes).
Proof.
  eapply recognises_ext; [|unfold decode_common_body; recognise].
  intros [rs w] e Hok. unfold common_ok, common_bytes, fresh_ids, kMaxCredentials. cbn [fst snd]. split.
  - intros H. open_format. simplify_eq. destruct_and!.
    rewrite ?app_nil_r. unfold is_u16, kMaxCredentials in *.
    rewrite negb_true_iff, Z.gtb_ltb, Z.ltb_ge in *. split; [split_and!; try done; simpl; lia|].
    cbn [fst snd]. rewrite app_nil_l. do 2 f_equal. lia.
  - intros [(Hn & Hd & He & Hr & Hw) ->].
    eapply format_bind_intro; [split; [|reflexivity]; unfold is_u16, u16_max; lia|].
    apply format_check_intro.
    { unfold kMaxCredentials. rewrite negb_true_iff, Z.gtb_ltb, Z.ltb_ge. lia. }
    eapply format_bind_intro; [split; [|reflexivity]; rewrite Nat2Z.id; split_and!; try done|].
    { apply Forall_true. set_solver. }
    build_format.
Qed.

#[local] Hint Resolve recognises_common_body : m5.

Lemma recognises_format :
  recognises detect_format (exactly (λ f, f = 1 ∨ f = 2) magic_bytes).
Proof.
  eapply recognises_ext; [|unfold detect_format; recognise].
  intros f e _. unfold kVaultFormatVersion1, kVaultFormatVersion2. split.
  - intros H. open_format. unfold format_if in *. case_bool_decide; [subst|].
    { open_format. split; [by left|done]. }
    case_bool_decide; [subst|]; open_format; [|done]. split; [by right|done].
  - intros [[-> | ->] ->]; (eapply format_bind_last; [by split|]); by vm_compute.
Qed.

Definition body_format : format (VaultPlaintext * Z) :=
  λ b e, (encodable (fst b) (snd b) ∧ plaintext_wf (fst b)) ∧
    e = plaintext_bytes (fst b) (snd b).

#[local] Hint Resolve recognises_format : m5.

Lemma body_ok_split v f :
  encodable v f ∧ plaintext_wf v ↔
  common_ok (credentials v, wifi v) ∧
  (f = 1 ∧ auto_lock_days v = None ∨
   f = 2 ∧ from_option (λ d, 1 ≤ d ≤ 31) True (auto_lock_days v)).
Proof.
  unfold encodable, plaintext_wf, common_ok, wifi_wf, is_byte. cbn [fst snd].
  destruct (wifi v), (auto_lock_days v); simpl; intuition (done || lia).
Qed.

Lemma plaintext_bytes_split v f :
  plaintext_bytes v f =
  magic_bytes f ++ be_bytes 2 f ++ common_bytes (credentials v, wifi v) ++
  (if f =? 2 then days_bytes (auto_lock_days v) else []).
Proof. unfold plaintext_bytes, common_bytes. cbn [fst snd]. by rewrite <- !app_assoc. Qed.

Lemma recognises_body : recognises decode_body body_format.
Proof.
  eapply recognises_ext; [|unfold decode_body; recognise].
  intros [v f] e _. unfold body_format, kVaultFormatVersion1. cbn [fst snd].
  rewrite body_ok_split, plaintext_bytes_split. split.
  - intros H. open_format.
    match goal with H : (_ =? _) = true |- _ => apply Z.eqb_eq in H; subst end.
    unfold format_if in *. cbn beta in *. match goal with H : _ = 1 ∨ _ = 2 |- _ => destruct H; subst end;
      cbn [Z.eqb Pos.eqb] in *; open_format; unfold format_ret in *; destruct_and!; simplify_eq;
      cbn [credentials wifi auto_lock_days]; rewrite ?app_nil_r, ?app_nil_l;
      destruct a2.
    + split; [split; [done|by left]|]. done.
    + split; [split; [done|by right]|]. done.
  - destruct v as [rs w d]. cbn [credentials wifi auto_lock_days].
    intros [[Hc [[-> ->]|[-> Hd]]] ->].
    + eapply format_bind_intro; [split; [by left|done]|]. build_format.
    + eapply format_bind_intro; [split; [by right|done]|]. build_format.
Qed.

Lemma decode_plaintext_spec bs v f :
  bytes_ok bs →
  decode_plaintext bs = Some (v, f) ↔
  (encodable v f ∧ plaintext_wf v) ∧ bs = plaintext_bytes v f.
Proof. apply (run_parser_spec decode_body body_format recognises_body bs (v, f)). Qed.

(** ** Properties *)

#[export] Instance from_option_dec {A} (P : A → Prop) `{∀ a, Decision (P a)} (o : option A) :
  Decision (from_option P True o).
Proof. destruct o; simpl; apply _. Defined.

#[export] Instance encodable_dec v f : Decision (encodable v f).
Proof. unfold encodable, wifi_encodable. apply _. Defined.

Lemma plaintext_bytes_ok v f :
  encodable v f → plaintext_wf v → bytes_ok (plaintext_bytes v f).
Proof.
  intros He Hw. pose proof (proj1 (body_ok_split v f) (conj He Hw)) as [(_ & _ & Hrs & Hwf & Hwi) Hd].
  unfold plaintext_bytes. rewrite !Forall_app. split_and!; try apply be_bytes_ok.
  - unfold magic_bytes. destruct (_ =? 1); (eapply bool_decide_unpack; by vm_compute).
  - simpl in Hrs, Hwf. apply Forall_bind. eapply Forall_impl; [exact (proj2 (Forall_and _ _) (conj Hrs Hwf))|].
    intros r ((Hs & ? & _ & ? & ? & ?) & (? & ? & ? & ? & ? & ? & ? & ? & ?)). unfold compose, record_bytes.
    unfold kMaxSecretBytes in Hs.
    rewrite !Forall_app, !sized_ok, !Forall_singleton
      by (first [by apply text_ok_length|lia]).
    split_and!; try done; try apply be_bytes_ok; by unfold is_byte.
  - destruct (wifi v) as [w|]; [|by repeat constructor]. destruct Hwi as [[? ?] [? ?]]. unfold wifi_bytes.
    rewrite !Forall_app, !sized_ok, Forall_singleton by by apply text_ok_length. by unfold is_byte.
  - destruct (f =? 2); [|done]. destruct Hw as (_ & _ & Hb).
    destruct (auto_lock_days v); unfold days_bytes; rewrite ?Forall_app, ?Forall_singleton;
      [done|unfold is_byte; lia].
Qed.

(** C14: Round trip.  Whatever Vault [encode_plaintext] accepts, decoding the
    bytes it writes gives the same Vault back, in the same format. *)
Theorem decode_encode v f encoded :
  plaintext_wf v → encode_plaintext v f = Some encoded →
  decode_plaintext encoded = Some (v, f).
Proof.
  rewrite encode_plaintext_spec. intros Hw [He ->].
  apply decode_plaintext_spec; [by apply plaintext_bytes_ok|done].
Qed.

(** C13: Canonicity.  A byte string [decode_plaintext] accepts is the one encoding
    of the Vault it returns: no two different plaintexts decode to one Vault,
    no trailing byte, oversized length, duplicate identifier or malformed text
    gets through. *)
Theorem decode_canonical encoded v f :
  bytes_ok encoded → decode_plaintext encoded = Some (v, f) →
  plaintext_wf v ∧ encode_plaintext v f = Some encoded.
Proof.
  intros Hok [[He Hw] ->]%decode_plaintext_spec; [|done]. split; [done|].
  by apply encode_plaintext_spec.
Qed.

(** [encode_plaintext] is total on the Vaults that satisfy the documented
    limits and writes the documented layout; it refuses exactly the others. *)
Theorem encode_plaintext_exact v f :
  encode_plaintext v f = if decide (encodable v f) then Some (plaintext_bytes v f) else None.
Proof.
  case_decide as He.
  - by apply encode_plaintext_spec.
  - destruct (encode_plaintext v f) eqn:E; [|done].
    by apply encode_plaintext_spec in E as [? _].
Qed.

Definition sample_credential : CredentialRecord :=
  mkCredential (replicate 16 7) [1; 2; 3] (str "Example") (str "alice") [0xc3; 0xa9] kSha1 6 30 1.
Definition sample_vault : VaultPlaintext :=
  mkPlaintext [sample_credential] (Some (mkWifi (str "net") (str "pass"))) (Some 7).
Definition sample_encoding : bytes := Eval vm_compute in plaintext_bytes sample_vault 2.

Lemma decode_encode_witness :
  plaintext_wf sample_vault ∧ decode_plaintext sample_encoding = Some (sample_vault, 2).
Proof.
  assert (Hw : plaintext_wf sample_vault).
  { split_and!; repeat constructor; by vm_compute. }
  split; [exact Hw|]. exact (decode_encode sample_vault 2 sample_encoding Hw ltac:(vm_compute; reflexivity)).
Defined.

Lemma decode_canonical_witness :
  plaintext_wf sample_vault ∧ encode_plaintext sample_vault 2 = Some sample_encoding.
Proof.
  apply (decode_canonical sample_encoding sample_vault 2).
  - apply (bool_decide_unpack _). vm_compute. exact I.
  - vm_compute. reflexivity.
Defined.

(** ** Authenticated data *)

Definition aad_magic_bytes (f : Z) : bytes :=
  if f =? 1 then kVaultAadMagicV1 else kVaultAadMagicV2.

Lemma build_vault_aad_spec id gen f schema aad :
  build_vault_aad id gen f schema = Some aad ↔
  (f = 1 ∨ f = 2) ∧ schema = 2 ∧
  aad = aad_magic_bytes f ++ be_bytes 2 f ++ be_bytes 2 schema ++ id ++ be_bytes 8 gen.
Proof.
  unfold build_vault_aad, is_supported_vault_format, kVaultFormatVersion1,
    kVaultFormatVersion2, kTargetStorageSchemaVersion, aad_magic, aad_magic_bytes.
  destruct (Z.eqb_spec f 1), (Z.eqb_spec f 2), (Z.eqb_spec schema 2); subst; try done;
    simpl; rewrite ?append_u64_be, ?append_u16_be, <- ?app_assoc; naive_solver.
Qed.

Lemma build_vmk_wrap_aad_spec id p w aad :
  build_vmk_wrap_aad id p w = Some aad ↔
  p = 1 ∧ w = 1 ∧ aad = kVmkWrapAadMagic ++ be_bytes 2 p ++ be_bytes 2 w ++ id.
Proof.
  unfold build_vmk_wrap_aad, kRecoveryPackageVersion, kVmkWrapVersion.
  destruct (Z.eqb_spec p 1), (Z.eqb_spec w 1); subst;
    simpl; rewrite ?append_u16_be, <- ?app_assoc; naive_solver.
Qed.

(** C29: The authenticated data of a Vault binds its identifier, generation,
    format and storage schema, that of a wrapped VMK binds the identifier and
    versions, and neither is ever the other: a ciphertext cannot be moved
    between Vaults, generations, formats or uses. *)
Theorem aad_binding id gen f schema id' gen' f' schema' p w p' w' aad aad' :
  length id = 16%nat → length id' = 16%nat → is_u64 gen → is_u64 gen' →
  build_vault_aad id gen f schema = Some aad →
  build_vmk_wrap_aad id p w = Some aad' →
  aad ≠ aad' ∧
  (build_vault_aad id' gen' f' schema' = Some aad →
     id' = id ∧ gen' = gen ∧ f' = f ∧ schema' = schema) ∧
  (build_vmk_wrap_aad id' p' w' = Some aad' → id' = id ∧ p' = p ∧ w' = w).
Proof.
  rewrite !build_vault_aad_spec, !build_vmk_wrap_aad_spec.
  intros Hl Hl' Hg Hg' (Hf & -> & ->) (-> & -> & ->).
  assert (Hm : ∀ f, f = 1 ∨ f = 2 → length (aad_magic_bytes f) = 16%nat) by by intros ? [-> | ->].
  split_and!.
  - intros E. apply (f_equal (λ l, l !! 8%nat)) in E. by destruct Hf as [-> | ->].
  - intros (Hf' & -> & E). apply app_inj_1 in E as [_ E]; [|by rewrite !Hm].
    apply app_inj_1 in E as [Ef E]; [|by rewrite !be_bytes_length].
    apply app_inj_1 in E as [_ E]; [|by rewrite !be_bytes_length].
    apply app_inj_1 in E as [-> E]; [|congruence].
    unfold is_u64, u64_max in *. apply be_bytes_inj in E; [|lia..].
    apply be_bytes_inj in Ef; [|lia..]. done.
  - intros (-> & -> & E). apply app_inv_head in E. by repeat apply app_inv_head in E.
Qed.

Lemma aad_binding_witness :
  ∃ aad aad', aad ≠ aad' ∧
    (build_vault_aad (replicate 16 3) 9 2 2 = Some aad →
       replicate 16 3 = replicate 16 3 ∧ 9 = 9 ∧ 2 = 2 ∧ 2 = 2) ∧
    (build_vmk_wrap_aad (replicate 16 3) 1 1 = Some aad' →
       replicate 16 3 = replicate 16 3 ∧ 1 = 1 ∧ 1 = 1).
Proof.
  eexists _, _.
  refine (aad_binding (replicate 16 3) 9 2 2 (replicate 16 3) 9 2 2 1 1 1 1 _ _ _ _ _ _ _ _);
    first [reflexivity | vm_compute; split; discriminate].
Defined.
