(* ===== verification/VaultCrypto.v ===== *)
(** * Vault encryption

    [m5auth_vault/vault_crypto.cpp], the firmware (mbed TLS) configuration:
    [encrypt_vault], [decrypt_vault] and the wrapping of the Vault Master Key.
    AES-256-GCM itself is mbed TLS's; its three entry points are the members of
    the class [MbedtlsGcm], and what is relied on of them is [GcmLaws]. *)

From S2P Require Import Prelude Bytes ByteReader Utf8 VaultFormat.

Record VmkWrapEnvelope := mkWrap {
  package_version : Z;
  wrap_version : Z;
  wrap_vault_id : bytes;
  wrap_nonce : bytes;
  wrap_ciphertext : bytes;
  wrap_tag : bytes;
}.

(** Return codes (0 is success) and the bytes written to the output buffers. *)
Class MbedtlsGcm := {
  mbedtls_gcm_setkey : bytes → Z;
  mbedtls_gcm_crypt_and_tag : ∀ (key nonce aad plaintext : bytes), Z * bytes * bytes;
  mbedtls_gcm_auth_decrypt : ∀ (key nonce aad tag ciphertext : bytes), Z * bytes;
}.

(** The documented behaviour of authenticated encryption: 256-bit keys are
    accepted, encryption keeps the length and yields a 16-byte tag, and
    decryption succeeds exactly on what encryption produces. *)
Class GcmLaws `{MbedtlsGcm} : Prop := {
  gcm_setkey_256 key : length key = kVmkBytes → mbedtls_gcm_setkey key = 0;
  gcm_lengths key nonce aad p c t :
    mbedtls_gcm_crypt_and_tag key nonce aad p = (0, c, t) →
    length c = length p ∧ length t = kVaultTagBytes;
  gcm_encrypts key nonce aad p : ∃ c t, mbedtls_gcm_crypt_and_tag key nonce aad p = (0, c, t);
  gcm_decrypts key nonce aad p c t :
    mbedtls_gcm_auth_decrypt key nonce aad t c = (0, p) ↔
    mbedtls_gcm_crypt_and_tag key nonce aad p = (0, c, t);
}.

Section Crypto.
Context `{MbedtlsGcm}.

(** The output vector starts as zeros, one byte longer than the text. *)
Definition aes_gcm_encrypt (plaintext key nonce aad : bytes) : option (bytes * bytes) :=
  if mbedtls_gcm_setkey key =? 0 then
    let '(code, ciphertext, tag) := mbedtls_gcm_crypt_and_tag key nonce aad plaintext in
    if code =? 0 then Some (resize (length plaintext) 0 ciphertext, tag) else None
  else None.

Definition aes_gcm_decrypt (ciphertext key nonce aad tag : bytes) : option bytes :=
  if mbedtls_gcm_setkey key =? 0 then
    let '(code, plaintext) := mbedtls_gcm_auth_decrypt key nonce aad tag ciphertext in
    if code =? 0 then Some (resize (length ciphertext) 0 plaintext) else None
  else None.

Definition encrypt_vault_with_nonce (plaintext vmk vault_id : bytes) (generation : Z)
    (nonce : bytes) (vault_format_version : Z) : option VaultEnvelope :=
  if negb (is_supported_vault_format vault_format_version) then None
  else
    aad ← build_vault_aad vault_id generation vault_format_version kTargetStorageSchemaVersion;
    '(ciphertext, tag) ← aes_gcm_encrypt plaintext vmk nonce aad;
    Some (mkEnvelope vault_format_version kTargetStorageSchemaVersion vault_id generation
            nonce ciphertext tag).

(** [esp_fill_random] draws from the hardware generator, a state of type [RNG]. *)
Definition encrypt_vault {RNG} (esp_fill_random : nat → RNG → bytes * RNG)
    (plaintext vmk vault_id : bytes) (generation vault_format_version : Z) (rng : RNG)
    : option VaultEnvelope * RNG :=
  let '(nonce, rng) := esp_fill_random kVaultNonceBytes rng in
  (encrypt_vault_with_nonce plaintext vmk vault_id generation nonce vault_format_version, rng).

Definition decrypt_vault (envelope : VaultEnvelope) (vmk : bytes) : option bytes :=
  if negb (is_supported_vault_format (vault_format_version envelope))
     || negb (storage_schema_version envelope =? kTargetStorageSchemaVersion) then None
  else
    aad ← build_vault_aad (vault_id envelope) (generation envelope)
            (vault_format_version envelope) (storage_schema_version envelope);
    aes_gcm_decrypt (ciphertext envelope) vmk (nonce envelope) aad (tag envelope).

Definition wrap_vmk_with_key_and_nonce (vmk wrapping_key vault_id nonce : bytes)
    : option VmkWrapEnvelope :=
  aad ← build_vmk_wrap_aad vault_id kRecoveryPackageVersion kVmkWrapVersion;
  '(ciphertext, tag) ← aes_gcm_encrypt vmk wrapping_key nonce aad;
  if negb (Nat.eqb (length ciphertext) kVmkBytes) then None
  else Some (mkWrap kRecoveryPackageVersion kVmkWrapVersion vault_id nonce ciphertext tag).

Definition unwrap_vmk_with_key (envelope : VmkWrapEnvelope) (wrapping_key : bytes)
    : option bytes :=
  if negb (package_version envelope =? kRecoveryPackageVersion)
     || negb (wrap_version envelope =? kVmkWrapVersion) then None
  else
    aad ← build_vmk_wrap_aad (wrap_vault_id envelope) (package_version envelope)
            (wrap_version envelope);
    plaintext ← aes_gcm_decrypt (wrap_ciphertext envelope) wrapping_key
                  (wrap_nonce envelope) aad (wrap_tag envelope);
    if negb (Nat.eqb (length plaintext) kVmkBytes) then None else Some plaintext.
End Crypto.

(** ** Theorems *)

Section CryptoLaws.
Context `{GcmLaws}.

Lemma aes_gcm_decrypt_spec c key nonce aad t p :
  aes_gcm_decrypt c key nonce aad t = Some p ↔ aes_gcm_encrypt p key nonce aad = Some (c, t).
Proof.
  unfold aes_gcm_decrypt, aes_gcm_encrypt. destruct (mbedtls_gcm_setkey key =? 0); [|done].
  split.
  - destruct (mbedtls_gcm_auth_decrypt key nonce aad t c) as [code p'] eqn:E.
    destruct (Z.eqb_spec code 0) as [->|]; [|done]. intros [= <-].
    apply gcm_decrypts in E. pose proof (gcm_lengths _ _ _ _ _ _ E) as [Hl _].
    rewrite resize_all_alt, E by done. simpl. by rewrite resize_all_alt.
  - destruct (mbedtls_gcm_crypt_and_tag key nonce aad p) as [[code c'] t'] eqn:E.
    destruct (Z.eqb_spec code 0) as [->|]; [|done]. intros [= <- ->].
    pose proof (gcm_lengths _ _ _ _ _ _ E) as [Hl _].
    apply gcm_decrypts in E. rewrite resize_all_alt, E by done. simpl.
    by rewrite resize_all_alt.
Qed.

Lemma aes_gcm_encrypt_some p key nonce aad :
  length key = kVmkBytes → ∃ c t, aes_gcm_encrypt p key nonce aad = Some (c, t) ∧
    length c = length p ∧ length t = kVaultTagBytes.
Proof.
  intros Hk. unfold aes_gcm_encrypt. rewrite gcm_setkey_256 by done. simpl.
  destruct (gcm_encrypts key nonce aad p) as (c & t & E). rewrite E. simpl.
  pose proof (gcm_lengths _ _ _ _ _ _ E) as [Hl ?]. rewrite resize_all_alt by done. eauto.
Qed.

(** C30: Decrypting an envelope succeeds exactly when the envelope is the result of
    encrypting the returned plaintext under the same key, with the
    identifier, generation, format and nonce the envelope carries: no other
    header, body, nonce or tag opens. *)
Theorem decrypt_vault_exact envelope vmk plaintext :
  decrypt_vault envelope vmk = Some plaintext ↔
  encrypt_vault_with_nonce plaintext vmk (vault_id envelope) (generation envelope)
    (nonce envelope) (vault_format_version envelope) = Some envelope.
Proof.
  destruct envelope as [f s id g n c t]. unfold decrypt_vault, encrypt_vault_with_nonce.
  cbn [vault_id generation nonce vault_format_version storage_schema_version ciphertext tag].
  destruct (is_supported_vault_format f) eqn:Ef; [|done]. cbn [negb orb].
  destruct (Z.eqb_spec s kTargetStorageSchemaVersion) as [->|Hs]; cbn [negb].
  - destruct (build_vault_aad id g f kTargetStorageSchemaVersion) as [aad|]; [|done]. cbn.
    rewrite aes_gcm_decrypt_spec.
    destruct (aes_gcm_encrypt plaintext vmk n aad) as [[c' t']|]; simpl; naive_solver.
  - split; [done|]. intros (aad & _ & E)%bind_Some.
    apply bind_Some in E as ([c' t'] & _ & E). naive_solver.
Qed.

(** Wrapping a 32-byte key with a 32-byte wrapping key always succeeds, and
    unwrapping returns a key exactly for the envelopes wrapping it produces. *)
Theorem wrap_vmk_exact vmk wrapping_key id nonce :
  length vmk = kVmkBytes → length wrapping_key = kVmkBytes →
  ∃ envelope,
    wrap_vmk_with_key_and_nonce vmk wrapping_key id nonce = Some envelope ∧
    ∀ envelope' vmk',
      unwrap_vmk_with_key envelope' wrapping_key = Some vmk' ↔
      length vmk' = kVmkBytes ∧
      wrap_vmk_with_key_and_nonce vmk' wrapping_key (wrap_vault_id envelope')
        (wrap_nonce envelope') = Some envelope'.
Proof.
  intros Hv Hk. unfold wrap_vmk_with_key_and_nonce at 1.
  change (build_vmk_wrap_aad id kRecoveryPackageVersion kVmkWrapVersion)
    with (Some (append_u16 (append_u16 kVmkWrapAadMagic 1) 1 ++ id)).
  cbn [mbind option_bind].
  edestruct (aes_gcm_encrypt_some vmk wrapping_key nonce) as (c & t & E & Hc & _); [done|].
  rewrite E. cbn [mbind option_bind]. rewrite Hc, Hv. eexists. split; [done|]. clear E Hc c t.
  intros [p w i n c t] vmk'. unfold unwrap_vmk_with_key, wrap_vmk_with_key_and_nonce.
  cbn [package_version wrap_version wrap_vault_id wrap_nonce wrap_ciphertext wrap_tag].
  destruct (Z.eqb_spec p kRecoveryPackageVersion) as [->|Hp],
    (Z.eqb_spec w kVmkWrapVersion) as [->|Hw]; cbn [negb orb];
    destruct (build_vmk_wrap_aad i kRecoveryPackageVersion kVmkWrapVersion) as [aad|];
    cbn [mbind option_bind]; try (by split; [|intros [_ ?]]).
  2-4: split; [done|]; intros [_ E]; apply bind_Some in E as ([] & _ & E); cbv beta iota in E; case_match; [done|];
    congruence.
  split.
  - intros (p' & Ep & Ec)%bind_Some. apply aes_gcm_decrypt_spec in Ep.
    destruct (Nat.eqb_spec (length p') kVmkBytes); [|done]. injection Ec as ->.
    rewrite Ep. cbn. split; [done|].
    assert (length c = length vmk') as ->; [|by rewrite e].
    edestruct (aes_gcm_encrypt_some vmk' wrapping_key n) as (c1 & t1 & E1 & Hc1 & _); [done|].
    rewrite Ep in E1. by injection E1 as -> _.
  - intros [Hl E]. apply bind_Some in E as ([c' t'] & Ee & Ec). cbn in Ec. case_match; [done|].
    injection Ec as -> ->. apply aes_gcm_decrypt_spec in Ee. rewrite Ee. cbn.
    by rewrite Hl.
Qed.
End CryptoLaws.

(** ** A concrete cipher that satisfies the laws

    The text in clear with a checksum of everything as the tag: enough to
    evaluate the definitions on concrete inputs. *)

Definition checksum (data : bytes) : bytes :=
  be_bytes 16 (foldl (λ acc b, (acc * 31 + b) mod 2 ^ 128) 7 data).

Definition checksum_tag (key nonce aad plaintext : bytes) : bytes :=
  checksum (key ++ [256] ++ nonce ++ [256] ++ aad ++ [256] ++ plaintext).

Definition checksum_gcm : MbedtlsGcm := {|
  mbedtls_gcm_setkey key := if Nat.eqb (length key) kVmkBytes then 0 else -1;
  mbedtls_gcm_crypt_and_tag key nonce aad p := (0, p, checksum_tag key nonce aad p);
  mbedtls_gcm_auth_decrypt key nonce aad t c :=
    if bool_decide (t = checksum_tag key nonce aad c) then (0, c) else (-1, []);
|}.

Lemma checksum_gcm_laws : @GcmLaws checksum_gcm.
Proof.
  split; simpl.
  - intros key ->. done.
  - intros key nonce aad p c t [= <- <-]. by unfold checksum_tag, checksum; rewrite be_bytes_length.
  - eauto.
  - intros key nonce aad p c t. case_bool_decide; naive_solver.
Qed.

Definition sample_key : bytes := seqZ 1 32.
Definition sample_vault_id : bytes := seqZ 100 16.
Definition sample_nonce : bytes := seqZ 40 12.
Definition sample_envelope : VaultEnvelope :=
  Eval vm_compute in
  default empty_envelope
    (@encrypt_vault_with_nonce checksum_gcm [1; 2; 3] sample_key sample_vault_id 5 sample_nonce 2).

Lemma decrypt_vault_exact_witness :
  @decrypt_vault checksum_gcm sample_envelope sample_key = Some [1; 2; 3] ∧
  @decrypt_vault checksum_gcm (sample_envelope <| generation := 6 |>) sample_key = None.
Proof.
  split; [|vm_compute; reflexivity].
  apply (@decrypt_vault_exact checksum_gcm checksum_gcm_laws). vm_compute. reflexivity.
Defined.

Lemma wrap_vmk_exact_witness :
  ∃ envelope, @wrap_vmk_with_key_and_nonce checksum_gcm sample_key (seqZ 7 32) sample_vault_id
                sample_nonce = Some envelope.
Proof.
  destruct (@wrap_vmk_exact checksum_gcm checksum_gcm_laws sample_key (seqZ 7 32)
              sample_vault_id sample_nonce) as (e & He & _); [reflexivity..|].
  exists e. exact He.
Defined.
