(* ===== verification/Persistence.v ===== *)
(** * The persistence interface of the Vault runtime

    The status codes and the abstract class [Persistence] of
    [m5auth/vault_runtime/runtime.hpp], which the runtime is written against
    and the NVS implementation provides.  [Persistence P] gives the five
    virtual functions on a store of type [P]; [PersistenceLaws] is the contract
    their comments state, in terms of a logical content of the store. *)

From S2P Require Import Prelude Bytes ByteReader VaultFormat.

Definition kStorageSchemaVersion : Z := 2.
Definition kMaxPersistedCiphertextBytes : nat := Z.to_nat (64 * 1024).
Definition kMillisecondsPerDay : Z := 86400000.

Inductive Status :=
  | kOk | kNotReady | kUnprovisioned | kLocked | kInvalidState | kInvalidArgument
  | kNotFound | kReprovisionRequired | kUnsupportedSchema | kUnsupportedVaultFormat
  | kGenerationMismatch | kAuthenticationFailed | kCorrupt | kIo.

#[export] Instance status_eq_dec : EqDecision Status.
Proof. solve_decision. Defined.

Definition status_code (status : Status) : string :=
  match status with
  | kOk => "ok" | kNotReady => "not_ready" | kUnprovisioned => "unprovisioned"
  | kLocked => "locked" | kInvalidState => "invalid_state"
  | kInvalidArgument => "invalid_argument" | kNotFound => "not_found"
  | kReprovisionRequired => "reprovision_required"
  | kUnsupportedSchema => "unsupported_schema"
  | kUnsupportedVaultFormat => "unsupported_vault_format"
  | kGenerationMismatch => "generation_mismatch"
  | kAuthenticationFailed => "authentication_failed" | kCorrupt => "corrupt"
  | kIo => "io_error"
  end.

(** [status == Status::kOk] and its negation, as the sources test them. *)
Definition is_ok (status : Status) : bool := bool_decide (status = kOk).

Lemma is_ok_true status : is_ok status = true ↔ status = kOk.
Proof. apply bool_decide_eq_true. Qed.
Lemma is_ok_false status : is_ok status = false ↔ status ≠ kOk.
Proof. apply bool_decide_eq_false. Qed.

Record PersistedSnapshot := mkSnapshot {
  schema_ready : bool;
  has_vault : bool;
  envelope : VaultEnvelope;
  last_used : option bytes;
}.

Definition empty_snapshot : PersistedSnapshot := mkSnapshot false false empty_envelope None.

#[export] Instance snapshot_eq_dec : EqDecision PersistedSnapshot.
Proof. solve_decision. Defined.

(** [load] returns its status and what it leaves in the caller's snapshot. *)
Class Persistence (P : Type) := {
  load : P → (Status * PersistedSnapshot) * P;
  format_schema2 : P → Status * P;
  replace_envelope : Z → VaultEnvelope → P → Status * P;
  persist_last_used : option bytes → P → Status * P;
  erase_all : P → Status * P;
}.

(** What a store promises its client, in terms of a logical [content]: [None]
    before any schema, otherwise the snapshot that loading gives.  A call may
    fail; one that succeeds has had its whole effect, and replacing the envelope
    is atomic, whatever it returns. *)
Definition replaced (snap : PersistedSnapshot) (e : VaultEnvelope) : PersistedSnapshot :=
  mkSnapshot true true e (last_used snap).

Class PersistenceLaws (P : Type) `{Persistence P} := {
  content : P → option PersistedSnapshot;
  store_ok : P → Prop;
  load_law p st snap p' : store_ok p → load p = ((st, snap), p') →
    store_ok p' ∧ content p' = content p ∧
    (st = kOk → content p = Some snap ∧ schema_ready snap = true);
  format_law p p' : store_ok p → format_schema2 p = (kOk, p') →
    store_ok p' ∧ content p' = Some (mkSnapshot true false empty_envelope None);
  replace_law p expected e st p' : store_ok p → replace_envelope expected e p = (st, p') →
    store_ok p' ∧
    (content p' = content p ∨ ∃ snap, content p = Some snap ∧ content p' = Some (replaced snap e)) ∧
    (st = kOk → ∃ snap, content p = Some snap ∧ content p' = Some (replaced snap e) ∧
       if has_vault snap then generation (envelope snap) = expected else expected = 0);
  last_used_law p id p' : store_ok p → from_option (λ i, length i = kCredentialIdBytes) True id →
    persist_last_used id p = (kOk, p') →
    store_ok p' ∧ ∀ snap, content p = Some snap →
      content p' = Some (mkSnapshot (schema_ready snap) (has_vault snap) (envelope snap) id);
  erase_law p p' : store_ok p → erase_all p = (kOk, p') → store_ok p' ∧ content p' = None;
}.

(** ** A store in memory

    The content itself, every call succeeding when the content allows it: the
    least implementation of the contract. *)

Definition MemoryStore : Type := option PersistedSnapshot.

Definition memory_replace (expected : Z) (e : VaultEnvelope) (p : MemoryStore)
    : Status * MemoryStore :=
  match p with
  | None => (kNotFound, p)
  | Some snap =>
    if (if has_vault snap then generation (envelope snap) =? expected else expected =? 0)
    then (kOk, Some (replaced snap e)) else (kGenerationMismatch, p)
  end.

#[export] Instance memory_persistence : Persistence MemoryStore := {|
  load p := match p with
            | Some snap => ((kOk, snap), p)
            | None => ((kUnprovisioned, empty_snapshot), p)
            end;
  format_schema2 p := (kOk, Some (mkSnapshot true false empty_envelope None));
  replace_envelope := memory_replace;
  persist_last_used id p :=
    match p with
    | Some snap => (kOk, Some (mkSnapshot (schema_ready snap) (has_vault snap) (envelope snap) id))
    | None => (kNotFound, p)
    end;
  erase_all p := (kOk, None);
|}.

#[export] Instance memory_laws : PersistenceLaws MemoryStore.
Proof.
  refine {| content := λ p, p; store_ok := λ p, ∀ snap, p = Some snap → schema_ready snap = true |}.
  - intros p st snap p' Hp E. destruct p as [s|]; injection E as <- <- <-; [|done].
    split_and!; auto.
  - intros p p' Hp [= <-]. split; [|done]. by intros ? [= <-].
  - intros p expected e st p' Hp E. cbn in E. unfold memory_replace in E.
    destruct p as [snap|]; [|injection E as <- <-; by split_and!; [done|left|]].
    assert (Hx : ∀ b : bool, (if b then generation (envelope snap) =? expected else expected =? 0) = true →
      if b then generation (envelope snap) = expected else expected = 0).
    { intros []; by rewrite Z.eqb_eq. }
    specialize (Hx (has_vault snap)).
    destruct (if has_vault snap then _ else _); injection E as <- <-; [|split_and!; [done|by left|done]].
    split_and!; [by intros ? [= <-]|eauto|intros _; exists snap; split_and!; auto]. by apply Hx.
  - intros p id p' Hp _ E. destruct p as [snap|]; [|done]. injection E as <-.
    split; [|by intros ? [= <-]]. intros ? [= <-]. cbn. by apply Hp.
  - intros p p' Hp [= <-]. by split.
Defined.
