(* ===== verification/Runtime.v ===== *)
(** * The Vault runtime

    [m5auth_vault_runtime/runtime.cpp], [rekey.cpp] and [metadata.cpp]: the
    object that holds the encrypted Vault, the resident key and the lock state,
    one definition per member function.  The store behind it is any
    implementation of the class [Persistence].

    A member function is a function from the [Runtime] to its status and the
    [Runtime] it leaves; consumers passed to [with_credential] and [with_wifi]
    act on a state of their own, threaded next to the runtime. *)

From S2P Require Import Prelude Bytes ByteReader Utf8 VaultFormat VaultCrypto Persistence.

Module State.
Inductive t := kUnprovisioned | kReprovisionRequired | kLocked | kUnlocked | kError.
#[export] Instance eq_dec : EqDecision t.
Proof. solve_decision. Defined.
Definition eqb (a b : t) : bool := bool_decide (a = b).
Lemma eqb_true a b : eqb a b = true ↔ a = b.
Proof. apply bool_decide_eq_true. Qed.
Lemma eqb_false a b : eqb a b = false ↔ a ≠ b.
Proof. apply bool_decide_eq_false. Qed.
End State.

Record Runtime (P : Type) := mkRuntime {
  persistence_ : P;
  initialized_ : bool;
  schema_ready_ : bool;
  has_vault_ : bool;
  recovery_reset_allowed_ : bool;
  state_ : State.t;
  envelope_ : VaultEnvelope;
  last_used_ : option bytes;
  vmk_ : bytes;
  vmk_present_ : bool;
  auto_lock_days_ : option Z;
  unlocked_since_ms_ : Z;
  unlock_session_active_ : bool;
}.
Arguments mkRuntime {P}.
Arguments persistence_ {P}. Arguments initialized_ {P}. Arguments schema_ready_ {P}.
Arguments has_vault_ {P}. Arguments recovery_reset_allowed_ {P}. Arguments state_ {P}.
Arguments envelope_ {P}. Arguments last_used_ {P}. Arguments vmk_ {P}.
Arguments vmk_present_ {P}. Arguments auto_lock_days_ {P}.
Arguments unlocked_since_ms_ {P}. Arguments unlock_session_active_ {P}.

#[export] Instance eta_runtime P : Eta (Runtime P) := λ r,
  mkRuntime (persistence_ r) (initialized_ r) (schema_ready_ r) (has_vault_ r)
    (recovery_reset_allowed_ r) (state_ r) (envelope_ r) (last_used_ r) (vmk_ r)
    (vmk_present_ r) (auto_lock_days_ r) (unlocked_since_ms_ r) (unlock_session_active_ r).

(** The object as its constructor leaves it. *)
Definition new_runtime {P} (persistence : P) : Runtime P :=
  mkRuntime persistence false false false false State.kUnprovisioned empty_envelope None
    (zeros kVmkBytes) false None 0 false.

Record Metadata := mkMetadata {
  m_state : State.t;
  m_schema_ready : bool;
  m_has_vault : bool;
  m_recovery_reset_allowed : bool;
  m_storage_schema_version : Z;
  m_vault_format_version : Z;
  m_vault_id : bytes;
  m_generation : Z;
  m_last_used : option bytes;
}.

Record CredentialMetadata := mkCredentialMetadata {
  cm_credential_id : bytes;
  cm_issuer : bytes;
  cm_account : bytes;
  cm_display_name : bytes;
  cm_manual_order : Z;
}.

Definition valid_envelope_framing (envelope : VaultEnvelope) : bool :=
  is_supported_vault_format (vault_format_version envelope) &&
  (storage_schema_version envelope =? kTargetStorageSchemaVersion) &&
  negb (generation envelope =? 0) &&
  negb (Nat.eqb (length (ciphertext envelope)) 0) &&
  Nat.leb (length (ciphertext envelope)) kMaxPersistedCiphertextBytes.

(** Field by field. *)
Definition same_envelope (left right : VaultEnvelope) : bool :=
  (vault_format_version left =? vault_format_version right) &&
  (storage_schema_version left =? storage_schema_version right) &&
  bool_decide (vault_id left = vault_id right) &&
  (generation left =? generation right) &&
  bool_decide (nonce left = nonce right) &&
  bool_decide (ciphertext left = ciphertext right) &&
  bool_decide (tag left = tag right).

Definition explicit_reset_recovery_status (status : Status) : bool :=
  bool_decide (status = kCorrupt) || bool_decide (status = kUnsupportedSchema) ||
  bool_decide (status = kReprovisionRequired).

(** [std::stable_sort] by [manual_order]: insertion after the elements that are
    not greater. *)
Fixpoint insert_by {A} (key : A → Z) (x : A) (l : list A) : list A :=
  match l with
  | [] => [x]
  | y :: l' => if key x <=? key y then x :: l else y :: insert_by key x l'
  end.
Definition stable_sort_by {A} (key : A → Z) (l : list A) : list A :=
  foldr (insert_by key) [] l.

Section Runtime.
Context `{MbedtlsGcm} {P : Type} `{Persistence P}.

Definition op (A : Type) : Type := Runtime P → A * Runtime P.

(** A call through the reference [persistence_]. *)
Definition store {A} (f : P → A * P) : op A := λ r,
  let '(a, p) := f (persistence_ r) in (a, r <| persistence_ := p |>).

Definition wipe_vmk (r : Runtime P) : Runtime P :=
  r <| vmk_ := zeros kVmkBytes |> <| vmk_present_ := false |>.

Definition clear_unlock_session_state (r : Runtime P) : Runtime P :=
  wipe_vmk r <| auto_lock_days_ := None |> <| unlocked_since_ms_ := 0 |>
    <| unlock_session_active_ := false |>.

Definition begin_unlock_session (auto_lock_days : option Z) (now_ms : Z) (r : Runtime P)
    : Runtime P :=
  r <| auto_lock_days_ := auto_lock_days |> <| unlocked_since_ms_ := now_ms |>
    <| unlock_session_active_ := true |>.

Definition initialize : op Status := fn (
  modify clear_unlock_session_state;;
  modify (λ r, r <| initialized_ := true |> <| schema_ready_ := false |>
    <| has_vault_ := false |> <| recovery_reset_allowed_ := false |>
    <| envelope_ := empty_envelope |> <| last_used_ := None |>
    <| state_ := State.kUnprovisioned |>);;
  x ← call (store load);
  let '(status, snapshot) := x in
  leave_if (bool_decide (status = kUnprovisioned)) status;;
  if bool_decide (status = kReprovisionRequired) then
    modify (λ r, r <| state_ := State.kReprovisionRequired |>
      <| recovery_reset_allowed_ := true |>);;
    leave status
  else if negb (is_ok status) then
    modify (λ r, r <| state_ := State.kError |>
      <| recovery_reset_allowed_ := explicit_reset_recovery_status status |>);;
    leave status
  else if negb (schema_ready snapshot) then
    modify (λ r, r <| state_ := State.kError |> <| recovery_reset_allowed_ := true |>);;
    leave kCorrupt
  else
    modify (λ r, r <| schema_ready_ := true |> <| last_used_ := last_used snapshot |>);;
    leave_if (negb (has_vault snapshot)) kUnprovisioned;;
    let supported_format := is_supported_vault_format (vault_format_version (envelope snapshot)) in
    if negb (valid_envelope_framing (envelope snapshot)) then
      modify (λ r, r <| state_ := State.kError |>
        <| recovery_reset_allowed_ := supported_format |>);;
      leave (if supported_format then kCorrupt else kUnsupportedVaultFormat)
    else
      modify (λ r, r <| has_vault_ := true |> <| envelope_ := envelope snapshot |>
        <| state_ := State.kLocked |>);;
      mret kOk).

Definition reload_after_persistence : op Status := fn (
  x ← call (store load);
  let '(status, snapshot) := x in
  if negb (is_ok status) || negb (schema_ready snapshot) then
    modify (λ r, r <| state_ := State.kError |>
      <| recovery_reset_allowed_ := is_ok status || explicit_reset_recovery_status status |>);;
    modify clear_unlock_session_state;;
    leave (if is_ok status then kCorrupt else status)
  else
    modify (λ r, r <| recovery_reset_allowed_ := false |> <| schema_ready_ := true |>
      <| last_used_ := last_used snapshot |> <| has_vault_ := has_vault snapshot |>);;
    if negb (has_vault snapshot) then
      modify (λ r, r <| envelope_ := empty_envelope |> <| state_ := State.kUnprovisioned |>);;
      modify clear_unlock_session_state;;
      leave kOk
    else
      let supported_format := is_supported_vault_format (vault_format_version (envelope snapshot)) in
      if negb (valid_envelope_framing (envelope snapshot)) then
        modify (λ r, r <| state_ := State.kError |>
          <| recovery_reset_allowed_ := supported_format |>);;
        modify clear_unlock_session_state;;
        leave (if supported_format then kCorrupt else kUnsupportedVaultFormat)
      else
        modify (λ r, r <| envelope_ := envelope snapshot |> <| state_ := State.kLocked |>);;
        modify clear_unlock_session_state;;
        mret kOk).

Definition format_for_schema2 : op Status := fn (
  r ← get_state;
  leave_if (negb (initialized_ r)) kNotReady;;
  modify clear_unlock_session_state;;
  status ← call (store format_schema2);
  if negb (is_ok status) then
    modify (λ r, r <| state_ := State.kError |>
      <| recovery_reset_allowed_ := explicit_reset_recovery_status status |>);;
    leave status
  else call reload_after_persistence).

(** The status, and the policy written to [*auto_lock_days] on success. *)
Definition validate_envelope_with_key (envelope : VaultEnvelope) (vmk : bytes)
    : Status * option Z :=
  if negb (valid_envelope_framing envelope) then
    (if is_supported_vault_format (vault_format_version envelope)
     then kInvalidArgument else kUnsupportedVaultFormat, None)
  else
    match decrypt_vault envelope vmk with
    | None => (kAuthenticationFailed, None)
    | Some encoded_plaintext =>
      match decode_plaintext encoded_plaintext with
      | None => (kCorrupt, None)
      | Some (plaintext, decoded_format) =>
        if negb (decoded_format =? vault_format_version envelope) then (kCorrupt, None)
        else (kOk, auto_lock_days plaintext)
      end
    end.

Definition install_encrypted_vault (envelope : VaultEnvelope) (vmk : bytes) : op Status := fn (
  r ← get_state;
  leave_if (negb (initialized_ r)) kNotReady;;
  leave_if (negb (schema_ready_ r)) kNotReady;;
  leave_if (negb (State.eqb (state_ r) State.kUnprovisioned) || has_vault_ r) kInvalidState;;
  let status := fst (validate_envelope_with_key envelope vmk) in
  leave_if (negb (is_ok status)) status;;
  status ← call (store (replace_envelope 0 envelope));
  leave_if (negb (is_ok status)) status;;
  status ← call reload_after_persistence;
  r ← get_state;
  if negb (is_ok status) || negb (has_vault_ r) || negb (same_envelope (envelope_ r) envelope) then
    modify (λ r, r <| state_ := State.kError |>
      <| recovery_reset_allowed_ := is_ok status || explicit_reset_recovery_status status |>);;
    modify clear_unlock_session_state;;
    leave (if is_ok status then kCorrupt else status)
  else mret kOk).

Definition unlock (vmk : bytes) (now_ms : Z) : op Status := fn (
  r ← get_state;
  leave_if (negb (initialized_ r)) kNotReady;;
  leave_if (negb (State.eqb (state_ r) State.kLocked) || negb (has_vault_ r)) kInvalidState;;
  let '(status, policy) := validate_envelope_with_key (envelope_ r) vmk in
  leave_if (negb (is_ok status)) status;;
  modify clear_unlock_session_state;;
  modify (λ r, r <| vmk_ := vmk |> <| vmk_present_ := true |>);;
  modify (begin_unlock_session policy now_ms);;
  modify (λ r, r <| state_ := State.kUnlocked |> <| recovery_reset_allowed_ := false |>);;
  mret kOk).

Definition lock : op Status := fn (
  r ← get_state;
  leave_if (negb (initialized_ r)) kNotReady;;
  modify clear_unlock_session_state;;
  leave_if (State.eqb (state_ r) State.kError) kInvalidState;;
  modify (λ r, r <| state_ := if has_vault_ r then State.kLocked else State.kUnprovisioned |>);;
  mret kOk).

Definition enter_recovery_boundary : op Status := fn (
  r ← get_state;
  leave_if (negb (initialized_ r)) kNotReady;;
  modify clear_unlock_session_state;;
  leave_if (State.eqb (state_ r) State.kError) kInvalidState;;
  modify (λ r, r <| state_ := if has_vault_ r then State.kLocked else State.kUnprovisioned |>);;
  mret kOk).

Definition enter_registration_replacement_boundary : op Status := enter_recovery_boundary.

Definition fatal_security_error : op Status := fn (
  r ← get_state;
  leave_if (negb (initialized_ r)) kNotReady;;
  modify clear_unlock_session_state;;
  modify (λ r, r <| state_ := State.kError |> <| recovery_reset_allowed_ := true |>);;
  mret kOk).

Definition enter_vmk_rekey_boundary : op Status := fn (
  r ← get_state;
  leave_if (negb (initialized_ r)) kNotReady;;
  leave_if (negb (State.eqb (state_ r) State.kUnlocked) || negb (vmk_present_ r)
            || negb (has_vault_ r) || negb (unlock_session_active_ r)) kInvalidState;;
  modify wipe_vmk;;
  modify (λ r, r <| state_ := State.kLocked |>);;
  mret kOk).

Definition unlocked (r : Runtime P) : bool :=
  initialized_ r && State.eqb (state_ r) State.kUnlocked && vmk_present_ r.

Definition automatic_lock_due (now_ms : Z) (r : Runtime P) : bool :=
  match auto_lock_days_ r with
  | None => false
  | Some days =>
    if negb (unlocked r) || negb (unlock_session_active_ r) then false
    else if now_ms <? unlocked_since_ms_ r then false
    else now_ms - unlocked_since_ms_ r >=? days * kMillisecondsPerDay
  end.

(** The generation check of the two replacing operations. *)
Definition generation_mismatch (expected_generation : Z) (envelope : VaultEnvelope)
    (r : Runtime P) : bool :=
  negb (expected_generation =? generation (envelope_ r)) ||
  (expected_generation =? u64_max) ||
  negb (generation envelope =? expected_generation + 1) ||
  negb (bool_decide (vault_id envelope = vault_id (envelope_ r))).

(** The status and [*automatic_lock_due_after_commit]. *)
Definition update_encrypted_vault (expected_generation : Z) (envelope : VaultEnvelope)
    (now_ms : Z) : op (Status * bool) := fn (
  r ← get_state;
  leave_if (negb (initialized_ r)) (kNotReady, false);;
  leave_if (negb (State.eqb (state_ r) State.kUnlocked) || negb (vmk_present_ r)
            || negb (has_vault_ r)) (kLocked, false);;
  leave_if (generation_mismatch expected_generation envelope r) (kGenerationMismatch, false);;
  leave_if (negb (is_supported_vault_format (vault_format_version envelope)))
    (kUnsupportedVaultFormat, false);;
  leave_if ((vault_format_version (envelope_ r) =? kVaultFormatVersion2)
            && (vault_format_version envelope =? kVaultFormatVersion1)) (kInvalidArgument, false);;
  let '(status, candidate_policy) := validate_envelope_with_key envelope (vmk_ r) in
  leave_if (negb (is_ok status)) (status, false);;
  status ← call (store (replace_envelope expected_generation envelope));
  leave_if (negb (is_ok status)) (status, false);;
  x ← call (store load);
  let '(status, snapshot) := x in
  if negb (is_ok status) || negb (schema_ready snapshot) || negb (has_vault snapshot)
     || negb (same_envelope (Persistence.envelope snapshot) envelope) then
    call fatal_security_error;;
    leave (if is_ok status then kCorrupt else status, false)
  else
    modify (λ r, r <| envelope_ := Persistence.envelope snapshot |>
      <| last_used_ := last_used snapshot |> <| schema_ready_ := true |>
      <| has_vault_ := true |> <| recovery_reset_allowed_ := false |>
      <| state_ := State.kUnlocked |>);;
    modify (λ r, r <| auto_lock_days_ := candidate_policy |>);;
    r ← get_state;
    mret (kOk, automatic_lock_due now_ms r)).

Definition rekey_encrypted_vault (expected_generation : Z) (envelope : VaultEnvelope)
    (vmk : bytes) (now_ms : Z) : op Status := fn (
  r ← get_state;
  leave_if (negb (initialized_ r)) kNotReady;;
  leave_if (negb (State.eqb (state_ r) State.kLocked) || vmk_present_ r
            || negb (has_vault_ r) || negb (unlock_session_active_ r)) kInvalidState;;
  leave_if (generation_mismatch expected_generation envelope r) kGenerationMismatch;;
  leave_if (negb (is_supported_vault_format (vault_format_version envelope)))
    kUnsupportedVaultFormat;;
  leave_if ((vault_format_version (envelope_ r) =? kVaultFormatVersion2)
            && (vault_format_version envelope =? kVaultFormatVersion1)) kInvalidArgument;;
  let '(status, policy) := validate_envelope_with_key envelope vmk in
  leave_if (negb (is_ok status)) status;;
  status ← call (store (replace_envelope expected_generation envelope));
  leave_if (negb (is_ok status)) status;;
  x ← call (store load);
  let '(status, snapshot) := x in
  if negb (is_ok status) || negb (schema_ready snapshot) || negb (has_vault snapshot)
     || negb (same_envelope (Persistence.envelope snapshot) envelope) then
    modify (λ r, r <| state_ := State.kError |>);;
    modify clear_unlock_session_state;;
    leave (if is_ok status then kCorrupt else status)
  else
    modify (λ r, r <| envelope_ := Persistence.envelope snapshot |>
      <| last_used_ := last_used snapshot |> <| schema_ready_ := true |>
      <| has_vault_ := true |>);;
    modify wipe_vmk;;
    modify (λ r, r <| vmk_ := vmk |> <| vmk_present_ := true |>
      <| auto_lock_days_ := policy |> <| state_ := State.kUnlocked |>
      <| recovery_reset_allowed_ := false |>);;
    mret kOk).

Definition metadata (r : Runtime P) : Status * option Metadata :=
  if negb (initialized_ r) then (kNotReady, None)
  else
    (kOk, Some (mkMetadata (state_ r) (schema_ready_ r) (has_vault_ r)
      (recovery_reset_allowed_ r) (if schema_ready_ r then kStorageSchemaVersion else 0)
      (if has_vault_ r then vault_format_version (envelope_ r) else 0)
      (if has_vault_ r then vault_id (envelope_ r) else zeros kVaultIdBytes)
      (if has_vault_ r then generation (envelope_ r) else 0)
      (last_used_ r))).

(** The guard of the operations that read the Vault. *)
Definition not_unlocked (r : Runtime P) : bool :=
  negb (State.eqb (state_ r) State.kUnlocked) || negb (vmk_present_ r) || negb (has_vault_ r).

(** Their common body: decrypt and decode the current envelope, or the
    status with which they fail after [fatal_security_error]. *)
Definition read_vault (r : Runtime P) : VaultPlaintext + Status :=
  match decrypt_vault (envelope_ r) (vmk_ r) with
  | None => inr kAuthenticationFailed
  | Some encoded_plaintext =>
    match decode_plaintext encoded_plaintext with
    | None => inr kCorrupt
    | Some (plaintext, decoded_format) =>
      if negb (decoded_format =? vault_format_version (envelope_ r)) then inr kCorrupt
      else inl plaintext
    end
  end.

Definition find_credential (credential_id : bytes) (plaintext : VaultPlaintext)
    : option CredentialRecord :=
  snd <$> list_find (λ c, VaultFormat.credential_id c = credential_id) (credentials plaintext).

Definition metadata_of (c : CredentialRecord) : CredentialMetadata :=
  mkCredentialMetadata (credential_id c) (issuer c) (account c) (display_name c) (manual_order c).

Definition list_credentials : op (Status * list CredentialMetadata) := fn (
  r ← get_state;
  leave_if (negb (initialized_ r)) (kNotReady, []);;
  leave_if (not_unlocked r) (kLocked, []);;
  match read_vault r with
  | inr status => call fatal_security_error;; leave (status, [])
  | inl plaintext =>
    mret (kOk, stable_sort_by cm_manual_order (metadata_of <$> credentials plaintext))
  end).

Definition set_last_used (credential_id : bytes) : op Status := fn (
  r ← get_state;
  leave_if (negb (initialized_ r)) kNotReady;;
  leave_if (not_unlocked r) kLocked;;
  match read_vault r with
  | inr status => call fatal_security_error;; leave status
  | inl plaintext =>
    leave_if (negb (existsb (λ c, bool_decide (VaultFormat.credential_id c = credential_id))
                      (credentials plaintext))) kNotFound;;
    status ← call (store (persist_last_used (Some credential_id)));
    (if is_ok status then modify (λ r, r <| last_used_ := Some credential_id |>) else mret tt);;
    mret status
  end).

Definition factory_reset : op Status := fn (
  r ← get_state;
  leave_if (negb (initialized_ r)) kNotReady;;
  modify clear_unlock_session_state;;
  status ← call (store erase_all);
  if negb (is_ok status) then
    modify (λ r, r <| state_ := State.kError |> <| recovery_reset_allowed_ := false |>);;
    leave status
  else
    modify (λ r, r <| schema_ready_ := false |> <| has_vault_ := false |>
      <| recovery_reset_allowed_ := false |> <| envelope_ := empty_envelope |>
      <| last_used_ := None |> <| state_ := State.kUnprovisioned |>);;
    mret kOk).

Section Consumers.
(** The state a consumer acts on. *)
Context {C : Type}.

(** A runtime operation next to the consumer's state. *)
Definition on_runtime {A} (f : op A) : Runtime P * C → A * (Runtime P * C) := λ s,
  let '(a, r) := f (fst s) in (a, (r, snd s)).
Definition on_consumer {A} (f : C → A * C) : Runtime P * C → A * (Runtime P * C) := λ s,
  let '(a, c) := f (snd s) in (a, (fst s, c)).

(** [None] is the empty [std::function]. *)
Definition with_credential (credential_id : bytes)
    (consumer : option (CredentialRecord → C → Status * C))
    : Runtime P * C → Status * (Runtime P * C) := fn (
  s ← get_state;
  let r := fst s in
  leave_if (negb (initialized_ r)) kNotReady;;
  leave_if (not_unlocked r) kLocked;;
  match consumer with
  | None => leave kInvalidArgument
  | Some consumer =>
    match read_vault r with
    | inr status => call (on_runtime fatal_security_error);; leave status
    | inl plaintext =>
      match find_credential credential_id plaintext with
      | None => leave kNotFound
      | Some found =>
        status ← call (on_consumer (consumer found));
        leave_if (negb (is_ok status)) status;;
        last_used_status ← call (on_runtime (store (persist_last_used (Some credential_id))));
        leave_if (negb (is_ok last_used_status)) last_used_status;;
        modify (λ s, (fst s <| last_used_ := Some credential_id |>, snd s));;
        mret status
      end
    end
  end).

Definition with_wifi (consumer : option (WifiRecord → C → Status * C))
    : Runtime P * C → Status * (Runtime P * C) := fn (
  s ← get_state;
  let r := fst s in
  leave_if (negb (initialized_ r)) kNotReady;;
  leave_if (not_unlocked r) kLocked;;
  match consumer with
  | None => leave kInvalidArgument
  | Some consumer =>
    match read_vault r with
    | inr status => call (on_runtime fatal_security_error);; leave status
    | inl plaintext =>
      match wifi plaintext with
      | None => leave kNotFound
      | Some w => call (on_consumer (consumer w))
      end
    end
  end).
End Consumers.
End Runtime.
