(* ===== verification/RuntimeCorrect.v ===== *)
(** * Correctness of the Vault runtime

    The operations as a labelled transition system, its invariant (a resident
    key exists only while unlocked and opens the envelope in memory; every
    failure leaves no key behind), and the functional behaviour of unlocking,
    replacing, rekeying, automatic locking and reading. *)

From Stdlib Require Import Sorting.Sorted.
From S2P Require Import Prelude Bytes ByteReader Utf8 VaultFormat VaultCrypto Persistence Runtime.

(** ** Booleans *)

Lemma same_envelope_spec a b : same_envelope a b = true ↔ a = b.
Proof.
  destruct a, b. unfold same_envelope. cbn.
  rewrite !andb_true_iff, !Z.eqb_eq, !bool_decide_eq_true.
  split; [intros; destruct_and!; by subst|by intros [= -> -> -> -> -> -> ->]].
Qed.

#[export] Hint Rewrite negb_true_iff negb_false_iff orb_true_iff orb_false_iff
  andb_true_iff andb_false_iff State.eqb_true State.eqb_false is_ok_true is_ok_false
  bool_decide_eq_true bool_decide_eq_false Z.eqb_eq Z.eqb_neq same_envelope_spec : bools.

Ltac bools := autorewrite with bools in *; destruct_and?.

Section RuntimeCorrect.
Context `{MbedtlsGcm} {P : Type} `{Persistence P}.
Implicit Types (r : Runtime P).

Lemma store_inv {A} (f : P → A * P) r a r' :
  store f r = (a, r') → ∃ p, f (persistence_ r) = (a, p) ∧ r' = r <| persistence_ := p |>.
Proof. unfold store. destruct (f (persistence_ r)) as [a' p]. intros [= <- <-]. eauto. Qed.

Lemma on_runtime_inv {A C} (f : op A) (s : Runtime P * C) a s' :
  on_runtime f s = (a, s') → f (fst s) = (a, fst s') ∧ snd s' = snd s.
Proof. unfold on_runtime. destruct (f (fst s)). by intros [= <- <-]. Qed.

Lemma on_consumer_inv {A C} (f : C → A * C) (s : Runtime P * C) a s' :
  on_consumer f s = (a, s') → f (snd s) = (a, snd s') ∧ fst s' = fst s.
Proof. unfold on_consumer. destruct (f (snd s)). by intros [= <- <-]. Qed.

(** ** The transition system *)

(** The labels single out what the properties distinguish: a fresh unlock, an
    operation that takes its envelope from the store or drops it, one that
    replaces the envelope, and the others. *)
Inductive label := LUnlock (now_ms : Z) | LReload | LReplace | LOther.

Inductive step : label → Runtime P → Runtime P → Prop :=
  | step_initialize r st r' : initialize r = (st, r') → step LReload r r'
  | step_format r st r' : format_for_schema2 r = (st, r') → step LReload r r'
  | step_install e k r st r' : install_encrypted_vault e k r = (st, r') → step LReload r r'
  | step_unlock k now r st r' : unlock k now r = (st, r') → step (LUnlock now) r r'
  | step_lock r st r' : lock r = (st, r') → step LOther r r'
  | step_recovery r st r' : enter_recovery_boundary r = (st, r') → step LOther r r'
  | step_boundary r st r' : enter_vmk_rekey_boundary r = (st, r') → step LOther r r'
  | step_fatal r st r' : fatal_security_error r = (st, r') → step LOther r r'
  | step_update g e now r st r' : update_encrypted_vault g e now r = (st, r') → step LReplace r r'
  | step_rekey g e k now r st r' : rekey_encrypted_vault g e k now r = (st, r') → step LReplace r r'
  | step_list r st r' : list_credentials r = (st, r') → step LOther r r'
  | step_credential C id (f : option (CredentialRecord → C → Status * C)) r c st r' c' :
      with_credential id f (r, c) = (st, (r', c')) → step LOther r r'
  | step_wifi C (f : option (WifiRecord → C → Status * C)) r c st r' c' :
      with_wifi f (r, c) = (st, (r', c')) → step LOther r r'
  | step_last_used id r st r' : set_last_used id r = (st, r') → step LOther r r'
  | step_reset r st r' : factory_reset r = (st, r') → step LReload r r'.

Inductive reachable : Runtime P → Prop :=
  | reachable_new p : reachable (new_runtime p)
  | reachable_step l r r' : reachable r → step l r r' → reachable r'.

(** ** The invariant *)

Record invariant r : Prop := {
  inv_key : vmk_present_ r = false → vmk_ r = zeros kVmkBytes;
  inv_unlocked : state_ r = State.kUnlocked ↔ vmk_present_ r = true;
  inv_opens : state_ r = State.kUnlocked →
    unlock_session_active_ r = true ∧
    validate_envelope_with_key (envelope_ r) (vmk_ r) = (kOk, auto_lock_days_ r);
  inv_has_vault : state_ r ≠ State.kError →
    (has_vault_ r = true ↔ state_ r = State.kLocked ∨ state_ r = State.kUnlocked);
  inv_vault : state_ r ≠ State.kError → has_vault_ r = true →
    initialized_ r = true ∧ schema_ready_ r = true ∧
    valid_envelope_framing (envelope_ r) = true;
  inv_no_session : unlock_session_active_ r = false →
    auto_lock_days_ r = None ∧ unlocked_since_ms_ r = 0;
  inv_session : unlock_session_active_ r = true →
    state_ r = State.kLocked ∨ state_ r = State.kUnlocked;
}.

Lemma invariant_new p : invariant (new_runtime p).
Proof. split; cbn; intuition congruence. Qed.

(** Removing the session keeps the invariant in any state but unlocked. *)
Lemma invariant_cleared r :
  state_ r ≠ State.kUnlocked →
  (state_ r ≠ State.kError → (has_vault_ r = true ↔ state_ r = State.kLocked)) →
  (state_ r ≠ State.kError → has_vault_ r = true →
    initialized_ r = true ∧ schema_ready_ r = true ∧ valid_envelope_framing (envelope_ r) = true) →
  vmk_ r = zeros kVmkBytes → vmk_present_ r = false → auto_lock_days_ r = None →
  unlocked_since_ms_ r = 0 → unlock_session_active_ r = false → invariant r.
Proof. intros ? Hh ? ? Hp ? ? Hs. split; rewrite ?Hp, ?Hs; intuition congruence. Qed.
End RuntimeCorrect.

Ltac exec_rt H :=
  repeat (exec_step H; cbn [fst snd] in *;
    repeat match goal with
    | p : (_ * _)%type |- _ => destruct p; cbn [fst snd] in *
    | E : store _ _ = _ |- _ => apply store_inv in E; destruct E as (? & E & E'); subst
    | E : on_runtime _ _ = _ |- _ => apply on_runtime_inv in E; cbn [fst snd] in E; destruct E as [E E']; subst
    | E : on_consumer _ _ = _ |- _ => apply on_consumer_inv in E; cbn [fst snd] in E; destruct E as [E E']; subst
    end).

(** Close a goal about the fields of an updated runtime. *)
Ltac fields := cbn in *; bools; first [done | congruence | intuition congruence].

Section Invariant.
Context `{MbedtlsGcm} {P : Type} `{Persistence P}.
Implicit Types (r : Runtime P).

Lemma invariant_reload r st r' :
  initialized_ r = true → reload_after_persistence r = (st, r') → invariant r'.
Proof.
  intros Hi E. unfold reload_after_persistence in E. exec_rt E; bools.
  all: apply invariant_cleared; fields.
Qed.

Lemma invariant_fatal r st r' : invariant r → fatal_security_error r = (st, r') → invariant r'.
Proof.
  intros I E. unfold fatal_security_error in E. exec_rt E; [done|]. apply invariant_cleared; fields.
Qed.

Lemma invariant_initialize r st r' : initialize r = (st, r') → invariant r'.
Proof.
  intros E. unfold initialize in E. exec_rt E; bools.
  all: apply invariant_cleared; fields.
Qed.

Lemma invariant_lock r st r' : invariant r → lock r = (st, r') → invariant r'.
Proof.
  intros I E. unfold lock in E. exec_rt E; [done|..]; bools; destruct I.
  all: apply invariant_cleared; fields || (cbn in *; destruct (has_vault_ r) eqn:?; fields).
Qed.

Lemma invariant_store r p : invariant r → invariant (r <| persistence_ := p |>).
Proof. intros []; by split. Qed.
#[local] Hint Resolve invariant_store : m5.

Lemma invariant_format r st r' : invariant r → format_for_schema2 r = (st, r') → invariant r'.
Proof.
  intros I E. unfold format_for_schema2 in E. exec_rt E; [done|..].
  - apply invariant_cleared; fields.
  - eapply invariant_reload; [|done]. fields.
Qed.

Lemma invariant_install e k r st r' :
  invariant r → install_encrypted_vault e k r = (st, r') → invariant r'.
Proof.
  intros I E. unfold install_encrypted_vault in E. exec_rt E; eauto with m5.
  - apply invariant_cleared; fields.
  - eapply invariant_reload; [|done]. fields.
Qed.

Lemma invariant_unlock k now r st r' : invariant r → unlock k now r = (st, r') → invariant r'.
Proof.
  intros I E. unfold unlock in E. exec_rt E; try done. destruct I.
  split; fields.
Qed.

Lemma invariant_recovery r st r' : invariant r → enter_recovery_boundary r = (st, r') → invariant r'.
Proof. apply invariant_lock. Qed.

Lemma invariant_boundary r st r' :
  invariant r → enter_vmk_rekey_boundary r = (st, r') → invariant r'.
Proof.
  intros I E. unfold enter_vmk_rekey_boundary in E. exec_rt E; try done. destruct I.
  split; fields.
Qed.

(** What it takes for a key to validate an envelope. *)
Lemma validate_ok e k policy :
  validate_envelope_with_key e k = (kOk, policy) ↔
  valid_envelope_framing e = true ∧ ∃ encoded plaintext,
    decrypt_vault e k = Some encoded ∧
    decode_plaintext encoded = Some (plaintext, vault_format_version e) ∧
    policy = auto_lock_days plaintext.
Proof.
  unfold validate_envelope_with_key. split.
  - intros E. repeat case_match; try done; simplify_eq/=. bools. subst. eauto 10.
  - intros (-> & encoded & plaintext & -> & -> & ->). cbn. by rewrite Z.eqb_refl.
Qed.

Lemma invariant_update g e now r st r' :
  invariant r → update_encrypted_vault g e now r = (st, r') → invariant r'.
Proof.
  intros I E. unfold update_encrypted_vault in E. exec_rt E; eauto with m5.
  - eapply invariant_fatal in Ef1; eauto with m5.
  - bools. subst. pose proof (proj1 (proj1 (validate_ok _ _ _) Em)). destruct I. split; fields.
Qed.

Lemma invariant_rekey g e k now r st r' :
  invariant r → rekey_encrypted_vault g e k now r = (st, r') → invariant r'.
Proof.
  intros I E. unfold rekey_encrypted_vault in E. exec_rt E; eauto with m5.
  - apply invariant_cleared; fields.
  - bools. subst. pose proof (proj1 (proj1 (validate_ok _ _ _) Em)). destruct I. split; fields.
Qed.

Lemma invariant_list r st r' : invariant r → list_credentials r = (st, r') → invariant r'.
Proof.
  intros I E. unfold list_credentials in E. exec_rt E; eauto with m5.
  eapply invariant_fatal; eauto.
Qed.

Lemma invariant_last_used id r st r' : invariant r → set_last_used id r = (st, r') → invariant r'.
Proof.
  intros I E. unfold set_last_used in E. exec_rt E; eauto with m5.
  - destruct I. split; fields.
  - eapply invariant_fatal; eauto.
Qed.

Lemma invariant_reset r st r' : invariant r → factory_reset r = (st, r') → invariant r'.
Proof.
  intros I E. unfold factory_reset in E. exec_rt E; [done|..]; apply invariant_cleared; fields.
Qed.

Lemma invariant_credential {C} id (f : option (CredentialRecord → C → Status * C)) r c st r' c' :
  invariant r → with_credential id f (r, c) = (st, (r', c')) → invariant r'.
Proof.
  intros I E. unfold with_credential in E.
  exec_rt E; simplify_eq/=; eauto using invariant_fatal; destruct I; split; fields.
Qed.

Lemma invariant_wifi {C} (f : option (WifiRecord → C → Status * C)) r c st r' c' :
  invariant r → with_wifi f (r, c) = (st, (r', c')) → invariant r'.
Proof.
  intros I E. unfold with_wifi in E. exec_rt E; simplify_eq/=; eauto using invariant_fatal.
Qed.

Lemma invariant_step l r r' : invariant r → step l r r' → invariant r'.
Proof.
  intros I Hs. revert I. destruct Hs; intros I.
  - by eapply invariant_initialize.
  - by eapply invariant_format.
  - by eapply invariant_install.
  - by eapply invariant_unlock.
  - by eapply invariant_lock.
  - by eapply invariant_recovery.
  - by eapply invariant_boundary.
  - by eapply invariant_fatal.
  - by eapply invariant_update.
  - by eapply invariant_rekey.
  - by eapply invariant_list.
  - by eapply invariant_credential.
  - by eapply invariant_wifi.
  - by eapply invariant_last_used.
  - by eapply invariant_reset.
Qed.

Lemma invariant_reachable r : reachable r → invariant r.
Proof. induction 1; eauto using invariant_new, invariant_step. Qed.
End Invariant.

(** ** Properties *)

Section StableSort.
Context {A : Type} (key : A → Z).
Let le_key (a b : A) := key a ≤ key b.

Lemma insert_by_perm x l : insert_by key x l ≡ₚ x :: l.
Proof.
  induction l as [|y l IH]; simpl; [done|]. destruct (_ <=? _); [done|].
  rewrite IH. apply Permutation_swap.
Qed.

Lemma stable_sort_perm l : stable_sort_by key l ≡ₚ l.
Proof. induction l as [|x l IH]; simpl; [done|]. by rewrite insert_by_perm, IH. Qed.

Lemma insert_by_sorted x l : StronglySorted le_key l → StronglySorted le_key (insert_by key x l).
Proof.
  induction 1 as [|y l Hs IH Hy]; simpl; [by repeat constructor|].
  destruct (Z.leb_spec (key x) (key y)); constructor.
  - by constructor.
  - constructor; [done|]. eapply Forall_impl; [exact Hy|]. unfold le_key. lia.
  - done.
  - rewrite insert_by_perm. constructor; [unfold le_key; lia|done].
Qed.

Lemma stable_sort_sorted l : StronglySorted le_key (stable_sort_by key l).
Proof. induction l; simpl; [constructor|by apply insert_by_sorted]. Qed.

Lemma insert_by_filter x l k :
  filter (λ a, key a = k) (insert_by key x l) = filter (λ a, key a = k) (x :: l).
Proof.
  induction l as [|y l IH]; simpl; [done|]. destruct (Z.leb_spec (key x) (key y)); [done|].
  rewrite filter_cons, IH, !filter_cons. repeat case_decide; done || lia.
Qed.

Lemma stable_sort_stable l k :
  filter (λ a, key a = k) (stable_sort_by key l) = filter (λ a, key a = k) l.
Proof.
  induction l as [|x l IH]; simpl; [done|].
  by rewrite insert_by_filter, !filter_cons, IH.
Qed.
End StableSort.

Section Properties.
Context `{MbedtlsGcm} {P : Type} `{Persistence P}.
Implicit Types (r : Runtime P).

(** What a failed operation may do: keep everything but what its calls did to
    the store, or enter the error state with no key left. *)
Definition failed_closed r r' : Prop :=
  r' = r <| persistence_ := persistence_ r' |> ∨
  state_ r' = State.kError ∧ vmk_present_ r' = false ∧ vmk_ r' = zeros kVmkBytes.

Lemma failed_same r : failed_closed r r.
Proof. left. by destruct r. Qed.
Lemma failed_store r p : failed_closed r (r <| persistence_ := p |>).
Proof. by left. Qed.
Lemma failed_fatal r p p' st r' :
  initialized_ r = true →
  fatal_security_error (r <| persistence_ := p |> <| persistence_ := p' |>) = (st, r') →
  failed_closed r r'.
Proof. intros Hi E. right. unfold fatal_security_error in E. exec_rt E; fields. Qed.

(** C4: In every state the runtime can reach, through any operations with any
    arguments over any store: no key is resident (and its memory is zero)
    unless the state is unlocked; when it is, the resident key decrypts and
    decodes the envelope in memory to the automatic-lock policy in force;
    and a locked or unlocked state has a well-framed envelope. *)
Theorem runtime_invariant r : reachable r → invariant r.
Proof. induction 1; eauto using invariant_new, invariant_step. Qed.

(** C31: Unlocking a locked Vault succeeds exactly with a key that opens its
    envelope; then the session starts at [now_ms] with the envelope's policy.
    A key that does not open it changes nothing. *)
Theorem unlock_exact k now r :
  reachable r → state_ r = State.kLocked →
  (∀ st r', unlock k now r = (st, r') → st ≠ kOk → r' = r) ∧
  ((∃ r', unlock k now r = (kOk, r')) ↔
     ∃ policy, validate_envelope_with_key (envelope_ r) k = (kOk, policy)) ∧
  ∀ r', unlock k now r = (kOk, r') →
    unlocked r' = true ∧ vmk_ r' = k ∧ unlocked_since_ms_ r' = now ∧
    envelope_ r' = envelope_ r ∧
    validate_envelope_with_key (envelope_ r) k = (kOk, auto_lock_days_ r').
Proof.
  intros Hr Hs. apply invariant_reachable in Hr as [_ _ _ Hv Hi _ _].
  rewrite Hs in Hv, Hi. assert (Hh : has_vault_ r = true) by (apply Hv; auto).
  destruct (Hi ltac:(done) Hh) as (Hinit & _). split_and!.
  - intros st r' E Hst. unfold unlock in E. by exec_rt E.
  - split.
    + intros [r' E]. unfold unlock in E. exec_rt E; bools; subst; try done; eauto.
    + intros [policy E]. unfold unlock, fn, mbind, ctl_bind, get_state.
      rewrite Hinit, Hs, Hh, E. cbn. eauto.
  - intros r' E. unfold unlock in E. unfold unlocked.
    exec_rt E; cbn in *; bools; try congruence; subst; done.
Qed.

(** The envelope [e] is the successor of the one in [r]: same Vault, next
    generation (no wrap-around), and never back from Format 2 to Format 1. *)
Definition succeeds r (g : Z) (e : VaultEnvelope) : Prop :=
  g = generation (envelope_ r) ∧ g ≠ u64_max ∧ generation e = g + 1 ∧
  vault_id e = vault_id (envelope_ r) ∧ is_supported_vault_format (vault_format_version e) = true ∧
  (vault_format_version (envelope_ r) = 2 → vault_format_version e = 2).

Lemma generation_mismatch_false g e r :
  generation_mismatch g e r = false →
  negb (is_supported_vault_format (vault_format_version e)) = false →
  (vault_format_version (envelope_ r) =? kVaultFormatVersion2)
    && (vault_format_version e =? kVaultFormatVersion1) = false →
  succeeds r g e.
Proof.
  unfold generation_mismatch, succeeds. intros E Hs Hf. bools. split_and!; try done.
  intros Hf2. unfold is_supported_vault_format, kVaultFormatVersion1, kVaultFormatVersion2 in *.
  bools. destruct Hs; [|done]. destruct Hf; congruence.
Qed.

(** Read back from the store: the store of [r'] is what a load left that
    returned the envelope in memory. *)
Definition read_back r' : Prop :=
  ∃ p snap, load p = ((kOk, snap), persistence_ r') ∧
    schema_ready snap = true ∧ has_vault snap = true ∧
    Persistence.envelope snap = envelope_ r' ∧ last_used snap = last_used_ r'.

(** When the runtime asks the store to replace its envelope: it is unlocked, the
    new envelope is the successor of the current one and the resident key opens
    it. *)
Definition admissible r (g : Z) (e : VaultEnvelope) (policy : option Z) : Prop :=
  unlocked r = true ∧ has_vault_ r = true ∧ succeeds r g e ∧
  validate_envelope_with_key e (vmk_ r) = (kOk, policy).

Lemma generation_mismatch_succeeds g e r : succeeds r g e → generation_mismatch g e r = false.
Proof.
  intros (-> & Hmax & Hg & Hid & _). unfold generation_mismatch.
  by rewrite Z.eqb_refl, (proj2 (Z.eqb_neq _ _) Hmax), (proj2 (Z.eqb_eq _ _) Hg), bool_decide_eq_true_2.
Qed.

(** The guards of an update, passed exactly by an admissible envelope. *)
Lemma update_guards g e now r policy :
  admissible r g e policy →
  update_encrypted_vault g e now r =
  fn (status ← call (store (replace_envelope g e));
      leave_if (negb (is_ok status)) (status, false);;
      x ← call (store load);
      let '(status, snapshot) := x in
      if negb (is_ok status) || negb (schema_ready snapshot) || negb (has_vault snapshot)
         || negb (same_envelope (Persistence.envelope snapshot) e) then
        call fatal_security_error;;
        leave (if is_ok status then kCorrupt else status, false)
      else
        modify (λ r, r <| envelope_ := Persistence.envelope snapshot |>
          <| last_used_ := last_used snapshot |> <| schema_ready_ := true |>
          <| has_vault_ := true |> <| recovery_reset_allowed_ := false |>
          <| state_ := State.kUnlocked |>);;
        modify (λ r, r <| auto_lock_days_ := policy |>);;
        r ← get_state;
        mret (kOk, automatic_lock_due now r)) r.
Proof.
  intros (Hu & Hh & Hs & Hv). unfold update_encrypted_vault.
  pose proof (generation_mismatch_succeeds _ _ _ Hs) as Hg. destruct Hs as (_ & _ & _ & _ & Hf & Hd).
  unfold unlocked in Hu. apply andb_true_iff in Hu as [[Hi Hst]%andb_true_iff Hp].
  assert (Hno : (vault_format_version (envelope_ r) =? kVaultFormatVersion2)
    && (vault_format_version e =? kVaultFormatVersion1) = false).
  { destruct (Z.eqb_spec (vault_format_version (envelope_ r)) kVaultFormatVersion2) as [Hf2|]; [|done].
    by rewrite (Hd Hf2). }
  unfold fn, mbind, ctl_bind, get_state. by rewrite Hi, Hst, Hp, Hh, Hg, Hf, Hno, Hv.
Qed.

(** What the update reads back for it to count as committed. *)
Definition holds (e : VaultEnvelope) (x : Status * PersistedSnapshot) : Prop :=
  fst x = kOk ∧ schema_ready (snd x) = true ∧ has_vault (snd x) = true ∧
  Persistence.envelope (snd x) = e.

(** C10: An update, completely.  An envelope that is not admissible (the runtime
    is locked, it is not the successor of the current envelope, or the resident
    key does not open it) is refused and nothing at all changes.  An admissible
    one goes to the store.  If the store reports an error, the update reports
    the same one and the runtime keeps its envelope, key and session; only the
    store may have changed.  If the store reports success, it is read back: if it
    holds the new envelope, that becomes the one in memory, with its policy in
    force, the key, the session and its starting time as they were, so that the
    session is not extended; if it does not, the runtime is in the error state
    with no key. *)
Theorem update_commits g e now r st due r' :
  update_encrypted_vault g e now r = ((st, due), r') →
  ((∀ policy, ¬ admissible r g e policy) → st ≠ kOk ∧ due = false ∧ r' = r) ∧
  ∀ policy, admissible r g e policy → ∃ st1 p, replace_envelope g e (persistence_ r) = (st1, p) ∧
    (st1 ≠ kOk → st = st1 ∧ due = false ∧ r' = r <| persistence_ := p |>) ∧
    (st1 = kOk → ∃ x, load p = (x, persistence_ r') ∧
       (holds e x → st = kOk ∧ due = automatic_lock_due now r' ∧
          envelope_ r' = e ∧ last_used_ r' = last_used (snd x) ∧ auto_lock_days_ r' = policy ∧
          unlocked r' = true ∧ vmk_ r' = vmk_ r ∧
          unlock_session_active_ r' = unlock_session_active_ r ∧
          unlocked_since_ms_ r' = unlocked_since_ms_ r) ∧
       (¬ holds e x → st = (if is_ok (fst x) then kCorrupt else fst x) ∧ due = false ∧
          state_ r' = State.kError ∧ vmk_present_ r' = false ∧ vmk_ r' = zeros kVmkBytes)).
Proof.
  intros E. split.
  - intros Hno. unfold update_encrypted_vault in E. exec_rt E; simplify_eq.
    1-6: by bools.
    all: destruct (Hno o); pose proof (generation_mismatch_false _ _ _ Ec1 Ec2 Ec3) as Hs;
      unfold admissible, unlocked; bools; subst; by split_and!.
  - intros policy Ha. rewrite (update_guards _ _ _ _ _ Ha) in E.
    destruct Ha as (Hu & _). unfold unlocked, holds in *. exec_rt E; simplify_eq; bools; subst.
    + eexists _, _. split; [exact Ef|]. by split.
    + eexists _, _. split; [exact Ef|]. split; [done|]. intros _. eexists. cbn [fst snd].
      pose proof Ef1 as Hp. unfold fatal_security_error in Ef1. exec_rt Ef1; [fields|]. cbn.
      split; [exact Ef0|]. split; [|done]. intros (Hk & Hr & Hv & He). cbn in *. apply same_envelope_spec in He. intuition congruence.
    + eexists _, _. split; [exact Ef|]. split; [done|]. intros _. eexists. cbn [fst snd].
      split; [exact Ef0|]. split; [|by intros []].
      intros _. cbn. repeat match goal with H : _ = true |- _ => rewrite H end. by split_and!.
Qed.

Lemma boundary_ok r0 r :
  enter_vmk_rekey_boundary r0 = (kOk, r) →
  unlocked r0 = true ∧ r = wipe_vmk r0 <| state_ := State.kLocked |>.
Proof.
  intros E. unfold enter_vmk_rekey_boundary in E. exec_rt E; simplify_eq.
  unfold unlocked. by bools.
Qed.

Lemma rekey_spec g e k now r st r' :
  rekey_encrypted_vault g e k now r = (st, r') →
  (st = kOk →
     envelope_ r' = e ∧ succeeds r g e ∧ read_back r' ∧
     validate_envelope_with_key e k = (kOk, auto_lock_days_ r') ∧
     unlocked r' = true ∧ vmk_ r' = k ∧ unlocked_since_ms_ r' = unlocked_since_ms_ r) ∧
  (st ≠ kOk → failed_closed r r').
Proof.
  intros E. unfold rekey_encrypted_vault in E. exec_rt E; simplify_eq.
  1-7: split; [bools; congruence|]; eauto using failed_same, failed_store.
  - split; [bools; destruct (is_ok _) eqn:?; bools; congruence|]. intros _. by right.
  - split; [intros _|done]. pose proof (generation_mismatch_false _ _ _ Ec1 Ec2 Ec3) as Hs.
    bools. subst. unfold unlocked, read_back. cbn in *. bools. split_and!; eauto 10.
Qed.

(** Rekeying goes through the rekey boundary, which destroys the old key of
    an unlocked session at once; it then installs the successor envelope under
    a new key that opens it, keeping the session's starting time.  A failed
    rekey changes at most what the store holds or leaves no key, and the old one
    is gone anyway. *)
Theorem rekey_commits g e k now r0 r st r' :
  enter_vmk_rekey_boundary r0 = (kOk, r) →
  rekey_encrypted_vault g e k now r = (st, r') →
  unlocked r0 = true ∧ unlocked r = false ∧ vmk_ r = zeros kVmkBytes ∧
  (st = kOk →
     envelope_ r' = e ∧ succeeds r0 g e ∧ read_back r' ∧
     validate_envelope_with_key e k = (kOk, auto_lock_days_ r') ∧
     unlocked r' = true ∧ vmk_ r' = k ∧ unlocked_since_ms_ r' = unlocked_since_ms_ r0) ∧
  (st ≠ kOk → failed_closed r r').
Proof.
  intros [Hu ->]%boundary_ok E. apply rekey_spec in E as [Hok Hfail].
  split_and!; try done. unfold unlocked. cbn. by rewrite andb_false_r.
Qed.

(** *** Sequences of operations *)

(** What every operation does to the envelope in memory, unless it takes it
    from the store or drops it, and to the session, unless it starts one. *)
Definition keeps_envelope (l : label) r r' : Prop :=
  envelope_ r' = envelope_ r ∨
  l = LReplace ∧ succeeds r (generation (envelope_ r)) (envelope_ r').
Definition keeps_session r r' : Prop :=
  unlock_session_active_ r' = true →
  unlock_session_active_ r = true ∧ unlocked_since_ms_ r' = unlocked_since_ms_ r.

Lemma fatal_keeps r st r' :
  fatal_security_error r = (st, r') → envelope_ r' = envelope_ r ∧ keeps_session r r'.
Proof. intros E. unfold fatal_security_error in E. by exec_rt E. Qed.

Lemma reload_keeps_session r st r' : reload_after_persistence r = (st, r') → keeps_session r r'.
Proof. intros E. unfold reload_after_persistence in E. by exec_rt E. Qed.

#[local] Ltac keeps E :=
  exec_rt E; simplify_eq/=;
  repeat match goal with
  | E : fatal_security_error _ = _ |- _ => apply fatal_keeps in E; destruct E
  | E : reload_after_persistence _ = _ |- _ => apply reload_keeps_session in E
  end; unfold keeps_envelope, keeps_session in *; cbn in *; try done; auto; try (intuition congruence).

Lemma step_keeps_session l r r' :
  step l r r' → (∀ now, l ≠ LUnlock now) → keeps_session r r'.
Proof.
  intros Hs Hl. destruct Hs as [? ? ? E|? ? ? E|? ? ? ? ? E|? ? ? ? ? E|? ? ? E|? ? ? E|? ? ? E
    |? ? ? E|? ? ? ? ? ? E|? ? ? ? ? ? ? E|? ? ? E|? ? ? ? ? ? ? ? E|? ? ? ? ? ? ? E|? ? ? ? E|? ? ? E].
  - unfold initialize in E. keeps E.
  - unfold format_for_schema2 in E. keeps E.
  - unfold install_encrypted_vault in E. keeps E.
  - by destruct (Hl now).
  - unfold lock in E. keeps E.
  - unfold enter_recovery_boundary in E. keeps E.
  - unfold enter_vmk_rekey_boundary in E. keeps E.
  - unfold fatal_security_error in E. keeps E.
  - unfold update_encrypted_vault in E. keeps E.
  - unfold rekey_encrypted_vault in E. keeps E.
  - unfold list_credentials in E. keeps E.
  - unfold with_credential in E. keeps E.
  - unfold with_wifi in E. keeps E.
  - unfold set_last_used in E. keeps E.
  - unfold factory_reset in E. keeps E.
Qed.

Lemma step_keeps_envelope l r r' : step l r r' → l ≠ LReload → keeps_envelope l r r'.
Proof.
  intros Hs Hl. destruct Hs as [? ? ? E|? ? ? E|? ? ? ? ? E|? ? ? ? ? E|? ? ? E|? ? ? E|? ? ? E
    |? ? ? E|? ? ? ? ? ? E|? ? ? ? ? ? ? E|? ? ? E|? ? ? ? ? ? ? ? E|? ? ? ? ? ? ? E|? ? ? ? E|? ? ? E];
    try done.
  - unfold unlock in E. keeps E.
  - unfold lock in E. keeps E.
  - unfold enter_recovery_boundary in E. keeps E.
  - unfold enter_vmk_rekey_boundary in E. keeps E.
  - unfold fatal_security_error in E. keeps E.
  - unfold update_encrypted_vault in E. keeps E.
    pose proof (generation_mismatch_false _ _ _ Ec1 Ec2 Ec3) as Hs. bools. subst.
    right. split; [done|]. by destruct Hs as [-> ?].
  - unfold rekey_encrypted_vault in E. keeps E.
    pose proof (generation_mismatch_false _ _ _ Ec1 Ec2 Ec3) as Hs. bools. subst.
    right. split; [done|]. by destruct Hs as [-> ?].
  - unfold list_credentials in E. keeps E.
  - unfold with_credential in E. keeps E.
  - unfold with_wifi in E. keeps E.
  - unfold set_last_used in E. keeps E.
Qed.

(** A sequence of operations, with the labels of its steps. *)
Inductive steps : list label → Runtime P → Runtime P → Prop :=
  | steps_nil r : steps [] r r
  | steps_cons l ls r r' r'' : step l r r' → steps ls r' r'' → steps (l :: ls) r r''.

(** C32: Between two operations that take the envelope from the store or drop it
    (a start, a format, a first installation or a reset, the steps labelled
    [LReload]), over any sequence of the others the Vault stays the same one,
    its generation never decreases, the envelope with a given generation is
    never replaced by another one, and Format 2 is never left again. *)
Theorem generations_monotone ls r r' :
  steps ls r r' → Forall (λ l, l ≠ LReload) ls →
  vault_id (envelope_ r') = vault_id (envelope_ r) ∧
  generation (envelope_ r) ≤ generation (envelope_ r') ∧
  (generation (envelope_ r') = generation (envelope_ r) → envelope_ r' = envelope_ r) ∧
  (vault_format_version (envelope_ r) = 2 → vault_format_version (envelope_ r') = 2).
Proof.
  induction 1 as [r|l ls r r1 r2 Hs _ IH]; intros Hl; [done|].
  apply Forall_cons in Hl as [Hl Hls]. destruct (IH Hls) as (Hid & Hg & He & Hf).
  destruct (step_keeps_envelope _ _ _ Hs Hl) as [Hk|[_ (_ & _ & Hn & Hi & _ & Hv)]].
  - rewrite <- Hk. done.
  - split_and!; [congruence|lia|lia|auto].
Qed.

(** Between two unlocks the session's start never moves: over any sequence
    of operations without an unlock, whatever updates, rekeys, failures and
    reloads it has, a session that is still active is the one it started
    with, so an automatic lock that was due stays due under the same policy. *)
Theorem session_never_extended ls r r' :
  steps ls r r' → Forall (λ l, ∀ now, l ≠ LUnlock now) ls →
  unlock_session_active_ r' = true →
  unlock_session_active_ r = true ∧ unlocked_since_ms_ r' = unlocked_since_ms_ r ∧
  ∀ now now', automatic_lock_due now r = true → now ≤ now' → unlocked r' = true →
    auto_lock_days_ r' = auto_lock_days_ r → automatic_lock_due now' r' = true.
Proof.
  intros Hs Hl Ha.
  assert (unlock_session_active_ r = true ∧ unlocked_since_ms_ r' = unlocked_since_ms_ r) as [Ha' Hu].
  { induction Hs as [r|l ls r r1 r2 Hstep _ IH]; [done|].
    apply Forall_cons in Hl as [Hl Hls]. destruct (IH Hls Ha) as [Ha1 Hu].
    destruct (step_keeps_session _ _ _ Hstep Hl Ha1) as [? Hu1]. by rewrite Hu. }
  split_and!; [done..|]. intros now now' Hd Hn Hun Hp.
  unfold automatic_lock_due in *. rewrite Hp, Hun, Ha, Hu.
  destruct (auto_lock_days_ r) as [d|]; [|done]. cbn.
  destruct (negb (unlocked r) || _); [done|].
  destruct (Z.ltb_spec now (unlocked_since_ms_ r)); [done|].
  destruct (Z.ltb_spec now' (unlocked_since_ms_ r)); [lia|].
  rewrite Z.geb_leb, Z.leb_le in *. lia.
Qed.

(** *** Reading *)

Lemma read_vault_ok r v :
  read_vault r = inl v ↔
  ∃ encoded, decrypt_vault (envelope_ r) (vmk_ r) = Some encoded ∧
    decode_plaintext encoded = Some (v, vault_format_version (envelope_ r)).
Proof.
  unfold read_vault. split.
  - intros E. repeat case_match; try done; simplify_eq. bools. subst. eauto.
  - intros (encoded & -> & ->). by rewrite Z.eqb_refl.
Qed.

Lemma read_vault_opens r :
  invariant r → state_ r = State.kUnlocked →
  ∃ v, read_vault r = inl v ∧ auto_lock_days_ r = auto_lock_days v.
Proof.
  intros I Hs. destruct (inv_opens _ I Hs) as [_ Hv].
  apply validate_ok in Hv as (_ & encoded & v & Hd & Hv & Hp).
  exists v. split; [|done]. apply read_vault_ok. eauto.
Qed.

Lemma find_credential_some id v rec :
  find_credential id v = Some rec → rec ∈ credentials v ∧ VaultFormat.credential_id rec = id.
Proof.
  unfold find_credential. intros ([i rec'] & E & ->)%fmap_Some. cbn.
  apply list_find_Some in E as (Hi & Hid & _). split; [by eapply list_elem_of_lookup_2|done].
Qed.

(** A consumer sees a credential only of an unlocked Vault, the one with the
    requested identifier that decrypting the current envelope with the
    resident key gives, and runs at most once; in a reachable state decryption
    cannot fail, so asking changes nothing but the last-used mark, which is
    only set after the consumer and the store have both succeeded. *)
Lemma with_credential_safe {C} id (f : CredentialRecord → C → Status * C) r c st r' c' :
  reachable r → with_credential id (Some f) (r, c) = (st, (r', c')) →
  (c' = c ∧ st ≠ kOk ∧ r' = r ∨
   ∃ v rec st1, unlocked r = true ∧ read_vault r = inl v ∧ rec ∈ credentials v ∧
     VaultFormat.credential_id rec = id ∧ f rec c = (st1, c') ∧
     r' = r <| persistence_ := persistence_ r' |> <| last_used_ := last_used_ r' |> ∧
     (st = kOk → st1 = kOk ∧ last_used_ r' = Some id) ∧
     (st ≠ kOk → last_used_ r' = last_used_ r)).
Proof.
  intros Hr E. apply invariant_reachable in Hr as I. unfold with_credential in E.
  exec_rt E; simplify_eq/=; try by left.
  - right. apply find_credential_some in Em0 as [? ?].
    exists v, c0, st. unfold not_unlocked, unlocked in *. bools.
    split_and!; try done; by destruct r'.
  - right. apply find_credential_some in Em0 as [? ?].
    exists v, c0, a. unfold not_unlocked, unlocked in *. bools.
    split_and!; try done; by destruct r'.
  - right. apply find_credential_some in Em0 as [? ?].
    exists v, c0, st. unfold not_unlocked, unlocked in *. bools. subst.
    split_and!; try done; by destruct r'.
  - exfalso. unfold not_unlocked in *. bools.
    destruct (read_vault_opens r) as (v & Hv & _); [done..|]. congruence.
Qed.

(** Listing an unlocked Vault gives the metadata of all its credentials,
    ordered by [manual_order], those with the same order in Vault order. *)
Lemma list_credentials_sorted r v :
  reachable r → unlocked r = true → read_vault r = inl v →
  ∃ l, list_credentials r = ((kOk, l), r) ∧
    l ≡ₚ (metadata_of <$> credentials v) ∧
    StronglySorted (λ a b, cm_manual_order a ≤ cm_manual_order b) l ∧
    ∀ order, filter (λ m, cm_manual_order m = order) l =
             filter (λ m, cm_manual_order m = order) (metadata_of <$> credentials v).
Proof.
  intros Hr Hu Hv. apply invariant_reachable in Hr as I. destruct I as [_ _ _ Hh _ _ _].
  unfold unlocked in Hu. bools.
  assert (Hhv : has_vault_ r = true). { apply Hh; [congruence|auto]. }
  exists (stable_sort_by cm_manual_order (metadata_of <$> credentials v)).
  split_and!; eauto using stable_sort_perm, stable_sort_sorted, stable_sort_stable.
  unfold list_credentials, fn, mbind, ctl_bind, get_state, not_unlocked.
  rewrite Hv, Hhv. repeat match goal with H : _ = true |- _ => rewrite H end.
  by match goal with H : state_ r = _ |- _ => rewrite H end.
Qed.

(** *** Durability *)

Lemma fatal_store r st r' : fatal_security_error r = (st, r') → persistence_ r' = persistence_ r.
Proof. intros E. unfold fatal_security_error in E. by exec_rt E. Qed.

Lemma initialize_content `{!PersistenceLaws P} p r :
  store_ok p → initialize (new_runtime p) = (kOk, r) →
  state_ r = State.kLocked ∧
  ∃ snap, content p = Some snap ∧ has_vault snap = true ∧ envelope_ r = Persistence.envelope snap.
Proof.
  intros Hok E. unfold initialize in E. exec_rt E; simplify_eq; bools; try done; try congruence.
  - by case_match.
  - cbn in *. subst. destruct (load_law _ _ _ _ Hok Ef) as (_ & _ & Hc).
    destruct (Hc eq_refl) as [Hc' _]. eauto 10.
Qed.

Lemma update_content `{!PersistenceLaws P} g e now r st due r' snap :
  store_ok (persistence_ r) → content (persistence_ r) = Some snap →
  update_encrypted_vault g e now r = ((st, due), r') →
  store_ok (persistence_ r') ∧
  (content (persistence_ r') = Some (replaced snap e) ∨
   st ≠ kOk ∧ content (persistence_ r') = Some snap).
Proof.
  intros Hok Hc E. unfold update_encrypted_vault in E. exec_rt E; simplify_eq.
  1-6: split; [done|right; split; [bools; congruence|done]].
  all: match goal with E : replace_envelope _ _ _ = _ |- _ =>
    destruct (replace_law _ _ _ _ _ Hok E) as (Hok1 & Hold & Hnew) end; cbn in *.
  - split; [done|]. destruct Hold as [Hold|(s0 & Hs & Hs0)].
    + right. split; [bools; congruence|congruence].
    + left. congruence.
  - apply fatal_store in Ef1. cbn in Ef1. rewrite Ef1.
    destruct (load_law _ _ _ _ Hok1 Ef0) as (Hok2 & Hc2 & _). split; [done|]. bools. subst.
    destruct (Hnew eq_refl) as (s0 & Hs & Hs0 & _). left. congruence.
  - destruct (load_law _ _ _ _ Hok1 Ef0) as (Hok2 & Hc2 & _). split; [done|]. bools. subst.
    destruct (Hnew eq_refl) as (s0 & Hs & Hs0 & _). left. congruence.
Qed.

(** With a store that keeps its contract, replacing the envelope is durable
    and atomic: whatever an update reports, starting again from the store it
    leaves comes up locked with either the new envelope or, only if the update
    reported a failure, the old one (or fails to load). *)
Theorem update_durable `{!PersistenceLaws P} g e now r st due r' snap r2 :
  store_ok (persistence_ r) → content (persistence_ r) = Some snap →
  Persistence.envelope snap = envelope_ r →
  update_encrypted_vault g e now r = ((st, due), r') →
  initialize (new_runtime (persistence_ r')) = (kOk, r2) →
  state_ r2 = State.kLocked ∧ (envelope_ r2 = e ∨ st ≠ kOk ∧ envelope_ r2 = envelope_ r).
Proof.
  intros Hok Hc He Hu Hi. destruct (update_content _ _ _ _ _ _ _ _ Hok Hc Hu) as [Hok' Hc'].
  destruct (initialize_content _ _ Hok' Hi) as (Hl & snap' & Hs & _ & ->).
  split; [done|]. destruct Hc' as [Hc'|[? Hc']]; rewrite Hs in Hc'; injection Hc' as ->.
  - by left.
  - by right.
Qed.
End Properties.

(** ** A concrete run

    A Vault over the store in memory, installed, unlocked, updated and rekeyed,
    with the checksum cipher: the hypotheses of the properties hold of it. *)

Module Sample.
#[local] Existing Instance checksum_gcm.

Definition plaintext (days : option Z) : VaultPlaintext :=
  mkPlaintext
    [mkCredential (replicate 16 7) [1; 2; 3] (str "Example") (str "alice") (str "A") kSha1 6 30 2;
     mkCredential (replicate 16 8) [4] (str "Other") (str "bob") (str "B") kSha1 6 30 1]
    None days.

Definition key1 : bytes := seqZ 1 32.
Definition key2 : bytes := seqZ 64 32.
Definition seal (days : option Z) (key : bytes) (generation : Z) : VaultEnvelope :=
  default empty_envelope
    (encoded ← encode_plaintext (plaintext days) 2;
     encrypt_vault_with_nonce encoded key sample_vault_id generation sample_nonce 2).

Definition e1 : VaultEnvelope := Eval vm_compute in seal (Some 7) key1 1.
Definition e2 : VaultEnvelope := Eval vm_compute in seal (Some 3) key1 2.
Definition e3 : VaultEnvelope := Eval vm_compute in seal (Some 3) key2 3.

Definition fresh : Runtime MemoryStore := new_runtime None.
Definition formatted := Eval vm_compute in
  snd (format_for_schema2 (snd (initialize fresh))).
Definition installed := Eval vm_compute in snd (install_encrypted_vault e1 key1 formatted).
Definition opened := Eval vm_compute in snd (unlock key1 1000 installed).
Definition updated := Eval vm_compute in snd (update_encrypted_vault 1 e2 2000 opened).
Definition boundary := Eval vm_compute in snd (enter_vmk_rekey_boundary updated).

Lemma reachable_installed : reachable installed.
Proof.
  eapply reachable_step; [|eapply (step_install e1 key1 formatted kOk); vm_compute; reflexivity].
  eapply reachable_step; [|eapply (step_format (snd (initialize fresh)) kOk); vm_compute; reflexivity].
  eapply reachable_step; [|eapply (step_initialize fresh kUnprovisioned); vm_compute; reflexivity].
  apply reachable_new.
Qed.

Lemma reachable_opened : reachable opened.
Proof.
  eapply reachable_step; [apply reachable_installed|].
  eapply (step_unlock key1 1000 installed kOk). vm_compute. reflexivity.
Qed.

Lemma runtime_invariant_witness : unlocked opened = true ∧ invariant opened.
Proof. split; [vm_compute; reflexivity|]. exact (runtime_invariant opened reachable_opened). Defined.

Lemma unlock_exact_witness :
  ∃ r', unlock key1 1000 installed = (kOk, r') ∧ unlock key2 1000 installed = (kAuthenticationFailed, installed).
Proof.
  destruct (unlock_exact key1 1000 installed reachable_installed) as (_ & [_ Hok] & _);
    [vm_compute; reflexivity|].
  destruct Hok as [r' Hr']; [exists (Some 7); vm_compute; reflexivity|].
  exists r'. split; [exact Hr'|vm_compute; reflexivity].
Defined.

Lemma update_commits_witness :
  envelope_ updated = e2 ∧ unlocked_since_ms_ updated = 1000 ∧
  update_encrypted_vault 2 e2 2000 opened = ((kGenerationMismatch, false), opened).
Proof.
  split.
  - destruct (update_commits 1 e2 2000 opened kOk false updated) as [_ Hok];
      [vm_compute; reflexivity|].
    destruct (Hok (Some 3)) as (st1 & p & Hp & _ & Hback).
    { unfold admissible, succeeds. vm_compute. repeat split; discriminate || reflexivity. }
    vm_compute in Hp. injection Hp as <- <-. destruct (Hback eq_refl) as (x & Hl & Hh & _).
    vm_compute in Hl. injection Hl as <-.
    apply Hh. by repeat split.
  - split; [vm_compute; reflexivity|].
    destruct (update_commits 2 e2 2000 opened kGenerationMismatch false opened) as [Hno _];
      [vm_compute; reflexivity|].
    destruct Hno as (_ & _ & _); [|vm_compute; reflexivity].
    intros policy (_ & _ & (Hg & _) & _). vm_compute in Hg. discriminate Hg.
Defined.

Lemma rekey_commits_witness :
  ∃ r', rekey_encrypted_vault 2 e3 key2 3000 boundary = (kOk, r') ∧ vmk_ r' = key2 ∧
    unlocked_since_ms_ r' = 1000.
Proof.
  destruct (rekey_commits 2 e3 key2 3000 updated boundary kOk
    (snd (rekey_encrypted_vault 2 e3 key2 3000 boundary))) as (_ & _ & _ & Hok & _);
    [vm_compute; reflexivity..|].
  eexists. split; [vm_compute; reflexivity|].
  destruct (Hok eq_refl) as (_ & _ & _ & _ & _ & Hk & Hs). split; [exact Hk|exact Hs].
Defined.

Lemma sample_steps : steps [LReplace; LOther] opened boundary.
Proof.
  econstructor; [eapply (step_update 1 e2 2000 opened (kOk, false)); vm_compute; reflexivity|].
  econstructor; [eapply (step_boundary updated kOk); vm_compute; reflexivity|constructor].
Qed.

Lemma generations_monotone_witness : generation (envelope_ opened) ≤ generation (envelope_ boundary).
Proof.
  destruct (generations_monotone _ _ _ sample_steps) as (_ & Hg & _); [|exact Hg].
  repeat constructor; discriminate.
Defined.

Lemma session_never_extended_witness :
  unlock_session_active_ opened = true ∧ unlocked_since_ms_ boundary = unlocked_since_ms_ opened.
Proof.
  destruct (session_never_extended _ _ _ sample_steps) as (Ha & Hu & _);
    [repeat constructor; discriminate|vm_compute; reflexivity|split; [exact Ha|exact Hu]].
Defined.

(** A consumer that counts its calls. *)
Definition counting (c : CredentialRecord) (n : nat) : Status * nat := (kOk, S n).

Lemma with_credential_safe_witness :
  ∃ r', with_credential (replicate 16 8) (Some counting) (opened, 0%nat) = (kOk, (r', 1%nat)) ∧
    last_used_ r' = Some (replicate 16 8).
Proof.
  destruct (with_credential_safe (replicate 16 8) counting opened 0%nat kOk
    (fst (snd (with_credential (replicate 16 8) (Some counting) (opened, 0%nat)))) 1%nat
    reachable_opened) as [(Hc & _)|(v & rec & st1 & _ & _ & _ & _ & _ & _ & Hok & _)];
    [vm_compute; reflexivity|discriminate Hc|].
  eexists. split; [vm_compute; reflexivity|]. exact (proj2 (Hok eq_refl)).
Defined.

Lemma list_credentials_sorted_witness :
  ∃ l, list_credentials opened = ((kOk, l), opened) ∧
    (cm_manual_order <$> l) = [1; 2].
Proof.
  destruct (list_credentials_sorted opened (plaintext (Some 7)) reachable_opened)
    as (l & Hl & _); [vm_compute; reflexivity..|].
  exists l. split; [exact Hl|]. vm_compute in Hl. injection Hl as <-. vm_compute. reflexivity.
Defined.

Lemma update_durable_witness :
  ∃ r2, initialize (new_runtime (persistence_ updated)) = (kOk, r2) ∧ envelope_ r2 = e2.
Proof.
  eexists. split; [vm_compute; reflexivity|].
  destruct (update_durable (P := MemoryStore) 1 e2 2000 opened kOk false updated
    (mkSnapshot true true e1 None)
    (snd (initialize (new_runtime (persistence_ updated))))) as [_ [He|[Hne _]]];
    [intros ? [= <-]; reflexivity|vm_compute; reflexivity..|vm_compute in He; exact He|].
  by destruct Hne.
Defined.
End Sample.
