(* ===== verification/Nvs.v ===== *)
(** * The non-volatile storage API

    ESP-IDF's NVS library, of which the Vault persistence uses the functions
    below, as a class over the state [N] of a partition.  [NvsLaws] is its
    documented behaviour in terms of a logical view: the values committed, the
    writes not yet committed, and the open handles.  Any call may fail; a write
    that fails may or may not have happened.  Losing power keeps the committed
    values and any part of the uncommitted writes.

    [logged] wraps an implementation so that it records the state after every
    call: running a function over it gives every point at which power can be
    lost; [recorded] keeps the errors the calls return instead.  [NvsReadable] is
    a partition whose reads do not fail.  [MemoryNvs] is a concrete
    implementation whose calls succeed. *)

From S2P Require Import Prelude Bytes.

Inductive esp_err_t :=
  | ESP_OK | ESP_ERR_NVS_NOT_FOUND | ESP_ERR_NOT_FOUND | ESP_ERR_INVALID_ARG
  | ESP_ERR_NVS_NO_FREE_PAGES | ESP_ERR_NVS_NEW_VERSION_FOUND | ESP_ERR_OTHER (code : Z).

#[export] Instance esp_err_eq_dec : EqDecision esp_err_t.
Proof. solve_decision. Defined.

Inductive nvs_open_mode_t := NVS_READONLY | NVS_READWRITE.

Inductive nvs_value := VU8 (v : Z) | VU32 (v : Z) | VBlob (v : bytes).

#[export] Instance nvs_value_eq_dec : EqDecision nvs_value.
Proof. solve_decision. Defined.

(** [nvs_get_blob] with a null buffer asks for the size; with a buffer it
    copies the value. *)
Class Nvs (N : Type) := {
  nvs_flash_init_partition : string → N → esp_err_t * N;
  nvs_flash_secure_init_partition : string → N → esp_err_t * N;
  nvs_flash_deinit_partition : string → N → esp_err_t * N;
  nvs_flash_erase_partition : string → N → esp_err_t * N;
  nvs_open_from_partition : string → string → nvs_open_mode_t → N → (esp_err_t * Z) * N;
  nvs_get_u8 : Z → string → N → (esp_err_t * Z) * N;
  nvs_get_u32 : Z → string → N → (esp_err_t * Z) * N;
  nvs_get_blob_size : Z → string → N → (esp_err_t * Z) * N;
  nvs_get_blob : Z → string → N → (esp_err_t * bytes) * N;
  nvs_set_u8 : Z → string → Z → N → esp_err_t * N;
  nvs_set_u32 : Z → string → Z → N → esp_err_t * N;
  nvs_set_blob : Z → string → bytes → N → esp_err_t * N;
  nvs_erase_key : Z → string → N → esp_err_t * N;
  nvs_commit : Z → N → esp_err_t * N;
  nvs_close : Z → N → unit * N;
}.

(** ** The logical view *)

Abbreviation nvs_key := (string * string)%type (only parsing).
Abbreviation entries := (gmap nvs_key nvs_value) (only parsing).
Definition write : Type := nvs_key * option nvs_value.

Definition apply_write (m : entries) (w : write) : entries :=
  match snd w with Some v => <[fst w := v]> m | None => delete (fst w) m end.
Definition apply_writes : entries → list write → entries := foldl apply_write.

Record NvsView := mkView {
  committed : entries;
  pending : list write;
  handles : gmap Z string;
  namespaces : gset string;
}.

#[export] Instance eta_view : Eta NvsView := λ v,
  mkView (committed v) (pending v) (handles v) (namespaces v).

(** What a read sees, and what power loss can leave. *)
Definition visible (v : NvsView) : entries := apply_writes (committed v) (pending v).
Definition survives (v : NvsView) (m : entries) : Prop :=
  ∃ ws, sublist ws (pending v) ∧ m = apply_writes (committed v) ws.

(** Reads and administrative calls leave the values alone. *)
Definition same_values (v v' : NvsView) : Prop :=
  committed v' = committed v ∧ pending v' = pending v.
Definition same_view (v v' : NvsView) : Prop :=
  same_values v v' ∧ handles v' = handles v ∧ namespaces v' = namespaces v.

(** A write through a handle: it is pending if the call succeeded, and may be
    if it failed. *)
Definition writes (v v' : NvsView) (e : esp_err_t) (w : write) : Prop :=
  committed v' = committed v ∧ handles v' = handles v ∧ namespaces v' = namespaces v ∧
  (pending v' = pending v ++ [w] ∨ e ≠ ESP_OK ∧ pending v' = pending v).

Definition reads (v : NvsView) (h : Z) (key : string) (e : esp_err_t)
    (found : nvs_value → Prop) : Prop :=
  ∀ ns, handles v !! h = Some ns →
  (e = ESP_OK → ∃ x, visible v !! (ns, key) = Some x ∧ found x) ∧
  (e = ESP_ERR_NVS_NOT_FOUND → ¬ ∃ x, visible v !! (ns, key) = Some x ∧ found x).

Class NvsLaws (N : Type) `{Nvs N} := {
  view : N → NvsView;
  nvs_init_law l n e n' : nvs_flash_init_partition l n = (e, n') → same_values (view n) (view n');
  nvs_secure_init_law l n e n' :
    nvs_flash_secure_init_partition l n = (e, n') → same_values (view n) (view n');
  nvs_deinit_law l n e n' : nvs_flash_deinit_partition l n = (e, n') → same_values (view n) (view n');
  nvs_erase_law l n n' : nvs_flash_erase_partition l n = (ESP_OK, n') →
    committed (view n') = ∅ ∧ pending (view n') = [];
  nvs_open_law l ns mode n e h n' : nvs_open_from_partition l ns mode n = ((e, h), n') →
    same_values (view n) (view n') ∧ (e = ESP_OK → handles (view n') !! h = Some ns);
  nvs_get_u8_law h k n e x n' : nvs_get_u8 h k n = ((e, x), n') →
    same_view (view n) (view n') ∧
    (e = ESP_OK → reads (view n) h k e (λ v, v = VU8 x)) ∧
    (e = ESP_ERR_NVS_NOT_FOUND → reads (view n) h k e (λ v, ∃ y, v = VU8 y));
  nvs_get_u32_law h k n e x n' : nvs_get_u32 h k n = ((e, x), n') →
    same_view (view n) (view n') ∧
    (e = ESP_OK → reads (view n) h k e (λ v, v = VU32 x)) ∧
    (e = ESP_ERR_NVS_NOT_FOUND → reads (view n) h k e (λ v, ∃ y, v = VU32 y));
  nvs_get_blob_size_law h k n e x n' : nvs_get_blob_size h k n = ((e, x), n') →
    same_view (view n) (view n') ∧
    (e = ESP_OK → reads (view n) h k e (λ v, ∃ b, v = VBlob b ∧ Z.of_nat (length b) = x)) ∧
    (e = ESP_ERR_NVS_NOT_FOUND → reads (view n) h k e (λ v, ∃ b, v = VBlob b));
  nvs_get_blob_law h k n e x n' : nvs_get_blob h k n = ((e, x), n') →
    same_view (view n) (view n') ∧
    (e = ESP_OK → reads (view n) h k e (λ v, v = VBlob x)) ∧
    (e = ESP_ERR_NVS_NOT_FOUND → reads (view n) h k e (λ v, ∃ b, v = VBlob b));
  nvs_set_u8_law h k x n e n' ns : nvs_set_u8 h k x n = (e, n') → handles (view n) !! h = Some ns →
    writes (view n) (view n') e ((ns, k), Some (VU8 x));
  nvs_set_u32_law h k x n e n' ns : nvs_set_u32 h k x n = (e, n') → handles (view n) !! h = Some ns →
    writes (view n) (view n') e ((ns, k), Some (VU32 x));
  nvs_set_blob_law h k x n e n' ns : nvs_set_blob h k x n = (e, n') → handles (view n) !! h = Some ns →
    writes (view n) (view n') e ((ns, k), Some (VBlob x));
  nvs_erase_key_law h k n e n' ns : nvs_erase_key h k n = (e, n') → handles (view n) !! h = Some ns →
    writes (view n) (view n') e ((ns, k), None) ∧
    (e = ESP_ERR_NVS_NOT_FOUND → pending (view n') = pending (view n) ∧
       visible (view n) !! (ns, k) = None);
  nvs_commit_law h n e n' : nvs_commit h n = (e, n') →
    handles (view n') = handles (view n) ∧ namespaces (view n') = namespaces (view n) ∧
    (committed (view n') = visible (view n) ∧ pending (view n') = [] ∨
     e ≠ ESP_OK ∧ committed (view n') = committed (view n) ∧ pending (view n') = pending (view n));
  nvs_close_law h n u n' : nvs_close h n = (u, n') → same_values (view n) (view n');
}.

(** Which calls report something missing: opening reports a namespace that does
    not exist, a read a key, both with [ESP_ERR_NVS_NOT_FOUND] alone. *)
Class NvsNotFoundLaws (N : Type) `{NvsLaws N} := {
  nvs_open_not_found l ns mode n e h n' : nvs_open_from_partition l ns mode n = ((e, h), n') →
    e ≠ ESP_ERR_NOT_FOUND ∧
    (e = ESP_ERR_NVS_NOT_FOUND → ∀ key, visible (view n) !! (ns, key) = None);
  nvs_get_blob_size_not_found h k n e x n' :
    nvs_get_blob_size h k n = ((e, x), n') → e ≠ ESP_ERR_NOT_FOUND;
  nvs_get_blob_not_found h k n e x n' : nvs_get_blob h k n = ((e, x), n') → e ≠ ESP_ERR_NOT_FOUND;
}.

(** A partition that can be read: it initialises, a namespace that has a value
    opens, and a read gives the value that is there or reports that there is none.
    This is what the documentation promises of a flash without faults; what a
    read of a value of another type reports is left open. *)
Class NvsReadable (N : Type) `{NvsLaws N} := {
  readable_init l n : fst (nvs_flash_init_partition l n) = ESP_OK;
  readable_open l ns mode n key :
    is_Some (visible (view n) !! (ns, key)) → fst (fst (nvs_open_from_partition l ns mode n)) = ESP_OK;
  readable_u8 h k n ns : handles (view n) !! h = Some ns →
    match visible (view n) !! (ns, k) with
    | Some (VU8 x) => fst (fst (nvs_get_u8 h k n)) = ESP_OK
    | Some _ => True
    | None => fst (fst (nvs_get_u8 h k n)) = ESP_ERR_NVS_NOT_FOUND
    end;
  readable_u32 h k n ns : handles (view n) !! h = Some ns →
    match visible (view n) !! (ns, k) with
    | Some (VU32 x) => fst (fst (nvs_get_u32 h k n)) = ESP_OK
    | Some _ => True
    | None => fst (fst (nvs_get_u32 h k n)) = ESP_ERR_NVS_NOT_FOUND
    end;
  readable_blob_size h k n ns : handles (view n) !! h = Some ns →
    match visible (view n) !! (ns, k) with
    | Some (VBlob x) => fst (fst (nvs_get_blob_size h k n)) = ESP_OK
    | Some _ => True
    | None => fst (fst (nvs_get_blob_size h k n)) = ESP_ERR_NVS_NOT_FOUND
    end;
  readable_blob h k n ns : handles (view n) !! h = Some ns →
    match visible (view n) !! (ns, k) with
    | Some (VBlob x) => fst (fst (nvs_get_blob h k n)) = ESP_OK
    | Some _ => True
    | None => fst (fst (nvs_get_blob h k n)) = ESP_ERR_NVS_NOT_FOUND
    end;
}.

(** ** Recording the states between calls *)

Section Logged.
Context {N : Type}.

Definition logged {A} (f : N → A * N) (s : N * list N) : A * (N * list N) :=
  let '(a, n) := f (fst s) in (a, (n, snd s ++ [n])).

#[export] Instance logged_nvs `{!Nvs N} : Nvs (N * list N) := {|
  nvs_flash_init_partition l := logged (nvs_flash_init_partition l);
  nvs_flash_secure_init_partition l := logged (nvs_flash_secure_init_partition l);
  nvs_flash_deinit_partition l := logged (nvs_flash_deinit_partition l);
  nvs_flash_erase_partition l := logged (nvs_flash_erase_partition l);
  nvs_open_from_partition l ns mode := logged (nvs_open_from_partition l ns mode);
  nvs_get_u8 h k := logged (nvs_get_u8 h k);
  nvs_get_u32 h k := logged (nvs_get_u32 h k);
  nvs_get_blob_size h k := logged (nvs_get_blob_size h k);
  nvs_get_blob h k := logged (nvs_get_blob h k);
  nvs_set_u8 h k x := logged (nvs_set_u8 h k x);
  nvs_set_u32 h k x := logged (nvs_set_u32 h k x);
  nvs_set_blob h k x := logged (nvs_set_blob h k x);
  nvs_erase_key h k := logged (nvs_erase_key h k);
  nvs_commit h := logged (nvs_commit h);
  nvs_close h := logged (nvs_close h);
|}.

Lemma logged_inv {A} (f : N → A * N) s a s' :
  logged f s = (a, s') → f (fst s) = (a, fst s') ∧ snd s' = snd s ++ [fst s'].
Proof. unfold logged. destruct (f (fst s)). by intros [= <- <-]. Qed.
End Logged.

#[export] Instance logged_laws N `{!Nvs N} `{!NvsLaws N} : NvsLaws (N * list N).
Proof.
  refine {| view := λ s, view (fst s) |}; intros *.
  - intros [? _]%logged_inv. by eapply nvs_init_law.
  - intros [? _]%logged_inv. by eapply nvs_secure_init_law.
  - intros [? _]%logged_inv. by eapply nvs_deinit_law.
  - intros [? _]%logged_inv. by eapply nvs_erase_law.
  - intros [? _]%logged_inv. by eapply nvs_open_law.
  - intros [? _]%logged_inv. by eapply nvs_get_u8_law.
  - intros [? _]%logged_inv. by eapply nvs_get_u32_law.
  - intros [? _]%logged_inv. by eapply nvs_get_blob_size_law.
  - intros [? _]%logged_inv. by eapply nvs_get_blob_law.
  - intros [? _]%logged_inv. by eapply nvs_set_u8_law.
  - intros [? _]%logged_inv. by eapply nvs_set_u32_law.
  - intros [? _]%logged_inv. by eapply nvs_set_blob_law.
  - intros [? _]%logged_inv. by eapply nvs_erase_key_law.
  - intros [? _]%logged_inv. by eapply nvs_commit_law.
  - intros [? _]%logged_inv. by eapply nvs_close_law.
Defined.

(** ** Recording what the calls report

    [recorded] wraps an implementation so that it keeps the errors its calls have
    returned, in order: running a function over it tells which calls failed.  The
    two are not instances, so that they do not compete with [logged_nvs]. *)

Definition recorded {N A} (error : A → list esp_err_t) (f : N → A * N) (s : N * list esp_err_t)
    : A * (N * list esp_err_t) :=
  let '(a, n) := f (fst s) in (a, (n, snd s ++ error a)).

Definition error_only (e : esp_err_t) : list esp_err_t := [e].
Definition error_first {A} (x : esp_err_t * A) : list esp_err_t := [fst x].
Definition no_error (u : unit) : list esp_err_t := [].

Definition recorded_nvs {N} `{!Nvs N} : Nvs (N * list esp_err_t) := {|
  nvs_flash_init_partition l := recorded error_only (nvs_flash_init_partition l);
  nvs_flash_secure_init_partition l := recorded error_only (nvs_flash_secure_init_partition l);
  nvs_flash_deinit_partition l := recorded error_only (nvs_flash_deinit_partition l);
  nvs_flash_erase_partition l := recorded error_only (nvs_flash_erase_partition l);
  nvs_open_from_partition l ns mode := recorded error_first (nvs_open_from_partition l ns mode);
  nvs_get_u8 h k := recorded error_first (nvs_get_u8 h k);
  nvs_get_u32 h k := recorded error_first (nvs_get_u32 h k);
  nvs_get_blob_size h k := recorded error_first (nvs_get_blob_size h k);
  nvs_get_blob h k := recorded error_first (nvs_get_blob h k);
  nvs_set_u8 h k x := recorded error_only (nvs_set_u8 h k x);
  nvs_set_u32 h k x := recorded error_only (nvs_set_u32 h k x);
  nvs_set_blob h k x := recorded error_only (nvs_set_blob h k x);
  nvs_erase_key h k := recorded error_only (nvs_erase_key h k);
  nvs_commit h := recorded error_only (nvs_commit h);
  nvs_close h := recorded no_error (nvs_close h);
|}.

Lemma recorded_inv {N A} error (f : N → A * N) (s : N * list esp_err_t) a s' :
  recorded error f s = (a, s') → f (fst s) = (a, fst s') ∧ snd s' = snd s ++ error a.
Proof. unfold recorded. destruct (f (fst s)). by intros [= <- <-]. Qed.

Definition recorded_laws {N} `{!Nvs N} `{!NvsLaws N} : @NvsLaws (N * list esp_err_t) recorded_nvs.
Proof.
  refine (@Build_NvsLaws _ recorded_nvs (λ s, view (fst s)) _ _ _ _ _ _ _ _ _ _ _ _ _ _ _); intros *.
  - intros [? _]%recorded_inv. by eapply nvs_init_law.
  - intros [? _]%recorded_inv. by eapply nvs_secure_init_law.
  - intros [? _]%recorded_inv. by eapply nvs_deinit_law.
  - intros [? _]%recorded_inv. by eapply nvs_erase_law.
  - intros [? _]%recorded_inv. by eapply nvs_open_law.
  - intros [? _]%recorded_inv. by eapply nvs_get_u8_law.
  - intros [? _]%recorded_inv. by eapply nvs_get_u32_law.
  - intros [? _]%recorded_inv. by eapply nvs_get_blob_size_law.
  - intros [? _]%recorded_inv. by eapply nvs_get_blob_law.
  - intros [? _]%recorded_inv. by eapply nvs_set_u8_law.
  - intros [? _]%recorded_inv. by eapply nvs_set_u32_law.
  - intros [? _]%recorded_inv. by eapply nvs_set_blob_law.
  - intros [? _]%recorded_inv. by eapply nvs_erase_key_law.
  - intros [? _]%recorded_inv. by eapply nvs_commit_law.
  - intros [? _]%recorded_inv. by eapply nvs_close_law.
Defined.

(** ** The views *)

Lemma visible_same v v' : same_values v v' → visible v' = visible v.
Proof. intros [Hc Hp]. unfold visible. by rewrite Hc, Hp. Qed.
Lemma survives_same v v' m : same_values v v' → survives v' m ↔ survives v m.
Proof. intros [Hc Hp]. unfold survives. by rewrite Hc, Hp. Qed.
Lemma same_values_refl v : same_values v v.
Proof. done. Qed.
Lemma same_values_trans v1 v2 v3 : same_values v1 v2 → same_values v2 v3 → same_values v1 v3.
Proof. intros [] []. split; congruence. Qed.

Lemma visible_survives v : survives v (visible v).
Proof. by exists (pending v). Qed.

Lemma survives_committed v m : pending v = [] → survives v m ↔ m = committed v.
Proof.
  intros Hp. unfold survives. rewrite Hp. split.
  - intros (ws & Hws & ->). by apply sublist_nil_r in Hws as ->.
  - intros ->. by exists [].
Qed.

Lemma visible_snoc v v' w :
  committed v' = committed v → pending v' = pending v ++ [w] →
  visible v' = apply_write (visible v) w.
Proof. intros Hc Hp. unfold visible, apply_writes. by rewrite Hc, Hp, foldl_app. Qed.

Lemma survives_snoc v v' w m :
  committed v' = committed v → pending v' = pending v ++ [w] → survives v' m →
  survives v m ∨ ∃ m0, survives v m0 ∧ m = apply_write m0 w.
Proof.
  intros Hc Hp (ws & Hws & ->). rewrite Hp in Hws. rewrite Hc.
  apply sublist_app_r in Hws as (ws1 & ws2 & -> & H1 & H2).
  apply sublist_cons_r in H2 as [H2|(ws3 & -> & H2)].
  - apply sublist_nil_r in H2 as ->. rewrite app_nil_r. left. by exists ws1.
  - apply sublist_nil_r in H2 as ->. right. exists (apply_writes (committed v) ws1).
    split; [by exists ws1|]. unfold apply_writes. by rewrite foldl_app.
Qed.

(** ** An implementation in memory *)

Definition MemoryNvs : Type := NvsView.
Definition fresh_nvs : MemoryNvs := mkView ∅ [] ∅ ∅.

Definition memory_read {A} (read : nvs_value → option A) (dflt : A) (h : Z) (key : string)
    (v : MemoryNvs) : (esp_err_t * A) * MemoryNvs :=
  match handles v !! h with
  | None => ((ESP_ERR_OTHER 1, dflt), v)
  | Some ns =>
    match visible v !! (ns, key) ≫= read with
    | Some x => ((ESP_OK, x), v)
    | None => ((ESP_ERR_NVS_NOT_FOUND, dflt), v)
    end
  end.

Definition memory_write (h : Z) (key : string) (x : option nvs_value) (v : MemoryNvs)
    : esp_err_t * MemoryNvs :=
  match handles v !! h with
  | None => (ESP_ERR_OTHER 1, v)
  | Some ns => (ESP_OK, v <| pending := pending v ++ [((ns, key), x)] |>)
  end.

Definition as_u8 (x : nvs_value) := match x with VU8 y => Some y | _ => None end.
Definition as_u32 (x : nvs_value) := match x with VU32 y => Some y | _ => None end.
Definition as_blob (x : nvs_value) := match x with VBlob y => Some y | _ => None end.
Definition blob_size (x : nvs_value) := (λ b : bytes, Z.of_nat (length b)) <$> as_blob x.

#[export] Instance memory_nvs : Nvs MemoryNvs := {|
  nvs_flash_init_partition _ v := (ESP_OK, v);
  nvs_flash_secure_init_partition _ v := (ESP_ERR_OTHER 2, v);
  nvs_flash_deinit_partition _ v := (ESP_OK, v <| handles := ∅ |>);
  nvs_flash_erase_partition _ v := (ESP_OK, fresh_nvs);
  nvs_open_from_partition _ ns mode v :=
    match mode with
    | NVS_READONLY =>
      if bool_decide (ns ∈ namespaces v) || existsb (λ x, bool_decide (fst (fst x) = ns)) (map_to_list (visible v))
      then ((ESP_OK, 1), v <| handles := <[1 := ns]> (handles v) |>)
      else ((ESP_ERR_NVS_NOT_FOUND, 0), v)
    | NVS_READWRITE =>
      ((ESP_OK, 1), v <| handles := <[1 := ns]> (handles v) |>
                      <| namespaces := {[ns]} ∪ namespaces v |>)
    end;
  nvs_get_u8 := memory_read as_u8 0;
  nvs_get_u32 := memory_read as_u32 0;
  nvs_get_blob_size := memory_read blob_size 0;
  nvs_get_blob := memory_read as_blob [];
  nvs_set_u8 h k x := memory_write h k (Some (VU8 x));
  nvs_set_u32 h k x := memory_write h k (Some (VU32 x));
  nvs_set_blob h k x := memory_write h k (Some (VBlob x));
  nvs_erase_key h k v :=
    match handles v !! h with
    | None => (ESP_ERR_OTHER 1, v)
    | Some ns => match visible v !! (ns, k) with
                 | None => (ESP_ERR_NVS_NOT_FOUND, v)
                 | Some _ => memory_write h k None v
                 end
    end;
  nvs_commit _ v := (ESP_OK, v <| committed := visible v |> <| pending := [] |>);
  nvs_close h v := (tt, v <| handles := delete h (handles v) |>);
|}.

Lemma memory_read_law {A} (read : nvs_value → option A) dflt h key v e x v'
    (is_x : A → nvs_value → Prop) (is_any : nvs_value → Prop) :
  (∀ y a, read y = Some a ↔ is_x a y) → (∀ y, is_any y ↔ is_Some (read y)) →
  memory_read read dflt h key v = ((e, x), v') →
  same_view v v' ∧ (e = ESP_OK → reads v h key e (is_x x)) ∧
  (e = ESP_ERR_NVS_NOT_FOUND → reads v h key e is_any).
Proof.
  intros Hx Hany E. unfold memory_read in E.
  destruct (handles v !! h) as [ns|] eqn:Eh; [|by injection E as <- <- <-].
  destruct (visible v !! (ns, key) ≫= read) as [a|] eqn:Er; injection E as <- <- <-.
  - split_and!; [done| |done]. intros _ ns' Hns. rewrite Eh in Hns. injection Hns as <-.
    split; [|done]. intros _. apply bind_Some in Er as (y & Hy & Hr).
    exists y. split; [done|]. by apply Hx.
  - split_and!; [done|done|]. intros _ ns' Hns. rewrite Eh in Hns. injection Hns as <-.
    split; [done|]. intros _ (y & Hy & [a Ha]%Hany). rewrite Hy in Er. cbn in Er. congruence.
Qed.

Lemma memory_write_law h key x v e v' ns :
  memory_write h key x v = (e, v') → handles v !! h = Some ns → writes v v' e ((ns, key), x).
Proof.
  intros E Hh. unfold memory_write in E. rewrite Hh in E. injection E as <- <-.
  split_and!; try done. by left.
Qed.

#[local] Ltac naive_read :=
  intros; split; intros;
  repeat match goal with
  | H : is_Some None |- _ => by destruct H
  | H : ∃ _, _ |- _ => destruct H
  | H : _ ∧ _ |- _ => destruct H
  | H : Some _ = Some _ |- _ => injection H as <-
  | H : VBlob _ = VBlob _ |- _ => injection H as <-
  end; subst; try done; try congruence; eauto.

#[export] Instance memory_nvs_laws : NvsLaws MemoryNvs.
Proof.
  refine {| view := λ v : MemoryNvs, v |}; cbn; intros *.
  - by intros _ * [= <- <-].
  - by intros _ * [= <- <-].
  - by intros _ * [= <- <-].
  - by intros _ _ n' [= <-].
  - intros _ ns mode n e h n'.
    destruct mode; [destruct (_ || _)|]; intros [= <- <- <-]; (split; [done|]); intros; try done;
      cbn; apply lookup_insert_eq.
  - apply (memory_read_law as_u8 0 _ _ _ _ _ _ (λ x v, v = VU8 x)); intros []; cbn; naive_read.
  - apply (memory_read_law as_u32 0 _ _ _ _ _ _ (λ x v, v = VU32 x)); intros []; cbn; naive_read.
  - apply (memory_read_law blob_size 0 _ _ _ _ _ _
      (λ x v, ∃ b, v = VBlob b ∧ Z.of_nat (length b) = x)); intros []; cbn; naive_read.
  - apply (memory_read_law as_blob [] _ _ _ _ _ _ (λ x v, v = VBlob x)); intros []; cbn; naive_read.
  - apply memory_write_law.
  - apply memory_write_law.
  - apply memory_write_law.
  - intros E Hh. rewrite Hh in E. destruct (visible n !! (ns, k)) eqn:Ev.
    + unfold memory_write in E. rewrite Hh in E. injection E as <- <-.
      split; [|done]. split_and!; try done. by left.
    + injection E as <- <-. split; [|done]. split_and!; try done. by right.
  - intros _ * [= <- <-]. split_and!; try done. by left.
  - by intros * [= <- <-].
Defined.

#[export] Instance memory_nvs_not_found : NvsNotFoundLaws MemoryNvs.
Proof.
  constructor.
  - intros l ns mode n e h n' E. cbn in E. destruct mode; [|by injection E as <- <- <-].
    destruct (_ || _) eqn:En; injection E as <- <- <-; [done|]. split; [done|]. intros _ key.
    apply orb_false_iff in En as [_ En]. destruct (visible _ !! (ns, key)) as [x|] eqn:Ex; [|done].
    assert (Ht : existsb (λ x, bool_decide (fst (fst x) = ns)) (map_to_list (visible n)) = true).
    { apply existsb_exists. exists ((ns, key), x). split; [|by apply bool_decide_eq_true].
      by apply list_elem_of_In, elem_of_map_to_list. }
    cbn in Ex. congruence.
  - intros h k n e x n' E. cbn in E. unfold memory_read in E. by repeat case_match; injection E as <- <- <-.
  - intros h k n e x n' E. cbn in E. unfold memory_read in E. by repeat case_match; injection E as <- <- <-.
Qed.

#[export] Instance memory_nvs_readable : NvsReadable MemoryNvs.
Proof.
  constructor.
  - done.
  - intros l ns mode n key [x Hx]. destruct mode; [|done]. cbn in Hx |- *.
    replace (_ || _) with true; [done|]. symmetry. apply orb_true_iff. right.
    apply existsb_exists. exists ((ns, key), x). split; [|by apply bool_decide_eq_true].
    by apply list_elem_of_In, elem_of_map_to_list.
  - intros h k n ns Hh. cbn in *. unfold memory_read. rewrite Hh. by destruct (visible n !! (ns, k)) as [[]|].
  - intros h k n ns Hh. cbn in *. unfold memory_read. rewrite Hh. by destruct (visible n !! (ns, k)) as [[]|].
  - intros h k n ns Hh. cbn in *. unfold memory_read. rewrite Hh. by destruct (visible n !! (ns, k)) as [[]|].
  - intros h k n ns Hh. cbn in *. unfold memory_read. rewrite Hh. by destruct (visible n !! (ns, k)) as [[]|].
Qed.

#[export] Instance logged_not_found N `{!Nvs N} `{!NvsLaws N} `{!NvsNotFoundLaws N} : NvsNotFoundLaws (N * list N).
Proof.
  constructor; intros *; cbn; intros [? _]%logged_inv.
  - by eapply nvs_open_not_found.
  - by eapply nvs_get_blob_size_not_found.
  - by eapply nvs_get_blob_not_found.
Qed.
