(* ===== verification/NvsPersistence.v ===== *)
(** * The Vault in non-volatile storage

    [m5auth_vault_runtime/nvs_persistence.cpp] and
    [compatible_nvs_persistence.cpp]: the binary framing of an envelope, the
    two-slot layout with an active pointer, and the five functions of the
    [Persistence] interface, written against any implementation of the NVS
    calls. *)

From S2P Require Import Prelude Bytes ByteReader VaultFormat Persistence Nvs.

Definition kPartitionLabel : string := "auth_nvs".
Definition kNamespace : string := "vault2".
Definition kLegacyNamespace : string := "state".
Definition kSchemaKey : string := "schema".
Definition kActiveSlotKey : string := "active".
Definition kSlot0Key : string := "slot0".
Definition kSlot1Key : string := "slot1".
Definition kLastUsedKey : string := "last_used".
Definition kEnvelopeMagic : bytes := str "M5AVLT2" ++ [0].

Definition map_error (error : esp_err_t) : Status :=
  match error with
  | ESP_OK => kOk
  | ESP_ERR_NVS_NOT_FOUND | ESP_ERR_NOT_FOUND => kNotFound
  | ESP_ERR_INVALID_ARG => kInvalidArgument
  | ESP_ERR_NVS_NO_FREE_PAGES => kCorrupt
  | ESP_ERR_NVS_NEW_VERSION_FOUND => kUnsupportedSchema
  | ESP_ERR_OTHER _ => kIo
  end.

Definition is_esp_ok (e : esp_err_t) : bool := bool_decide (e = ESP_OK).

(** ** Envelope framing *)

Definition append_u16 (output : bytes) (value : Z) : bytes :=
  (output ++ [Z.land value 0xff]) ++ [Z.land (Z.shiftr value 8) 0xff].

Definition append_u32 (output : bytes) (value : Z) : bytes :=
  fold_left (λ out shift, out ++ [byte_at value shift]) [0; 8; 16; 24] output.

Definition append_u64 (output : bytes) (value : Z) : bytes :=
  fold_left (λ out shift, out ++ [byte_at value shift]) [0; 8; 16; 24; 32; 40; 48; 56] output.

Definition read_u16 : parser Z :=
  bytes ← read_bytes 2;
  mret (Z.lor (bytes !!! 0%nat) (Z.shiftl (bytes !!! 1%nat) 8)).

Definition read_u32 : parser Z :=
  bytes ← read_bytes 4;
  mret (Z.lor (Z.lor (Z.lor (bytes !!! 0%nat) (Z.shiftl (bytes !!! 1%nat) 8))
    (Z.shiftl (bytes !!! 2%nat) 16)) (Z.shiftl (bytes !!! 3%nat) 24)).

Definition read_u64 : parser Z :=
  bytes ← read_bytes 8;
  mret (fold_left (λ result index,
    Z.lor result (Z.shiftl (bytes !!! index) (Z.of_nat index * 8))) (seq 0 8) 0).

Definition valid_envelope (envelope : VaultEnvelope) : bool :=
  (storage_schema_version envelope =? kTargetStorageSchemaVersion) &&
  is_supported_vault_format (vault_format_version envelope) &&
  negb (generation envelope =? 0) &&
  negb (Nat.eqb (length (ciphertext envelope)) 0) &&
  Nat.leb (length (ciphertext envelope)) kMaxPersistedCiphertextBytes &&
  (Z.of_nat (length (ciphertext envelope)) <=? u32_max).

Definition same_envelope (left right : VaultEnvelope) : bool :=
  (storage_schema_version left =? storage_schema_version right) &&
  (vault_format_version left =? vault_format_version right) &&
  bool_decide (vault_id left = vault_id right) &&
  (generation left =? generation right) &&
  bool_decide (nonce left = nonce right) &&
  bool_decide (ciphertext left = ciphertext right) &&
  bool_decide (tag left = tag right).

(** The status, and the bytes written to [*output] on success. *)
Definition encode_envelope (envelope : VaultEnvelope) : Status * bytes :=
  if negb (valid_envelope envelope) then (kInvalidArgument, [])
  else
    let output := kEnvelopeMagic in
    let output := append_u16 output (storage_schema_version envelope) in
    let output := append_u16 output (vault_format_version envelope) in
    let output := output ++ vault_id envelope in
    let output := append_u64 output (generation envelope) in
    let output := output ++ nonce envelope in
    let output := output ++ tag envelope in
    let output := append_u32 output (Z.of_nat (length (ciphertext envelope))) in
    (kOk, output ++ ciphertext envelope).

(** The header [decode_envelope] reads first: an envelope without its body,
    and the size of the body. *)
Definition decode_header : parser (VaultEnvelope * Z) :=
  magic ← read_bytes (length kEnvelopeMagic);
  _ ← check (bool_decide (magic = kEnvelopeMagic));
  schema ← read_u16;
  format ← read_u16;
  id ← read_bytes kVaultIdBytes;
  generation ← read_u64;
  nonce ← read_bytes kVaultNonceBytes;
  tag ← read_bytes kVaultTagBytes;
  ciphertext_size ← read_u32;
  _ ← check (negb ((ciphertext_size =? 0)
               || (ciphertext_size >? Z.of_nat kMaxPersistedCiphertextBytes)));
  mret (mkEnvelope format schema id generation nonce [] tag, ciphertext_size).

Definition decode_envelope (encoded : bytes) : Status * VaultEnvelope :=
  if Nat.eqb (length encoded) 0 then (kCorrupt, empty_envelope)
  else
    match decode_header (mkReader encoded 0) with
    | None => (kCorrupt, empty_envelope)
    | Some ((header, ciphertext_size), reader) =>
      if negb (storage_schema_version header =? kTargetStorageSchemaVersion)
      then (kCorrupt, empty_envelope)
      else if negb (is_supported_vault_format (vault_format_version header))
      then (kUnsupportedVaultFormat, empty_envelope)
      else
        match (body ← read_bytes (Z.to_nat ciphertext_size);
               finished ← at_end;
               _ ← check finished;
               let candidate := header <| ciphertext := body |> in
               _ ← check (valid_envelope candidate);
               mret candidate) reader with
        | None => (kCorrupt, empty_envelope)
        | Some (candidate, _) => (kOk, candidate)
        end
    end.

(** ** The store *)

Section NvsPersistence.
Context {N : Type} `{Nvs N}.

Definition nvs_op (A : Type) : Type := N → A * N.

Definition ensure_partition_initialized : nvs_op Status := λ n,
  let '(e, n) := nvs_flash_init_partition kPartitionLabel n in (map_error e, n).

Definition open_namespace (mode : nvs_open_mode_t) : nvs_op (Status * Z) := λ n,
  let '((e, handle), n) := nvs_open_from_partition kPartitionLabel kNamespace mode n in
  ((map_error e, handle), n).

(** The status and [*output]. *)
Definition read_blob (handle : Z) (key : string) : nvs_op (Status * bytes) := fn (
  x ← call (nvs_get_blob_size handle key);
  let '(result, size) := x in
  leave_if (negb (is_esp_ok result)) (map_error result, []);;
  leave_if ((size =? 0) || (size >? Z.of_nat kMaxPersistedCiphertextBytes + 128)) (kCorrupt, []);;
  x ← call (nvs_get_blob handle key);
  let '(result, data) := x in
  leave_if (negb (is_esp_ok result)) (map_error result, []);;
  mret (kOk, data)).

(** What [read_active] writes: the active slot and its envelope, if any. *)
Definition read_active (handle : Z) : nvs_op (Status * option (Z * VaultEnvelope)) := fn (
  x ← call (nvs_get_u8 handle kActiveSlotKey);
  let '(active_result, slot) := x in
  leave_if (bool_decide (active_result = ESP_ERR_NVS_NOT_FOUND)) (kOk, None);;
  leave_if (negb (is_esp_ok active_result)) (map_error active_result, None);;
  leave_if (slot >? 1) (kCorrupt, None);;
  x ← call (read_blob handle (if slot =? 0 then kSlot0Key else kSlot1Key));
  let '(read_status, encoded) := x in
  leave_if (negb (is_ok read_status)) (read_status, None);;
  let '(decode_status, envelope) := decode_envelope encoded in
  leave_if (negb (is_ok decode_status)) (decode_status, None);;
  mret (kOk, Some (slot, envelope))).

Definition detect_legacy_schema : nvs_op Status := fn (
  x ← call (nvs_open_from_partition kPartitionLabel kLegacyNamespace NVS_READONLY);
  let '(open_result, handle) := x in
  leave_if (bool_decide (open_result = ESP_ERR_NVS_NOT_FOUND)) kUnprovisioned;;
  leave_if (negb (is_esp_ok open_result)) (map_error open_result);;
  x ← call (nvs_get_u32 handle kSchemaKey);
  let '(schema_result, schema) := x in
  call (nvs_close handle);;
  leave_if (bool_decide (schema_result = ESP_ERR_NVS_NOT_FOUND)) kUnprovisioned;;
  leave_if (negb (is_esp_ok schema_result)) (map_error schema_result);;
  leave_if (schema =? 1) kReprovisionRequired;;
  leave_if (schema >? kStorageSchemaVersion) kUnsupportedSchema;;
  mret kCorrupt).

(** [nvs_close(handle); return status;] *)
Definition close_and_leave {R A} (handle : Z) (r : R) : ctl N R A :=
  call (nvs_close handle);; leave r.

Definition nvs_load : nvs_op (Status * PersistedSnapshot) := fn (
  status ← call ensure_partition_initialized;
  leave_if (negb (is_ok status)) (status, empty_snapshot);;
  x ← call (open_namespace NVS_READONLY);
  let '(status, handle) := x in
  if bool_decide (status = kNotFound) then
    status ← call detect_legacy_schema;
    leave (status, empty_snapshot)
  else
    leave_if (negb (is_ok status)) (status, empty_snapshot);;
    x ← call (nvs_get_u32 handle kSchemaKey);
    let '(schema_result, schema) := x in
    if negb (is_esp_ok schema_result) then
      close_and_leave handle
        (if bool_decide (schema_result = ESP_ERR_NVS_NOT_FOUND) then kCorrupt
         else map_error schema_result, empty_snapshot)
    else if schema =? 1 then close_and_leave handle (kReprovisionRequired, empty_snapshot)
    else if schema >? kStorageSchemaVersion
    then close_and_leave handle (kUnsupportedSchema, empty_snapshot)
    else if negb (schema =? kStorageSchemaVersion)
    then close_and_leave handle (kCorrupt, empty_snapshot)
    else
      x ← call (read_active handle);
      let '(status, active) := x in
      let snapshot := mkSnapshot true (bool_decide (is_Some active))
        (match active with Some (_, e) => e | None => empty_envelope end) None in
      if negb (is_ok status) then close_and_leave handle (status, snapshot)
      else
        x ← call (nvs_get_blob_size handle kLastUsedKey);
        let '(last_used_probe, last_used_size) := x in
        if is_esp_ok last_used_probe then
          if negb (last_used_size =? Z.of_nat kCredentialIdBytes)
          then close_and_leave handle (kCorrupt, snapshot)
          else
            x ← call (nvs_get_blob handle kLastUsedKey);
            let '(last_used_result, credential_id) := x in
            if negb (is_esp_ok last_used_result)
            then close_and_leave handle (map_error last_used_result, snapshot)
            else
              call (nvs_close handle);;
              mret (kOk, mkSnapshot true (has_vault snapshot) (envelope snapshot)
                           (Some credential_id))
        else if negb (bool_decide (last_used_probe = ESP_ERR_NVS_NOT_FOUND))
        then close_and_leave handle (map_error last_used_probe, snapshot)
        else
          call (nvs_close handle);;
          mret (kOk, snapshot)).

(** [result = nvs_set...(); if (result == ESP_OK) result = nvs_commit(handle);] *)
Definition set_and_commit (handle : Z) (set : nvs_op esp_err_t) : nvs_op esp_err_t := fn (
  result ← call set;
  if is_esp_ok result then call (nvs_commit handle) else mret result).

Definition nvs_format_schema2 : nvs_op Status := fn (
  call (nvs_flash_deinit_partition kPartitionLabel);;
  result ← call (nvs_flash_erase_partition kPartitionLabel);
  leave_if (negb (is_esp_ok result)) (map_error result);;
  result ← call (nvs_flash_init_partition kPartitionLabel);
  leave_if (negb (is_esp_ok result)) (map_error result);;
  x ← call (open_namespace NVS_READWRITE);
  let '(status, handle) := x in
  leave_if (negb (is_ok status)) status;;
  result ← call (set_and_commit handle (nvs_set_u32 handle kSchemaKey kStorageSchemaVersion));
  call (nvs_close handle);;
  mret (map_error result)).

(** The generation check of [replace_envelope]. *)
Definition replace_mismatch (expected_generation : Z) (envelope : VaultEnvelope)
    (active : option (Z * VaultEnvelope)) : bool :=
  if expected_generation =? 0 then bool_decide (is_Some active)
  else
    match active with
    | None => true
    | Some (_, current) =>
      negb (generation current =? expected_generation) ||
      (expected_generation =? u64_max) ||
      negb (generation envelope =? expected_generation + 1) ||
      negb (bool_decide (vault_id envelope = vault_id current))
    end.

(** The two phases of [replace_envelope]: stage the encoded envelope in the
    inactive slot and commit, validate the staged copy, flip the active slot. *)
Definition stage_and_flip (handle inactive_slot : Z) (encoded : bytes) (envelope : VaultEnvelope)
    : nvs_op Status := fn (
  let inactive_key := if inactive_slot =? 0 then kSlot0Key else kSlot1Key in
  result ← call (set_and_commit handle (nvs_set_blob handle inactive_key encoded));
  if negb (is_esp_ok result) then close_and_leave handle (map_error result)
  else
    x ← call (read_blob handle inactive_key);
    let '(status, staged_bytes) := x in
    let '(status, staged) :=
      if is_ok status then decode_envelope staged_bytes else (status, empty_envelope) in
    if negb (is_ok status) || negb (same_envelope staged envelope)
    then close_and_leave handle (if is_ok status then kCorrupt else status)
    else
      result ← call (set_and_commit handle (nvs_set_u8 handle kActiveSlotKey inactive_slot));
      call (nvs_close handle);;
      mret (map_error result)).

Definition nvs_replace_envelope (expected_generation : Z) (envelope : VaultEnvelope)
    : nvs_op Status := fn (
  leave_if (negb (valid_envelope envelope)) kInvalidArgument;;
  status ← call ensure_partition_initialized;
  leave_if (negb (is_ok status)) status;;
  x ← call (open_namespace NVS_READWRITE);
  let '(status, handle) := x in
  leave_if (negb (is_ok status)) status;;
  x ← call (nvs_get_u32 handle kSchemaKey);
  let '(result, schema) := x in
  if negb (is_esp_ok result) || negb (schema =? kStorageSchemaVersion)
  then close_and_leave handle (if is_esp_ok result then kUnsupportedSchema else map_error result)
  else
    x ← call (read_active handle);
    let '(status, active) := x in
    if negb (is_ok status) then close_and_leave handle status
    else if replace_mismatch expected_generation envelope active
    then close_and_leave handle kGenerationMismatch
    else
      let inactive_slot := match active with Some (slot, _) => 1 - slot | None => 0 end in
      let '(status, encoded) := encode_envelope envelope in
      if negb (is_ok status) then close_and_leave handle status
      else call (stage_and_flip handle inactive_slot encoded envelope)).

Definition nvs_set_last_used (credential_id : option bytes) : nvs_op Status := fn (
  status ← call ensure_partition_initialized;
  leave_if (negb (is_ok status)) status;;
  x ← call (open_namespace NVS_READWRITE);
  let '(status, handle) := x in
  leave_if (negb (is_ok status)) status;;
  x ← call (nvs_get_u32 handle kSchemaKey);
  let '(result, schema) := x in
  if negb (is_esp_ok result) || negb (schema =? kStorageSchemaVersion)
  then close_and_leave handle (if is_esp_ok result then kUnsupportedSchema else map_error result)
  else
    result ← call (set_and_commit handle
      match credential_id with
      | Some id => nvs_set_blob handle kLastUsedKey id
      | None => λ n,
        let '(result, n) := nvs_erase_key handle kLastUsedKey n in
        (if bool_decide (result = ESP_ERR_NVS_NOT_FOUND) then ESP_OK else result, n)
      end);
    call (nvs_close handle);;
    mret (map_error result)).

Definition nvs_erase_all : nvs_op Status := fn (
  call (nvs_flash_deinit_partition kPartitionLabel);;
  result ← call (nvs_flash_erase_partition kPartitionLabel);
  mret (map_error result)).

(** ** Compatibility with the superseded schema *)

Definition legacy_schema1_present : nvs_op bool := fn (
  call (nvs_flash_deinit_partition kPartitionLabel);;
  init_result ← call (nvs_flash_secure_init_partition kPartitionLabel);
  if negb (is_esp_ok init_result) then
    call (nvs_flash_deinit_partition kPartitionLabel);; leave false
  else
    x ← call (nvs_open_from_partition kPartitionLabel kLegacyNamespace NVS_READONLY);
    let '(open_result, handle) := x in
    if negb (is_esp_ok open_result) then
      call (nvs_flash_deinit_partition kPartitionLabel);; leave false
    else
      x ← call (nvs_get_u32 handle kSchemaKey);
      let '(schema_result, schema) := x in
      call (nvs_close handle);;
      call (nvs_flash_deinit_partition kPartitionLabel);;
      mret (is_esp_ok schema_result && (schema =? 1))).

Definition compatible_load : nvs_op (Status * PersistedSnapshot) := fn (
  x ← call nvs_load;
  let '(primary, snapshot) := x in
  leave_if (is_ok primary || bool_decide (primary = kReprovisionRequired)) (primary, snapshot);;
  legacy ← call legacy_schema1_present;
  if (legacy : bool) then leave (kReprovisionRequired, empty_snapshot)
  else mret (primary, snapshot)).
End NvsPersistence.

(** The two implementations of the interface. *)
Definition NvsPersistence {N} `{Nvs N} : Persistence N := {|
  load := nvs_load;
  format_schema2 := nvs_format_schema2;
  replace_envelope := nvs_replace_envelope;
  persist_last_used := nvs_set_last_used;
  erase_all := nvs_erase_all;
|}.

Definition CompatibleNvsPersistence {N} `{Nvs N} : Persistence N := {|
  load := compatible_load;
  format_schema2 := nvs_format_schema2;
  replace_envelope := nvs_replace_envelope;
  persist_last_used := nvs_set_last_used;
  erase_all := nvs_erase_all;
|}.
