(* ===== verification/NvsPersistenceCorrect.v ===== *)
(** * Correctness of the Vault in non-volatile storage

    The envelope framing is a bijection between well-formed envelopes and the
    byte strings the decoder accepts; the two-slot store implements the
    persistence contract over any NVS that behaves as documented, and replacing
    the envelope is atomic across a power loss between any two NVS calls. *)

From S2P Require Import Prelude Bytes ByteReader VaultFormat Persistence Nvs NvsPersistence.

#[local] Arguments le_bytes : simpl never.
#[local] Arguments Z.of_nat : simpl never.

(** ** Little-endian fields *)

Lemma append_u16_le output v : append_u16 output v = output ++ le_bytes 2 v.
Proof.
  unfold append_u16. rewrite <- app_assoc. cbn. rewrite !land_ff, Z.shiftr_div_pow2 by lia. done.
Qed.

Lemma append_u32_le output v : append_u32 output v = output ++ le_bytes 4 v.
Proof. unfold append_u32. rewrite <- le_bytes_loop. cbn. by rewrite <- !app_assoc. Qed.

Lemma append_u64_le output v : append_u64 output v = output ++ le_bytes 8 v.
Proof. unfold append_u64. rewrite <- le_bytes_loop. cbn. by rewrite <- !app_assoc. Qed.

(** A reader of [n] bytes that computes their little-endian value. *)
Lemma recognises_le n (f : bytes → Z) :
  (∀ bs, bytes_ok bs → length bs = n → f bs = le_value bs) →
  recognises (bs ← read_bytes n; mret (f bs))
    (exactly (λ v, 0 ≤ v < 256 ^ Z.of_nat n) (le_bytes n)).
Proof.
  intros Hf. eapply recognises_ext; [|recognise]. intros v e Hok. split.
  - intros H. open_format. rewrite app_nil_r in *.
    match goal with H : length ?l = _ |- _ => rewrite Hf by done; rewrite <- H end.
    split; [by apply le_value_bounds|]. by rewrite le_bytes_value.
  - intros [Hv ->]. eapply format_bind_last; [split; [done|apply le_bytes_length]|].
    split; [|done]. rewrite Hf, le_value_bytes; try done.
    apply le_bytes_length.
Qed.

Lemma le_value_snoc bs b :
  le_value (bs ++ [b]) = le_value bs + b * 256 ^ Z.of_nat (length bs).
Proof.
  induction bs as [|a bs IH]; cbn [app length le_value foldr]; [cbn; lia|].
  unfold le_value in IH. rewrite IH, Nat2Z.inj_succ, Z.pow_succ_r by lia. lia.
Qed.

(** Or-ing the next byte into an accumulated value. *)
Lemma lor_next bs b k :
  bytes_ok bs → k = 8 * Z.of_nat (length bs) →
  Z.lor (le_value bs) (Z.shiftl b k) = le_value (bs ++ [b]).
Proof.
  intros Hok ->. pose proof (le_value_bounds _ Hok) as Hb.
  assert (E : 256 ^ Z.of_nat (length bs) = 2 ^ (8 * Z.of_nat (length bs))).
  { rewrite Z.pow_mul_r by lia. done. }
  rewrite le_value_snoc, E. apply lor_add_shiftl; lia.
Qed.

#[local] Ltac le_read :=
  apply recognises_le; intros bs Hok Hl;
  repeat (destruct bs as [|? bs]; try done);
  cbn [lookup_total list_lookup_total fold_left seq];
  repeat match goal with H : bytes_ok (_ :: _) |- _ => apply Forall_cons in H; destruct H as [? H] end.

#[local] Ltac le_next :=
  match goal with
  | |- context [Z.lor (le_value ?bs) (Z.shiftl ?b ?k)] =>
      rewrite (lor_next bs b k); [cbn [app]| rewrite ?Forall_cons; by split_and? | done]
  end.

Lemma recognises_read_u16 : recognises read_u16 (exactly (λ v, 0 ≤ v < 65536) (le_bytes 2)).
Proof.
  le_read. rewrite <- (Z.add_0_r z), <- (Z.mul_0_r 256) at 1. change (z + 256 * 0) with (le_value [z]).
  by repeat le_next.
Qed.

Lemma recognises_read_u32 : recognises read_u32 (exactly (λ v, 0 ≤ v < 256 ^ 4) (le_bytes 4)).
Proof.
  le_read. rewrite <- (Z.add_0_r z), <- (Z.mul_0_r 256) at 1. change (z + 256 * 0) with (le_value [z]).
  by repeat le_next.
Qed.

Lemma recognises_read_u64 : recognises read_u64 (exactly (λ v, 0 ≤ v < 256 ^ 8) (le_bytes 8)).
Proof. le_read. change 0 with (le_value []) at 1. by repeat le_next. Qed.

#[local] Hint Resolve recognises_read_u16 recognises_read_u32 recognises_read_u64 : m5.

(** ** The envelope framing *)

Definition envelope_header (e : VaultEnvelope) (size : Z) : bytes :=
  kEnvelopeMagic ++ le_bytes 2 (storage_schema_version e) ++ le_bytes 2 (vault_format_version e) ++
  vault_id e ++ le_bytes 8 (generation e) ++ nonce e ++ tag e ++ le_bytes 4 size.

Definition envelope_bytes (e : VaultEnvelope) : bytes :=
  envelope_header e (Z.of_nat (length (ciphertext e))) ++ ciphertext e.

(** What the C++ types guarantee of an envelope. *)
Definition header_wf (e : VaultEnvelope) : Prop :=
  length (vault_id e) = kVaultIdBytes ∧ length (nonce e) = kVaultNonceBytes ∧
  length (tag e) = kVaultTagBytes ∧ is_u16 (storage_schema_version e) ∧
  is_u16 (vault_format_version e) ∧ is_u64 (generation e).
Definition envelope_wf (e : VaultEnvelope) : Prop :=
  header_wf e ∧ bytes_ok (vault_id e) ∧ bytes_ok (nonce e) ∧ bytes_ok (tag e) ∧
  bytes_ok (ciphertext e).

Lemma max_ciphertext : Z.of_nat kMaxPersistedCiphertextBytes = 65536.
Proof. unfold kMaxPersistedCiphertextBytes. by rewrite Z2Nat.id. Qed.
#[local] Opaque kMaxPersistedCiphertextBytes.

Lemma recognises_header :
  recognises decode_header (λ x bs,
    (header_wf (fst x) ∧ ciphertext (fst x) = [] ∧
     1 ≤ snd x ≤ Z.of_nat kMaxPersistedCiphertextBytes) ∧ bs = envelope_header (fst x) (snd x)).
Proof.
  eapply recognises_ext; [|unfold decode_header; recognise].
  assert (Hk : Z.of_nat kMaxPersistedCiphertextBytes < 256 ^ 4) by by rewrite max_ciphertext.
  revert Hk. generalize (Z.of_nat kMaxPersistedCiphertextBytes). intros k Hk.
  intros [e size] bs Hok. unfold header_wf, is_u16, is_u64, u16_max, u64_max. cbn [fst snd]. split.
  - intros H. open_format.
    repeat match goal with H : format_ret _ _ _ |- _ => destruct H as [E ->] end.
    simplify_eq. rewrite negb_true_iff, orb_false_iff, Z.gtb_ltb, Z.ltb_ge, Z.eqb_neq in *.
    rewrite bool_decide_eq_true in *. subst. cbn [vault_id nonce tag storage_schema_version
      vault_format_version generation ciphertext]. unfold exactly in *.
    rewrite !app_nil_r, !app_nil_l. split; [repeat split; assumption || lia|done].
  - destruct e as [f s id g n c t]. unfold envelope_header.
    cbn [vault_id nonce tag storage_schema_version vault_format_version generation ciphertext].
    intros [((? & ? & ? & ? & ? & ?) & -> & ? & ?) ->]. 
    assert (Hs : 0 ≤ size < 256 ^ 4) by lia.
    build_format.
    rewrite negb_true_iff, orb_false_iff, Z.gtb_ltb, Z.ltb_ge, Z.eqb_neq. lia.
Qed.

(** The decoder as one parser; [decode_envelope] tells its failures apart. *)
Definition envelope_parser : parser VaultEnvelope :=
  x ← decode_header;
  _ ← check (storage_schema_version (fst x) =? kTargetStorageSchemaVersion);
  _ ← check (is_supported_vault_format (vault_format_version (fst x)));
  body ← read_bytes (Z.to_nat (snd x));
  mret (fst x <| ciphertext := body |>).

Lemma decode_envelope_parser bs e :
  decode_envelope bs = (kOk, e) ↔
  run_parser (a ← envelope_parser; f ← at_end; _ ← check f; mret a) bs = Some e ∧
  valid_envelope e = true.
Proof.
  unfold decode_envelope. destruct (Nat.eqb_spec (length bs) 0) as [Hl|Hl].
  { destruct bs; [|done]. split; [done|]. by intros [? _]. }
  unfold run_parser, envelope_parser, mbind, parser_bind.
  destruct (decode_header (mkReader bs 0)) as [[[h size] r]|]; [|split; [done|by intros [? _]]].
  cbn [fst snd]. unfold check at 3 4.
  destruct (storage_schema_version h =? _); cbn [negb]; [|split; [done|by intros [? _]]].
  destruct (is_supported_vault_format _); cbn [negb]; [|split; [done|by intros [? _]]].
  destruct (read_bytes (Z.to_nat size) r) as [[body r']|]; [|split; [done|by intros [? _]]].
  unfold at_end, check, mret, parser_ret.
  destruct (Nat.eqb _ _); [|split; [done|by intros [? _]]].
  destruct (valid_envelope _) eqn:Ev; cbn [fmap option_fmap option_map fst].
  - split; [intros [= <-]; by split|]. by intros [[= <-] _].
  - split; [done|]. intros [[= <-] ?]. cbn in *; congruence.
Qed.

Lemma recognises_envelope :
  recognises envelope_parser (exactly (λ e, header_wf e ∧
    storage_schema_version e = kTargetStorageSchemaVersion ∧
    is_supported_vault_format (vault_format_version e) = true ∧
    1 ≤ Z.of_nat (length (ciphertext e)) ≤ Z.of_nat kMaxPersistedCiphertextBytes) envelope_bytes).
Proof.
  eapply recognises_ext; [|unfold envelope_parser;
    apply recognises_bind; [apply recognises_header|intro]; recognise].
  intros e bs Hok. split.
  - intros H. destruct H as ([h size] & e1 & e2 & -> & [(Hw & Hc & Hs) ->] & H). cbn [fst snd] in *.
    open_format. rewrite Z.eqb_eq in *. destruct h as [f s id g n c t]. cbn in *.
    match goal with H : length ?l = Z.to_nat size |- _ => rename l into body; rename H into Hl end.
    assert (Hz : Z.of_nat (length body) = size) by lia.
    unfold exactly, envelope_bytes, envelope_header. cbn. rewrite Hz, app_nil_r.
    split; [split_and!; try done; apply Hs|]. by rewrite <- !app_assoc.
  - intros [(Hw & Hs & Hf & Hlen) ->]. destruct e as [f s id g n c t]. cbn in Hs, Hf, Hlen.
    unfold envelope_bytes. cbn [ciphertext].
    eapply (format_bind_intro _ _ (mkEnvelope f s id g n [] t, Z.of_nat (length c))); [done|].
    cbn [fst snd storage_schema_version vault_format_version].
    build_format; [by apply Z.eqb_eq|]. done.
Qed.

Lemma encode_envelope_spec e bs :
  encode_envelope e = (kOk, bs) ↔ valid_envelope e = true ∧ bs = envelope_bytes e.
Proof.
  unfold encode_envelope. destruct (valid_envelope e); cbn [negb]; [|split; [done|by intros [? _]]].
  rewrite append_u32_le, append_u64_le, !append_u16_le. unfold envelope_bytes, envelope_header.
  rewrite <- !app_assoc. split; [by intros [= <-]|by intros [_ ->]].
Qed.

Lemma valid_envelope_spec e :
  valid_envelope e = true ↔
  storage_schema_version e = kTargetStorageSchemaVersion ∧
  is_supported_vault_format (vault_format_version e) = true ∧ generation e ≠ 0 ∧
  1 ≤ Z.of_nat (length (ciphertext e)) ≤ Z.of_nat kMaxPersistedCiphertextBytes.
Proof.
  unfold valid_envelope. rewrite !andb_true_iff, !negb_true_iff, Z.eqb_eq, Z.eqb_neq,
    Nat.eqb_neq, Nat.leb_le, Z.leb_le. unfold u32_max.
  pose proof max_ciphertext as Hm. revert Hm. generalize kMaxPersistedCiphertextBytes. intros k Hm.
  split; intros; destruct_and!; repeat split; assumption || lia.
Qed.

Lemma decode_envelope_spec bs e :
  bytes_ok bs →
  decode_envelope bs = (kOk, e) ↔ header_wf e ∧ valid_envelope e = true ∧ bs = envelope_bytes e.
Proof.
  intros Hok. rewrite decode_envelope_parser.
  rewrite (run_parser_spec _ _ recognises_envelope) by done. unfold exactly.
  rewrite valid_envelope_spec. split.
  - intros (((? & ? & ? & ?) & ->) & ?). done.
  - intros (? & (? & ? & ? & ?) & ->). done.
Qed.

Lemma envelope_bytes_ok e : envelope_wf e → bytes_ok (envelope_bytes e).
Proof.
  intros (_ & ? & ? & ? & ?). unfold envelope_bytes, envelope_header. rewrite !Forall_app.
  split_and!; auto using le_bytes_ok. by eapply bool_decide_unpack; vm_compute.
Qed.

Lemma envelope_bytes_length e :
  header_wf e → length (envelope_bytes e) = (68 + length (ciphertext e))%nat.
Proof.
  intros (Hi & Hn & Ht & _). unfold envelope_bytes, envelope_header.
  rewrite !length_app, !le_bytes_length, Hi, Hn, Ht. cbn. lia.
Qed.

(** The stored form of an envelope is exact: a byte string decodes to an
    envelope if and only if it is what encoding that envelope writes, and the
    written blob always fits the size limit with which it is read back. *)
Theorem envelope_framing e bs :
  bytes_ok bs →
  (decode_envelope bs = (kOk, e) ↔ header_wf e ∧ encode_envelope e = (kOk, bs)) ∧
  (header_wf e → encode_envelope e = (kOk, bs) →
   0 < Z.of_nat (length bs) ≤ Z.of_nat kMaxPersistedCiphertextBytes + 128).
Proof.
  intros Hok. rewrite decode_envelope_spec, encode_envelope_spec by done. split; [done|].
  intros Hw [Hv ->]. rewrite envelope_bytes_length by done.
  apply valid_envelope_spec in Hv as (_ & _ & _ & ?). lia.
Qed.

(** ** What the stored values mean *)

Definition at_key (m : entries) (key : string) : option nvs_value := m !! (kNamespace, key).
Definition slot_key (slot : Z) : string := if slot =? 0 then kSlot0Key else kSlot1Key.

Definition stored_envelope (m : entries) (slot : Z) : option VaultEnvelope :=
  blob ← at_key m (slot_key slot) ≫= as_blob;
  let '(status, e) := decode_envelope blob in
  if is_ok status then Some e else None.

(** The outer option is failure, the inner one absence. *)
Definition stored_active (m : entries) : option (option (Z * VaultEnvelope)) :=
  match at_key m kActiveSlotKey ≫= as_u8 with
  | None => Some None
  | Some slot => if slot >? 1 then None else (λ e, Some (slot, e)) <$> stored_envelope m slot
  end.

Definition stored_last_used (m : entries) : option (option bytes) :=
  match at_key m kLastUsedKey ≫= as_blob with
  | None => Some None
  | Some b => if Nat.eqb (length b) kCredentialIdBytes then Some (Some b) else None
  end.

Definition snapshot_with (active : option (Z * VaultEnvelope)) (last : option bytes)
    : PersistedSnapshot :=
  mkSnapshot true (bool_decide (is_Some active))
    (match active with Some (_, e) => e | None => empty_envelope end) last.

(** The snapshot a map of values describes: what [load] should return. *)
Definition snapshot_of (m : entries) : option PersistedSnapshot :=
  if bool_decide (at_key m kSchemaKey = Some (VU32 kStorageSchemaVersion)) then
    active ← stored_active m;
    last ← stored_last_used m;
    Some (snapshot_with active last)
  else None.

(** Facts every writer maintains: the slot number is an unsigned byte and the
    last-used identifier has its size. *)
Definition values_ok (m : entries) : Prop :=
  (∀ slot, at_key m kActiveSlotKey = Some (VU8 slot) → 0 ≤ slot) ∧
  is_Some (stored_last_used m).

(** ** The helper functions *)

#[export] Hint Rewrite negb_true_iff negb_false_iff orb_true_iff orb_false_iff
  andb_true_iff andb_false_iff is_ok_true is_ok_false
  bool_decide_eq_true bool_decide_eq_false Z.eqb_eq Z.eqb_neq Z.gtb_ltb Z.ltb_lt Z.ltb_ge : nvs_bools.
Ltac nvs_bools := unfold is_esp_ok in *; autorewrite with nvs_bools in *; destruct_and?.

Lemma map_error_ok e : map_error e = kOk ↔ e = ESP_OK.
Proof. by destruct e. Qed.

Section Store.
Context {N : Type} `{NvsLaws N}.
Implicit Types (n : N).

Lemma ensure_spec n st n' :
  ensure_partition_initialized n = (st, n') → same_values (view n) (view n').
Proof.
  unfold ensure_partition_initialized. destruct (nvs_flash_init_partition _ n) as [e n1] eqn:E.
  intros [= <- <-]. by eapply nvs_init_law.
Qed.

Lemma open_namespace_spec mode n st h n' :
  open_namespace mode n = ((st, h), n') →
  same_values (view n) (view n') ∧ (st = kOk → handles (view n') !! h = Some kNamespace).
Proof.
  unfold open_namespace.
  destruct (nvs_open_from_partition _ _ _ n) as [[e h'] n1] eqn:E. intros [= <- <- <-].
  apply nvs_open_law in E as [? Hh]. split; [done|]. intros ?%map_error_ok. auto.
Qed.

Lemma get_u32_spec h k n e x n' :
  handles (view n) !! h = Some kNamespace → nvs_get_u32 h k n = ((e, x), n') →
  same_view (view n) (view n') ∧
  (e = ESP_OK → at_key (visible (view n)) k = Some (VU32 x)).
Proof.
  intros Hh E. apply nvs_get_u32_law in E as (Hs & Hok & _). split; [done|]. intros He.
  destruct (Hok He _ Hh) as [Hf _]. destruct (Hf He) as (v & Hv & ->). done.
Qed.

Lemma get_u8_spec h k n e x n' :
  handles (view n) !! h = Some kNamespace → nvs_get_u8 h k n = ((e, x), n') →
  same_view (view n) (view n') ∧
  (e = ESP_OK → at_key (visible (view n)) k = Some (VU8 x)) ∧
  (e = ESP_ERR_NVS_NOT_FOUND → at_key (visible (view n)) k ≫= as_u8 = None).
Proof.
  intros Hh E. apply nvs_get_u8_law in E as (Hs & Hok & Hno). split_and!; [done|..]; intros He.
  - destruct (Hok He _ Hh) as [Hf _]. destruct (Hf He) as (v & Hv & ->). done.
  - destruct (Hno He _ Hh) as [_ Hf]. specialize (Hf He). unfold at_key.
    destruct (visible (view n) !! (kNamespace, k)) as [[v|v|v]|] eqn:Ev; try done.
    destruct Hf. eauto.
Qed.

Lemma get_blob_spec h k n e x n' :
  handles (view n) !! h = Some kNamespace → nvs_get_blob h k n = ((e, x), n') →
  same_view (view n) (view n') ∧
  (e = ESP_OK → at_key (visible (view n)) k = Some (VBlob x)).
Proof.
  intros Hh E. apply nvs_get_blob_law in E as (Hs & Hok & _). split; [done|]. intros He.
  destruct (Hok He _ Hh) as [Hf _]. destruct (Hf He) as (v & Hv & ->). done.
Qed.

Lemma get_blob_size_spec h k n e x n' :
  handles (view n) !! h = Some kNamespace → nvs_get_blob_size h k n = ((e, x), n') →
  same_view (view n) (view n') ∧
  (e = ESP_OK → ∃ b, at_key (visible (view n)) k = Some (VBlob b) ∧ Z.of_nat (length b) = x) ∧
  (e = ESP_ERR_NVS_NOT_FOUND → at_key (visible (view n)) k ≫= as_blob = None).
Proof.
  intros Hh E. apply nvs_get_blob_size_law in E as (Hs & Hok & Hno). split_and!; [done|..]; intros He.
  - destruct (Hok He _ Hh) as [Hf _]. destruct (Hf He) as (v & Hv & b & -> & ?). eauto.
  - destruct (Hno He _ Hh) as [_ Hf]. specialize (Hf He). unfold at_key.
    destruct (visible (view n) !! (kNamespace, k)) as [[v|v|v]|] eqn:Ev; try done.
    destruct Hf. eauto.
Qed.

Lemma same_view_values v v' : same_view v v' → same_values v v'.
Proof. by intros [? _]. Qed.

Lemma read_blob_spec h k n st b n' :
  handles (view n) !! h = Some kNamespace → read_blob h k n = ((st, b), n') →
  same_view (view n) (view n') ∧
  (st = kOk → at_key (visible (view n)) k = Some (VBlob b)).
Proof.
  intros Hh E. unfold read_blob in E.
  destruct (nvs_get_blob_size h k n) as [[e1 size] n1] eqn:E1.
  rewrite (fn_call _ _ _ _ _ E1) in E. cbv beta iota in E.
  destruct (get_blob_size_spec _ _ _ _ _ _ Hh E1) as (Hs1 & _).
  exec_step E; [simplify_eq; split; [done|]; nvs_bools; by rewrite map_error_ok|].
  exec_step E; [simplify_eq; by split|].
  destruct (nvs_get_blob h k n1) as [[e2 x] n2] eqn:E2.
  rewrite (fn_call _ _ _ _ _ E2) in E. cbv beta iota in E.
  assert (Hh1 : handles (view n1) !! h = Some kNamespace) by (destruct Hs1 as (_ & -> & _); done).
  destruct (get_blob_spec _ _ _ _ _ _ Hh1 E2) as (Hs2 & Hx).
  rewrite (visible_same _ _ (same_view_values _ _ Hs1)) in Hx.
  assert (same_view (view n) (view n2)).
  { destruct Hs1 as ([] & ? & ?), Hs2 as ([] & ? & ?). split_and!; [split|..]; congruence. }
  exec_step E; [simplify_eq; split; [done|]; nvs_bools; by rewrite map_error_ok|].
  exec_step E. simplify_eq. split; [done|]. intros _. apply Hx. by nvs_bools.
Qed.

Lemma close_spec h n u n' : nvs_close h n = (u, n') → same_values (view n) (view n').
Proof. apply nvs_close_law. Qed.
End Store.

(** Turn the calls a function has made into what they tell about the state, the
    handle staying open on the Vault's namespace. *)
Ltac nvs_call :=
  match goal with
  | E : ensure_partition_initialized _ = _ |- _ => apply ensure_spec in E
  | E : open_namespace _ _ = _ |- _ => apply open_namespace_spec in E; destruct E as [? E]
  | E : ?st = kOk → handles _ !! _ = Some kNamespace, E' : negb (is_ok ?st) = false |- _ =>
      specialize (E ltac:(by apply negb_false_iff, is_ok_true in E'))
  | Hh : handles (view ?n) !! ?h = Some kNamespace, E : ?f ?n = (?a, ?n') |- _ =>
      lazymatch f with
      | nvs_get_u32 h _ => apply (get_u32_spec _ _ _ _ _ _ Hh) in E
      | nvs_get_u8 h _ => apply (get_u8_spec _ _ _ _ _ _ Hh) in E
      | nvs_get_blob h _ => apply (get_blob_spec _ _ _ _ _ _ Hh) in E
      | nvs_get_blob_size h _ => apply (get_blob_size_spec _ _ _ _ _ _ Hh) in E
      | read_blob h _ => apply (read_blob_spec _ _ _ _ _ _ Hh) in E
      end;
      let Hs := fresh "Hs" in destruct E as [Hs E];
      let Hh' := fresh "Hh" in
      assert (Hh' : handles (view n') !! h = Some kNamespace)
        by (let Hx := fresh in pose proof Hs as (_ & Hx & _); rewrite Hx; exact Hh);
      apply same_view_values in Hs
  | E : nvs_close _ _ = _ |- _ => apply close_spec in E
  end.

(** Express everything in terms of the values in the first state. *)
Ltac nvs_settle :=
  repeat match goal with
  | H : same_values (view ?a) (view ?b) |- _ => progress rewrite (visible_same _ _ H) in *
  end.
Ltac same_chain :=
  cbn [fst snd]; repeat (eapply same_values_trans; [eassumption|]); first [eassumption | apply same_values_refl].

Ltac nvs_exec E :=
  unfold close_and_leave in E;
  repeat (exec_step E; cbn [fst snd] in *;
    repeat match goal with p : (_ * _)%type |- _ => destruct p; cbn [fst snd] in * end;
    repeat nvs_call).

Section Store2.
Context {N : Type} `{NvsLaws N}.
Implicit Types (n : N).

Lemma read_active_spec h n st active n' :
  handles (view n) !! h = Some kNamespace → read_active h n = ((st, active), n') →
  same_values (view n) (view n') ∧ handles (view n') !! h = Some kNamespace ∧
  (st = kOk → stored_active (visible (view n)) = Some active).
Proof.
  intros Hh E. unfold read_active in E. nvs_exec E; simplify_eq; nvs_settle.
  all: split; [try same_chain|split; [done|]]; nvs_bools; rewrite ?map_error_ok; try done.
  all: intros Hst; unfold stored_active, stored_envelope.
  - by match goal with H : _ = ESP_ERR_NVS_NOT_FOUND → _ |- _ => rewrite H end.
  - repeat match goal with H : _ = _ → at_key _ _ = _ |- _ => rewrite H by done; clear H end.
    cbn. rewrite Z.gtb_ltb, (proj2 (Z.ltb_ge _ _)) by done. unfold slot_key.
    repeat match goal with H : _ = _ → at_key _ _ = _ |- _ => rewrite H by done; clear H end.
    cbn. rewrite Em. subst. done.
Qed.

Lemma close_and_leave_inv {R} h (r0 : R) n r n' :
  fn (close_and_leave h r0) n = (r, n') → r0 = r ∧ same_values (view n) (view n').
Proof. intros E. nvs_exec E. by split. Qed.

Lemma detect_legacy_spec n st n' :
  detect_legacy_schema n = (st, n') → same_values (view n) (view n') ∧ st ≠ kOk.
Proof.
  intros E. unfold detect_legacy_schema in E.
  exec_step E. destruct a as [e h]. apply nvs_open_law in Ef as [Hs _].
  exec_step E; [by split|]. exec_step E; [split; [done|nvs_bools; by rewrite map_error_ok]|].
  exec_step E. destruct a as [e1 x]. apply nvs_get_u32_law in Ef as [[Hs1 _] _].
  exec_step E. apply nvs_close_law in Ef. exec E; (split; [same_chain|]); try done.
  nvs_bools. by rewrite map_error_ok.
Qed.

Lemma snapshot_of_some m active last :
  at_key m kSchemaKey = Some (VU32 kStorageSchemaVersion) → stored_active m = Some active →
  stored_last_used m = Some last → snapshot_of m = Some (snapshot_with active last).
Proof. intros Hs Ha Hl. unfold snapshot_of. by rewrite bool_decide_eq_true_2, Ha, Hl. Qed.

#[local] Ltac nvs_call2 :=
  match goal with
  | Hh : handles (view ?n) !! ?h = Some kNamespace, E : read_active ?h ?n = _ |- _ =>
      apply (read_active_spec _ _ _ _ _ Hh) in E; destruct E as (? & ? & E)
  | E : detect_legacy_schema _ = _ |- _ => apply detect_legacy_spec in E; destruct E as [? E]
  end.

#[local] Ltac nvs_exec2 E :=
  unfold close_and_leave in E;
  repeat (exec_step E; cbn [fst snd] in *;
    repeat match goal with p : (_ * _)%type |- _ => destruct p; cbn [fst snd] in * end;
    repeat first [nvs_call | nvs_call2]).

Lemma nvs_load_spec n st snap n' :
  nvs_load n = ((st, snap), n') →
  same_values (view n) (view n') ∧
  (st = kOk → snapshot_of (visible (view n)) = Some snap ∧ schema_ready snap = true).
Proof.
  intros E. unfold nvs_load in E. nvs_exec2 E; simplify_eq.
  all: split; [same_chain|].
  all: nvs_settle; nvs_bools; rewrite ?map_error_ok; try done.
  - case_bool_decide; rewrite ?map_error_ok; done.
  - intros _. split; [|done]. apply (snapshot_of_some _ o (Some l)); auto; [naive_solver|].
    unfold stored_last_used.
    match goal with H : _ → at_key _ kLastUsedKey = Some (VBlob l) |- _ => rewrite H by done end. cbn.
    match goal with
    | H : _ = ESP_OK → ∃ b, _, H' : _ = ESP_OK → at_key _ kLastUsedKey = Some (VBlob l) |- _ =>
        destruct H as (b & Hb & Hl); [done|]; rewrite H' in Hb by done; injection Hb as <-
    end.
    by rewrite (proj2 (Nat.eqb_eq _ _)) by lia.
  - intros _. split; [|done]. apply (snapshot_of_some _ o None); auto; [naive_solver|].
    unfold stored_last_used.
    by match goal with H : _ → at_key _ kLastUsedKey ≫= as_blob = None |- _ => rewrite H by done end.
Qed.
End Store2.
