(* ===== verification/NvsAtomic.v ===== *)
(** * Atomicity of the two-slot store

    Every state the store passes through while it replaces an envelope, between
    any two NVS calls, is one of a few shapes ([visits]); whatever part of the
    uncommitted writes survives a power loss there, the store then describes
    the old snapshot or the new one.  The same analysis gives the persistence
    contract ([PersistenceLaws]) for both implementations. *)

From S2P Require Import Prelude Bytes ByteReader VaultFormat Persistence Nvs NvsPersistence.
From S2P Require Import NvsPersistenceCorrect.

(** ** One write through a handle *)

(** The shapes of the state while a write is made and committed. *)
Definition written (v : NvsView) (w : write) (v' : NvsView) : Prop :=
  (committed v' = committed v ∧ (pending v' = pending v ∨ pending v' = pending v ++ [w])) ∨
  (committed v' = apply_write (visible v) w ∧ pending v' = []).

Lemma written_same v w v1 v2 : written v w v1 → same_values v1 v2 → written v w v2.
Proof. unfold written. intros Hw [Hc Hp]. by rewrite Hc, Hp. Qed.

Lemma written_visible v w v' :
  written v w v' → visible v' = visible v ∨ visible v' = apply_write (visible v) w.
Proof.
  intros [[Hc [Hp|Hp]]|[Hc Hp]].
  - left. unfold visible. by rewrite Hc, Hp.
  - right. by apply visible_snoc.
  - right. unfold visible. by rewrite Hc, Hp.
Qed.

Lemma written_survives v w v' m :
  pending v = [] → written v w v' → survives v' m → m = visible v ∨ m = apply_write (visible v) w.
Proof.
  intros Hp0 Hw Hm.
  assert (Hv : visible v = committed v) by (unfold visible; by rewrite Hp0). rewrite Hv.
  destruct Hw as [[Hc [Hp|Hp]]|[Hc Hp]].
  - left. rewrite Hp0 in Hp. apply survives_committed in Hm; [|done]. congruence.
  - destruct (survives_snoc _ _ _ _ Hc Hp Hm) as [H|(m0 & H & ->)];
      apply survives_committed in H as ->; auto.
  - right. apply survives_committed in Hm; [|done]. by rewrite Hm, Hc, Hv.
Qed.

(** ** Logs *)

Section Logs.
Context {N : Type} `{!Nvs N} `{!NvsLaws N}.
Implicit Types s : N * list N.

(** Between [s] and [s'], every recorded state satisfies [K]. *)
Definition grows (K : NvsView → Prop) s s' : Prop :=
  ∃ ls, snd s' = snd s ++ ls ∧ Forall (λ n, K (view n)) ls.

Lemma grows_refl K s : grows K s s.
Proof. exists []. by rewrite app_nil_r. Qed.
Lemma grows_trans K s1 s2 s3 : grows K s1 s2 → grows K s2 s3 → grows K s1 s3.
Proof.
  intros (l1 & E1 & H1) (l2 & E2 & H2). exists (l1 ++ l2).
  rewrite E2, E1, app_assoc. split; [done|]. by apply Forall_app.
Qed.
Lemma grows_weaken (K K' : NvsView → Prop) s s' :
  (∀ v, K v → K' v) → grows K s s' → grows K' s s'.
Proof. intros HK (l & E & H). exists l. split; [done|]. eapply Forall_impl; eauto. Qed.

(** One call records the state it leaves. *)
Lemma grows_call {A} (f : N → A * N) s a s' (K : NvsView → Prop) :
  logged f s = (a, s') → K (view s') → grows K s s'.
Proof. intros [_ E]%logged_inv HK. exists [fst s']. split; [done|]. by constructor. Qed.

(** A part of a function that only reads: it records states with the values it
    started from, and ends in one. *)
Definition quiet s s' : Prop :=
  same_values (view s) (view s') ∧ grows (same_values (view s)) s s'.

Lemma quiet_refl s : quiet s s.
Proof. split; [done|apply grows_refl]. Qed.
Lemma quiet_trans s1 s2 s3 : quiet s1 s2 → quiet s2 s3 → quiet s1 s3.
Proof.
  intros [S1 G1] [S2 G2]. split; [by eapply same_values_trans|].
  eapply grows_trans; [done|]. eapply grows_weaken; [|done].
  intros v. by apply same_values_trans.
Qed.
Lemma quiet_call {A} (f : N → A * N) s a s' :
  logged f s = (a, s') → same_values (view s) (view s') → quiet s s'.
Proof. intros E Hs. split; [done|]. by eapply grows_call. Qed.

(** Reading keeps whatever is known of the states so far. *)
Lemma grows_quiet (K : NvsView → Prop) s s' s'' :
  (∀ v v', K v → same_values v v' → K v') →
  grows K s s' → K (view s') → quiet s' s'' → grows K s s'' ∧ K (view s'').
Proof.
  intros HK HG Hv [Hs HG']. split; [|by eapply HK].
  eapply grows_trans; [done|]. eapply grows_weaken; [|done]. intros v. by apply HK.
Qed.

Lemma ensure_quiet s st s' : ensure_partition_initialized s = (st, s') → quiet s s'.
Proof.
  intros E. pose proof E as Hs. apply ensure_spec in Hs. unfold ensure_partition_initialized in E.
  destruct (nvs_flash_init_partition _ s) as [e s1] eqn:E1. injection E as _ <-.
  by eapply (quiet_call (nvs_flash_init_partition kPartitionLabel)).
Qed.

Lemma open_quiet mode s x s' : open_namespace mode s = (x, s') → quiet s s'.
Proof.
  destruct x as [st h]. intros E. pose proof E as Hs. apply open_namespace_spec in Hs as [Hs _].
  unfold open_namespace in E.
  destruct (nvs_open_from_partition _ _ _ s) as [[e h'] s1] eqn:E1. injection E as _ _ <-.
  by eapply (quiet_call (nvs_open_from_partition kPartitionLabel kNamespace mode)).
Qed.

Lemma close_quiet h s u s' : nvs_close h s = (u, s') → quiet s s'.
Proof. intros E. eapply (quiet_call (nvs_close h)); [done|]. by eapply nvs_close_law. Qed.

Lemma get_u32_quiet h k s x s' : nvs_get_u32 h k s = (x, s') → quiet s s'.
Proof.
  destruct x. intros E. eapply (quiet_call (nvs_get_u32 h k)); [done|].
  by apply nvs_get_u32_law in E as [[? _] _].
Qed.
Lemma get_u8_quiet h k s x s' : nvs_get_u8 h k s = (x, s') → quiet s s'.
Proof.
  destruct x. intros E. eapply (quiet_call (nvs_get_u8 h k)); [done|].
  by apply nvs_get_u8_law in E as [[? _] _].
Qed.
Lemma get_blob_size_quiet h k s x s' : nvs_get_blob_size h k s = (x, s') → quiet s s'.
Proof.
  destruct x. intros E. eapply (quiet_call (nvs_get_blob_size h k)); [done|].
  by apply nvs_get_blob_size_law in E as [[? _] _].
Qed.
Lemma get_blob_quiet h k s x s' : nvs_get_blob h k s = (x, s') → quiet s s'.
Proof.
  destruct x. intros E. eapply (quiet_call (nvs_get_blob h k)); [done|].
  by apply nvs_get_blob_law in E as [[? _] _].
Qed.
End Logs.

Ltac quiet_calls :=
  repeat match goal with
  | E : ensure_partition_initialized _ = _ |- _ => apply ensure_quiet in E
  | E : open_namespace _ _ = _ |- _ => apply open_quiet in E
  | E : nvs_close _ _ = _ |- _ => apply close_quiet in E
  | E : nvs_get_u32 _ _ _ = _ |- _ => apply get_u32_quiet in E
  | E : nvs_get_u8 _ _ _ = _ |- _ => apply get_u8_quiet in E
  | E : nvs_get_blob_size _ _ _ = _ |- _ => apply get_blob_size_quiet in E
  | E : nvs_get_blob _ _ _ = _ |- _ => apply get_blob_quiet in E
  end.
Ltac quiet_chain := repeat (eapply quiet_trans; [eassumption|]); first [eassumption | apply quiet_refl].

Section Atomic.
Context {N : Type} `{!Nvs N} `{!NvsLaws N}.
Implicit Types s : N * list N.

Lemma read_blob_quiet h k s x s' : read_blob h k s = (x, s') → quiet s s'.
Proof.
  intros E. unfold read_blob in E. exec E; quiet_calls; quiet_chain.
Qed.

Lemma read_active_quiet h s x s' : read_active h s = (x, s') → quiet s s'.
Proof.
  intros E. unfold read_active in E.
  exec E; repeat match goal with E : read_blob _ _ _ = _ |- _ => apply read_blob_quiet in E end;
    quiet_calls; quiet_chain.
Qed.

(** A write and its commit. *)
Lemma set_and_commit_written h (set : nvs_op esp_err_t) w s e s' :
  (∀ e s', set s = (e, s') → grows (λ v, v = view s') s s' ∧ writes (view s) (view s') e w) →
  set_and_commit h set s = (e, s') →
  handles (view s') = handles (view s) ∧
  grows (written (view s) w) s s' ∧ written (view s) w (view s') ∧
  (e = ESP_OK → committed (view s') = apply_write (visible (view s)) w ∧ pending (view s') = []).
Proof.
  intros Hset E. unfold set_and_commit in E. exec_step E.
  destruct (Hset _ _ eq_refl) as [HG (Hc & Hh & _ & Hp)]. clear Hset.
  assert (Hw : written (view s) w (view s0)).
  { left. split; [done|]. destruct Hp as [Hp|[_ Hp]]; auto. }
  assert (HG1 : grows (written (view s) w) s s0).
  { eapply grows_weaken; [|done]. by intros v ->. }
  exec_step E.
  - exec_step E. pose proof E as E1. apply nvs_commit_law in E1 as (Hh1 & _ & Hx).
    assert (Hv : visible (view s0) = apply_write (visible (view s)) w).
    { destruct Hp as [Hp|[Hne _]]; [by apply visible_snoc|].
      by apply bool_decide_eq_true in Eb. }
    assert (Hw' : written (view s) w (view s')).
    { destruct Hx as [[Hc1 Hp1]|(_ & Hc1 & Hp1)]; [right; split; congruence|].
      left. split; [congruence|]. rewrite Hp1. destruct Hp as [Hp|[_ Hp]]; auto. }
    split_and!; [congruence| |done|].
    + eapply grows_trans; [done|]. by eapply (grows_call (nvs_commit h)).
    + intros ->. destruct Hx as [[Hc1 Hp1]|(Hne & _)]; [|done]. split; congruence.
  - exec_step E. split_and!; try done. by intros ->.
Qed.

Definition blob_write (slot : Z) (blob : bytes) : write :=
  ((kNamespace, slot_key slot), Some (VBlob blob)).
Definition slot_write (slot : Z) : write := ((kNamespace, kActiveSlotKey), Some (VU8 slot)).

(** The states of the two phases, from one with view [v0]. *)
Definition flips (v0 : NvsView) (slot : Z) (blob : bytes) (e : VaultEnvelope) (v : NvsView) : Prop :=
  written v0 (blob_write slot blob) v ∨
  ∃ v1, committed v1 = apply_write (visible v0) (blob_write slot blob) ∧ pending v1 = [] ∧
    decode_envelope blob = (kOk, e) ∧ written v1 (slot_write slot) v.

Lemma flips_same v0 slot blob e v v' :
  flips v0 slot blob e v → same_values v v' → flips v0 slot blob e v'.
Proof.
  intros [Hw|(v1 & ? & ? & ? & Hw)] Hs; [left; by eapply written_same|].
  right. exists v1. split_and!; try done. by eapply written_same.
Qed.

Lemma set_writes {A} (set : A → N → esp_err_t * N) (a : A) w s :
  (∀ e s', logged (set a) s = (e, s') → writes (view s) (view s') e w) →
  ∀ e s', logged (set a) s = (e, s') →
    grows (λ v, v = view s') s s' ∧ writes (view s) (view s') e w.
Proof. intros Hw e s' E. split; [by eapply grows_call|]. by apply Hw. Qed.

Lemma same_envelope_eq a b : NvsPersistence.same_envelope a b = true → a = b.
Proof.
  destruct a, b. unfold NvsPersistence.same_envelope. cbn.
  rewrite !andb_true_iff, !Z.eqb_eq, !bool_decide_eq_true. intros; destruct_and!. by subst.
Qed.

Lemma stage_and_flip_spec h slot blob e s st s' :
  handles (view s) !! h = Some kNamespace →
  stage_and_flip h slot blob e s = (st, s') →
  grows (flips (view s) slot blob e) s s' ∧ flips (view s) slot blob e (view s') ∧
  (st = kOk → decode_envelope blob = (kOk, e) ∧ pending (view s') = [] ∧
     visible (view s') = apply_write (apply_write (visible (view s)) (blob_write slot blob)) (slot_write slot)).
Proof.
  intros Hh E. unfold stage_and_flip, close_and_leave in E. exec_step E.
  edestruct (set_and_commit_written h (nvs_set_blob h (if slot =? 0 then kSlot0Key else kSlot1Key) blob)
    (blob_write slot blob) s a s0) as (Hh1 & HG & Hw & Hok); [|done|].
  { intros e1 s1 E1. split; [eapply (grows_call (nvs_set_blob (N:=N) h _ blob)); [exact E1|done]|].
    by eapply nvs_set_blob_law in E1. }
  assert (HG1 : grows (flips (view s) slot blob e) s s0).
  { eapply grows_weaken; [|done]. intros v. by left. }
  assert (HK1 : flips (view s) slot blob e (view s0)) by by left.
  rewrite <- Hh1 in Hh. clear Hh1. rename Hh into Hh1.
  exec_step E.
  { exec E; quiet_calls. edestruct (grows_quiet (flips (view s) slot blob e)) as [? ?];
      eauto using flips_same. split_and!; try done. intros ?%map_error_ok. by subst. }
  assert (a = ESP_OK) as -> by by apply negb_false_iff, bool_decide_eq_true in Eb.
  destruct (Hok eq_refl) as [Hc1 Hp1].
  exec_step E. destruct a as [st1 staged].
  pose proof (read_blob_spec _ _ _ _ _ _ Hh1 Ef0) as [(Hs2 & Hh2 & _) Hstaged].
  apply read_blob_quiet in Ef0.
  edestruct (grows_quiet (flips (view s) slot blob e)) as [HG2 HK2]; eauto using flips_same.
  exec_step E. exec_step E.
  { exec E; quiet_calls. edestruct (grows_quiet (flips (view s) slot blob e) s s1) as [? ?];
      eauto using flips_same. split_and!; try done. intros Hst. destruct (is_ok s2) eqn:Est; [done|by subst]. }
  nvs_bools. subst s2.
  assert (st1 = kOk /\ decode_envelope staged = (kOk, v)) as [-> Hd].
  { destruct (is_ok st1) eqn:Est; [apply is_ok_true in Est as ->; done|]. by injection Em as ->. }
  clear Em. match goal with H : NvsPersistence.same_envelope _ _ = true |- _ => apply same_envelope_eq in H as -> end.
  assert (staged = blob) as ->.
  { specialize (Hstaged eq_refl). unfold visible in Hstaged. rewrite Hc1, Hp1 in Hstaged.
    cbn in Hstaged. unfold at_key in Hstaged. fold (slot_key slot) in Hstaged.
    rewrite lookup_insert_eq in Hstaged. by injection Hstaged. }
  exec_step E.
  assert (Hv1 : visible (view s1) = apply_write (visible (view s)) (blob_write slot blob)).
  { rewrite (visible_same _ _ Hs2). unfold visible. by rewrite Hc1, Hp1. }
  rewrite <- Hh2 in Hh1.
  edestruct (set_and_commit_written h (nvs_set_u8 h kActiveSlotKey slot)
    (slot_write slot) s1 a s2) as (Hh3 & HG3 & Hw3 & Hok3); [|done|].
  { intros e1 s3 E1. split; [eapply (grows_call (nvs_set_u8 (N:=N) h _ slot)); [exact E1|done]|].
    by eapply nvs_set_u8_law in E1. }
  assert (HF : ∀ v, written (view s1) (slot_write slot) v → flips (view s) slot blob e v).
  { intros v Hv. right. exists (view s1). destruct Hs2 as [Hc2 Hp2]. split_and!; congruence || done. }
  exec E. quiet_calls.
  edestruct (grows_quiet (flips (view s) slot blob e) s s2) as [HG4 HK4]; eauto using flips_same.
  { eapply grows_trans; [done|]. by eapply grows_weaken. }
  split_and!; try done. intros ->%map_error_ok. split; [done|].
  destruct (Hok3 eq_refl) as [Hc3 Hp3]. match goal with H : quiet s2 s' |- _ => destruct H as [Hs4 _] end.
  split; [destruct Hs4; congruence|].
  rewrite (visible_same _ _ Hs4), <- Hv1, <- Hc3. unfold visible. by rewrite Hp3.
Qed.

Definition inactive_slot (active : option (Z * VaultEnvelope)) : Z :=
  match active with Some (slot, _) => 1 - slot | None => 0 end.

(** Every state of a replacement started with view [v0]. *)
Definition ready v0 (g : Z) (e : VaultEnvelope) active blob : Prop :=
  at_key (visible v0) kSchemaKey = Some (VU32 kStorageSchemaVersion) ∧
  stored_active (visible v0) = Some active ∧ replace_mismatch g e active = false ∧
  encode_envelope e = (kOk, blob).

Definition visits v0 (g : Z) (e : VaultEnvelope) (v : NvsView) : Prop :=
  same_values v0 v ∨
  ∃ active blob, ready v0 g e active blob ∧ flips v0 (inactive_slot active) blob e v.

Lemma visits_same v0 g e v v' : visits v0 g e v → same_values v v' → visits v0 g e v'.
Proof.
  intros [Hs|(a & b & Hr & Hf)] Hs'; [left; by eapply same_values_trans|].
  right. exists a, b. split; [done|]. by eapply flips_same.
Qed.

Lemma flips_start v0 v1 slot blob e v :
  same_values v0 v1 → flips v1 slot blob e v → flips v0 slot blob e v.
Proof.
  intros Hs. pose proof Hs as [Hc Hp].
  intros [Hw|(v2 & Hc2 & Hp2 & Hd & Hw)].
  - left. unfold written in *. rewrite (visible_same _ _ Hs), Hc, Hp in Hw. done.
  - right. exists v2. rewrite <- (visible_same _ _ Hs). done.
Qed.

Lemma replace_spec g e s st s' :
  nvs_replace_envelope g e s = (st, s') →
  grows (visits (view s) g e) s s' ∧ visits (view s) g e (view s') ∧
  (st = kOk → ∃ active blob, ready (view s) g e active blob ∧ decode_envelope blob = (kOk, e) ∧
     pending (view s') = [] ∧ visible (view s') = apply_write (apply_write (visible (view s))
       (blob_write (inactive_slot active) blob)) (slot_write (inactive_slot active))).
Proof.
  intros E. unfold nvs_replace_envelope, close_and_leave in E.
  assert (Hq : ∀ s1, quiet s s1 →
    grows (visits (view s) g e) s s1 ∧ visits (view s) g e (view s1)).
  { intros s1 Hq. eapply grows_quiet; [apply visits_same|apply grows_refl|by left|done]. }
  exec_step E. { split_and!; try done; [apply grows_refl|by left]. }
  exec_step E. pose proof Ef as Hs1. apply ensure_spec in Hs1. apply ensure_quiet in Ef.
  exec_step E. { destruct (Hq _ Ef). split_and!; try done. by nvs_bools. }
  exec_step E. destruct a0 as [st1 h].
  pose proof Ef0 as Ho. apply open_namespace_spec in Ho as [Hs2 Hh]. apply open_quiet in Ef0.
  assert (Hq2 : quiet s s1) by quiet_chain.
  exec_step E. { destruct (Hq _ Hq2). split_and!; try done. by nvs_bools. }
  nvs_bools. subst. specialize (Hh eq_refl).
  exec_step E. destruct a as [e1 schema].
  pose proof (get_u32_spec _ _ _ _ _ _ Hh Ef1) as [(Hs3 & Hh3 & _) Hschema].
  apply get_u32_quiet in Ef1. assert (Hq3 : quiet s s2) by quiet_chain.
  exec_step E.
  { exec E. apply close_quiet in Ef2. destruct (Hq s') as []; [quiet_chain|]. split_and!; try done.
    destruct (bool_decide (e1 = ESP_OK)) eqn:?; [done|]. intros ?%map_error_ok. by nvs_bools. }
  exec_step E. destruct a as [st2 active]. rewrite <- Hh3 in Hh.
  pose proof (read_active_spec _ _ _ _ _ Hh Ef2) as (Hs4 & Hh4 & Hactive).
  apply read_active_quiet in Ef2. assert (Hq4 : quiet s s3) by quiet_chain.
  exec_step E.
  { exec E. apply close_quiet in Ef3. destruct (Hq s') as []; [quiet_chain|]. split_and!; try done.
    by nvs_bools. }
  exec_step E.
  { exec E. apply close_quiet in Ef3. destruct (Hq s') as []; [quiet_chain|]. by split_and!. }
  exec_step E. exec_step E.
  { exec E. apply close_quiet in Ef3. destruct (Hq s') as []; [quiet_chain|]. split_and!; try done.
    by nvs_bools. }
  rewrite fn_call_tail in E. nvs_bools. subst.
  assert (Hr : ready (view s) g e active l).
  { unfold ready. rewrite <- (visible_same _ _ Hs1), <- (visible_same _ _ Hs2).
    split_and!; auto. rewrite <- (visible_same _ _ Hs3). auto. }
  destruct (Hq _ Hq4) as [HG HK]. destruct Hq4 as [Hs5 _].
  apply stage_and_flip_spec in E as (HG5 & HK5 & Hok5); [|done].
  assert (HF : ∀ v, flips (view s3) (inactive_slot active) l e v → visits (view s) g e v).
  { intros v Hv. right. exists active, l. split; [done|]. by eapply flips_start. }
  split_and!; [|by apply HF|].
  - eapply grows_trans; [done|]. by eapply grows_weaken.
  - intros Hst. destruct (Hok5 Hst) as (Hd & Hp & Hv). exists active, l.
    rewrite <- (visible_same _ _ Hs5). done.
Qed.
End Atomic.

(** ** What the writes mean *)

Lemma at_key_write m key w :
  w.1.2 ≠ key → at_key (apply_write m w) key = at_key m key.
Proof.
  destruct w as [[ns k] [x|]]; cbn; intros Hk; unfold at_key, apply_write; cbn.
  - apply lookup_insert_ne. congruence.
  - apply lookup_delete_ne. congruence.
Qed.

Lemma slot_key_other slot key :
  key ∈ [kSchemaKey; kActiveSlotKey; kLastUsedKey] → slot_key slot ≠ key.
Proof.
  rewrite !elem_of_cons, elem_of_nil. unfold slot_key.
  intros [->|[->|[->|[]]]]; by destruct (slot =? 0).
Qed.

(** Staging leaves the snapshot alone: the active slot is the other one. *)
Lemma staged_active m active blob :
  values_ok m → stored_active m = Some active →
  stored_active (apply_write m (blob_write (inactive_slot active) blob)) = Some active.
Proof.
  intros [Hu _] Ha. unfold stored_active in *.
  rewrite at_key_write by (apply slot_key_other; set_solver).
  destruct (at_key m kActiveSlotKey) as [[slot| |]|] eqn:Es; cbn [mbind option_bind as_u8] in *; try done.
  destruct (slot >? 1) eqn:Eslot; [done|]. rewrite Z.gtb_ltb, Z.ltb_ge in Eslot.
  specialize (Hu slot eq_refl). unfold stored_envelope in *. rewrite at_key_write; [done|].
  destruct (at_key m (slot_key slot) ≫= as_blob) as [b|]; cbn in Ha; [|done].
  destruct (decode_envelope b) as [st e']. destruct (is_ok st); [|done]. injection Ha as <-. cbn.
  assert (slot = 0 ∨ slot = 1) as [-> | ->] by lia; done.
Qed.

Lemma other_values m w :
  w.1.2 ∉ [kSchemaKey; kLastUsedKey] →
  at_key (apply_write m w) kSchemaKey = at_key m kSchemaKey ∧
  stored_last_used (apply_write m w) = stored_last_used m.
Proof.
  intros Hw. unfold stored_last_used. rewrite !at_key_write by set_solver. done.
Qed.

Lemma blob_write_other slot blob : (blob_write slot blob).1.2 ∉ [kSchemaKey; kLastUsedKey].
Proof. cbn. unfold slot_key. destruct (slot =? 0); set_solver. Qed.
Lemma slot_write_other slot : (slot_write slot).1.2 ∉ [kSchemaKey; kLastUsedKey].
Proof. cbn. set_solver. Qed.

Lemma snapshot_staged m active blob :
  values_ok m → stored_active m = Some active →
  snapshot_of (apply_write m (blob_write (inactive_slot active) blob)) = snapshot_of m ∧
  values_ok (apply_write m (blob_write (inactive_slot active) blob)).
Proof.
  intros Hok Ha. destruct (other_values m _ (blob_write_other (inactive_slot active) blob)) as [Hs Hl].
  unfold snapshot_of, values_ok. rewrite Hs, Hl, (staged_active _ _ _ Hok Ha), Ha.
  split; [done|]. destruct Hok. split; [|done]. intros slot.
  rewrite at_key_write by (apply slot_key_other; set_solver). auto.
Qed.

Lemma snapshot_flipped m active blob e last :
  values_ok m → stored_active m = Some active → decode_envelope blob = (kOk, e) →
  at_key m kSchemaKey = Some (VU32 kStorageSchemaVersion) → stored_last_used m = Some last →
  let slot := inactive_slot active in
  let m' := apply_write (apply_write m (blob_write slot blob)) (slot_write slot) in
  snapshot_of m' = Some (mkSnapshot true true e last) ∧ values_ok m'.
Proof.
  intros Hok Ha Hd Hs Hl slot m'.
  destruct (other_values m _ (blob_write_other slot blob)) as [Hs1 Hl1].
  destruct (other_values (apply_write m (blob_write slot blob)) _ (slot_write_other slot)) as [Hs2 Hl2].
  fold m' in Hs2, Hl2.
  assert (Hslot : slot = 0 ∨ slot = 1).
  { unfold slot, inactive_slot. destruct active as [[sl e']|]; [|by left].
    destruct Hok as [Hu _]. unfold stored_active in Ha.
    destruct (at_key m kActiveSlotKey) as [[x| |]|] eqn:Es; cbn in *; try done.
    destruct (x >? 1) eqn:Ex; [done|]. rewrite Z.gtb_ltb, Z.ltb_ge in Ex.
    destruct (stored_envelope m x); [|done]. injection Ha as -> ->. specialize (Hu _ eq_refl). lia. }
  assert (Hact : at_key m' kActiveSlotKey = Some (VU8 slot)).
  { unfold m', at_key, apply_write, slot_write. cbn. apply lookup_insert_eq. }
  assert (Hst : stored_active m' = Some (Some (slot, e))).
  { unfold stored_active, stored_envelope. rewrite Hact. cbn [mbind option_bind as_u8].
    replace (slot >? 1) with false by (symmetry; rewrite Z.gtb_ltb, Z.ltb_ge; lia).
    unfold m'. rewrite at_key_write by (cbn; unfold slot_key; destruct (slot =? 0); done).
    unfold at_key, apply_write, blob_write. cbn. rewrite lookup_insert_eq. cbn. by rewrite Hd. }
  split.
  - rewrite (snapshot_of_some _ (Some (slot, e)) last); [done|congruence|done|congruence].
  - split; [|rewrite Hl2, Hl1; eauto]. rewrite Hact. intros ? [= <-]. lia.
Qed.

Lemma snapshot_of_inv m snap :
  snapshot_of m = Some snap → ∃ active last,
    at_key m kSchemaKey = Some (VU32 kStorageSchemaVersion) ∧ stored_active m = Some active ∧
    stored_last_used m = Some last ∧ snap = snapshot_with active last.
Proof.
  unfold snapshot_of. case_bool_decide; [|done]. intros (active & Ha & E)%bind_Some.
  apply bind_Some in E as (last & Hl & [= <-]). eauto 10.
Qed.

(** The maps a replacement can leave, and the snapshots they describe. *)
Definition outcome (m : entries) (e : VaultEnvelope) (m' : entries) : Prop :=
  values_ok m' ∧
  (snapshot_of m' = snapshot_of m ∨
   ∃ snap, snapshot_of m = Some snap ∧ snapshot_of m' = Some (replaced snap e)).

Lemma outcome_flipped v0 g e active blob :
  values_ok (visible v0) → ready v0 g e active blob → decode_envelope blob = (kOk, e) →
  let slot := inactive_slot active in
  let m' := apply_write (apply_write (visible v0) (blob_write slot blob)) (slot_write slot) in
  values_ok m' ∧ ∃ last, snapshot_of (visible v0) = Some (snapshot_with active last) ∧
    snapshot_of m' = Some (replaced (snapshot_with active last) e).
Proof.
  intros Hok (Hs & Ha & _ & _) Hd slot m'. pose proof Hok as [_ [last Hl]].
  destruct (snapshot_flipped _ _ _ _ _ Hok Ha Hd Hs Hl) as [Hf Hok'].
  split; [done|]. exists last. split; [by apply snapshot_of_some|done].
Qed.

Lemma outcome_staged v0 g e active blob :
  values_ok (visible v0) → ready v0 g e active blob →
  outcome (visible v0) e (apply_write (visible v0) (blob_write (inactive_slot active) blob)).
Proof.
  intros Hok (Hs & Ha & _ & _). destruct (snapshot_staged _ _ blob Hok Ha) as [? ?].
  split; [done|by left].
Qed.

Lemma visits_visible v0 g e v :
  values_ok (visible v0) → visits v0 g e v → outcome (visible v0) e (visible v).
Proof.
  intros Hok [Hs|(active & blob & Hr & [Hw|(v1 & Hc1 & Hp1 & Hd & Hw)])].
  - rewrite (visible_same _ _ Hs). by split; [|left].
  - apply written_visible in Hw as [-> | ->]; [by split; [|left]|by eapply outcome_staged].
  - assert (Hv1 : visible v1 = apply_write (visible v0) (blob_write (inactive_slot active) blob)).
    { unfold visible. by rewrite Hc1, Hp1. }
    apply written_visible in Hw as [-> | ->]; rewrite Hv1; [by eapply outcome_staged|].
    destruct (outcome_flipped _ _ _ _ _ Hok Hr Hd) as (Hok' & last & Hs & Hs').
    split; [done|]. right. eauto.
Qed.

Lemma visits_survives v0 g e v m :
  pending v0 = [] → values_ok (visible v0) → visits v0 g e v → survives v m →
  outcome (visible v0) e m.
Proof.
  intros Hp Hok [Hs|(active & blob & Hr & [Hw|(v1 & Hc1 & Hp1 & Hd & Hw)])] Hm.
  - apply (survives_same _ _ _ Hs), survives_committed in Hm as ->; [|done].
    assert (visible v0 = committed v0) as -> by (unfold visible; by rewrite Hp).
    split; [|by left]. unfold visible in Hok. by rewrite Hp in Hok.
  - eapply written_survives in Hm as [-> | ->]; try done; [by split; [|left]|by eapply outcome_staged].
  - assert (Hv1 : visible v1 = apply_write (visible v0) (blob_write (inactive_slot active) blob)).
    { unfold visible. by rewrite Hc1, Hp1. }
    eapply written_survives in Hm as [-> | ->]; try done; rewrite Hv1; [by eapply outcome_staged|].
    destruct (outcome_flipped _ _ _ _ _ Hok Hr Hd) as (Hok' & last & Hs & Hs').
    split; [done|]. right. eauto.
Qed.

(** C6: Power may be lost between any two NVS calls of a replacement, with any part of
    the uncommitted writes already on flash: what the store then describes is
    the snapshot it held before or the same one with the new envelope, never
    anything else; and once the replacement has reported success, it is the new
    one. *)
Theorem replace_crash_atomic {N} `{!Nvs N} `{!NvsLaws N} g e (n : N) st n' log snap :
  pending (view n) = [] → values_ok (visible (view n)) →
  snapshot_of (visible (view n)) = Some snap →
  nvs_replace_envelope g e (n, []) = (st, (n', log)) →
  (∀ n1 m, n1 ∈ log → survives (view n1) m →
     snapshot_of m = Some snap ∨ snapshot_of m = Some (replaced snap e)) ∧
  (st = kOk → ∀ m, survives (view n') m → snapshot_of m = Some (replaced snap e)).
Proof.
  intros Hp Hok Hsnap E. apply replace_spec in E as ((ls & Hlog & HG) & _ & Hdone).
  cbn in Hlog. subst ls. split.
  - intros n1 m Hin Hm. rewrite Forall_forall in HG.
    destruct (visits_survives _ _ _ _ _ Hp Hok (HG n1 Hin) Hm) as [_ [Hs|(snap' & Hs & Hs')]].
    + left. congruence.
    + right. congruence.
  - intros Hst m Hm. destruct (Hdone Hst) as (active & blob & Hr & Hd & Hp' & Hv).
    apply survives_committed in Hm as ->; [|done].
    destruct (outcome_flipped _ _ _ _ _ Hok Hr Hd) as (_ & last & Hs & Hs').
    unfold visible at 1 in Hv. rewrite Hp' in Hv. cbn in Hv, Hs, Hs'. rewrite Hv. cbn in *. congruence.
Qed.

(** ** The log does not change what a function does *)

Section Erasure.
Context {N : Type} `{!Nvs N}.

Definition erases {A} (f' : N * list N → A * (N * list N)) (f : N → A * N) : Prop :=
  ∀ n l, ∃ l', f' (n, l) = (fst (f n), (snd (f n), l')).

Definition erases_ctl {R A} (c' : ctl (N * list N) R A) (c : ctl N R A) : Prop := erases c' c.

Lemma erases_logged {A} (f : N → A * N) : erases (logged f) f.
Proof. intros n l. unfold logged. cbn. destruct (f n). eauto. Qed.

Lemma erases_fn {R} (c' : ctl (N * list N) R R) c : erases_ctl c' c → erases (fn c') (fn c).
Proof.
  intros Hc n l. destruct (Hc n l) as [l' E]. exists l'. unfold fn. rewrite E.
  destruct (c n) as [[a|a] n1]; done.
Qed.

Lemma erases_bind {R A B} (c' : ctl (N * list N) R A) c (k' : A → ctl (N * list N) R B) k :
  erases_ctl c' c → (∀ a, erases_ctl (k' a) (k a)) → erases_ctl (c' ≫= k') (c ≫= k).
Proof.
  intros Hc Hk n l. destruct (Hc n l) as [l1 E1]. unfold mbind, ctl_bind. rewrite E1.
  destruct (c n) as [[a|r] n1]; cbn; [|eauto]. apply Hk.
Qed.

Lemma erases_ret {R A} (a : A) : erases_ctl (R := R) (mret a) (mret a).
Proof. intros n l. exists l. done. Qed.
Lemma erases_leave {R A} (r : R) : erases_ctl (A := A) (leave r) (leave r).
Proof. intros n l. exists l. done. Qed.
Lemma erases_leave_if {R} b (r : R) : erases_ctl (leave_if b r) (leave_if b r).
Proof. destruct b; [apply erases_leave|apply erases_ret]. Qed.
Lemma erases_call {R A} (f' : N * list N → A * (N * list N)) f :
  erases f' f → erases_ctl (R := R) (call f') (call f).
Proof.
  intros Hf n l. destruct (Hf n l) as [l' E]. exists l'. unfold call. rewrite E.
  by destruct (f n).
Qed.
End Erasure.

#[local] Ltac erase :=
  repeat first
    [ apply erases_fn | apply erases_ret | apply erases_leave | apply erases_leave_if
    | apply erases_call | apply erases_logged | solve [eauto with erase]
    | apply erases_bind; [|intro]
    | match goal with |- erases_ctl (match ?x with _ => _ end) _ => destruct x end ].

Create HintDb erase.

Section Erasure2.
Context {N : Type} `{!Nvs N}.

Lemma erases_ensure : erases (N := N) ensure_partition_initialized ensure_partition_initialized.
Proof.
  intros n l. unfold ensure_partition_initialized. cbn. unfold logged. cbn.
  destruct (nvs_flash_init_partition _ n). eauto.
Qed.
Lemma erases_open mode : erases (N := N) (open_namespace mode) (open_namespace mode).
Proof.
  intros n l. unfold open_namespace. cbn. unfold logged. cbn.
  destruct (nvs_open_from_partition _ _ _ n) as [[]]. eauto.
Qed.
Lemma erases_read_blob h k : erases (N := N) (read_blob h k) (read_blob h k).
Proof. unfold read_blob. erase. Qed.
#[local] Hint Resolve erases_ensure erases_open erases_read_blob : erase.
Lemma erases_read_active h : erases (N := N) (read_active h) (read_active h).
Proof. unfold read_active. erase. Qed.
Lemma erases_set_and_commit h f' f :
  erases (N := N) f' f → erases (N := N) (set_and_commit h f') (set_and_commit h f).
Proof. intros. unfold set_and_commit. erase. Qed.
#[local] Hint Resolve erases_read_active : erase.
Lemma erases_flip h slot blob e :
  erases (N := N) (stage_and_flip h slot blob e) (stage_and_flip h slot blob e).
Proof.
  unfold stage_and_flip, close_and_leave. erase; apply erases_set_and_commit; erase.
Qed.
#[local] Hint Resolve erases_flip : erase.
Lemma erases_replace g e :
  erases (N := N) (nvs_replace_envelope g e) (nvs_replace_envelope g e).
Proof. unfold nvs_replace_envelope, close_and_leave. erase. Qed.
End Erasure2.

(** ** The persistence contract *)

Section Contract.
Context {N : Type} `{!Nvs N} `{!NvsLaws N}.
Implicit Types n : N.

Lemma values_ok_empty : values_ok ∅.
Proof. by split. Qed.

(** A write and its commit, without the log. *)
Lemma set_and_commit_values h (set : nvs_op esp_err_t) w n n' :
  (∀ n', set n = (ESP_OK, n') → writes (view n) (view n') ESP_OK w ∨
     visible (view n') = apply_write (visible (view n)) w) →
  set_and_commit h set n = (ESP_OK, n') →
  committed (view n') = apply_write (visible (view n)) w ∧ pending (view n') = [].
Proof.
  intros Hset E. unfold set_and_commit in E. exec_step E. exec_step E.
  - exec_step E. apply nvs_commit_law in E as (_ & _ & [[Hc Hp]|(? & _)]); [|done].
    apply bool_decide_eq_true in Eb as ->. specialize (Hset _ eq_refl).
    split; [|done]. rewrite Hc. destruct Hset as [(Hc1 & _ & _ & [Hp1|[? _]])|?]; try done.
    by apply visible_snoc.
  - exec_step E. done.
Qed.

Lemma format_values n n' :
  nvs_format_schema2 n = (kOk, n') →
  visible (view n') = apply_write ∅ ((kNamespace, kSchemaKey), Some (VU32 kStorageSchemaVersion)).
Proof.
  intros E. unfold nvs_format_schema2 in E.
  exec_step E. exec_step E. exec_step E.
  { exfalso. match goal with H : map_error _ = kOk |- _ => apply map_error_ok in H end. by nvs_bools. }
  nvs_bools. subst. apply nvs_erase_law in Ef0 as [Hc0 Hp0].
  exec_step E. apply nvs_init_law in Ef0. exec_step E.
  { exfalso. match goal with H : map_error _ = kOk |- _ => apply map_error_ok in H end. by nvs_bools. }
  exec_step E. destruct a1 as [st h]. apply open_namespace_spec in Ef1 as [Hs Hh].
  exec_step E. { nvs_bools. congruence. } nvs_bools. subst. specialize (Hh eq_refl).
  exec_step E. exec_step E. apply close_spec in Ef2. exec_step E.
  match goal with H : map_error _ = kOk |- _ => apply map_error_ok in H as -> end.
  apply (set_and_commit_values h _ ((kNamespace, kSchemaKey), Some (VU32 kStorageSchemaVersion)))
    in Ef1 as [Hc Hp].
  - assert (Hv0 : visible (view s0) = ∅) by (unfold visible; by rewrite Hc0, Hp0).
    rewrite (visible_same _ _ Ef2). unfold visible at 1. rewrite Hc, Hp, (visible_same _ _ Hs),
      (visible_same _ _ Ef0), Hv0. done.
  - intros n1 E1. left. by eapply nvs_set_u32_law in E1.
Qed.

Lemma last_used_values id n n' :
  nvs_set_last_used id n = (kOk, n') →
  at_key (visible (view n)) kSchemaKey = Some (VU32 kStorageSchemaVersion) ∧
  (visible (view n') = apply_write (visible (view n)) ((kNamespace, kLastUsedKey), VBlob <$> id)).
Proof.
  intros E. unfold nvs_set_last_used, close_and_leave in E.
  exec_step E. apply ensure_spec in Ef. exec_step E; [by nvs_bools|].
  exec_step E. destruct a0 as [st h]. apply open_namespace_spec in Ef0 as [Hs Hh].
  exec_step E; [by nvs_bools|]. nvs_bools. subst. specialize (Hh eq_refl).
  exec_step E. destruct a as [e1 schema].
  pose proof (get_u32_spec _ _ _ _ _ _ Hh Ef0) as [(Hs3 & Hh3 & _) Hschema]. rewrite <- Hh3 in Hh.
  exec_step E.
  { exec E. destruct (bool_decide (e1 = ESP_OK)) eqn:?; [done|]. nvs_bools.
    match goal with H : map_error _ = kOk |- _ => apply map_error_ok in H end. congruence. }
  nvs_bools. subst. exec_step E. exec_step E. apply close_spec in Ef2. exec_step E.
  match goal with H : map_error _ = kOk |- _ => apply map_error_ok in H as -> end.
  rewrite <- (visible_same _ _ Ef), <- (visible_same _ _ Hs). split; [by apply Hschema|].
  rewrite <- (visible_same _ _ Hs3).
  apply (set_and_commit_values h _ ((kNamespace, kLastUsedKey), VBlob <$> id)) in Ef1 as [Hc Hp].
  - rewrite (visible_same _ _ Ef2). unfold visible at 1. by rewrite Hc, Hp.
  - intros n1 E1. destruct id as [id|].
    + left. by eapply nvs_set_blob_law in E1.
    + cbv beta iota in E1. destruct (nvs_erase_key h kLastUsedKey s1) as [e2 n2] eqn:E2.
      injection E1 as He <-.
      eapply nvs_erase_key_law in E2 as [Hw Hno]; [|done].
      case_bool_decide; [|subst; by left]. subst. destruct (Hno eq_refl) as [Hp Hv]. right.
      destruct Hw as (Hc & _). unfold visible at 1. rewrite Hp, Hc. cbn.
      unfold apply_write. cbn. by rewrite delete_id.
Qed.

Lemma legacy_spec n b n' : legacy_schema1_present n = (b, n') → same_values (view n) (view n').
Proof.
  intros E. unfold legacy_schema1_present in E.
  exec E; repeat match goal with p : (_ * _)%type |- _ => destruct p end; simplify_eq/=;
  repeat match goal with
  | E : nvs_flash_deinit_partition _ _ = _ |- _ => apply nvs_deinit_law in E
  | E : nvs_flash_secure_init_partition _ _ = _ |- _ => apply nvs_secure_init_law in E
  | E : nvs_open_from_partition _ _ _ _ = _ |- _ => apply nvs_open_law in E; destruct E as [E _]
  | E : nvs_get_u32 _ _ _ = _ |- _ => apply nvs_get_u32_law in E; destruct E as [[E _] _]
  | E : nvs_close _ _ = _ |- _ => apply nvs_close_law in E
  end; same_chain.
Qed.

Lemma compatible_load_spec n st snap n' :
  compatible_load n = ((st, snap), n') →
  same_values (view n) (view n') ∧
  (st = kOk → snapshot_of (visible (view n)) = Some snap ∧ schema_ready snap = true).
Proof.
  intros E. unfold compatible_load in E. exec_step E. destruct a as [primary snap1].
  apply nvs_load_spec in Ef as [Hs Hok]. exec_step E; [simplify_eq; done|].
  exec_step E. apply legacy_spec in Ef. exec E; simplify_eq.
  - split; [same_chain|done].
  - split; [same_chain|done].
Qed.

(** What the two implementations share. *)
Lemma nvs_replace_law g e n st n' :
  values_ok (visible (view n)) → nvs_replace_envelope g e n = (st, n') →
  values_ok (visible (view n')) ∧
  (snapshot_of (visible (view n')) = snapshot_of (visible (view n)) ∨
   ∃ snap, snapshot_of (visible (view n)) = Some snap ∧
     snapshot_of (visible (view n')) = Some (replaced snap e)) ∧
  (st = kOk → ∃ snap, snapshot_of (visible (view n)) = Some snap ∧
     snapshot_of (visible (view n')) = Some (replaced snap e) ∧
     if has_vault snap then generation (envelope snap) = g else g = 0).
Proof.
  intros Hok E. destruct (erases_replace g e n []) as [log El]. rewrite E in El. cbn in El.
  apply replace_spec in El as (_ & HK & Hdone). cbn in HK, Hdone.
  destruct (visits_visible _ _ _ _ Hok HK) as [Hok' Ho]. split_and!; [done|done|].
  intros Hst. destruct (Hdone Hst) as (active & blob & Hr & Hd & _ & Hv).
  destruct (outcome_flipped _ _ _ _ _ Hok Hr Hd) as (_ & last & Hs & Hs').
  exists (snapshot_with active last). split; [done|]. split; [cbn in *; congruence|].
  destruct Hr as (_ & _ & Hm & _). unfold replace_mismatch in Hm.
  destruct active as [[slot current]|]; cbn; destruct (Z.eqb_spec g 0); nvs_bools; try done.
  by destruct Hm.
Qed.

Lemma nvs_format_law n n' :
  nvs_format_schema2 n = (kOk, n') →
  values_ok (visible (view n')) ∧
  snapshot_of (visible (view n')) = Some (mkSnapshot true false empty_envelope None).
Proof.
  intros E. apply format_values in E as ->.
  split; [split; [by intros slot Hs|by eexists]|by vm_compute].
Qed.

Lemma nvs_last_used_law id n n' :
  values_ok (visible (view n)) → from_option (λ i, length i = kCredentialIdBytes) True id →
  nvs_set_last_used id n = (kOk, n') →
  values_ok (visible (view n')) ∧ ∀ snap, snapshot_of (visible (view n)) = Some snap →
    snapshot_of (visible (view n')) =
      Some (mkSnapshot (schema_ready snap) (has_vault snap) (envelope snap) id).
Proof.
  intros [Hu _] Hid E. apply last_used_values in E as [Hs ->].
  set (w := ((kNamespace, kLastUsedKey), VBlob <$> id)).
  assert (Hl : stored_last_used (apply_write (visible (view n)) w) = Some id).
  { unfold stored_last_used, at_key, apply_write, w. destruct id as [id|]; cbn.
    - rewrite lookup_insert_eq. cbn. cbn in Hid. by rewrite Hid.
    - by rewrite lookup_delete_eq. }
  assert (Ha : stored_active (apply_write (visible (view n)) w) = stored_active (visible (view n))).
  { unfold stored_active, stored_envelope. rewrite (at_key_write _ kActiveSlotKey) by done.
    destruct (at_key _ _ ≫= as_u8) as [slot|]; [|done]. destruct (slot >? 1); [done|].
    rewrite at_key_write; [done|]. cbn. apply not_eq_sym, slot_key_other. set_solver. }
  split.
  - split; [|rewrite Hl; eauto]. intros slot. rewrite at_key_write by done. auto.
  - intros snap (active & last & _ & Hact & _ & ->)%snapshot_of_inv.
    rewrite (snapshot_of_some _ active id); [done|by rewrite at_key_write|congruence|done].
Qed.

Lemma nvs_erase_all_law n n' :
  nvs_erase_all n = (kOk, n') →
  values_ok (visible (view n')) ∧ snapshot_of (visible (view n')) = None.
Proof.
  intros E. unfold nvs_erase_all in E. exec_step E. exec_step E. exec_step E.
  match goal with H : map_error _ = kOk |- _ => apply map_error_ok in H as -> end.
  apply nvs_erase_law in Ef0 as [Hc Hp]. unfold visible. rewrite Hc, Hp.
  split; [apply values_ok_empty|done].
Qed.

Definition nvs_content n : option PersistedSnapshot := snapshot_of (visible (view n)).
Definition nvs_ok n : Prop := values_ok (visible (view n)).

#[export] Instance nvs_persistence_laws : @PersistenceLaws N NvsPersistence.
Proof.
  refine (@Build_PersistenceLaws N NvsPersistence nvs_content nvs_ok _ _ _ _ _);
    unfold nvs_content, nvs_ok; cbn.
  - intros p st snap p' Hok [Hs Hl]%nvs_load_spec. by rewrite !(visible_same _ _ Hs).
  - intros p p' _. apply nvs_format_law.
  - intros p expected e st p'. apply nvs_replace_law.
  - intros p id p'. apply nvs_last_used_law.
  - intros p p' _. apply nvs_erase_all_law.
Defined.

#[export] Instance compatible_persistence_laws : @PersistenceLaws N CompatibleNvsPersistence.
Proof.
  refine (@Build_PersistenceLaws N CompatibleNvsPersistence nvs_content nvs_ok _ _ _ _ _);
    unfold nvs_content, nvs_ok; cbn.
  - intros p st snap p' Hok [Hs Hl]%compatible_load_spec. by rewrite !(visible_same _ _ Hs).
  - intros p p' _. apply nvs_format_law.
  - intros p expected e st p'. apply nvs_replace_law.
  - intros p id p'. apply nvs_last_used_law.
  - intros p p' _. apply nvs_erase_all_law.
Defined.
End Contract.
