(* ===== verification/NvsRestart.v ===== *)
(** * A start on a partition that can be read

    What is stored is what a start finds: on a partition whose reads do not fail,
    loading the Vault gives exactly the snapshot the stored values describe, for
    both implementations of the store, so that a start that fails to find it has
    had a call to the NVS fail. *)

From S2P Require Import Prelude Bytes ByteReader VaultFormat Persistence Runtime Nvs.
From S2P Require Import NvsPersistence NvsPersistenceCorrect NvsAtomic.

(** ** The size of what decodes *)

(** A parser that reads a fixed number of bytes. *)
Definition reads_size {A} (p : parser A) (size : A → nat) : Prop :=
  ∀ r a r', p r = Some (a, r') → input r' = input r ∧ offset r' = (offset r + size a)%nat.

Lemma reads_bytes n : reads_size (read_bytes n) (λ _, n).
Proof. intros r a r' E. unfold read_bytes in E. destruct (_ || _); [done|]. by injection E as <- <-. Qed.
Lemma reads_check b : reads_size (check b) (λ _, 0%nat).
Proof. intros r a r' E. unfold check in E. destruct b; [|done]. injection E as <- <-. split; [done|lia]. Qed.
Lemma reads_ret {A} (a : A) : reads_size (mret a) (λ _, 0%nat).
Proof. intros r a' r' [= <- <-]. split; [done|lia]. Qed.
Lemma reads_bind {A B} (p : parser A) (k : A → parser B) n m :
  reads_size p (λ _, n) → (∀ a, reads_size (k a) (λ _, m)) → reads_size (p ≫= k) (λ _, (n + m)%nat).
Proof.
  intros Hp Hk r b r' E. unfold mbind, parser_bind in E. destruct (p r) as [[a r1]|] eqn:Ep; [|done].
  apply Hp in Ep as [Hi Ho]. apply Hk in E as [Hi' Ho']. split; [congruence|lia].
Qed.
#[local] Hint Resolve reads_bytes reads_check reads_ret : core.

(** The header of an envelope, as a number of bytes. *)
Definition header_bytes : nat := length kEnvelopeMagic + 2 + 2 + kVaultIdBytes + 8 + kVaultNonceBytes + kVaultTagBytes + 4.

Lemma reads_header : reads_size decode_header (λ _, header_bytes).
Proof.
  assert (Hs : reads_size decode_header (λ _, (length kEnvelopeMagic + (0 + ((2 + 0) + ((2 + 0) + (kVaultIdBytes
    + ((8 + 0) + (kVaultNonceBytes + (kVaultTagBytes + ((4 + 0) + (0 + 0)))))))))))%nat).
  { unfold decode_header, read_u16, read_u32, read_u64. repeat (apply reads_bind; [auto|intros ?]); auto. }
  exact Hs.
Qed.

(** What decodes fits the limit with which it is read. *)
Lemma decode_envelope_size blob e :
  decode_envelope blob = (kOk, e) →
  (0 < length blob ≤ kMaxPersistedCiphertextBytes + 128)%nat ∧ valid_envelope e = true.
Proof.
  unfold decode_envelope. destruct (Nat.eqb_spec (length blob) 0) as [|Hne]; [done|].
  destruct (decode_header (mkReader blob 0)) as [[[h size] r]|] eqn:Eh; [|done].
  pose proof Eh as [Hi Ho]%reads_header. cbn in Hi, Ho.
  destruct (negb _); [done|]. destruct (negb _); [done|].
  intros E. unfold mbind, parser_bind in E.
  destruct (read_bytes (Z.to_nat size) r) as [[body r']|] eqn:Eb; [|done].
  pose proof Eb as [Hi' Ho']%reads_bytes. cbn in E. unfold check in E.
  destruct (Nat.eqb_spec (offset r') (length (input r'))) as [He|]; [|done].
  destruct (valid_envelope _) eqn:Ev; [|done]. injection E as <-. split; [|done]. split; [lia|].
  apply valid_envelope_spec in Ev as (_ & _ & _ & Hlen). cbn in Hlen.
  assert (Hbody : length body = Z.to_nat size).
  { unfold read_bytes in Eb. destruct (_ || _) eqn:Ec; [done|]. injection Eb as <- _.
    apply orb_false_iff in Ec as [_ Ec%Nat.ltb_ge]. rewrite length_take, length_drop. lia. }
  rewrite Hi', Hi in He. lia.
Qed.

(** ** Loading *)

Lemma as_blob_some (o : option nvs_value) b : o ≫= as_blob = Some b → o = Some (VBlob b).
Proof. destruct o as [[]|]; cbn; congruence. Qed.

Lemma fn_pass {S R} b (r : R) (k : unit → ctl S R R) s : b = false → fn (leave_if b r ≫= k) s = fn (k tt) s.
Proof. by intros ->. Qed.
#[local] Ltac pass := rewrite fn_pass by done.

(** The two keys of the store whose absence means something hold values of their
    types, if any. *)
Definition values_typed (m : entries) : Prop :=
  (∀ x, at_key m kActiveSlotKey = Some x → ∃ slot, x = VU8 slot) ∧
  (∀ x, at_key m kLastUsedKey = Some x → ∃ id, x = VBlob id).

Section Readable.
Context {N : Type} `{NvsReadable N}.
Implicit Types n : N.

Lemma ensure_readable n : ∃ n', ensure_partition_initialized n = (kOk, n').
Proof.
  unfold ensure_partition_initialized. pose proof (readable_init kPartitionLabel n) as Hi.
  destruct (nvs_flash_init_partition _ n) as [e n']. cbn in Hi. subst e. by eexists.
Qed.

Lemma open_readable mode n key :
  is_Some (at_key (visible (view n)) key) → ∃ h n', open_namespace mode n = ((kOk, h), n').
Proof.
  intros Hk. unfold open_namespace. pose proof (readable_open kPartitionLabel kNamespace mode n key Hk) as Ho.
  destruct (nvs_open_from_partition _ _ _ n) as [[e h] n']. cbn in Ho. subst e. by eexists _, _.
Qed.

Context (n : N) (h : Z) (Hh : handles (view n) !! h = Some kNamespace).

Lemma u32_readable k x :
  at_key (visible (view n)) k = Some (VU32 x) → ∃ n', nvs_get_u32 h k n = ((ESP_OK, x), n').
Proof.
  intros Hk. pose proof (readable_u32 h k n _ Hh) as Hr. fold (at_key (visible (view n)) k) in Hr. rewrite Hk in Hr.
  destruct (nvs_get_u32 h k n) as [[e y] n'] eqn:E. cbn in Hr. subst e.
  apply (get_u32_spec _ _ _ _ _ _ Hh) in E as [_ Hv]. specialize (Hv eq_refl). exists n'. congruence.
Qed.
Lemma u8_readable k :
  match at_key (visible (view n)) k with
  | Some (VU8 x) => ∃ n', nvs_get_u8 h k n = ((ESP_OK, x), n')
  | Some _ => True
  | None => ∃ x n', nvs_get_u8 h k n = ((ESP_ERR_NVS_NOT_FOUND, x), n')
  end.
Proof.
  pose proof (readable_u8 h k n _ Hh) as Hr. fold (at_key (visible (view n)) k) in Hr.
  destruct (nvs_get_u8 h k n) as [[e y] n'] eqn:E. apply (get_u8_spec _ _ _ _ _ _ Hh) in E as (_ & Hv & _).
  destruct (at_key _ k) as [[x|x|x]|]; cbn in Hr; subst; eauto. specialize (Hv eq_refl). exists n'. congruence.
Qed.
Lemma size_readable k :
  match at_key (visible (view n)) k with
  | Some (VBlob b) => ∃ n', nvs_get_blob_size h k n = ((ESP_OK, Z.of_nat (length b)), n')
  | Some _ => True
  | None => ∃ x n', nvs_get_blob_size h k n = ((ESP_ERR_NVS_NOT_FOUND, x), n')
  end.
Proof.
  pose proof (readable_blob_size h k n _ Hh) as Hr. fold (at_key (visible (view n)) k) in Hr.
  destruct (nvs_get_blob_size h k n) as [[e y] n'] eqn:E. apply (get_blob_size_spec _ _ _ _ _ _ Hh) in E as (_ & Hv & _).
  destruct (at_key _ k) as [[x|x|x]|]; cbn in Hr; subst; eauto.
  destruct (Hv eq_refl) as (b & [= <-] & <-). by exists n'.
Qed.
Lemma blob_readable k b :
  at_key (visible (view n)) k = Some (VBlob b) → ∃ n', nvs_get_blob h k n = ((ESP_OK, b), n').
Proof.
  intros Hk. pose proof (readable_blob h k n _ Hh) as Hr. fold (at_key (visible (view n)) k) in Hr. rewrite Hk in Hr.
  destruct (nvs_get_blob h k n) as [[e y] n'] eqn:E. cbn in Hr. subst e.
  apply (get_blob_spec _ _ _ _ _ _ Hh) in E as [_ Hv]. specialize (Hv eq_refl). exists n'. congruence.
Qed.
End Readable.

Section Load.
Context {N : Type} `{NvsReadable N}.
Implicit Types n : N.

Lemma read_blob_readable n h k b :
  handles (view n) !! h = Some kNamespace → at_key (visible (view n)) k = Some (VBlob b) →
  (0 < length b ≤ kMaxPersistedCiphertextBytes + 128)%nat → ∃ n', read_blob h k n = ((kOk, b), n').
Proof.
  intros Hh Hk Hb. pose proof (size_readable n h Hh k) as Hs. rewrite Hk in Hs. destruct Hs as [n1 E1].
  pose proof (get_blob_size_spec _ _ _ _ _ _ Hh E1) as ([Hs1 [Hh1 _]] & _). rewrite <- Hh1 in Hh.
  destruct (blob_readable n1 h Hh k b) as [n2 E2]; [by rewrite (visible_same _ _ Hs1)|].
  exists n2. unfold read_blob. rewrite (fn_call _ _ _ _ _ E1).
  pass. rewrite fn_pass by (apply orb_false_iff; rewrite Z.eqb_neq, Z.gtb_ltb, Z.ltb_ge; lia).
  rewrite (fn_call _ _ _ _ _ E2). by pass.
Qed.

Lemma read_active_readable n h active :
  handles (view n) !! h = Some kNamespace → values_typed (visible (view n)) →
  stored_active (visible (view n)) = Some active → ∃ n', read_active h n = ((kOk, active), n').
Proof.
  intros Hh [Hty _] Ha. unfold stored_active in Ha. pose proof (u8_readable n h Hh kActiveSlotKey) as Hr.
  unfold read_active. destruct (at_key _ kActiveSlotKey) as [x|].
  2:{ injection Ha as <-. destruct Hr as (x & n' & E). rewrite (fn_call _ _ _ _ _ E). by exists n'. }
  destruct (Hty x eq_refl) as [slot ->]. destruct Hr as [n1 E1]. cbn in Ha.
  pose proof (get_u8_spec _ _ _ _ _ _ Hh E1) as ([Hs1 [Hh1 _]] & _). rewrite <- Hh1 in Hh.
  rewrite (fn_call _ _ _ _ _ E1). do 2 pass. destruct (slot >? 1) eqn:Eslot; [done|]. pass. apply fmap_Some in Ha as (e & Ha & ->).
  unfold stored_envelope in Ha. apply bind_Some in Ha as (blob & Hb & Hd).
  destruct (decode_envelope blob) as [st e'] eqn:Ed. destruct (is_ok st) eqn:Est; [|done]. injection Hd as ->.
  apply is_ok_true in Est as ->. pose proof Ed as [Hlen _]%decode_envelope_size.
  destruct (read_blob_readable n1 h (slot_key slot) blob Hh) as [n2 E2]; [|done|].
  { rewrite (visible_same _ _ Hs1). by apply as_blob_some. }
  fold (slot_key slot). rewrite (fn_call _ _ _ _ _ E2). pass. exists n2. by rewrite Ed.
Qed.


Lemma nvs_load_readable n snap :
  snapshot_of (visible (view n)) = Some snap → values_typed (visible (view n)) →
  ∃ n', nvs_load n = ((kOk, snap), n').
Proof.
  intros Hsnap Hty. apply snapshot_of_inv in Hsnap as (active & last & Hschema & Ha & Hl & ->).
  destruct (ensure_readable n) as [n1 E1]. pose proof (ensure_spec _ _ _ E1) as Hv1.
  destruct (open_readable NVS_READONLY n1 kSchemaKey) as (h & n2 & E2).
  { rewrite (visible_same _ _ Hv1). by eexists. }
  pose proof (open_namespace_spec _ _ _ _ _ E2) as [Hv2 Hh2]. specialize (Hh2 eq_refl).
  assert (Hv : same_values (view n) (view n2)) by by eapply same_values_trans.
  destruct (u32_readable n2 h Hh2 kSchemaKey kStorageSchemaVersion) as [n3 E3]; [by rewrite (visible_same _ _ Hv)|].
  pose proof (get_u32_spec _ _ _ _ _ _ Hh2 E3) as ([Hv3 [Hh3 _]] & _). rewrite <- Hh3 in Hh2.
  assert (Hv' : same_values (view n) (view n3)) by by eapply same_values_trans.
  destruct (read_active_readable n3 h active Hh2) as [n4 E4]; [by rewrite (visible_same _ _ Hv')..|].
  pose proof (read_active_spec _ _ _ _ _ Hh2 E4) as (Hv4 & Hh4 & _).
  assert (Hv'' : same_values (view n) (view n4)) by by eapply same_values_trans.
  pose proof (size_readable n4 h Hh4 kLastUsedKey) as Hs. rewrite (visible_same _ _ Hv'') in Hs.
  unfold nvs_load. rewrite (fn_call _ _ _ _ _ E1). pass. rewrite (fn_call _ _ _ _ _ E2).
  change (bool_decide (kOk = kNotFound)) with false. cbn iota. pass. rewrite (fn_call _ _ _ _ _ E3).
  change (negb (is_esp_ok ESP_OK)) with false. change (kStorageSchemaVersion =? 1) with false.
  change (kStorageSchemaVersion >? kStorageSchemaVersion) with false.
  change (negb (kStorageSchemaVersion =? kStorageSchemaVersion)) with false. cbn iota.
  rewrite (fn_call _ _ _ _ _ E4). change (negb (is_ok kOk)) with false. cbn iota.
  unfold stored_last_used in Hl. destruct (at_key _ kLastUsedKey) as [x|] eqn:Elast.
  - destruct Hty as [_ Hty]. destruct (Hty _ Elast) as [id ->]. cbn in Hl.
    destruct (Nat.eqb_spec (length id) kCredentialIdBytes) as [Hlen|]; [|done]. injection Hl as <-.
    destruct Hs as [n5 E5]. pose proof (get_blob_size_spec _ _ _ _ _ _ Hh4 E5) as ([Hv5 [Hh5 _]] & _).
    rewrite <- Hh5 in Hh4.
    destruct (blob_readable n5 h Hh4 kLastUsedKey id) as [n6 E6].
    { rewrite (visible_same _ _ Hv5). by rewrite (visible_same _ _ Hv''). }
    rewrite (fn_call _ _ _ _ _ E5), Hlen, Z.eqb_refl. change (is_esp_ok ESP_OK) with true. cbn [negb].
    rewrite (fn_call _ _ _ _ _ E6). change (is_esp_ok ESP_OK) with true. cbn [negb].
    destruct (nvs_close h n6) as [u n7] eqn:E7. rewrite (fn_call _ _ _ _ _ E7). by exists n7.
  - injection Hl as <-. destruct Hs as (x & n5 & E5). rewrite (fn_call _ _ _ _ _ E5).
    change (is_esp_ok ESP_ERR_NVS_NOT_FOUND) with false. cbn iota.
    rewrite bool_decide_eq_true_2 by done. cbn [negb].
    destruct (nvs_close h n5) as [u n6] eqn:E6. rewrite (fn_call _ _ _ _ _ E6). by exists n6.
Qed.

Lemma compatible_load_readable n snap :
  snapshot_of (visible (view n)) = Some snap → values_typed (visible (view n)) →
  ∃ n', compatible_load n = ((kOk, snap), n').
Proof.
  intros Hs Hty. destruct (nvs_load_readable n snap Hs Hty) as [n' E].
  unfold compatible_load. rewrite (fn_call _ _ _ _ _ E). by exists n'.
Qed.
End Load.

(** ** Starting the runtime *)

(** A stored envelope is one the runtime takes. *)
Lemma stored_framing m snap :
  snapshot_of m = Some snap → has_vault snap = true → valid_envelope_framing (envelope snap) = true.
Proof.
  intros (active & last & _ & Ha & _ & ->)%snapshot_of_inv. destruct active as [[slot e]|]; [|done]. intros _.
  unfold stored_active in Ha. destruct (at_key m kActiveSlotKey ≫= as_u8) as [slot'|]; [|done].
  destruct (slot' >? 1); [done|]. apply fmap_Some in Ha as (e' & Ha & [= -> ->]).
  unfold stored_envelope in Ha. apply bind_Some in Ha as (blob & _ & Hd).
  destruct (decode_envelope blob) as [st e''] eqn:Ed. destruct (is_ok st) eqn:Est; [|done]. injection Hd as ->.
  apply is_ok_true in Est as ->. apply decode_envelope_size in Ed as [_ Hv].
  apply valid_envelope_spec in Hv as (Hsch & Hf & Hg & Hlen). unfold valid_envelope_framing. cbn.
  rewrite Hsch, Hf, Z.eqb_refl, (proj2 (Z.eqb_neq _ _) Hg). cbn [negb andb].
  replace (Nat.eqb _ _) with false by (symmetry; apply Nat.eqb_neq; lia). cbn [negb andb].
  apply Nat.leb_le. lia.
Qed.

#[export] Existing Instance CompatibleNvsPersistence.

Lemma start_readable {N} `{NvsReadable N} (n : N) snap :
  snapshot_of (visible (view n)) = Some snap → values_typed (visible (view n)) → has_vault snap = true →
  ∃ r, initialize (new_runtime n) = (kOk, r) ∧ state_ r = State.kLocked ∧
       envelope_ r = envelope snap ∧ last_used_ r = last_used snap.
Proof.
  intros Hs Hty Hh. destruct (compatible_load_readable n snap Hs Hty) as [n' E].
  pose proof (compatible_load_spec _ _ _ _ E) as [_ Hok]. destruct (Hok eq_refl) as [_ Hready].
  pose proof (stored_framing _ _ Hs Hh) as Hf. eexists. split.
  - unfold initialize. rewrite !fn_modify.
    match goal with |- fn (call (store load) ≫= _) ?r0 = _ =>
      assert (El : store load r0 = ((kOk, snap), r0 <| persistence_ := n' |>)) end.
    { unfold store. cbn [persistence_ load CompatibleNvsPersistence]. cbn in E |- *. by rewrite E. }
    rewrite (fn_call _ _ _ _ _ El). pass. change (bool_decide (kOk = kReprovisionRequired)) with false.
    change (negb (is_ok kOk)) with false. rewrite Hready, Hf, Hh. reflexivity.
  - done.
Qed.
