(* ===== verification/VaultDevice.v ===== *)
(** * The runtime on non-volatile storage

    The Vault runtime over the store it runs on, [CompatibleNvsPersistence]:
    power may be lost at any NVS call of an update, and the next start finds
    the old Vault or the new one. *)

From S2P Require Import Prelude Bytes ByteReader Utf8 VaultFormat VaultCrypto Persistence Runtime.
From S2P Require Import RuntimeCorrect Nvs NvsPersistence NvsPersistenceCorrect NvsAtomic NvsRestart.

Section Device.
Context `{MbedtlsGcm} {N : Type} `{!Nvs N} `{!NvsLaws N}.
Implicit Types s : N * list N.

Lemma nvs_call_quiet {A} (f : N → A * N) s a s' :
  logged f s = (a, s') → same_values (view s) (view s') → quiet s s'.
Proof. apply quiet_call. Qed.

Lemma raw_open_quiet l ns mode s x s' : nvs_open_from_partition l ns mode s = (x, s') → quiet s s'.
Proof.
  destruct x. intros E. eapply (quiet_call (nvs_open_from_partition l ns mode)); [exact E|].
  by apply nvs_open_law in E as [? _].
Qed.
Lemma deinit_quiet l s e s' : nvs_flash_deinit_partition l s = (e, s') → quiet s s'.
Proof.
  intros E. eapply (quiet_call (nvs_flash_deinit_partition l)); [exact E|]. by eapply nvs_deinit_law.
Qed.
Lemma secure_init_quiet l s e s' : nvs_flash_secure_init_partition l s = (e, s') → quiet s s'.
Proof.
  intros E. eapply (quiet_call (nvs_flash_secure_init_partition l)); [exact E|].
  by eapply nvs_secure_init_law.
Qed.

#[local] Ltac results :=
  repeat match goal with
  | p : (esp_err_t * _)%type |- _ => destruct p
  | p : (Status * _)%type |- _ => destruct p
  end; simplify_eq.

#[local] Ltac all_quiet :=
  results;
  repeat match goal with
  | E : nvs_open_from_partition _ _ _ _ = _ |- _ => apply raw_open_quiet in E
  | E : nvs_flash_deinit_partition _ _ = _ |- _ => apply deinit_quiet in E
  | E : nvs_flash_secure_init_partition _ _ = _ |- _ => apply secure_init_quiet in E
  | E : read_active _ _ = _ |- _ => apply read_active_quiet in E
  end; quiet_calls.

Lemma detect_legacy_quiet s st s' : detect_legacy_schema s = (st, s') → quiet s s'.
Proof. intros E. unfold detect_legacy_schema in E. exec E; all_quiet; quiet_chain. Qed.

Lemma nvs_load_quiet s x s' : nvs_load s = (x, s') → quiet s s'.
Proof.
  intros E. unfold nvs_load, close_and_leave in E. exec E; all_quiet;
    repeat match goal with E : detect_legacy_schema _ = _ |- _ => apply detect_legacy_quiet in E end;
    quiet_chain.
Qed.

Lemma legacy_quiet s b s' : legacy_schema1_present s = (b, s') → quiet s s'.
Proof. intros E. unfold legacy_schema1_present in E. exec E; all_quiet; quiet_chain. Qed.

Lemma compatible_load_quiet s x s' : compatible_load s = (x, s') → quiet s s'.
Proof.
  intros E. unfold compatible_load in E. exec E;
    results;
    repeat match goal with
    | E : nvs_load _ = _ |- _ => apply nvs_load_quiet in E
    | E : legacy_schema1_present _ = _ |- _ => apply legacy_quiet in E
    end; quiet_chain.
Qed.

(** The states an update of the runtime passes through in its store, and the one
    a success leaves. *)
Lemma update_visits g e now (r r' : Runtime (N * list N)) x :
  update_encrypted_vault g e now r = (x, r') →
  grows (visits (view (persistence_ r)) g e) (persistence_ r) (persistence_ r') ∧
  (fst x = kOk → ∃ active blob, ready (view (persistence_ r)) g e active blob ∧ decode_envelope blob = (kOk, e) ∧
     pending (view (persistence_ r')) = [] ∧ visible (view (persistence_ r')) =
       apply_write (apply_write (visible (view (persistence_ r))) (blob_write (inactive_slot active) blob))
         (slot_write (inactive_slot active))).
Proof.
  intros E. unfold update_encrypted_vault in E.
  exec_rt E; simplify_eq; try (split; [apply grows_refl|cbn; bools; congruence]).
  all: repeat match goal with E : fatal_security_error _ = _ |- _ => apply fatal_store in E; cbn in E end.
  all: match goal with E : replace_envelope _ _ _ = _ |- _ =>
         apply replace_spec in E as (HG & HK & Hdone) end.
  1: split; [done|cbn; bools; congruence].
  all: match goal with E : load _ = _ |- _ => apply compatible_load_quiet in E as Hq end.
  all: edestruct (grows_quiet (visits (view (persistence_ r)) g e)) as [HG' _];
         [apply visits_same|exact HG|exact HK|eassumption|].
  - rewrite Ef1. split; [exact HG'|]. cbn. bools. destruct (is_ok _) eqn:?; bools; congruence.
  - split; [exact HG'|]. intros _. bools. subst. destruct (Hdone eq_refl) as (active & blob & ? & ? & Hp & Hv).
    destruct Hq as [[Hc Hp'] _]. exists active, blob. cbn [persistence_ upd_field]. split_and!; try done.
    + cbn in *. congruence.
    + rewrite <- Hv. by apply visible_same.
Qed.

(** What power loss can leave of a replacement. *)
Lemma visits_maps v0 g e v m :
  pending v0 = [] → visits v0 g e v → survives v m →
  m = visible v0 ∨ ∃ slot blob, m = apply_write (visible v0) (blob_write slot blob) ∨
    m = apply_write (apply_write (visible v0) (blob_write slot blob)) (slot_write slot).
Proof.
  intros Hp [Hs|(active & blob & _ & [Hw|(v1 & Hc1 & Hp1 & _ & Hw)])] Hm.
  - apply (survives_same _ _ _ Hs), survives_committed in Hm as ->; [|done]. left. unfold visible. by rewrite Hp.
  - eapply written_survives in Hm as [-> | ->]; eauto.
  - assert (Hv1 : visible v1 = apply_write (visible v0) (blob_write (inactive_slot active) blob)).
    { unfold visible. by rewrite Hc1, Hp1. }
    eapply written_survives in Hm as [-> | ->]; try done; rewrite Hv1; eauto.
Qed.

Lemma typed_blob m slot blob : values_typed m → values_typed (apply_write m (blob_write slot blob)).
Proof.
  intros [Ha Hl]. split; intros x; rewrite at_key_write by (apply slot_key_other; set_solver); auto.
Qed.
Lemma typed_slot m slot : values_typed m → values_typed (apply_write m (slot_write slot)).
Proof.
  intros [Ha Hl]. split; intros x; [|rewrite at_key_write by done; auto].
  unfold at_key. cbn. rewrite lookup_insert_eq. intros [= <-]. eauto.
Qed.
Lemma visits_typed v0 g e v m :
  pending v0 = [] → values_typed (visible v0) → visits v0 g e v → survives v m → values_typed m.
Proof.
  intros Hp Ht Hv Hm. destruct (visits_maps _ _ _ _ _ Hp Hv Hm) as [->|(slot & blob & [->| ->])];
    auto using typed_blob, typed_slot.
Qed.

(** The values [m] hold the snapshot [snap], and a device started on them finds it:
    whatever NVS the device then has, as long as it can be read, the runtime comes
    up locked with the Vault of [snap]. *)
Definition comes_up {N2 : Type} `{NvsLaws N2} (m : entries) (snap : PersistedSnapshot) : Prop :=
  snapshot_of m = Some snap ∧
  ∀ n2 : N2, visible (view n2) = m → ∃ r2, initialize (new_runtime n2) = (kOk, r2) ∧
    state_ r2 = State.kLocked ∧ envelope_ r2 = Persistence.envelope snap ∧ last_used_ r2 = last_used snap.

Lemma holds_comes_up {N2 : Type} `{NvsReadable N2} m snap :
  snapshot_of m = Some snap → values_typed m → has_vault snap = true → comes_up (N2:=N2) m snap.
Proof. intros Hs Ht Hh. split; [done|]. intros n2 <-. by apply start_readable. Qed.

(** C5: End to end.  The device holds a Vault; an update runs, with any NVS call
    failing or not, and power is lost after any of its NVS calls, with any part of
    the uncommitted writes on flash.  The flash then holds the old Vault or the
    new one, whole, with the mark of the account used last, and the next start,
    on a flash that can be read, succeeds and comes up locked with it; once the
    update has reported success, it is the new one. *)
Theorem update_survives_power_loss {N2 : Type} `{NvsReadable N2} g e now (r r' : Runtime (N * list N)) n x snap :
  persistence_ r = (n, []) → pending (view n) = [] → values_ok (visible (view n)) →
  values_typed (visible (view n)) → snapshot_of (visible (view n)) = Some snap → has_vault snap = true →
  update_encrypted_vault g e now r = (x, r') →
  (∀ n1 m, n1 ∈ snd (persistence_ r') → survives (view n1) m →
     comes_up (N2:=N2) m snap ∨ comes_up (N2:=N2) m (replaced snap e)) ∧
  (fst x = kOk → ∀ m, survives (view (fst (persistence_ r'))) m → comes_up (N2:=N2) m (replaced snap e)).
Proof.
  intros Hr Hp Hok Hty Hs Hh Hu. apply update_visits in Hu as [(ls & Hlog & HG) Hdone].
  rewrite Hr in Hlog, HG, Hdone. cbn in Hlog, HG, Hdone. split.
  - intros n1 m Hin Hm. rewrite Hlog in Hin. rewrite Forall_forall in HG. specialize (HG n1 Hin).
    pose proof (visits_typed _ _ _ _ _ Hp Hty HG Hm) as Hty'.
    destruct (visits_survives _ _ _ _ _ Hp Hok HG Hm) as [_ [Ho|(snap' & Ho & Ho')]].
    + left. apply holds_comes_up; [congruence|done..].
    + right. apply holds_comes_up; [congruence|done..].
  - intros Hst m Hm. destruct (Hdone Hst) as (active & blob & Hready & Hd & Hp' & Hv).
    apply survives_committed in Hm as ->; [|done]. unfold visible at 1 in Hv. rewrite Hp' in Hv. cbn in Hv.
    destruct (outcome_flipped _ _ _ _ _ Hok Hready Hd) as (_ & last & Hl & Hl'). cbn in Hl, Hl'. rewrite <- Hv in Hl'.
    apply holds_comes_up; [congruence| |done]. rewrite Hv. by apply typed_slot, typed_blob.
Qed.
End Device.

(** ** A device in memory *)

Module DeviceSample.
Import RuntimeCorrect.Sample.
#[local] Existing Instance checksum_gcm.

Definition stored : NvsView :=
  Eval vm_compute in
    snd (nvs_replace_envelope 0 e1 (snd (nvs_format_schema2 fresh_nvs))).

Definition device : Runtime (MemoryNvs * list MemoryNvs) :=
  Eval vm_compute in
    (snd (unlock key1 1000 (snd (initialize (new_runtime (stored, []))))))
      <| persistence_ := (stored, []) |>.
Definition committed_device : Runtime (MemoryNvs * list MemoryNvs) :=
  snd (update_encrypted_vault 1 e2 2000 device).

(** The store after the twentieth NVS call of the update. *)
Definition interrupted : MemoryNvs :=
  Eval vm_compute in default fresh_nvs (snd (persistence_ committed_device) !! 19%nat).
Definition restarted : Runtime MemoryNvs :=
  Eval vm_compute in snd (initialize (new_runtime interrupted)).

Lemma stored_committed : pending (view (stored : MemoryNvs)) = [].
Proof. vm_compute. reflexivity. Qed.

Lemma stored_ok : values_ok (visible (view (stored : MemoryNvs))).
Proof.
  split.
  - intros slot H. vm_compute in H. injection H as <-. done.
  - vm_compute. by eexists.
Qed.

Lemma envelope_framing_witness :
  decode_envelope (snd (encode_envelope e1)) = (kOk, e1) ∧
  Z.of_nat (length (snd (encode_envelope e1))) ≤ Z.of_nat kMaxPersistedCiphertextBytes + 128.
Proof.
  destruct (envelope_framing e1 (snd (encode_envelope e1))) as [Heq Hlen].
  { apply (bool_decide_unpack _). vm_compute. exact I. }
  assert (Hw : header_wf e1).
  { split_and!; try reflexivity; vm_compute; split; congruence. }
  assert (He : encode_envelope e1 = (kOk, snd (encode_envelope e1))) by (vm_compute; reflexivity).
  split; [apply Heq; split; [exact Hw|exact He]|apply (Hlen Hw He)].
Defined.

Definition replacement := nvs_replace_envelope 1 e2 ((stored : MemoryNvs), []).

Lemma replace_crash_atomic_witness :
  (10 < length (snd (snd replacement)))%nat ∧
  ∀ m, survives (view (fst (snd replacement))) m → envelope <$> snapshot_of m = Some e2.
Proof.
  split; [apply Nat.ltb_lt; vm_compute; reflexivity|]. intros m Hm.
  destruct (snapshot_of (visible (view (stored : MemoryNvs)))) as [snap|] eqn:Es;
    [|vm_compute in Es; discriminate Es].
  destruct (replace_crash_atomic 1 e2 (stored : MemoryNvs) (fst replacement) (fst (snd replacement))
    (snd (snd replacement)) snap stored_committed stored_ok Es) as [_ Hdone].
  { unfold replacement. destruct (nvs_replace_envelope _ _ _) as [? [? ?]]. reflexivity. }
  rewrite (Hdone ltac:(vm_compute; reflexivity) m Hm). reflexivity.
Defined.

Lemma stored_typed : values_typed (visible (view (stored : MemoryNvs))).
Proof. split; intros x Hx; vm_compute in Hx; [injection Hx as <-; by eexists|discriminate Hx]. Qed.

(** Power lost after the twentieth call: the next start comes up with one of the
    two Vaults, here the new one; the update that ran to its end leaves the new
    one. *)
Lemma update_survives_power_loss_witness :
  (∃ snap, comes_up (N2:=MemoryNvs) (visible (view (interrupted : MemoryNvs))) snap ∧
     (envelope snap = e1 ∨ envelope snap = e2)) ∧
  (∃ snap, comes_up (N2:=MemoryNvs) (visible (view (fst (persistence_ committed_device)))) snap ∧ envelope snap = e2) ∧
  state_ restarted = State.kLocked ∧ envelope_ restarted = e2.
Proof.
  destruct (snapshot_of (visible (view (stored : MemoryNvs)))) as [snap|] eqn:Es;
    [|vm_compute in Es; discriminate Es].
  destruct (update_survives_power_loss (N2:=MemoryNvs) 1 e2 2000 device committed_device
    stored (fst (update_encrypted_vault 1 e2 2000 device)) snap) as [Hany Hdone].
  - reflexivity.
  - exact stored_committed.
  - exact stored_ok.
  - exact stored_typed.
  - exact Es.
  - vm_compute in Es. injection Es as <-. vm_compute. reflexivity.
  - exact (surjective_pairing _).
  - split; [|split; [|vm_compute; split; reflexivity]].
    + assert (Hin : interrupted ∈ snd (persistence_ committed_device)).
      { apply list_elem_of_lookup_2 with 19%nat. vm_compute. reflexivity. }
      destruct (Hany interrupted (visible (view (interrupted : MemoryNvs))) Hin
        (visible_survives (view (interrupted : MemoryNvs)))) as [Hup|Hup].
      * exists snap. split; [exact Hup|]. left. vm_compute in Es. injection Es as <-. reflexivity.
      * exists (replaced snap e2). split; [exact Hup|]. right. reflexivity.
    + exists (replaced snap e2). split; [|reflexivity].
      apply (Hdone ltac:(vm_compute; reflexivity)).
      exact (visible_survives (view (fst (persistence_ committed_device)))).
Defined.
End DeviceSample.
