(* ===== verification/Base64url.v ===== *)
(** * Canonical base64url

    [base64url_encode] and [base64url_decode] of [session_protocol_v2.cpp]
    (every binary field of the serial protocol goes through them), with the
    accumulator of the decoder kept at its 32 bits.  Decoding accepts exactly
    the outputs of the encoder. *)

From S2P Require Import Prelude Bytes.

Definition kAlphabet : bytes :=
  str "ABCDEFGHIJKLMNOPQRSTUVWXYZabcdefghijklmnopqrstuvwxyz0123456789-_".

(** The value of a character, or -1. *)
Definition decode_char (value : Z) : Z :=
  if (value >=? 65) && (value <=? 90) then value - 65
  else if (value >=? 97) && (value <=? 122) then value - 97 + 26
  else if (value >=? 48) && (value <=? 57) then value - 48 + 52
  else if value =? 45 then 62
  else if value =? 95 then 63
  else -1.

(** [kAlphabet[(bits >> shift) & 0x3f]] *)
Definition alphabet_at (bits shift : Z) : Z :=
  kAlphabet !!! Z.to_nat (Z.land (Z.shiftr bits shift) 0x3f).

Fixpoint base64url_encode (value : bytes) : bytes :=
  match value with
  | a :: b :: c :: rest =>
    let bits := Z.lor (Z.lor (Z.shiftl a 16) (Z.shiftl b 8)) c in
    alphabet_at bits 18 :: alphabet_at bits 12 :: alphabet_at bits 6 :: alphabet_at bits 0
      :: base64url_encode rest
  | [a; b] =>
    let bits := Z.lor (Z.shiftl a 16) (Z.shiftl b 8) in
    [alphabet_at bits 18; alphabet_at bits 12; alphabet_at bits 6]
  | [a] =>
    let bits := Z.shiftl a 16 in
    [alphabet_at bits 18; alphabet_at bits 12]
  | [] => []
  end.

(** The loop over the characters: [accumulator], [bits] and [*output]. *)
Fixpoint decode_loop (value : bytes) (accumulator bits : Z) (output : bytes)
    : option (Z * Z * bytes) :=
  match value with
  | [] => Some (accumulator, bits, output)
  | ch :: value =>
    let decoded := decode_char ch in
    if decoded <? 0 then None
    else
      let accumulator := Z.lor (Z.land (Z.shiftl accumulator 6) u32_max) decoded in
      let bits := bits + 6 in
      if bits >=? 8 then
        let bits := bits - 8 in
        decode_loop value accumulator bits (output ++ [byte_at accumulator bits])
      else decode_loop value accumulator bits output
  end.

Definition base64url_decode (value : bytes) : option bytes :=
  if Nat.eqb (length value mod 4) 1 then None
  else
    match decode_loop value 0 0 [] with
    | None => None
    | Some (accumulator, bits, output) =>
      if (bits >? 0) && negb (Z.land accumulator (Z.shiftl 1 bits - 1) =? 0) then None
      else if negb (bool_decide (base64url_encode output = value)) then None
      else Some output
    end.

(** ** Sextets *)

Definition sextet (z : Z) : Prop := 0 ≤ z < 64.
Definition letter (d : Z) : Z := kAlphabet !!! Z.to_nat d.

Lemma decode_letter d : sextet d → decode_char (letter d) = d.
Proof.
  intros Hd. unfold sextet in Hd.
  assert (H : forallb (λ d, decode_char (letter d) =? d) (seqZ 0 64) = true)
    by (vm_compute; reflexivity).
  rewrite forallb_forall in H. apply Z.eqb_eq, H.
  apply list_elem_of_In, elem_of_seqZ. lia.
Qed.

Lemma alphabet_at_letter bits shift :
  0 ≤ shift → alphabet_at bits shift = letter ((bits / 2 ^ shift) mod 64).
Proof.
  intros. unfold alphabet_at, letter. change 0x3f with (Z.ones 6).
  by rewrite Z.land_ones, Z.shiftr_div_pow2.
Qed.

Lemma bits3 a b c : is_byte a → is_byte b → is_byte c →
  Z.lor (Z.lor (Z.shiftl a 16) (Z.shiftl b 8)) c = a * 65536 + b * 256 + c.
Proof.
  unfold is_byte. intros.
  replace (Z.shiftl a 16) with (Z.shiftl (Z.shiftl a 8) 8) by by rewrite Z.shiftl_shiftl.
  rewrite <- Z.shiftl_lor, !lor_shiftl_add by lia. lia.
Qed.

Lemma letter_cons d d' l l' : d = d' → l = l' → letter d :: l = letter d' :: l'.
Proof. by intros -> ->. Qed.

(** The four letters of a group of three bytes, and of its truncations. *)
Lemma encode_group a b c rest : is_byte a → is_byte b → is_byte c →
  base64url_encode (a :: b :: c :: rest) =
  letter (a / 4) :: letter (a mod 4 * 16 + b / 16) :: letter (b mod 16 * 4 + c / 64)
    :: letter (c mod 64) :: base64url_encode rest.
Proof.
  intros Ha Hb Hc. cbn [base64url_encode]. rewrite bits3 by done.
  rewrite !alphabet_at_letter by lia. unfold is_byte in *.
  repeat (apply letter_cons; [lia|]). done.
Qed.

Lemma encode_two a b : is_byte a → is_byte b →
  base64url_encode [a; b] =
  [letter (a / 4); letter (a mod 4 * 16 + b / 16); letter (b mod 16 * 4)].
Proof.
  intros Ha Hb. cbn [base64url_encode].
  rewrite <- (Z.lor_0_r (Z.lor _ _)), bits3 by (done || unfold is_byte; lia).
  rewrite !alphabet_at_letter by lia. unfold is_byte in *.
  repeat (apply letter_cons; [lia|]). done.
Qed.

Lemma encode_one a : is_byte a →
  base64url_encode [a] = [letter (a / 4); letter (a mod 4 * 16)].
Proof.
  intros Ha. cbn [base64url_encode]. rewrite Z.shiftl_mul_pow2 by done.
  rewrite !alphabet_at_letter by lia. unfold is_byte in *.
  repeat (apply letter_cons; [lia|]). done.
Qed.

(** ** The decoder's loop *)

Lemma push_sextet acc d : sextet d →
  Z.lor (Z.land (Z.shiftl acc 6) u32_max) d = (acc mod 2 ^ 26) * 64 + d.
Proof.
  intros Hd. change u32_max with (Z.ones 32). rewrite Z.land_ones, Z.shiftl_mul_pow2 by done.
  replace (acc * 2 ^ 6 mod 2 ^ 32) with (Z.shiftl (acc mod 2 ^ 26) 6);
    [by apply lor_shiftl_add|].
  rewrite Z.shiftl_mul_pow2 by done. lia.
Qed.

(** One character, in the two ways a step can go. *)
Lemma step_keep d value acc bits output : sextet d → bits + 6 < 8 →
  decode_loop (letter d :: value) acc bits output =
  decode_loop value ((acc mod 2 ^ 26) * 64 + d) (bits + 6) output.
Proof.
  intros Hd Hb. cbn [decode_loop]. rewrite decode_letter, push_sextet by done.
  unfold sextet in Hd. destruct (Z.ltb_spec d 0); [lia|].
  rewrite Z.geb_leb. by destruct (Z.leb_spec 8 (bits + 6)); [lia|].
Qed.

Lemma step_emit d value acc bits output : sextet d → 8 ≤ bits + 6 →
  decode_loop (letter d :: value) acc bits output =
  decode_loop value ((acc mod 2 ^ 26) * 64 + d) (bits - 2)
    (output ++ [(((acc mod 2 ^ 26) * 64 + d) / 2 ^ (bits - 2)) mod 256]).
Proof.
  intros Hd Hb. cbn [decode_loop]. rewrite decode_letter, push_sextet by done.
  unfold sextet in Hd. destruct (Z.ltb_spec d 0); [lia|].
  rewrite Z.geb_leb. destruct (Z.leb_spec 8 (bits + 6)); [|lia].
  rewrite byte_at_div by lia. by replace (bits + 6 - 8) with (bits - 2) by lia.
Qed.

Lemma decode_group a b c value acc output : is_byte a → is_byte b → is_byte c →
  ∃ acc', decode_loop (letter (a / 4) :: letter (a mod 4 * 16 + b / 16)
            :: letter (b mod 16 * 4 + c / 64) :: letter (c mod 64) :: value) acc 0 output =
          decode_loop value acc' 0 (output ++ [a; b; c]).
Proof.
  unfold is_byte. intros Ha Hb Hc. eexists.
  rewrite step_keep by (unfold sextet; lia).
  rewrite step_emit by (unfold sextet; lia).
  rewrite step_emit by (unfold sextet; lia).
  rewrite step_emit by (unfold sextet; lia).
  cbn. f_equal. rewrite <- !app_assoc. cbn. repeat f_equal; lia.
Qed.

Lemma decode_loop_encode bs acc output : bytes_ok bs →
  ∃ acc' bits, decode_loop (base64url_encode bs) acc 0 output = Some (acc', bits, output ++ bs) ∧
  0 ≤ bits ∧ acc' mod 2 ^ bits = 0.
Proof.
  intros Hok. remember (length bs) as n eqn:Hn. revert bs acc output Hok Hn.
  induction (lt_wf n) as [n _ IH]. intros bs acc output Hok ->.
  destruct bs as [|a [|b [|c bs]]]; repeat (apply Forall_cons in Hok as [? Hok]).
  - exists acc, 0. rewrite app_nil_r. split_and!; [done|lia|]. change (2 ^ 0) with 1. lia.
  - rewrite encode_one by done. unfold is_byte in *.
    rewrite step_keep by (unfold sextet; lia). rewrite step_emit by (unfold sextet; lia).
    eexists _, _. split_and!; [cbn; repeat f_equal; lia|cbn; lia|]. cbn. lia.
  - rewrite encode_two by done. unfold is_byte in *.
    rewrite step_keep by (unfold sextet; lia). do 2 rewrite step_emit by (unfold sextet; lia).
    eexists _, _. rewrite <- app_assoc.
    split_and!; [cbn; repeat f_equal; lia|cbn; lia|]. cbn. lia.
  - rewrite encode_group by done.
    destruct (decode_group a b c (base64url_encode bs) acc output) as [acc1 ->]; [done..|].
    destruct (IH (length bs) ltac:(cbn; lia) bs acc1 (output ++ [a; b; c]) Hok eq_refl)
      as (acc2 & bits & -> & Hb). exists acc2, bits. split; [|done].
    by rewrite <- app_assoc.
Qed.

Lemma decode_loop_ok value acc bits output x :
  bytes_ok output → decode_loop value acc bits output = Some x → bytes_ok (snd x).
Proof.
  revert acc bits output. induction value as [|ch value IH]; intros acc bits output Hok; cbn.
  - by intros [= <-].
  - destruct (_ <? 0); [done|]. case_match; [|by apply IH].
    apply IH, Forall_app. split; [done|]. constructor; [apply byte_at_is_byte|done].
Qed.

Lemma encode_length bs : (length (base64url_encode bs) mod 4)%nat ≠ 1%nat.
Proof.
  remember (length bs) as n eqn:Hn. revert bs Hn.
  induction (lt_wf n) as [n _ IH]. intros bs ->.
  destruct bs as [|a [|b [|c bs]]]; [done..|]. cbn [base64url_encode length].
  replace (S (S (S (S (length (base64url_encode bs))))))
    with (length (base64url_encode bs) + 1 * 4)%nat by lia.
  rewrite Nat.Div0.mod_add. eapply IH; [|done]. cbn. lia.
Qed.

(** C36: A string decodes to [bs] exactly when it is the encoding of the bytes
    [bs]: padding, characters outside the alphabet, impossible lengths and
    non-zero trailing bits are refused, and every byte string is the decoding
    of one string only. *)
Theorem base64url_exact value bs :
  base64url_decode value = Some bs ↔ bytes_ok bs ∧ value = base64url_encode bs.
Proof.
  unfold base64url_decode. split.
  - destruct (Nat.eqb _ _); [done|].
    destruct (decode_loop value 0 0 []) as [[[acc bits] output]|] eqn:E; [|done].
    apply decode_loop_ok in E; [|done].
    destruct (_ && _); [done|]. case_bool_decide as Hv; [|done]. intros [= <-]. by split.
  - intros [Hok ->]. destruct (Nat.eqb_spec (length (base64url_encode bs) mod 4) 1) as [He|_];
      [by apply encode_length in He|].
    destruct (decode_loop_encode bs 0 [] Hok) as (acc & bits & -> & Hb & Hz). cbn.
    rewrite Z.shiftl_mul_pow2, Z.mul_1_l, Z.sub_1_r, <- Z.ones_equiv, Z.land_ones, Hz by done.
    rewrite andb_false_r. by rewrite bool_decide_true.
Qed.
