(* ===== verification/Psa.v ===== *)
(** * The cryptographic services

    PSA crypto, mbed TLS and the hardware generator as the session component
    calls them: operations on a key store [K].  [PsaLaws] states what is relied
    on: which calls create and destroy keys, and what a successful verification
    or key agreement means in terms of the keys stored.  AES-GCM is the class
    [MbedtlsGcm] of [VaultCrypto]. *)

From S2P Require Import Prelude Bytes.

(** A volatile key: an imported public key or a key pair, known by its public
    point. *)
Inductive psa_key := PublicKey (point : bytes) | KeyPair (point : bytes).

(** [psa_import_key] and [psa_generate_key] return the key identifier on
    [PSA_SUCCESS]; the other calls return whether they succeeded and what they
    wrote. *)
Class Psa (K : Type) := {
  esp_fill_random : nat → K → bytes * K;
  psa_crypto_init : K → bool * K;
  psa_import_key : bytes → K → option Z * K;
  psa_generate_key : K → option Z * K;
  psa_destroy_key : Z → K → bool * K;
  psa_export_public_key : Z → K → (bool * bytes) * K;
  psa_hash_compute : bytes → K → (bool * bytes) * K;
  psa_verify_hash : Z → bytes → bytes → K → bool * K;
  psa_raw_key_agreement : Z → bytes → K → (bool * bytes) * K;
  mbedtls_hkdf : ∀ (salt secret info : bytes), Z * bytes;
}.

Class PsaLaws (K : Type) `{Psa K} := {
  psa_keys : K → gmap Z psa_key;
  (** The mathematics behind the calls. *)
  on_curve : bytes → Prop;
  sha256 : bytes → bytes;
  signs : bytes → bytes → bytes → Prop;
  ecdh : bytes → bytes → bytes;
  ecdh_sym a b : ecdh a b = ecdh b a;
  random_law n k bs k' : esp_fill_random n k = (bs, k') →
    psa_keys k' = psa_keys k ∧ length bs = n;
  init_law k b k' : psa_crypto_init k = (b, k') → psa_keys k' = psa_keys k;
  import_law point k r k' : psa_import_key point k = (r, k') →
    match r with
    | None => psa_keys k' = psa_keys k
    | Some id => psa_keys k !! id = None ∧ id ≠ 0 ∧ on_curve point ∧
                 psa_keys k' = <[id := PublicKey point]> (psa_keys k)
    end;
  generate_law k r k' : psa_generate_key k = (r, k') →
    match r with
    | None => psa_keys k' = psa_keys k
    | Some id => psa_keys k !! id = None ∧ id ≠ 0 ∧
                 ∃ point, psa_keys k' = <[id := KeyPair point]> (psa_keys k)
    end;
  destroy_law id k b k' : psa_destroy_key id k = (b, k') → psa_keys k' = delete id (psa_keys k);
  export_law id k ok point k' : psa_export_public_key id k = ((ok, point), k') →
    psa_keys k' = psa_keys k ∧ (ok = true → psa_keys k !! id = Some (KeyPair point));
  hash_law message k ok digest k' : psa_hash_compute message k = ((ok, digest), k') →
    psa_keys k' = psa_keys k ∧ (ok = true → digest = sha256 message);
  verify_law id digest sig k ok k' : psa_verify_hash id digest sig k = (ok, k') →
    psa_keys k' = psa_keys k ∧
    (ok = true → ∃ point, psa_keys k !! id = Some (PublicKey point) ∧ signs point digest sig);
  agreement_law id peer k ok secret k' : psa_raw_key_agreement id peer k = ((ok, secret), k') →
    psa_keys k' = psa_keys k ∧
    (ok = true → ∃ point, psa_keys k !! id = Some (KeyPair point) ∧ secret = ecdh point peer);
}.

(** Services that do not run out of resources: they initialise, and the import of
    a point of the curve succeeds. *)
Class PsaReliable (K : Type) `{PsaLaws K} := {
  reliable_init k : fst (psa_crypto_init k) = true;
  reliable_import point k : on_curve point → is_Some (fst (psa_import_key point k));
}.

(** ** A key store in memory

    The keys, the next identifier and a counter for the generator; every call
    succeeds when its arguments are sensible.  Enough to evaluate the
    definitions on concrete inputs. *)

Record ToyKeys := mkToy { toy_keys : gmap Z psa_key; toy_seed : Z }.
#[export] Instance eta_toy : Eta ToyKeys := λ k, mkToy (toy_keys k) (toy_seed k).

Definition fresh_keys : ToyKeys := mkToy ∅ 5.

Definition toy_point (seed : Z) : bytes := 0x04 :: seqZ (seed mod 64) 64.
Definition toy_digest (message : bytes) : bytes :=
  be_bytes 32 (foldl (λ acc b, acc * 257 + b + 1) 1 message).
Definition toy_signature (point digest : bytes) : bytes :=
  toy_digest (point ++ digest) ++ digest.
Definition toy_ecdh (a b : bytes) : bytes :=
  be_bytes 32 (be_value (toy_digest a) + be_value (toy_digest b)).
Definition toy_on_curve (point : bytes) : bool := Nat.eqb (length point) 65.

Definition toy_id (k : ToyKeys) : Z := 1 + foldr Z.max 0 (map_to_list (toy_keys k)).*1.
Definition toy_add (key : psa_key) (k : ToyKeys) : option Z * ToyKeys :=
  (Some (toy_id k), k <| toy_keys := <[toy_id k := key]> (toy_keys k) |>
                      <| toy_seed := toy_seed k + 1 |>).

#[export] Instance toy_psa : Psa ToyKeys := {|
  esp_fill_random n k := (seqZ (toy_seed k mod 100 + 1) (Z.of_nat n), k <| toy_seed := toy_seed k + 7 |>);
  psa_crypto_init k := (true, k);
  psa_import_key point k :=
    if toy_on_curve point then toy_add (PublicKey point) k else (None, k);
  psa_generate_key k := toy_add (KeyPair (toy_point (toy_seed k))) k;
  psa_destroy_key id k := (true, k <| toy_keys := delete id (toy_keys k) |>);
  psa_export_public_key id k :=
    match toy_keys k !! id with
    | Some (KeyPair point) => ((true, point), k)
    | _ => ((false, []), k)
    end;
  psa_hash_compute message k := ((true, toy_digest message), k);
  psa_verify_hash id digest sig k :=
    match toy_keys k !! id with
    | Some (PublicKey point) => (bool_decide (sig = toy_signature point digest), k)
    | _ => (false, k)
    end;
  psa_raw_key_agreement id peer k :=
    match toy_keys k !! id with
    | Some (KeyPair point) => ((true, toy_ecdh point peer), k)
    | _ => ((false, []), k)
    end;
  mbedtls_hkdf salt secret info := (0, toy_digest (salt ++ secret ++ info));
|}.

Lemma toy_ecdh_sym a b : toy_ecdh a b = toy_ecdh b a.
Proof. unfold toy_ecdh. f_equal. lia. Qed.

Lemma toy_id_positive k : 0 < toy_id k.
Proof. unfold toy_id. induction (map_to_list (toy_keys k)).*1; simpl; lia. Qed.

Lemma toy_id_fresh k : toy_keys k !! toy_id k = None.
Proof.
  destruct (toy_keys k !! toy_id k) as [x|] eqn:E; [|done].
  assert (Hin : toy_id k ∈ (map_to_list (toy_keys k)).*1).
  { apply list_elem_of_fmap. exists (toy_id k, x). split; [done|]. by apply elem_of_map_to_list. }
  assert (H : ∀ l i, i ∈ l → i ≤ foldr Z.max 0 l).
  { induction l as [|j l IH]; intros i Hi; [by apply not_elem_of_nil in Hi|].
    apply elem_of_cons in Hi as [->|Hi]; simpl; [lia|]. specialize (IH i Hi). lia. }
  apply H in Hin. unfold toy_id in Hin. lia.
Qed.

#[local] Opaque toy_digest toy_signature toy_ecdh toy_on_curve.

#[export] Instance toy_laws : PsaLaws ToyKeys.
Proof.
  refine {| psa_keys := toy_keys; on_curve := λ p, toy_on_curve p = true; sha256 := toy_digest;
    signs := λ point digest sig, sig = toy_signature point digest; ecdh := toy_ecdh |}.
  - apply toy_ecdh_sym.
  - intros n k bs k' [= <- <-]. split; [done|]. rewrite length_seqZ. lia.
  - by intros k b k' [= <- <-].
  - intros point k r k' E. cbn in E. destruct (toy_on_curve point) eqn:Ep; injection E as <- <-; [|done].
    split_and!; [apply toy_id_fresh|pose proof (toy_id_positive k); lia|done|done].
  - intros k r k' [= <- <-].
    split_and!; [apply toy_id_fresh|pose proof (toy_id_positive k); lia|by eexists].
  - by intros id k b k' [= <- <-].
  - intros id k ok point k' E. cbn in E.
    destruct (toy_keys k !! id) as [[]|]; injection E as <- <- <-; by split.
  - by intros message k ok digest k' [= <- <- <-].
  - intros id digest sig k ok k' E. cbn in E.
    destruct (toy_keys k !! id) as [[]|]; injection E as <- <-; (split; [done|]); intros Hs; try done.
    apply bool_decide_eq_true in Hs. eauto.
  - intros id peer k ok secret k' E. cbn in E.
    destruct (toy_keys k !! id) as [[]|]; injection E as <- <- <-; (split; [done|]); intros Hs; try done.
    eauto.
Defined.

#[export] Instance toy_reliable : PsaReliable ToyKeys.
Proof. constructor; [done|]. intros point k Hp. cbn in Hp |- *. rewrite Hp. by eexists. Qed.
