(* ===== verification/DeviceSession.v ===== *)
(** * The device side of a key delivery

    [session_crypto.cpp] and [p256_public_key.cpp] (the firmware branches):
    the ephemeral key pair of one attempt, its identifier and challenge, the
    verification of the browser's signature and the opening of the delivered
    Vault Master Key.  The state of a [DeviceSession] is its [Impl] beside the
    key store. *)

From S2P Require Import Prelude Bytes VaultCrypto Psa.

Definition kAttemptIdBytes : nat := 16.
Definition kDeviceChallengeBytes : nat := 32.
Definition kP256PublicKeyBytes : nat := 65.
Definition kSessionKeyBytes : nat := 32.
Definition kSessionNonceBytes : nat := 12.
Definition kSessionTagBytes : nat := 16.
Definition kBrkSignatureBytes : nat := 64.
Definition kAttemptTtlMs : Z := 30000.
Definition kMaxHkdfContextBytes : nat := 4096.
Definition kMaxTranscriptBytes : nat := 16384.

Record AttemptDescriptor := mkDescriptor {
  attempt_id : bytes;
  challenge : bytes;
  device_public_key : bytes;
  expires_at_ms : Z;
}.
#[export] Instance eta_descriptor : Eta AttemptDescriptor := λ d,
  mkDescriptor (attempt_id d) (challenge d) (device_public_key d) (expires_at_ms d).

Definition empty_descriptor : AttemptDescriptor :=
  mkDescriptor (zeros kAttemptIdBytes) (zeros kDeviceChallengeBytes) (zeros kP256PublicKeyBytes) 0.

(** [DeviceSession::Impl]: the fields of a descriptor, and the key. *)
Record Impl := mkImpl { impl_descriptor : AttemptDescriptor; impl_active : bool; key_id : Z }.
#[export] Instance eta_impl : Eta Impl := λ i,
  mkImpl (impl_descriptor i) (impl_active i) (key_id i).

Definition new_impl : Impl := mkImpl empty_descriptor false 0.

Definition bounded_nonempty (value : bytes) (maximum : nat) : bool :=
  negb (Nat.eqb (length value) 0) && Nat.leb (length value) maximum.

Definition deadline_from (now_ms : Z) : Z := deadline kAttemptTtlMs now_ms.

(** The first byte of a key, which the callers read after its size was checked. *)
Definition uncompressed (key : bytes) : bool := key !!! 0%nat =? 0x04.

Section Session.
Context `{MbedtlsGcm} {K : Type} `{Psa K}.

Definition fill_random (n : nat) : K → (bool * bytes) * K := λ k,
  let '(bs, k) := esp_fill_random n k in ((true, bs), k).

Definition valid_p256_public_key (public_key : bytes) : K → bool * K := fn (
  leave_if (negb (Nat.eqb (length public_key) kP256PublicKeyBytes)
            || negb (uncompressed public_key)) false;;
  ok ← call psa_crypto_init;
  leave_if (negb ok) false;;
  imported ← call (psa_import_key public_key);
  match imported with
  | None => leave false
  | Some key => call (psa_destroy_key key);; mret true
  end).

Definition verify_brk (public_key transcript signature : bytes) : K → bool * K := fn (
  ok ← call psa_crypto_init;
  leave_if (negb ok) false;;
  imported ← call (psa_import_key public_key);
  match imported with
  | None => leave false
  | Some key =>
    x ← call (psa_hash_compute transcript);
    let '(hash_ok, digest) := x in
    verified ← (if hash_ok && Nat.eqb (length digest) 32
                then call (psa_verify_hash key digest signature) else mret false);
    call (psa_destroy_key key);;
    mret verified
  end).

Definition derive_hkdf (shared_secret salt info : bytes) : option bytes :=
  let '(code, session_key) := mbedtls_hkdf salt shared_secret info in
  if code =? 0 then Some session_key else None.

Definition decrypt_vmk_gcm (session_key nonce ciphertext tag aad : bytes) : option bytes :=
  if mbedtls_gcm_setkey session_key =? 0 then
    let '(code, vmk) := mbedtls_gcm_auth_decrypt session_key nonce aad tag ciphertext in
    if code =? 0 then Some vmk else None
  else None.

(** ** The session *)

Definition session_op (A : Type) : Type := Impl * K → A * (Impl * K).
Definition on_keys {A} (f : K → A * K) : session_op A := λ s,
  let '(a, k) := f (snd s) in (a, (fst s, k)).
Definition modify_impl {R} (f : Impl → Impl) : ctl (Impl * K) R unit :=
  modify (λ s, (f (fst s), snd s)).

Definition reset : session_op unit := fn (
  s ← get_state;
  (if negb (key_id (fst s) =? 0)
   then call (on_keys (psa_destroy_key (key_id (fst s))));;
        modify_impl (λ i, i <| key_id := 0 |>)
   else mret tt);;
  modify_impl (λ i, i <| impl_descriptor := empty_descriptor |>);;
  modify_impl (λ i, i <| impl_active := false |>);;
  mret tt).

(** [false] is the value every failing function returns after a reset. *)
Definition reset_and_leave {R A} (r : R) : ctl (Impl * K) R A := call reset;; leave r.

Definition session_begin (now_ms : Z) : session_op (option AttemptDescriptor) := fn (
  call reset;;
  x ← call (on_keys (fill_random kAttemptIdBytes));
  let '(id_ok, id) := x in
  modify_impl (λ i, i <| impl_descriptor := impl_descriptor i <| attempt_id := id |> |>);;
  if negb id_ok then reset_and_leave None
  else
  x ← call (on_keys (fill_random kDeviceChallengeBytes));
  let '(challenge_ok, random) := x in
  modify_impl (λ i, i <| impl_descriptor := impl_descriptor i <| challenge := random |> |>);;
  if negb challenge_ok then reset_and_leave None
  else
  ok ← call (on_keys psa_crypto_init);
  if negb ok then reset_and_leave None
  else
  generated ← call (on_keys psa_generate_key);
  match generated with
  | None => reset_and_leave None
  | Some key =>
    modify_impl (λ i, i <| key_id := key |>);;
    x ← call (on_keys (psa_export_public_key key));
    let '(exported, public) := x in
    modify_impl (λ i, i <| impl_descriptor :=
      impl_descriptor i <| device_public_key := resize kP256PublicKeyBytes 0 public |> |>);;
    if negb exported || negb (Nat.eqb (length public) kP256PublicKeyBytes)
       || negb (uncompressed public)
    then reset_and_leave None
    else
      modify_impl (λ i, i <| impl_descriptor :=
        impl_descriptor i <| expires_at_ms := deadline_from now_ms |> |>);;
      modify_impl (λ i, i <| impl_active := true |>);;
      s ← get_state;
      mret (Some (impl_descriptor (fst s)))
  end).

Definition session_active (now_ms : Z) (s : Impl * K) : bool :=
  impl_active (fst s) && (now_ms <? expires_at_ms (impl_descriptor (fst s))).

Definition session_expire (now_ms : Z) : session_op bool := fn (
  s ← get_state;
  leave_if (negb (impl_active (fst s)) || (now_ms <? expires_at_ms (impl_descriptor (fst s)))) false;;
  call reset;;
  mret true).

Definition session_cancel : session_op unit := reset.

Definition matches_attempt (id : bytes) (now_ms : Z) : session_op bool := fn (
  s ← get_state;
  if negb (session_active now_ms s) then reset_and_leave false
  else if negb (constant_time_equal id (attempt_id (impl_descriptor (fst s))))
  then reset_and_leave false
  else mret true).

Definition verify_brk_signature (brk_public_key transcript signature : bytes) (now_ms : Z)
    : session_op bool := fn (
  s ← get_state;
  if negb (session_active now_ms s)
     || negb (Nat.eqb (length brk_public_key) kP256PublicKeyBytes)
     || negb (uncompressed brk_public_key)
     || negb (bounded_nonempty transcript kMaxTranscriptBytes)
     || negb (Nat.eqb (length signature) kBrkSignatureBytes)
  then reset_and_leave false
  else
    verified ← call (on_keys (verify_brk brk_public_key transcript signature));
    if negb verified then reset_and_leave false
    else mret true).

(** The key written to [vmk] when the function returns true. *)
Definition open_vmk (web_public_key hkdf_salt hkdf_info nonce ciphertext tag transcript_aad : bytes)
    (now_ms : Z) : session_op (option bytes) := fn (
  s ← get_state;
  if negb (session_active now_ms s)
     || negb (Nat.eqb (length web_public_key) kP256PublicKeyBytes)
     || negb (uncompressed web_public_key)
     || negb (bounded_nonempty hkdf_salt kMaxHkdfContextBytes)
     || negb (bounded_nonempty hkdf_info kMaxHkdfContextBytes)
     || negb (Nat.eqb (length nonce) kSessionNonceBytes)
     || negb (Nat.eqb (length ciphertext) kSessionKeyBytes)
     || negb (Nat.eqb (length tag) kSessionTagBytes)
     || negb (bounded_nonempty transcript_aad kMaxTranscriptBytes)
  then reset_and_leave None
  else
    x ← call (on_keys (psa_raw_key_agreement (key_id (fst s)) web_public_key));
    let '(agreed, shared_secret) := x in
    let shared_ok := agreed && Nat.eqb (length shared_secret) kSessionKeyBytes in
    let derived := if shared_ok then derive_hkdf shared_secret hkdf_salt hkdf_info else None in
    let opened := session_key ← derived;
                  decrypt_vmk_gcm session_key nonce ciphertext tag transcript_aad in
    call reset;;
    mret opened).
End Session.

(** ** What the helpers do *)

#[export] Hint Rewrite negb_true_iff negb_false_iff orb_true_iff orb_false_iff
  andb_true_iff andb_false_iff Nat.eqb_eq Nat.eqb_neq Z.eqb_eq Z.eqb_neq Nat.leb_le
  Z.ltb_lt Z.ltb_ge : session_bools.

Ltac session_bools := autorewrite with session_bools in *.

Lemma keys_inserted (keys : gmap Z psa_key) id key :
  keys !! id = None → delete id (<[id := key]> keys) = keys.
Proof. apply delete_insert_id. Qed.

Section SessionSpecs.
Context `{MbedtlsGcm} {K : Type} `{PsaLaws K}.
Implicit Types (k : K) (s : Impl * K) (base : gmap Z psa_key).

(** The laws, in the form in which the proofs use them. *)
Lemma destroy_new k1 k2 k3 id key b :
  psa_keys k2 = <[id := key]> (psa_keys k1) → psa_keys k1 !! id = None →
  psa_destroy_key id k2 = (b, k3) → psa_keys k3 = psa_keys k1.
Proof. intros E Hn Hd. apply destroy_law in Hd as ->. rewrite E. by apply keys_inserted. Qed.

Lemma valid_p256_spec key k b k' :
  valid_p256_public_key key k = (b, k') →
  psa_keys k' = psa_keys k ∧
  (b = true → length key = kP256PublicKeyBytes ∧ uncompressed key = true ∧ on_curve key).
Proof.
  intros E. unfold valid_p256_public_key in E. exec E; try done; session_bools.
  all: try (apply init_law in Ef as Hi); try (apply import_law in Ef0 as Hm); try by split; congruence.
  destruct Hm as (Hn & _ & Hc & Hk). split.
  - rewrite <- Hi. eapply destroy_new; try done.
  - intros _. tauto.
Qed.

(** The keys a device takes, and services that take them. *)
Definition device_takes (key : bytes) : Prop :=
  length key = kP256PublicKeyBytes ∧ uncompressed key = true ∧ on_curve key.
Lemma valid_p256_accepts `{!PsaReliable K} key k :
  device_takes key → fst (valid_p256_public_key key k) = true.
Proof.
  intros (Hl & Hu & Hc). destruct (valid_p256_public_key key k) as [b k'] eqn:E.
  unfold valid_p256_public_key in E. exec E; session_bools; try done.
  - by destruct Ec as [?|?]; congruence.
  - pose proof (reliable_init k) as Hi. rewrite Ef in Hi. cbn in Hi. congruence.
  - pose proof (reliable_import key s Hc) as [? Hi]. by rewrite Ef0 in Hi.
Qed.

Lemma verify_brk_spec key transcript sig k b k' :
  verify_brk key transcript sig k = (b, k') →
  psa_keys k' = psa_keys k ∧ (b = true → on_curve key ∧ signs key (sha256 transcript) sig).
Proof.
  intros E. unfold verify_brk in E. exec E; try done; session_bools.
  all: try (apply init_law in Ef as Hi); try (apply import_law in Ef0 as Hm); try by split; congruence.
  all: destruct Hm as (Hn & _ & Hc & Hk).
  all: match goal with Eh : psa_hash_compute _ _ = _ |- _ =>
         destruct (hash_law _ _ _ _ _ Eh) as [Hkh Hh] end.
  1: match goal with Ev : psa_verify_hash _ _ _ _ = _ |- _ =>
         destruct (verify_law _ _ _ _ _ _ Ev) as [Hkv Hv] end.
  all: match goal with Ed : psa_destroy_key _ _ = _ |- _ =>
         eapply destroy_new in Ed; [|etrans; [|exact Hk]; congruence|done] end.
  all: split; [congruence|]; try done.
  intros Ht. destruct (Hv Ht) as (point & Hp & Hsig). split; [done|].
  destruct Eb as [-> Hl]. rewrite Hh in Hsig by done.
  rewrite Hkh, Hk, lookup_insert_eq in Hp. by injection Hp as <-.
Qed.

(** ** The two states of a session

    Relative to the keys [base] that belong to others: without an attempt the
    session owns no key and every field is wiped; with one it owns exactly the
    ephemeral key whose public point it announced. *)
Definition idle base s : Prop := fst s = new_impl ∧ psa_keys (snd s) = base.

Definition owns base s : Prop :=
  if key_id (fst s) =? 0 then psa_keys (snd s) = base
  else base !! key_id (fst s) = None ∧
       ∃ point, psa_keys (snd s) = <[key_id (fst s) := KeyPair point]> base.

Definition descriptor_wf (d : AttemptDescriptor) : Prop :=
  length (attempt_id d) = kAttemptIdBytes ∧ length (challenge d) = kDeviceChallengeBytes ∧
  length (device_public_key d) = kP256PublicKeyBytes.

Definition live base (d : AttemptDescriptor) s : Prop :=
  impl_descriptor (fst s) = d ∧ impl_active (fst s) = true ∧ key_id (fst s) ≠ 0 ∧
  base !! key_id (fst s) = None ∧ descriptor_wf d ∧
  psa_keys (snd s) = <[key_id (fst s) := KeyPair (device_public_key d)]> base.

Lemma idle_owns base s : idle base s → owns base s.
Proof. destruct s. by intros [? ?]; simplify_eq/=. Qed.
Lemma live_owns base d s : live base d s → owns base s.
Proof.
  intros (_ & _ & Hk & Hb & _ & Hm). unfold owns. destruct (Z.eqb_spec (key_id (fst s)) 0); [done|].
  eauto.
Qed.

Lemma on_keys_inv {A} (f : K → A * K) s a s' :
  on_keys f s = (a, s') → ∃ k', f (snd s) = (a, k') ∧ s' = (fst s, k').
Proof. unfold on_keys. destruct (f (snd s)) as [b k']. intros [= <- <-]. eauto. Qed.

Lemma reset_spec base s x s' : owns base s → reset s = (x, s') → idle base s'.
Proof.
  intros Ho E. unfold owns in Ho. unfold reset, modify_impl in E. exec E; session_bools.
  - apply on_keys_inv in Ef as (k' & Hd & ->). apply destroy_law in Hd.
    destruct (Z.eqb_spec (key_id (fst s)) 0); [done|]. destruct Ho as (Hn & point & Hk).
    split; [done|]. cbn in *. rewrite Hd, Hk. by apply keys_inserted.
  - apply Z.eqb_eq in Eb as Hz. rewrite Eb in Ho. split; [|done]. cbn. unfold new_impl. by rewrite Eb.
Qed.

Lemma reset_leave_spec {R} base (r0 r : R) s s' :
  owns base s → fn (reset_and_leave r0) s = (r, s') → r = r0 ∧ idle base s'.
Proof.
  intros Ho E. unfold reset_and_leave in E. exec E. split; [done|]. by eapply reset_spec.
Qed.

Lemma fill_random_spec n k ok bs k' :
  fill_random n k = ((ok, bs), k') → ok = true ∧ psa_keys k' = psa_keys k ∧ length bs = n.
Proof.
  unfold fill_random. destruct (esp_fill_random n k) as [bs' k1] eqn:E. intros [= <- <- <-].
  split; [done|]. by apply random_law.
Qed.

Lemma idle_moved base i k : key_id i = 0 → psa_keys k = base → owns base (i, k).
Proof. intros Hi Hk. unfold owns. cbn. by rewrite Hi. Qed.
Lemma owned_moved base i k k0 id point :
  key_id i = id → id ≠ 0 → psa_keys k0 = base → psa_keys k0 !! id = None →
  psa_keys k = <[id := KeyPair point]> (psa_keys k0) → owns base (i, k).
Proof.
  intros Hi Hz <- Hn Hk. unfold owns. cbn. destruct (Z.eqb_spec (key_id i) 0); [congruence|].
  rewrite Hi. eauto.
Qed.

(** Replace every call on the key store by what its law says. *)
Ltac open_keys :=
  repeat match goal with
  | p : (bool * bytes)%type |- _ => destruct p
  | H : on_keys _ _ = _ |- _ => apply on_keys_inv in H as (? & H & ->)
  | H : fill_random _ _ = _ |- _ => apply fill_random_spec in H as (? & ? & ?)
  | H : psa_crypto_init _ = _ |- _ => apply init_law in H
  | H : psa_generate_key _ = _ |- _ => apply generate_law in H
  | H : psa_export_public_key _ _ = _ |- _ => apply export_law in H as [? ?]
  end; simplify_eq/=.

Lemma begin_spec base now_ms s r s' :
  owns base s → session_begin now_ms s = (r, s') →
  match r with
  | None => idle base s'
  | Some d => live base d s' ∧ expires_at_ms d = deadline_from now_ms
  end.
Proof.
  intros Ho E. unfold session_begin, modify_impl in E. exec E.
  all: match goal with Hr : reset _ = _ |- _ => apply (reset_spec base _ _ _ Ho) in Hr as [Hi Hk] end.
  all: destruct s0 as [i0 k0]; cbn in Hi, Hk; subst i0 base.
  all: open_keys.
  all: try (eapply (reset_leave_spec (psa_keys k0)) in E as [-> ?]; [done|];
            by apply idle_moved; cbn; congruence).
  all: destruct Ef3 as (Hn & Hz & point & Hg).
  all: assert (Hg' : psa_keys x = <[z := KeyPair point]> (psa_keys k0)) by congruence.
  all: assert (Hn' : psa_keys k0 !! z = None) by congruence.
  - eapply (reset_leave_spec (psa_keys k0)) in E as [-> ?]; [done|].
    by apply (owned_moved _ _ _ k0 z point).
  - session_bools. destruct Eb2 as [[-> Hl] Hu]. split; [|done].
    assert (Hp : psa_keys x !! z = Some (KeyPair l1)) by (rewrite H8; auto).
    rewrite Hg', lookup_insert_eq in Hp. injection Hp as ->.
    rewrite resize_all_alt by done. by split_and!.
Qed.

Lemma matches_spec base d id now_ms s b s' :
  live base d s → matches_attempt id now_ms s = (b, s') →
  if b then s' = s ∧ id = attempt_id d ∧ now_ms < expires_at_ms d else idle base s'.
Proof.
  intros Hl E. pose proof (live_owns _ _ _ Hl) as Ho. unfold matches_attempt in E.
  destruct Hl as (<- & Ha & _). exec E.
  1-2: by apply (reset_leave_spec base) in E as [-> ?].
  unfold session_active in *. session_bools.
  apply constant_time_equal_spec in Eb0. by destruct Eb.
Qed.

Lemma verify_signature_spec base d key transcript sig now_ms s b s' :
  live base d s → verify_brk_signature key transcript sig now_ms s = (b, s') →
  if b then live base d s' ∧ on_curve key ∧ signs key (sha256 transcript) sig else idle base s'.
Proof.
  intros Hl E. pose proof (live_owns _ _ _ Hl) as Ho. unfold verify_brk_signature in E. exec E.
  { by apply (reset_leave_spec base) in E as [-> ?]. }
  all: apply on_keys_inv in Ef as (k' & Hv & ->); apply verify_brk_spec in Hv as [Hk Hs].
  - apply (reset_leave_spec base) in E as [-> ?]; [done|]. unfold owns in *. cbn. by rewrite Hk.
  - apply negb_false_iff in Eb0 as ->. split; [|by apply Hs]. unfold live in *. cbn. by rewrite Hk.
Qed.

(** What the device computes from a delivery, when all goes well. *)
Definition delivered (d : AttemptDescriptor) (web salt info nonce c t aad vmk : bytes) : Prop :=
  ∃ session_key, derive_hkdf (ecdh (device_public_key d) web) salt info = Some session_key ∧
  decrypt_vmk_gcm session_key nonce c t aad = Some vmk.

Lemma open_vmk_spec base d web salt info nonce c t aad now_ms s r s' :
  live base d s → open_vmk web salt info nonce c t aad now_ms s = (r, s') →
  idle base s' ∧
  ∀ vmk, r = Some vmk → delivered d web salt info nonce c t aad vmk ∧ now_ms < expires_at_ms d.
Proof.
  intros Hl E. pose proof (live_owns _ _ _ Hl) as Ho. unfold open_vmk in E. exec E.
  { apply (reset_leave_spec base) in E as [-> ?]; [by split|done]. }
  apply on_keys_inv in Ef as (k' & Hag & ->). apply agreement_law in Hag as [Hk Hag].
  split.
  - eapply reset_spec; [|done]. unfold owns in *. cbn. by rewrite Hk.
  - intros vmk Hr. apply bind_Some in Hr as (key & Hder & Hdec).
    destruct Hl as (Hd & Ha & _ & _ & _ & Hm). unfold session_active in *. session_bools.
    destruct b; [|done]. cbn in Hder. destruct (Nat.eqb _ _); [|done].
    destruct (Hag eq_refl) as (point & Hp & ->). rewrite Hm, lookup_insert_eq in Hp.
    injection Hp as <-. split; [by exists key|]. rewrite <- Hd. tauto.
Qed.
End SessionSpecs.
