(* ===== verification/UserPresence.v ===== *)
(** * Physical presence

    [user_presence.cpp]: [UserPresenceGate], which turns a fresh press of the
    front button into the authorisation of one attempt, and
    [PresenceGestureQuarantine], which keeps that press from reaching the user
    interface.  The theorems say exactly which sequences of button samples
    confirm a request and which end a quarantine. *)

From S2P Require Import Prelude Bytes.
From S2P Require Import DeviceSession.

Inductive PresenceOperation :=
  | kPresenceTrustedBrowserUnlock | kPresenceInitialProvisioning | kPresenceRecovery
  | kPresenceBrowserReplacement | kPresenceVmkRekey | kPresenceFactoryReset.
#[export] Instance presence_operation_eq_dec : EqDecision PresenceOperation.
Proof. solve_decision. Defined.

Definition presence_operation_text (operation : PresenceOperation) : string :=
  match operation with
  | kPresenceTrustedBrowserUnlock => "Browser unlock"
  | kPresenceInitialProvisioning => "Initial setup"
  | kPresenceRecovery => "Recovery"
  | kPresenceBrowserReplacement => "Replace browser"
  | kPresenceVmkRekey => "Re-key Vault"
  | kPresenceFactoryReset => "FACTORY RESET"
  end.

Inductive PresenceState := kPresenceIdle | kPresenceAwaiting | kPresenceConfirmed.
#[export] Instance presence_state_eq_dec : EqDecision PresenceState.
Proof. solve_decision. Defined.

Record UserPresenceGate := mkGate {
  presence_state_ : PresenceState;
  operation_ : PresenceOperation;
  attempt_id_ : bytes;
  expires_at_ms_ : Z;
  input_generation_at_start_ : Z;
  neutral_samples_ : Z;
  input_armed_ : bool;
  last_input_pressed_ : bool;
  post_arm_press_edge_ : bool;
}.
#[export] Instance eta_gate : Eta UserPresenceGate := λ g,
  mkGate (presence_state_ g) (operation_ g) (attempt_id_ g) (expires_at_ms_ g)
    (input_generation_at_start_ g) (neutral_samples_ g) (input_armed_ g)
    (last_input_pressed_ g) (post_arm_press_edge_ g).

(** What [clear] leaves, and the initial state. *)
Definition idle_gate : UserPresenceGate :=
  mkGate kPresenceIdle kPresenceTrustedBrowserUnlock (zeros kAttemptIdBytes) 0 0 0 false false false.
Definition clear (g : UserPresenceGate) : UserPresenceGate := idle_gate.

Definition gate_begin (operation : PresenceOperation) (attempt_id : bytes)
    (now_ms input_generation : Z) (g : UserPresenceGate) : bool * UserPresenceGate :=
  (true, clear g <| operation_ := operation |> <| attempt_id_ := attempt_id |>
           <| expires_at_ms_ := deadline_from now_ms |>
           <| input_generation_at_start_ := input_generation |>
           <| presence_state_ := kPresenceAwaiting |>).

Definition observe_input_state (pressed : bool) (g : UserPresenceGate) : UserPresenceGate :=
  if negb (bool_decide (presence_state_ g = kPresenceAwaiting)) then g
  else if negb (input_armed_ g) then
    let g := g <| post_arm_press_edge_ := false |> <| last_input_pressed_ := pressed |> in
    if pressed then g <| neutral_samples_ := 0 |>
    else
      let g := if neutral_samples_ g <? 2
               then g <| neutral_samples_ := u8 (neutral_samples_ g + 1) |> else g in
      if neutral_samples_ g >=? 2
      then g <| input_armed_ := true |> <| last_input_pressed_ := false |>
      else g
  else
    let g := if pressed && negb (last_input_pressed_ g) then g <| post_arm_press_edge_ := true |>
             else if negb pressed then g <| post_arm_press_edge_ := false |> else g in
    g <| last_input_pressed_ := pressed |>.

Definition gate_expire (now_ms : Z) (g : UserPresenceGate) : bool * UserPresenceGate :=
  if bool_decide (presence_state_ g = kPresenceIdle) || (now_ms <? expires_at_ms_ g)
  then (false, g) else (true, clear g).

Definition confirm_current (now_ms input_generation : Z) : UserPresenceGate → bool * UserPresenceGate :=
  fn (
    expired ← call (gate_expire now_ms);
    g ← get_state;
    leave_if (expired || negb (bool_decide (presence_state_ g = kPresenceAwaiting))) false;;
    leave_if (negb (input_armed_ g) || negb (post_arm_press_edge_ g)) false;;
    modify (λ g, g <| post_arm_press_edge_ := false |>);;
    leave_if (input_generation <=? input_generation_at_start_ g) false;;
    modify (λ g, g <| presence_state_ := kPresenceConfirmed |>);;
    mret true).

Definition consume_confirmation (attempt_id : bytes) (now_ms : Z)
    : UserPresenceGate → bool * UserPresenceGate := fn (
  expired ← call (gate_expire now_ms);
  g ← get_state;
  leave_if (expired || negb (bool_decide (presence_state_ g = kPresenceConfirmed))) false;;
  if negb (constant_time_equal attempt_id (attempt_id_ g)) then modify clear;; leave false
  else modify clear;; mret true).

Definition gate_cancel (g : UserPresenceGate) : UserPresenceGate := clear g.
Definition gate_active (g : UserPresenceGate) : bool :=
  negb (bool_decide (presence_state_ g = kPresenceIdle)).

(** ** The quarantine *)

Record PresenceGestureQuarantine := mkQuarantine {
  quarantine_active_ : bool;
  release_observed_ : bool;
  release_observed_at_ms_ : Z;
  click_decision_timeout_ms_ : Z;
}.
#[export] Instance eta_quarantine : Eta PresenceGestureQuarantine := λ q,
  mkQuarantine (quarantine_active_ q) (release_observed_ q) (release_observed_at_ms_ q)
    (click_decision_timeout_ms_ q).

Definition quarantine_begin (now_ms click_decision_timeout_ms : Z) (q : PresenceGestureQuarantine)
    : PresenceGestureQuarantine :=
  q <| quarantine_active_ := true |> <| release_observed_ := false |>
    <| release_observed_at_ms_ := now_ms |>
    <| click_decision_timeout_ms_ := click_decision_timeout_ms |>.

Definition quarantine_cancel (q : PresenceGestureQuarantine) : PresenceGestureQuarantine :=
  mkQuarantine false false 0 0.

Definition quarantine_observe (pressed deciding_click_count : bool) (now_ms : Z)
    (q : PresenceGestureQuarantine) : PresenceGestureQuarantine :=
  if negb (quarantine_active_ q) then q
  else if pressed then q <| release_observed_ := false |>
  else if negb (release_observed_ q) then
    q <| release_observed_ := true |> <| release_observed_at_ms_ := now_ms |>
  else if deciding_click_count then q
  else if now_ms <? release_observed_at_ms_ q then q
  else if now_ms - release_observed_at_ms_ q <=? click_decision_timeout_ms_ q then q
  else quarantine_cancel q.

(** ** What confirms a request *)

(** Two consecutive released samples. *)
Definition neutral (samples : list bool) : Prop :=
  ∃ l1 l2, samples = l1 ++ [false; false] ++ l2.

(** A press that was observed after them and is still held. *)
Definition gesture (samples : list bool) : Prop :=
  ∃ l, samples = l ++ [true] ∧ neutral l.

Lemma neutral_snoc l b : neutral (l ++ [b]) ↔ neutral l ∨ (b = false ∧ last l = Some false).
Proof.
  split.
  - intros (l1 & l2 & E). destruct l2 as [|x l2 _] using rev_ind.
    + right. change ([false; false] ++ []) with ([false] ++ [false]) in E.
      rewrite app_assoc in E. apply app_inj_tail in E as [-> ->].
      split; [done|]. apply last_snoc.
    + left. rewrite !app_assoc in E. apply app_inj_tail in E as [-> _].
      exists l1, l2. by rewrite app_assoc.
  - intros [(l1 & l2 & ->)|[-> (l' & ->)%last_Some]].
    + exists l1, (l2 ++ [b]). by rewrite !app_assoc.
    + exists l', []. by rewrite <- app_assoc.
Qed.

(** The events a gate sees once a request has begun. *)
Inductive gate_event :=
  | Observe (pressed : bool)
  | Confirm (now_ms input_generation : Z)
  | Consume (attempt_id : bytes) (now_ms : Z)
  | Expire (now_ms : Z).

Definition gate_step (g : UserPresenceGate) (ev : gate_event) : UserPresenceGate :=
  match ev with
  | Observe pressed => observe_input_state pressed g
  | Confirm now_ms input_generation => snd (confirm_current now_ms input_generation g)
  | Consume attempt_id now_ms => snd (consume_confirmation attempt_id now_ms g)
  | Expire now_ms => snd (gate_expire now_ms g)
  end.

Definition samples_of : list gate_event → list bool :=
  omap (λ ev, match ev with Observe pressed => Some pressed | _ => None end).

Section Request.
Context (operation : PresenceOperation) (id : bytes) (start_ms generation : Z) (g0 : UserPresenceGate).
Let started := snd (gate_begin operation id start_ms generation g0).

(** The gate after [samples], while it waits. *)
Definition waiting (samples : list bool) (g : UserPresenceGate) : Prop :=
  presence_state_ g = kPresenceAwaiting ∧ attempt_id_ g = id ∧
  expires_at_ms_ g = deadline_from start_ms ∧ input_generation_at_start_ g = generation ∧
  (input_armed_ g = true ↔ neutral samples) ∧
  (input_armed_ g = true → last_input_pressed_ g = bool_decide (last samples = Some true)) ∧
  (input_armed_ g = false → neutral_samples_ g = if bool_decide (last samples = Some false) then 1 else 0) ∧
  (post_arm_press_edge_ g = true → gesture samples).

Lemma waiting_started : waiting [] started.
Proof.
  split_and!; try done. split; [done|]. intros (l1 & l2 & E). by destruct l1.
Qed.

Lemma waiting_observe samples g b :
  waiting samples g → waiting (samples ++ [b]) (observe_input_state b g).
Proof.
  intros (Hs & Hi & He & Hg & Harm & Hlast & Hn & Hedge).
  unfold observe_input_state. rewrite bool_decide_true by done. cbn [negb].
  destruct (input_armed_ g) eqn:Ea; cbn [negb].
  - assert (neutral samples) by by apply Harm. specialize (Hlast eq_refl).
    split_and!; try by destruct (b && _), b.
    + rewrite neutral_snoc. destruct (b && _), b; cbn; rewrite ?Ea; tauto.
    + intros _. rewrite last_snoc. by destruct b.
    + destruct (b && _), b; cbn; rewrite ?Ea; done.
    + destruct b; cbn; [|done]. destruct (last_input_pressed_ g); cbn.
      all: intros _; exists samples; by split.
  - specialize (Hn eq_refl).
    assert (Hnn : ¬ neutral samples) by (rewrite <- Harm; done).
    destruct b; cbn.
    + split_and!; try done; cbn; rewrite ?Ea, ?neutral_snoc, ?last_snoc; try done. naive_solver.
    + rewrite Hn. destruct (bool_decide (last samples = Some false)) eqn:El; cbn;
        [apply bool_decide_eq_true in El|apply bool_decide_eq_false in El];
        split_and!; try done; cbn; rewrite ?Ea, ?neutral_snoc, ?last_snoc; try done; naive_solver.
Qed.

(** When only samples were seen, the edge is exactly a gesture. *)
Lemma waiting_samples samples :
  let g := foldl (λ g b, observe_input_state b g) started samples in
  waiting samples g ∧ post_arm_press_edge_ g = input_armed_ g && last_input_pressed_ g.
Proof.
  induction samples as [|b samples [IH Hedge]] using rev_ind; [split; [apply waiting_started|done]|].
  rewrite foldl_snoc. cbv zeta in *.
  set (g := foldl _ started samples) in *. clearbody g. split; [by apply waiting_observe|].
  destruct IH as (Hs & _ & _ & _ & _ & _ & Hn & _). unfold observe_input_state.
  rewrite bool_decide_true by done. cbn. destruct (input_armed_ _) eqn:Ea; cbn in *; rewrite ?Ea.
  - destruct b, (last_input_pressed_ g); cbn; rewrite ?Ea, ?Hedge; done.
  - destruct b; cbn; rewrite ?Ea; [done|]. rewrite Hn by done.
    destruct (bool_decide _); cbn; rewrite ?Ea; done.
Qed.

Lemma edge_samples samples :
  let g := foldl (λ g b, observe_input_state b g) started samples in
  input_armed_ g && post_arm_press_edge_ g = true ↔ gesture samples.
Proof.
  destruct (waiting_samples samples) as [(_ & _ & _ & _ & Harm & Hlast & _ & Hg) Hedge]. cbv zeta in *.
  set (g := foldl _ started samples) in *. clearbody g.
  rewrite andb_true_iff. split; [tauto|]. intros (l & -> & Hl).
  assert (Ha : input_armed_ g = true) by (apply Harm, neutral_snoc; by left).
  rewrite Hedge, Ha. cbn. split; [done|]. by rewrite Hlast, last_snoc by done.
Qed.

(** Where a request is after a sequence of events. *)
Definition reached (evs : list gate_event) (g : UserPresenceGate) : Prop :=
  g = idle_gate ∨ waiting (samples_of evs) g ∨
  (presence_state_ g = kPresenceConfirmed ∧ attempt_id_ g = id ∧
   expires_at_ms_ g = deadline_from start_ms ∧
   ∃ e1 now_ms input_generation e2, evs = e1 ++ Confirm now_ms input_generation :: e2 ∧
   now_ms < deadline_from start_ms ∧ generation < input_generation ∧ gesture (samples_of e1)).

Lemma samples_of_app e1 e2 : samples_of (e1 ++ e2) = samples_of e1 ++ samples_of e2.
Proof. apply omap_app. Qed.

Lemma expire_cases now_ms g b g' :
  gate_expire now_ms g = (b, g') →
  (b = false ∧ g' = g ∧ (presence_state_ g = kPresenceIdle ∨ now_ms < expires_at_ms_ g)) ∨
  (b = true ∧ g' = idle_gate ∧ expires_at_ms_ g ≤ now_ms).
Proof.
  unfold gate_expire. destruct (_ || _) eqn:E; intros [= <- <-]; [left|right].
  2: { apply orb_false_iff in E as [_ E%Z.ltb_ge]. by split_and!. }
  split_and!; [done|done|]. apply orb_true_iff in E as [E%bool_decide_eq_true|E%Z.ltb_lt]; auto.
Qed.

Lemma confirm_cases now_ms input_generation g b g' :
  confirm_current now_ms input_generation g = (b, g') →
  (b = false ∧ (g' = idle_gate ∨ g' = g ∨ g' = g <| post_arm_press_edge_ := false |>)) ∨
  (b = true ∧ g' = g <| post_arm_press_edge_ := false |> <| presence_state_ := kPresenceConfirmed |> ∧
   presence_state_ g = kPresenceAwaiting ∧ now_ms < expires_at_ms_ g ∧
   input_armed_ g && post_arm_press_edge_ g = true ∧ input_generation_at_start_ g < input_generation).
Proof.
  intros E. unfold confirm_current in E. exec E.
  all: apply expire_cases in Ef as [(-> & -> & He)|(-> & -> & _)]; try done; try tauto.
  right. apply orb_false_iff in Ec as [_ Ha%negb_false_iff%bool_decide_eq_true].
  apply orb_false_iff in Ec0 as [->%negb_false_iff ->%negb_false_iff]. cbn in Ec1.
  apply Z.leb_gt in Ec1. split_and!; try done. destruct He; [congruence|done].
Qed.

Lemma consume_cases id' now_ms g b g' :
  consume_confirmation id' now_ms g = (b, g') →
  (b = false ∧ (g' = idle_gate ∨ g' = g ∧ presence_state_ g ≠ kPresenceConfirmed)) ∨
  (b = true ∧ g' = idle_gate ∧ presence_state_ g = kPresenceConfirmed ∧
   now_ms < expires_at_ms_ g ∧ id' = attempt_id_ g).
Proof.
  intros E. unfold consume_confirmation in E. exec E.
  all: apply expire_cases in Ef as [(-> & -> & He)|(-> & -> & _)]; try done; try tauto.
  - left. split; [done|]. right. split; [done|].
    by apply negb_true_iff, bool_decide_eq_false in Ec.
  - right. apply orb_false_iff in Ec as [_ Ha%negb_false_iff%bool_decide_eq_true].
    apply negb_false_iff, constant_time_equal_spec in Eb. split_and!; try done.
    destruct He; [congruence|done].
Qed.

Lemma reached_snoc evs g ev : reached evs g → reached (evs ++ [ev]) (gate_step g ev).
Proof.
  intros [->|[Hw|(Hc & Hid & Hex & e1 & t & n & e2 & -> & Hrest)]].
  - left. destruct ev; done || (unfold gate_step, consume_confirmation, confirm_current; cbn; done).
  - pose proof Hw as (Hs & Hid & He & Hg & _ & _ & _ & Hedge). destruct ev as [b|t n|id' t|t]; cbn.
    + right; left. rewrite samples_of_app. by apply waiting_observe.
    + assert (Hsame : samples_of (evs ++ [Confirm t n]) = samples_of evs)
        by (by rewrite samples_of_app, app_nil_r).
      destruct (confirm_current t n g) as [b g'] eqn:E.
      apply confirm_cases in E as [(_ & [-> |[-> | ->]])|(_ & -> & _ & Ht & Hi & Hn)].
      * by left.
      * right; left. by rewrite Hsame.
      * right; left. rewrite Hsame. unfold waiting in *. cbn. split_and!; try tauto. done.
      * right; right. split_and!; [done..|]. exists evs, t, n, []. split; [done|]. rewrite <- He, <- Hg.
        apply andb_true_iff in Hi as [_ Hi]. auto.
    + destruct (consume_confirmation id' t g) as [b g'] eqn:E.
      apply consume_cases in E as [(_ & [-> |[-> _]])|(_ & -> & _)]; [by left| |by left].
      right; left. by rewrite samples_of_app, app_nil_r.
    + destruct (gate_expire t g) as [b g'] eqn:E.
      apply expire_cases in E as [(_ & -> & _)|(_ & -> & _)]; [|by left].
      right; left. by rewrite samples_of_app, app_nil_r.
  - assert (Hstep : gate_step g ev = idle_gate ∨
      (presence_state_ (gate_step g ev) = kPresenceConfirmed ∧
       attempt_id_ (gate_step g ev) = attempt_id_ g ∧ expires_at_ms_ (gate_step g ev) = expires_at_ms_ g)).
    { destruct ev as [b|t' n'|id' t'|t']; cbn.
      - right. unfold observe_input_state. by rewrite Hc.
      - destruct (confirm_current t' n' g) as [b g'] eqn:E.
        apply confirm_cases in E as [(_ & [-> |[-> | ->]])|(_ & -> & _)]; auto.
      - destruct (consume_confirmation id' t' g) as [b g'] eqn:E.
        apply consume_cases in E as [(_ & [-> |[-> _]])|(_ & -> & _)]; auto.
      - destruct (gate_expire t' g) as [b g'] eqn:E. apply expire_cases in E as [(_ & -> & _)|(_ & -> & _)]; auto. }
    destruct Hstep as [->|(Hs & Hid' & Hex')]; [by left|]. right; right.
    split_and!; [done|congruence|congruence|].
    exists e1, t, n, (e2 ++ [ev]). by rewrite <- app_assoc.
Qed.

Lemma reached_run evs : reached evs (foldl gate_step started evs).
Proof.
  induction evs as [|ev evs IH] using rev_ind; [right; left; apply waiting_started|].
  rewrite foldl_snoc. by apply reached_snoc.
Qed.
End Request.

(** C33: A request is confirmed exactly by a fresh gesture: given only button
    samples since it began, [confirm_current] succeeds if and only if the
    deadline has not passed, the input generation has advanced, and the samples
    show two consecutive releases, later a press, and nothing after it. *)
Theorem gesture_exact operation id start_ms generation g samples now_ms input_generation :
  let started := snd (gate_begin operation id start_ms generation g) in
  let observed := foldl (λ g b, observe_input_state b g) started samples in
  fst (confirm_current now_ms input_generation observed) = true ↔
  now_ms < deadline_from start_ms ∧ generation < input_generation ∧ gesture samples.
Proof.
  cbv zeta.
  destruct (waiting_samples operation id start_ms generation g samples) as
    [(Hs & _ & He & Hg & _) _].
  pose proof (edge_samples operation id start_ms generation g samples) as Hedge. cbv zeta in *.
  set (o := foldl _ _ samples) in *. clearbody o. rewrite <- Hedge, <- He, <- Hg. clear Hedge.
  destruct (confirm_current now_ms input_generation o) as [b o'] eqn:E. cbn. split.
  - intros ->. apply confirm_cases in E as [[? _]|(_ & _ & _ & ? & ? & ?)]; done.
  - intros (Ht & Hn & Hb). destruct b; [done|]. exfalso.
    apply andb_true_iff in Hb as [Hb1 Hb2].
    unfold confirm_current in E. exec E; try done.
    all: apply expire_cases in Ef as [(-> & -> & He')|(-> & -> & ?)]; cbn in *.
    all: rewrite ?Hs, ?Hb1, ?Hb2 in *; try done; try lia.
Qed.

(** C34: A confirmation is consumed only for the attempt it was requested for,
    before the deadline, after a confirmation backed by a gesture observed
    since the request began - whatever samples, confirmations, expiry checks and
    other consumption attempts came in between - and only once. *)
Theorem authorisation_needs_gesture operation id start_ms generation g evs id' now_ms :
  let started := snd (gate_begin operation id start_ms generation g) in
  let gate := foldl gate_step started evs in
  fst (consume_confirmation id' now_ms gate) = true →
  id' = id ∧ now_ms < deadline_from start_ms ∧
  (∃ e1 t n e2, evs = e1 ++ Confirm t n :: e2 ∧ t < deadline_from start_ms ∧ generation < n ∧
     gesture (samples_of e1)) ∧
  ∀ evs' id'' t', fst (consume_confirmation id'' t'
    (foldl gate_step (snd (consume_confirmation id' now_ms gate)) evs')) = false.
Proof.
  cbv zeta. intros Hc. pose proof (reached_run operation id start_ms generation g evs) as Hr.
  set (gate := foldl _ _ evs) in *. clearbody gate.
  destruct (consume_confirmation id' now_ms gate) as [b gate'] eqn:E. cbn in Hc. subst b.
  apply consume_cases in E as [[? _]|(_ & -> & Hs & Ht & ->)]; [done|].
  destruct Hr as [->|[(Hs' & _)|(_ & -> & He & Hex)]]; [done|congruence|].
  rewrite He in Ht. split_and!; try done.
  intros evs' id'' t'. cbn [snd]. assert (Hidle : foldl gate_step idle_gate evs' = idle_gate).
  { induction evs' as [|ev evs' IH] using rev_ind; [done|]. rewrite foldl_snoc, IH.
    by destruct ev. }
  by rewrite Hidle.
Qed.

(** ** What ends a quarantine *)

Record quarantine_sample := mkSample { s_pressed : bool; s_deciding : bool; s_now_ms : Z }.

Definition quarantine_run (samples : list quarantine_sample) (q : PresenceGestureQuarantine)
    : PresenceGestureQuarantine :=
  foldl (λ q s, quarantine_observe (s_pressed s) (s_deciding s) (s_now_ms s) q) q samples.

(** The button has been up in every sample since [first], the first of them. *)
Definition released_since (first : Z) (samples : list quarantine_sample) : Prop :=
  ∃ l d l', samples = l ++ mkSample false d first :: l' ∧
  (l = [] ∨ ∃ s, last l = Some s ∧ s_pressed s = true) ∧
  Forall (λ s, s_pressed s = false) l'.

(** A release longer than the time in which the button decides on a multiple
    click, at a sample where no click is pending. *)
Definition settled (timeout : Z) (samples : list quarantine_sample) : Prop :=
  ∃ l first t, samples = l ++ [mkSample false false t] ∧ released_since first l ∧
  first ≤ t ∧ timeout < t - first.

(** [first] is the first release after the last press. *)
Lemma released_since_unique_aux l1 l2 k d1 f1 d2 f2 (r1 r2 : list quarantine_sample) :
  l2 = l1 ++ k → mkSample false d1 f1 :: r1 = k ++ mkSample false d2 f2 :: r2 →
  (l2 = [] ∨ ∃ s, last l2 = Some s ∧ s_pressed s = true) →
  Forall (λ s, s_pressed s = false) r1 → f1 = f2.
Proof.
  intros -> E Hl Hr. destruct k as [|x k _] using rev_ind; [by injection E|].
  destruct Hl as [Hl|(s & Hl & Hs)]; [by destruct l1, k|].
  rewrite app_assoc, last_snoc in Hl. injection Hl as ->.
  assert (Hall : Forall (λ s, s_pressed s = false) (mkSample false d1 f1 :: r1)) by by constructor.
  rewrite E in Hall. apply Forall_app in Hall as [Hall _]. apply Forall_app in Hall as [_ Hall].
  apply Forall_cons in Hall as [Hall _]. congruence.
Qed.

Lemma released_since_unique f1 f2 samples :
  released_since f1 samples → released_since f2 samples → f1 = f2.
Proof.
  intros (l1 & d1 & r1 & -> & Hl1 & Hr1) (l2 & d2 & r2 & E & Hl2 & Hr2).
  apply app_eq_inv in E as [(k & Hk & E)|(k & Hk & E)].
  - symmetry. by eapply (released_since_unique_aux l2 l1).
  - by eapply (released_since_unique_aux l1 l2).
Qed.

Lemma released_since_pressed first l s : s_pressed s = true → ¬ released_since first (l ++ [s]).
Proof.
  intros Hs (l1 & d & r & E & _ & Hr). destruct r as [|x r _] using rev_ind.
  - apply app_inj_tail in E as [_ ->]. done.
  - rewrite app_comm_cons, app_assoc in E. apply app_inj_tail in E as [_ ->].
    apply Forall_app in Hr as [_ Hr]. apply Forall_cons in Hr as [Hr _]. congruence.
Qed.

Lemma released_since_snoc first l s :
  s_pressed s = false → released_since first l → released_since first (l ++ [s]).
Proof.
  intros Hs (l1 & d & r & -> & Hl & Hr). exists l1, d, (r ++ [s]). rewrite <- app_assoc.
  split_and!; [done|done|]. apply Forall_app. split; [done|]. by constructor.
Qed.

Lemma released_since_first d t l :
  (l = [] ∨ ∃ s, last l = Some s ∧ s_pressed s = true) →
  released_since t (l ++ [mkSample false d t]).
Proof. intros Hl. by exists l, d, []. Qed.

(** What the quarantine knows of the samples it has seen. *)
Definition tracking (timeout : Z) (samples : list quarantine_sample) (q : PresenceGestureQuarantine)
    : Prop :=
  quarantine_active_ q = true ∧ click_decision_timeout_ms_ q = timeout ∧
  (if release_observed_ q then released_since (release_observed_at_ms_ q) samples
   else samples = [] ∨ ∃ s, last samples = Some s ∧ s_pressed s = true) ∧
  ∀ l, l `prefix_of` samples → ¬ settled timeout l.

Lemma tracking_observe timeout samples q s :
  tracking timeout samples q →
  let q' := quarantine_observe (s_pressed s) (s_deciding s) (s_now_ms s) q in
  tracking timeout (samples ++ [s]) q' ∨
  (quarantine_active_ q' = false ∧ settled timeout (samples ++ [s])).
Proof.
  intros (Ha & Ht & Hr & Hp). unfold quarantine_observe. rewrite Ha. cbn [negb].
  assert (Hsnoc : ¬ settled timeout (samples ++ [s]) →
    ∀ l, l `prefix_of` samples ++ [s] → ¬ settled timeout l).
  { intros Hns l [->|Hl]%prefix_snoc_cases; [done|by apply Hp]. }
  assert (Hlast : settled timeout (samples ++ [s]) →
    s_pressed s = false ∧ s_deciding s = false ∧ ∃ first, released_since first samples ∧
    first ≤ s_now_ms s ∧ timeout < s_now_ms s - first).
  { intros (l & first & t & E & Hrel & Hle & Hlt). apply app_inj_tail in E as [<- ->]. split_and!; [done..|]. by exists first. }
  destruct s as [pressed deciding t]. cbn in *. destruct pressed; cbn.
  { left. split_and!; try done.
    - right. exists (mkSample true deciding t). by rewrite last_snoc.
    - apply Hsnoc. by intros (? & _)%Hlast. }
  destruct (release_observed_ q) eqn:Er; cbn.
  2: { left. split_and!; try done; [by apply released_since_first|]. apply Hsnoc.
       intros (_ & _ & first & Hf & _)%Hlast. destruct Hr as [->|(s & (l & ->)%last_Some & Hs)].
       - destruct Hf as (l1 & d & r & E & _). by destruct l1.
       - by apply released_since_pressed in Hf. }
  destruct deciding; [|destruct (Z.ltb_spec t (release_observed_at_ms_ q));
    [|destruct (Z.leb_spec (t - release_observed_at_ms_ q) (click_decision_timeout_ms_ q))]].
  4: { right. split; [done|]. exists samples, (release_observed_at_ms_ q), t.
       split_and!; try done. lia. }
  all: left; split_and!; try done; [rewrite Er; by apply released_since_snoc|apply Hsnoc].
  all: intros (_ & Hd & first & Hf & Hle & Hlt)%Hlast; try done.
  all: pose proof (released_since_unique _ _ _ Hr Hf); lia.
Qed.

Lemma observe_inactive pressed deciding t q :
  quarantine_active_ q = false → quarantine_observe pressed deciding t q = q.
Proof. intros Hq. unfold quarantine_observe. by rewrite Hq. Qed.

(** A quarantine ends exactly when the button has been up, sample after
    sample, for longer than the click decision time, at a sample where no click
    is pending; a press in between starts the count again. *)
Theorem quarantine_exact q start_ms timeout samples :
  quarantine_active_ (quarantine_run samples (quarantine_begin start_ms timeout q)) = false ↔
  ∃ l, l `prefix_of` samples ∧ settled timeout l.
Proof.
  set (run samples := quarantine_run samples (quarantine_begin start_ms timeout q)).
  assert (H : tracking timeout samples (run samples) ∨
    (quarantine_active_ (run samples) = false ∧ ∃ l, l `prefix_of` samples ∧ settled timeout l)).
  { induction samples as [|s samples IH] using rev_ind.
    - left. split_and!; try done; [by left|]. intros l ->%prefix_nil_inv (k & f & t & E & _).
      by destruct k.
    - unfold run, quarantine_run in *. rewrite foldl_snoc. cbv beta.
      destruct IH as [IH|(Hq & l & Hl & Hs)].
      + apply (tracking_observe _ _ _ s) in IH as [IH|[IH Hs]]; [by left|]. right. eauto.
      + right. rewrite observe_inactive by exact Hq. split; [done|].
        exists l. split; [|done]. by apply prefix_app_r. }
  fold (run samples). destruct H as [(Ha & _ & _ & Hp)|[Ha H]]; [|by rewrite Ha].
  rewrite Ha. split; [done|]. intros (l & Hl & Hs). by apply Hp in Hs.
Qed.
