(* ===== verification/Transcript.v ===== *)
(** * The transcript of an attempt

    [encode_transcript] of [session_protocol_v2.cpp] with the operations it
    names.  The transcript is what the browser signs, and both the context of
    the key derivation and the authenticated data of the delivered key; the
    theorem is that it determines every field of the attempt. *)

From S2P Require Import Prelude Bytes VaultCrypto Psa DeviceSession UserPresence.

Module Operation.
Inductive t :=
  | kTrustedBrowserUnlock | kInitialProvisioning | kRecovery | kBrowserReplacement | kVmkRekey.
#[global] Instance eq_dec : EqDecision t.
Proof. solve_decision. Defined.
End Operation.

(** The value of the enumerator. *)
Definition operation_code (operation : Operation.t) : Z :=
  match operation with
  | Operation.kTrustedBrowserUnlock => 1
  | Operation.kInitialProvisioning => 2
  | Operation.kRecovery => 3
  | Operation.kBrowserReplacement => 4
  | Operation.kVmkRekey => 5
  end.

Definition operation_name (operation : Operation.t) : string :=
  match operation with
  | Operation.kTrustedBrowserUnlock => "trusted_browser_unlock"
  | Operation.kInitialProvisioning => "initial_provisioning"
  | Operation.kRecovery => "recovery"
  | Operation.kBrowserReplacement => "browser_replacement"
  | Operation.kVmkRekey => "vmk_rekey"
  end.

Definition parse_operation (value : string) : option Operation.t :=
  if String.eqb value "trusted_browser_unlock" then Some Operation.kTrustedBrowserUnlock
  else if String.eqb value "initial_provisioning" then Some Operation.kInitialProvisioning
  else if String.eqb value "recovery" then Some Operation.kRecovery
  else if String.eqb value "browser_replacement" then Some Operation.kBrowserReplacement
  else if String.eqb value "vmk_rekey" then Some Operation.kVmkRekey
  else None.

Definition presence_operation (operation : Operation.t) : PresenceOperation :=
  match operation with
  | Operation.kTrustedBrowserUnlock => kPresenceTrustedBrowserUnlock
  | Operation.kInitialProvisioning => kPresenceInitialProvisioning
  | Operation.kRecovery => kPresenceRecovery
  | Operation.kBrowserReplacement => kPresenceBrowserReplacement
  | Operation.kVmkRekey => kPresenceVmkRekey
  end.

Definition kProtocolVersion : Z := 2.
Definition kTranscriptVersion : Z := 1.
Definition kSessionVaultIdBytes : nat := 16.
Definition kRegistrationIdBytes : nat := 16.
Definition kMaxDeviceIdBytes : nat := 64.
Definition kTranscriptFixedBytes : nat := 360.

Record TranscriptInput := mkTranscript {
  operation : Operation.t;
  device_id : bytes;
  vault_id : bytes;
  expected_generation : Z;
  registration_id : bytes;
  registration_epoch : Z;
  transcript_attempt_id : bytes;
  transcript_challenge : bytes;
  device_ephemeral_public_key : bytes;
  web_ephemeral_public_key : bytes;
  current_brk_public_key : bytes;
  proposed_brk_public_key : bytes;
}.

Definition append_u32 (out : bytes) (value : Z) : bytes :=
  out ++ [byte_at value 24; byte_at value 16; byte_at value 8; byte_at value 0].
Definition append_u64 (out : bytes) (value : Z) : bytes :=
  out ++ map (byte_at value) [56; 48; 40; 32; 24; 16; 8; 0].

Definition is_zero_public_key (key : bytes) : bool := all_zero key.

(** The fields each operation requires. *)
Definition transcript_operation_ok (input : TranscriptInput) : bool :=
  match operation input with
  | Operation.kTrustedBrowserUnlock | Operation.kVmkRekey =>
    negb (is_zero_public_key (current_brk_public_key input) || (registration_epoch input =? 0))
  | Operation.kInitialProvisioning =>
    negb (negb (is_zero_public_key (current_brk_public_key input))
          || is_zero_public_key (proposed_brk_public_key input)
          || negb (registration_epoch input =? 0))
  | Operation.kRecovery | Operation.kBrowserReplacement =>
    negb (is_zero_public_key (proposed_brk_public_key input))
  end.

Definition transcript_bytes (input : TranscriptInput) : bytes :=
  let output := str "M5AS" in
  let output := output ++ [kTranscriptVersion] in
  let output := output ++ [kProtocolVersion] in
  let output := output ++ [operation_code (operation input)] in
  let output := output ++ [u8 (Z.of_nat (length (device_id input)))] in
  let output := output ++ device_id input in
  let output := output ++ vault_id input in
  let output := append_u64 output (expected_generation input) in
  let output := output ++ registration_id input in
  let output := append_u32 output (registration_epoch input) in
  let output := output ++ transcript_attempt_id input in
  let output := output ++ transcript_challenge input in
  let output := output ++ device_ephemeral_public_key input in
  let output := output ++ web_ephemeral_public_key input in
  let output := output ++ current_brk_public_key input in
  output ++ proposed_brk_public_key input.

Section Transcript.
Context {K : Type} `{Psa K}.

Definition valid_optional_p256_identity (key : bytes) : K → bool * K := fn (
  leave_if (is_zero_public_key key) true;;
  call (valid_p256_public_key key)).

Definition encode_transcript (input : TranscriptInput) : K → option bytes * K := fn (
  leave_if (Nat.eqb (length (device_id input)) 0
            || Nat.ltb kMaxDeviceIdBytes (length (device_id input))) None;;
  device ← call (valid_p256_public_key (device_ephemeral_public_key input));
  leave_if (negb device) None;;
  web ← call (valid_p256_public_key (web_ephemeral_public_key input));
  leave_if (negb web) None;;
  current ← call (valid_optional_p256_identity (current_brk_public_key input));
  leave_if (negb current) None;;
  proposed ← call (valid_optional_p256_identity (proposed_brk_public_key input));
  leave_if (negb proposed) None;;
  leave_if (negb (transcript_operation_ok input)) None;;
  let output := transcript_bytes input in
  mret (if Nat.eqb (length output) (kTranscriptFixedBytes + length (device_id input))
        then Some output else None)).
End Transcript.

(** ** The names of the operations *)

Lemma parse_operation_spec value op : parse_operation value = Some op ↔ value = operation_name op.
Proof.
  unfold parse_operation. split.
  - repeat match goal with |- context [String.eqb value ?s] =>
      destruct (String.eqb_spec value s) as [->|]; [by intros [= <-]|] end. done.
  - intros ->. by destruct op.
Qed.

(** ** Binding *)

(** The arrays have their sizes and the integers their widths, by their types
    in the source. *)
Definition input_wf (input : TranscriptInput) : Prop :=
  length (vault_id input) = kSessionVaultIdBytes ∧
  is_u64 (expected_generation input) ∧
  length (registration_id input) = kRegistrationIdBytes ∧
  is_u32 (registration_epoch input) ∧
  length (transcript_attempt_id input) = kAttemptIdBytes ∧
  length (transcript_challenge input) = kDeviceChallengeBytes ∧
  length (device_ephemeral_public_key input) = kP256PublicKeyBytes ∧
  length (web_ephemeral_public_key input) = kP256PublicKeyBytes ∧
  length (current_brk_public_key input) = kP256PublicKeyBytes ∧
  length (proposed_brk_public_key input) = kP256PublicKeyBytes.

Lemma transcript_u32_be out v : append_u32 out v = out ++ be_bytes 4 v.
Proof. unfold append_u32. by rewrite <- be_bytes_loop. Qed.
Lemma transcript_u64_be out v : append_u64 out v = out ++ be_bytes 8 v.
Proof. unfold append_u64. by rewrite <- be_bytes_loop. Qed.

(** The transcript as the concatenation of its fields. *)
Definition transcript_fields (input : TranscriptInput) : list bytes :=
  [str "M5AS" ++ [kTranscriptVersion; kProtocolVersion; operation_code (operation input);
     u8 (Z.of_nat (length (device_id input)))];
   device_id input; vault_id input; be_bytes 8 (expected_generation input); registration_id input;
   be_bytes 4 (registration_epoch input); transcript_attempt_id input; transcript_challenge input;
   device_ephemeral_public_key input; web_ephemeral_public_key input;
   current_brk_public_key input; proposed_brk_public_key input].

Lemma transcript_bytes_fields input : transcript_bytes input = concat (transcript_fields input).
Proof.
  unfold transcript_bytes, transcript_fields. rewrite transcript_u32_be, transcript_u64_be.
  cbn [concat]. rewrite app_nil_r. by rewrite <- !app_assoc.
Qed.

Lemma transcript_length input :
  input_wf input →
  length (transcript_bytes input) = (kTranscriptFixedBytes + length (device_id input))%nat.
Proof.
  intros (H1 & _ & H2 & _ & H3 & H4 & H5 & H6 & H7 & H8).
  rewrite transcript_bytes_fields. unfold transcript_fields. cbn [concat].
  rewrite !length_app, !be_bytes_length, H1, H2, H3, H4, H5, H6, H7, H8. cbn. lia.
Qed.

Lemma concat_inj (l k : list bytes) :
  length <$> l = length <$> k → concat l = concat k → l = k.
Proof.
  revert k. induction l as [|x l IH]; intros [|y k] Hlen E; cbn in *; try done.
  injection Hlen as Hx Hl. apply app_inj_1 in E as [-> E]; [|done]. by rewrite (IH k).
Qed.

Lemma cons_inv {A} (x y : A) l k : x :: l = y :: k → x = y ∧ l = k.
Proof. by intros [= -> ->]. Qed.

Lemma transcript_bytes_inj i1 i2 :
  input_wf i1 → input_wf i2 →
  (length (device_id i1) ≤ kMaxDeviceIdBytes)%nat → (length (device_id i2) ≤ kMaxDeviceIdBytes)%nat →
  transcript_bytes i1 = transcript_bytes i2 → i1 = i2.
Proof.
  intros W1 W2 L1 L2 E. rewrite !transcript_bytes_fields in E.
  assert (Hd : length (device_id i1) = length (device_id i2)).
  { apply (f_equal (λ l, l !! 7%nat)) in E. unfold transcript_fields in E. cbn in E.
    injection E as E. unfold u8 in E. rewrite !land_ff in E. unfold kMaxDeviceIdBytes in *. lia. }
  destruct W1 as (? & Hg1 & ? & He1 & ? & ? & ? & ? & ? & ?).
  destruct W2 as (? & Hg2 & ? & He2 & ? & ? & ? & ? & ? & ?).
  apply concat_inj in E.
  2: { unfold transcript_fields. cbn [fmap list_fmap]. rewrite !length_app, !be_bytes_length. cbn [length]. congruence. }
  unfold transcript_fields in E.
  repeat (let Hf := fresh "Hf" in apply cons_inv in E as [Hf E]).
  unfold is_u64, u64_max, is_u32, u32_max in *.
  apply be_bytes_inj in Hf2; [|cbn; lia..]. apply be_bytes_inj in Hf4; [|cbn; lia..].
  assert (Hop : operation i1 = operation i2).
  { apply app_inv_head in Hf. do 2 apply cons_inv in Hf as [_ Hf]. apply cons_inv in Hf as [Hf _].
    by destruct (operation i1), (operation i2). }
  destruct i1, i2. cbn in *. congruence.
Qed.

Section TranscriptSpecs.
Context {K : Type} `{PsaLaws K}.

Lemma valid_optional_spec key k b k' :
  valid_optional_p256_identity key k = (b, k') →
  psa_keys k' = psa_keys k ∧ (b = true → is_zero_public_key key = true ∨ on_curve key).
Proof.
  intros E. unfold valid_optional_p256_identity in E. exec E.
  - split; [done|auto].
  - apply valid_p256_spec in E as [? Hc]. split; [done|]. intros Hb. right. by apply Hc.
Qed.

Lemma encode_transcript_spec input k r k' :
  encode_transcript input k = (r, k') →
  psa_keys k' = psa_keys k ∧
  ∀ t, r = Some t →
    t = transcript_bytes input ∧ (1 ≤ length (device_id input) ≤ kMaxDeviceIdBytes)%nat ∧
    length t = (kTranscriptFixedBytes + length (device_id input))%nat ∧
    transcript_operation_ok input = true ∧
    on_curve (device_ephemeral_public_key input) ∧ on_curve (web_ephemeral_public_key input).
Proof.
  intros E. unfold encode_transcript in E. exec E; try done.
  all: repeat match goal with
    | Hv : valid_p256_public_key _ _ = _ |- _ => apply valid_p256_spec in Hv as [? ?]
    | Hv : valid_optional_p256_identity _ _ = _ |- _ => apply valid_optional_spec in Hv as [? ?]
    end.
  all: split; [congruence|try done].
  intros t Ht. destruct (Nat.eqb (length (transcript_bytes input)) _) eqn:El; [|done].
  injection Ht as <-.
  apply orb_false_iff in Ec as [El1%Nat.eqb_neq El2%Nat.ltb_ge]. apply Nat.eqb_eq in El.
  repeat match goal with Hb : negb _ = false |- _ => apply negb_false_iff in Hb; subst end.
  split_and!; try done; try lia; intuition.
Qed.

(** C28: A transcript determines the attempt: two inputs, with arrays of their
    sizes, that encode to the same bytes agree on the operation, the device, the
    Vault and its expected generation, the registration and its epoch, the
    attempt, the challenge and all four public keys. *)
Theorem transcript_binding i1 i2 t (k1 k2 k1' k2' : K) :
  input_wf i1 → input_wf i2 →
  encode_transcript i1 k1 = (Some t, k1') → encode_transcript i2 k2 = (Some t, k2') →
  i1 = i2.
Proof.
  intros W1 W2 E1 E2.
  apply encode_transcript_spec in E1 as [_ H1]. destruct (H1 t eq_refl) as (Ht1 & [_ L1] & _).
  apply encode_transcript_spec in E2 as [_ H2]. destruct (H2 t eq_refl) as (Ht2 & [_ L2] & _).
  apply transcript_bytes_inj; congruence.
Qed.
End TranscriptSpecs.
