(* ===== verification/Attempt.v ===== *)
(** * The attempt coordinator

    [attempt_coordinator.cpp]: one attempt at a time goes from [begin] (context
    and ephemeral key), through [authorize] (transcript, browser signature,
    physical presence request) to [complete] (presence consumed, Vault Master
    Key opened).  Presence is behind the interface [PresenceBinding];
    [CanonicalPresence] of [canonical_device.cpp] implements it with the gate
    of [UserPresence]. *)

From S2P Require Import Prelude Bytes VaultCrypto Psa DeviceSession UserPresence Transcript.

(** ** Presence, as the coordinator sees it *)

Class PresenceBinding (P : Type) := {
  begin_presence : PresenceOperation → bytes → Z → P → bool * P;
  consume_presence : bytes → Z → P → bool * P;
  cancel_presence : P → unit * P;
  presence_confirmed : P → bool;
}.

(** [presence_given p id]: the user has confirmed attempt [id]. *)
Class PresenceBindingLaws (P : Type) `{PresenceBinding P} := {
  presence_given : P → bytes → Prop;
  begin_presence_law op id now_ms p b p' : begin_presence op id now_ms p = (b, p') →
    ∀ id', ¬ presence_given p' id';
  consume_presence_law id now_ms p p' : consume_presence id now_ms p = (true, p') →
    presence_given p id ∧ ∀ id', ¬ presence_given p' id';
  cancel_presence_law p x p' : cancel_presence p = (x, p') → ∀ id, ¬ presence_given p' id;
}.

Record CanonicalPresence := mkPresence { button_press_generation_ : Z; gate_ : UserPresenceGate }.
#[export] Instance eta_presence : Eta CanonicalPresence := λ p,
  mkPresence (button_press_generation_ p) (gate_ p).

Definition on_gate {A} (f : UserPresenceGate → A * UserPresenceGate) (p : CanonicalPresence)
    : A * CanonicalPresence :=
  let '(a, g) := f (gate_ p) in (a, p <| gate_ := g |>).

#[export] Instance canonical_presence : PresenceBinding CanonicalPresence := {|
  begin_presence operation attempt_id now_ms p :=
    on_gate (gate_begin operation attempt_id now_ms (button_press_generation_ p)) p;
  consume_presence attempt_id now_ms p := on_gate (consume_confirmation attempt_id now_ms) p;
  cancel_presence p := (tt, p <| gate_ := gate_cancel (gate_ p) |>);
  presence_confirmed p := bool_decide (presence_state_ (gate_ p) = kPresenceConfirmed);
|}.

Definition button_pressed (now_ms : Z) : CanonicalPresence → bool * CanonicalPresence := fn (
  p ← get_state;
  (if negb (button_press_generation_ p =? u64_max)
   then modify (λ p, p <| button_press_generation_ := button_press_generation_ p + 1 |>)
   else mret tt);;
  leave_if (negb (gate_active (gate_ p))) false;;
  p ← get_state;
  call (on_gate (confirm_current now_ms (button_press_generation_ p)))).

Definition observe_button_state (pressed : bool) (p : CanonicalPresence) : CanonicalPresence :=
  p <| gate_ := observe_input_state pressed (gate_ p) |>.
Definition presence_expire (now_ms : Z) : CanonicalPresence → bool * CanonicalPresence :=
  on_gate (gate_expire now_ms).

#[export] Instance canonical_presence_laws : PresenceBindingLaws CanonicalPresence.
Proof.
  refine {| presence_given := λ p id, presence_state_ (gate_ p) = kPresenceConfirmed ∧
                                       attempt_id_ (gate_ p) = id |}.
  - by intros op id now_ms p b p' [= <- <-] id' [].
  - intros id now_ms p p' E. cbn in E. unfold on_gate in E.
    destruct (consume_confirmation id now_ms (gate_ p)) as [b g'] eqn:Ec. injection E as -> <-.
    apply consume_cases in Ec as [[? _]|(_ & -> & ? & _ & ->)]; [done|]. split; [done|].
    by intros id' [].
  - by intros p x p' [= <- <-] id [].
Defined.

(** ** The coordinator *)

Record BeginContext := mkContext {
  context_operation : Operation.t;
  context_device_id : bytes;
  context_vault_id : bytes;
  context_expected_generation : Z;
  context_registration_id : bytes;
  context_registration_epoch : Z;
  context_current_brk : bytes;
  context_proposed_brk : bytes;
}.
#[export] Instance eta_context : Eta BeginContext := λ c,
  mkContext (context_operation c) (context_device_id c) (context_vault_id c)
    (context_expected_generation c) (context_registration_id c) (context_registration_epoch c)
    (context_current_brk c) (context_proposed_brk c).

Definition empty_context : BeginContext :=
  mkContext Operation.kTrustedBrowserUnlock [] (zeros kSessionVaultIdBytes) 0
    (zeros kRegistrationIdBytes) 0 (zeros kP256PublicKeyBytes) (zeros kP256PublicKeyBytes).

Inductive AttemptState := kIdle | kAwaitingAuthorization | kAwaitingPresence | kConfirmed.
#[export] Instance attempt_state_eq_dec : EqDecision AttemptState.
Proof. solve_decision. Defined.

Record AttemptCoordinator {P K : Type} := mkCoordinator {
  presence_ : P;
  crypto_ : Impl * K;
  context_ : BeginContext;
  descriptor_ : AttemptDescriptor;
  web_public_key_ : bytes;
  transcript_ : bytes;
  active_ : bool;
  attempt_state_ : AttemptState;
}.
Arguments AttemptCoordinator : clear implicits.
#[export] Instance eta_coordinator {P K} : Eta (AttemptCoordinator P K) := λ c,
  mkCoordinator P K (presence_ c) (crypto_ c) (context_ c) (descriptor_ c) (web_public_key_ c)
    (transcript_ c) (active_ c) (attempt_state_ c).

Definition new_coordinator {P K} (presence : P) (keys : K) : AttemptCoordinator P K :=
  mkCoordinator P K presence (new_impl, keys) empty_context empty_descriptor
    (zeros kP256PublicKeyBytes) [] false kIdle.

(** [secure_zero] over a container: its size stays. *)
Definition wipe (value : bytes) : bytes := zeros (length value).

Definition brk_signature_required (operation : Operation.t) : bool :=
  bool_decide (operation = Operation.kTrustedBrowserUnlock) || bool_decide (operation = Operation.kVmkRekey).

Definition hkdf_salt (descriptor : AttemptDescriptor) : bytes :=
  attempt_id descriptor ++ challenge descriptor.

Definition wipe_context (c : BeginContext) : BeginContext :=
  c <| context_device_id := [] |> <| context_vault_id := wipe (context_vault_id c) |>
    <| context_expected_generation := 0 |>
    <| context_registration_id := wipe (context_registration_id c) |>
    <| context_registration_epoch := 0 |>
    <| context_current_brk := wipe (context_current_brk c) |>
    <| context_proposed_brk := wipe (context_proposed_brk c) |>.

Definition wipe_descriptor (d : AttemptDescriptor) : AttemptDescriptor :=
  d <| attempt_id := wipe (attempt_id d) |> <| challenge := wipe (challenge d) |>
    <| device_public_key := wipe (device_public_key d) |> <| expires_at_ms := 0 |>.

Section Coordinator.
Context `{MbedtlsGcm} {P K : Type} `{PresenceBinding P} `{Psa K}.
Abbreviation AC := (AttemptCoordinator P K).
Definition attempt_op (A : Type) : Type := AC → A * AC.

Definition on_presence {A} (f : P → A * P) : attempt_op A := λ c,
  let '(a, p) := f (presence_ c) in (a, c <| presence_ := p |>).
Definition on_crypto {A} (f : Impl * K → A * (Impl * K)) : attempt_op A := λ c,
  let '(a, s) := f (crypto_ c) in (a, c <| crypto_ := s |>).

Definition wipe_staged (c : AC) : AC :=
  c <| context_ := wipe_context (context_ c) |> <| descriptor_ := wipe_descriptor (descriptor_ c) |>
    <| web_public_key_ := wipe (web_public_key_ c) |> <| transcript_ := [] |>
    <| active_ := false |> <| attempt_state_ := kIdle |>.

Definition context_valid (context : BeginContext) : K → bool * K := fn (
  leave_if (Nat.eqb (length (context_device_id context)) 0
            || Nat.ltb kMaxDeviceIdBytes (length (context_device_id context))) false;;
  leave_if (all_zero (context_registration_id context)) false;;
  current ← call (valid_optional_p256_identity (context_current_brk context));
  leave_if (negb current) false;;
  proposed ← call (valid_optional_p256_identity (context_proposed_brk context));
  leave_if (negb proposed) false;;
  mret (match context_operation context with
        | Operation.kTrustedBrowserUnlock | Operation.kVmkRekey =>
          (context_registration_epoch context >? 0)
          && negb (is_zero_public_key (context_current_brk context))
        | Operation.kInitialProvisioning =>
          (context_registration_epoch context =? 0)
          && is_zero_public_key (context_current_brk context)
          && negb (is_zero_public_key (context_proposed_brk context))
        | Operation.kRecovery | Operation.kBrowserReplacement =>
          (context_registration_epoch context >? 0)
          && negb (is_zero_public_key (context_proposed_brk context))
        end)).

Definition attempt_cancel : attempt_op unit := fn (
  call (on_crypto session_cancel);;
  call (on_presence cancel_presence);;
  modify wipe_staged;;
  mret tt).

Definition cancel_and_leave {R A} (r : R) : ctl AC R A := call attempt_cancel;; leave r.

(** The descriptor written to [*descriptor] when the function returns true. *)
Definition attempt_begin (context : BeginContext) (now_ms : Z) : attempt_op (option AttemptDescriptor) :=
  fn (
    call attempt_cancel;;
    valid ← call (on_crypto (on_keys (context_valid context)));
    leave_if (negb valid) None;;
    begun ← call (on_crypto (session_begin now_ms));
    match begun with
    | None => leave None
    | Some generated =>
      modify (λ c, c <| context_ := context |> <| descriptor_ := generated |>
        <| web_public_key_ := zeros kP256PublicKeyBytes |> <| transcript_ := [] |>
        <| active_ := true |> <| attempt_state_ := kAwaitingAuthorization |>);;
      mret (Some generated)
    end).

Definition authorize_input (c : AC) (web_public_key : bytes) : TranscriptInput :=
  mkTranscript (context_operation (context_ c)) (context_device_id (context_ c))
    (context_vault_id (context_ c)) (context_expected_generation (context_ c))
    (context_registration_id (context_ c)) (context_registration_epoch (context_ c))
    (attempt_id (descriptor_ c)) (challenge (descriptor_ c))
    (device_public_key (descriptor_ c)) web_public_key
    (context_current_brk (context_ c)) (context_proposed_brk (context_ c)).

Definition check_brk_signature (key transcript signature : bytes) (now_ms : Z) : attempt_op bool :=
  fn (
    leave_if (negb (Nat.eqb (length signature) kBrkSignatureBytes)) false;;
    call (on_crypto (verify_brk_signature key transcript signature now_ms))).

(** The two [if] statements on the signature: whether the attempt goes on. *)
Definition signature_accepted (transcript brk_signature : bytes) (now_ms : Z) : attempt_op bool := fn (
  c ← get_state;
  let current := context_current_brk (context_ c) in
  if brk_signature_required (context_operation (context_ c))
  then call (check_brk_signature current transcript brk_signature now_ms)
  else if negb (Nat.eqb (length brk_signature) 0) then
    leave_if (is_zero_public_key current) false;;
    call (check_brk_signature current transcript brk_signature now_ms)
  else mret true).

Definition attempt_authorize (web_public_key brk_signature : bytes) (now_ms : Z) : attempt_op bool := fn (
  c ← get_state;
  matched ← (if negb (active_ c) || negb (bool_decide (attempt_state_ c = kAwaitingAuthorization))
             then mret false
             else call (on_crypto (matches_attempt (attempt_id (descriptor_ c)) now_ms)));
  if negb matched then cancel_and_leave false
  else
  encoded ← call (on_crypto (on_keys (encode_transcript (authorize_input c web_public_key))));
  match encoded with
  | None => cancel_and_leave false
  | Some transcript =>
    accepted ← call (signature_accepted transcript brk_signature now_ms);
    if negb accepted then cancel_and_leave false
    else
    requested ← call (on_presence (begin_presence (presence_operation (context_operation (context_ c)))
                                     (attempt_id (descriptor_ c)) now_ms));
    if negb requested then cancel_and_leave false
    else
      modify (λ c, c <| web_public_key_ := web_public_key |> <| transcript_ := transcript |>
                     <| attempt_state_ := kAwaitingPresence |>);;
      mret true
  end).

(** The key written to [*vmk] when the function returns true. *)
Definition attempt_complete (nonce ciphertext tag : bytes) (now_ms : Z) : attempt_op (option bytes) := fn (
  c ← get_state;
  matched ← (if negb (active_ c)
                || (negb (bool_decide (attempt_state_ c = kAwaitingPresence))
                    && negb (bool_decide (attempt_state_ c = kConfirmed)))
             then mret false
             else call (on_crypto (matches_attempt (attempt_id (descriptor_ c)) now_ms)));
  if negb matched then cancel_and_leave None
  else
  consumed ← call (on_presence (consume_presence (attempt_id (descriptor_ c)) now_ms));
  if negb consumed then cancel_and_leave None
  else
    let salt := hkdf_salt (descriptor_ c) in
    opened ← call (on_crypto (open_vmk (web_public_key_ c) salt (transcript_ c) nonce ciphertext tag
                                (transcript_ c) now_ms));
    modify wipe_staged;;
    mret opened).

Definition attempt_expire (now_ms : Z) : attempt_op bool := fn (
  c ← get_state;
  leave_if (negb (active_ c)) false;;
  crypto_expired ← call (on_crypto (session_expire now_ms));
  if crypto_expired || (now_ms >=? expires_at_ms (descriptor_ c))
  then call attempt_cancel;; leave true
  else mret false).

Definition attempt_state (c : AC) : AttemptState :=
  if active_ c && bool_decide (attempt_state_ c = kAwaitingPresence) && presence_confirmed (presence_ c)
  then kConfirmed else attempt_state_ c.
End Coordinator.
