(* ===== verification/AttemptCorrect.v ===== *)
(** * Correctness of the attempt coordinator

    The coordinator as a transition system over its operations, with the button
    and the clock acting on the presence in between.  The invariant says what
    each state may hold; from it, a delivered key was authorised by everything
    the protocol asks for, and leaves nothing behind. *)

From S2P Require Import Prelude Bytes VaultCrypto Psa DeviceSession UserPresence Transcript Attempt.

Lemma fn_call_if {S R A} (b : bool) (a : A) (f : S → A * S) (k : A → ctl S R R) s x s1 :
  (if b then (a, s) else f s) = (x, s1) →
  fn ((if b then mret a else call f) ≫= k) s = fn (k x) s1.
Proof. destruct b; [by intros [= <- <-]|]. apply fn_call. Qed.

Ltac exec_matched E Hm :=
  match type of E with
  | fn (mbind _ (if ?b then mret ?a else call ?f)) ?s = _ =>
      let x := fresh "matched" in let s1 := fresh "sm" in
      destruct (if b then (a, s) else f s) as [x s1] eqn:Hm;
      rewrite (fn_call_if b a f _ s x s1 Hm) in E; cbv beta in E
  end.

Section Correct.
Context `{MbedtlsGcm} {P K : Type} `{PresenceBindingLaws P} `{PsaLaws K}.
Abbreviation AC := (AttemptCoordinator P K).
Implicit Types (c : AC) (base : gmap Z psa_key).

(** ** The invariant *)

(** Everything an attempt stages is zero. *)
Definition wiped c : Prop :=
  context_device_id (context_ c) = [] ∧ all_zero (context_vault_id (context_ c)) = true ∧
  context_expected_generation (context_ c) = 0 ∧
  all_zero (context_registration_id (context_ c)) = true ∧
  context_registration_epoch (context_ c) = 0 ∧
  all_zero (context_current_brk (context_ c)) = true ∧
  all_zero (context_proposed_brk (context_ c)) = true ∧
  all_zero (attempt_id (descriptor_ c)) = true ∧ all_zero (challenge (descriptor_ c)) = true ∧
  all_zero (device_public_key (descriptor_ c)) = true ∧ expires_at_ms (descriptor_ c) = 0 ∧
  all_zero (web_public_key_ c) = true ∧ transcript_ c = [] ∧ attempt_state_ c = kIdle.

(** The browser has proved what the operation requires of it. *)
Definition authenticated c : Prop :=
  brk_signature_required (context_operation (context_ c)) = true →
  ∃ signature, signs (context_current_brk (context_ c)) (sha256 (transcript_ c)) signature.

(** What is staged when presence is asked for. *)
Definition staged c : Prop :=
  let input := authorize_input c (web_public_key_ c) in
  transcript_ c = transcript_bytes input ∧ transcript_operation_ok input = true ∧ authenticated c.

Definition coordinator_ok base c : Prop :=
  if active_ c then
    live base (descriptor_ c) (crypto_ c) ∧
    (attempt_state_ c = kAwaitingAuthorization ∨ attempt_state_ c = kAwaitingPresence ∧ staged c)
  else idle base (crypto_ c) ∧ wiped c.

Definition ended base c : Prop :=
  active_ c = false ∧ idle base (crypto_ c) ∧ wiped c.

(** ** The pieces *)

Lemma on_crypto_inv {A} (f : Impl * K → A * (Impl * K)) c a c' :
  on_crypto f c = (a, c') → ∃ s, f (crypto_ c) = (a, s) ∧ c' = c <| crypto_ := s |>.
Proof. unfold on_crypto. destruct (f (crypto_ c)) as [b s]. intros [= <- <-]. eauto. Qed.
Lemma on_presence_inv {A} (f : P → A * P) c a c' :
  on_presence f c = (a, c') → ∃ p, f (presence_ c) = (a, p) ∧ c' = c <| presence_ := p |>.
Proof. unfold on_presence. destruct (f (presence_ c)) as [b s]. intros [= <- <-]. eauto. Qed.

Lemma coordinator_owns base c : coordinator_ok base c → owns base (crypto_ c).
Proof.
  unfold coordinator_ok. destruct (active_ c); intros [Ho _]; [by eapply live_owns|by apply idle_owns].
Qed.

Lemma live_keys base d i k k' : live base d (i, k) → psa_keys k' = psa_keys k → live base d (i, k').
Proof. unfold live. cbn. by intros Hl ->. Qed.
Lemma owns_keys base i k k' : owns base (i, k) → psa_keys k' = psa_keys k → owns base (i, k').
Proof. unfold owns. cbn. by intros Hl ->. Qed.

Lemma idle_keys base s k : idle base s → psa_keys k = psa_keys (snd s) → idle base (fst s, k).
Proof. intros [Hi Hk] E. split; cbn; congruence. Qed.

Lemma wiped_staged c : wiped (wipe_staged c).
Proof. unfold wiped, wipe_staged, wipe. cbn. split_and!; done || apply all_zero_zeros. Qed.

Lemma cancel_spec base c x c' :
  owns base (crypto_ c) → attempt_cancel c = (x, c') →
  ended base c' ∧ ∀ id, ¬ presence_given (presence_ c') id.
Proof.
  intros Ho E. unfold attempt_cancel in E. exec E.
  apply on_crypto_inv in Ef as (sc & Hs & ->). apply on_presence_inv in Ef0 as (p & Hp & ->).
  unfold session_cancel in Hs. apply (reset_spec base) in Hs; [|done].
  split; [|by eapply cancel_presence_law]. split_and!; [done|done|apply wiped_staged].
Qed.

Lemma cancel_leave_spec {R} base (r0 r : R) c c' :
  owns base (crypto_ c) → fn (cancel_and_leave r0) c = (r, c') → r = r0 ∧ ended base c'.
Proof.
  intros Ho E. unfold cancel_and_leave in E. exec E. split; [done|]. by eapply cancel_spec.
Qed.

Lemma ended_ok base c : ended base c → coordinator_ok base c.
Proof. intros (Ha & Hi & Hw). unfold coordinator_ok. by rewrite Ha. Qed.

Lemma context_valid_keys context k b k' :
  context_valid context k = (b, k') → psa_keys k' = psa_keys k.
Proof.
  intros E. unfold context_valid in E. exec E; try done.
  all: repeat match goal with
    | Hv : valid_optional_p256_identity _ _ = _ |- _ => apply valid_optional_spec in Hv as [? _]
    end; congruence.
Qed.

Lemma ok_begin base context now_ms c r c' :
  coordinator_ok base c → attempt_begin context now_ms c = (r, c') → coordinator_ok base c'.
Proof.
  intros Hok%coordinator_owns E. unfold attempt_begin in E. exec E.
  all: apply (cancel_spec base) in Ef as [Hend _]; [|done].
  all: destruct Hend as (Ha & Hi & Hw); apply on_crypto_inv in Ef0 as (sc & Hv & ->);
    apply on_keys_inv in Hv as (k & Hv & ->); apply context_valid_keys in Hv.
  all: eapply idle_keys in Hi; [|exact Hv].
  all: try (apply on_crypto_inv in Ef1 as (sb & Hb & ->); apply (begin_spec base) in Hb;
            [|by apply idle_owns]).
  - apply ended_ok. by split_and!.
  - destruct Hb as [Hl _]. unfold coordinator_ok. cbn. auto.
  - apply ended_ok. by split_and!.
Qed.

(** The signature checks leave the attempt alive, or its session reset. *)
Lemma check_signature_spec base d key transcript sig now_ms c b c' :
  live base d (crypto_ c) → check_brk_signature key transcript sig now_ms c = (b, c') →
  ∃ s, c' = c <| crypto_ := s |> ∧ owns base s ∧
       (b = true → live base d s ∧ signs key (sha256 transcript) sig).
Proof.
  intros Hl E. unfold check_brk_signature in E. exec E.
  - exists (crypto_ c'). destruct c'; split_and!; [done|by eapply live_owns|done].
  - apply on_crypto_inv in E as (sc & Hv & ->).
    apply (verify_signature_spec base d) in Hv; [|done]. exists sc. split; [done|].
    destruct b.
    + destruct Hv as (? & _ & ?). split; [by eapply live_owns|done].
    + split; [by apply idle_owns|done].
Qed.

Lemma signature_accepted_spec base d transcript sig now_ms c b c' :
  live base d (crypto_ c) → signature_accepted transcript sig now_ms c = (b, c') →
  ∃ s, c' = c <| crypto_ := s |> ∧ owns base s ∧
       (b = true → live base d s ∧
          (brk_signature_required (context_operation (context_ c)) = true →
           signs (context_current_brk (context_ c)) (sha256 transcript) sig)).
Proof.
  intros Hl E. pose proof (live_owns _ _ _ Hl) as Ho. unfold signature_accepted in E. exec E.
  1,3: apply (check_signature_spec base d) in E as (sc & ? & ? & Hs); [|done]; exists sc;
       split_and!; [done|done|]; intros Hb; destruct (Hs Hb); split; congruence || done.
  all: exists (crypto_ c'); destruct c'; split_and!; try done; congruence.
Qed.

Lemma ok_live base c : coordinator_ok base c → active_ c = true → live base (descriptor_ c) (crypto_ c).
Proof. unfold coordinator_ok. intros Hok Ha. rewrite Ha in Hok. by destruct Hok. Qed.

(** The first lines of [authorize] and [complete]. *)
Lemma matched_spec base (wrong : bool) now_ms c b c' :
  coordinator_ok base c → (wrong = false → active_ c = true) →
  (if wrong then (false, c)
   else on_crypto (matches_attempt (attempt_id (descriptor_ c)) now_ms) c) = (b, c') →
  if b then c' = c ∧ wrong = false ∧ now_ms < expires_at_ms (descriptor_ c)
  else owns base (crypto_ c').
Proof.
  intros Hok Ha E. destruct wrong.
  - injection E as <- <-. by apply coordinator_owns.
  - apply on_crypto_inv in E as (sc & Hm & ->).
    apply (matches_spec base (descriptor_ c)) in Hm; [|apply ok_live; auto].
    destruct b; [|by apply idle_owns]. destruct Hm as (-> & _ & ?). by destruct c.
Qed.

Lemma ok_authorize base web sig now_ms c b c' :
  coordinator_ok base c → attempt_authorize web sig now_ms c = (b, c') → coordinator_ok base c'.
Proof.
  intros Hok E. unfold attempt_authorize in E. rewrite fn_get in E. exec_matched E Hm.
  apply (matched_spec base) in Hm; [|done|by destruct (active_ c)].
  destruct matched; cbn [negb] in E.
  2: { apply (cancel_leave_spec base) in E as [-> ?]; [by apply ended_ok|done]. }
  destruct Hm as (-> & Hw & _).
  assert (Ha : active_ c = true) by (by destruct (active_ c)).
  pose proof (ok_live _ _ Hok Ha) as Hl. exec E.
  all: apply on_crypto_inv in Ef as (sc & Hv & ->); apply on_keys_inv in Hv as (k & Hv & ->);
    apply encode_transcript_spec in Hv as [Hk Ht]; eapply live_keys in Hk;
    [|by rewrite <- surjective_pairing].
  4: { apply (cancel_leave_spec base) in E as [-> ?]; [by apply ended_ok|by eapply live_owns]. }
  all: apply (signature_accepted_spec base (descriptor_ c)) in Ef0 as (ss & -> & Hso & Hs); [|done].
  { apply (cancel_leave_spec base) in E as [-> ?]; [by apply ended_ok|done]. }
  all: apply on_presence_inv in Ef1 as (p & Hp & ->).
  { apply (cancel_leave_spec base) in E as [-> ?]; [by apply ended_ok|done]. }
  apply negb_false_iff in Eb. destruct (Hs Eb) as [Hlive Hsig].
  destruct (Ht _ eq_refl) as (-> & _ & _ & Hop & _).
  unfold coordinator_ok. cbn in *. rewrite Ha. split; [done|]. right. split; [done|].
  split_and!; [done|done|]. intros Hreq. exists sig. cbn in *. by apply Hsig.
Qed.

Lemma complete_spec base nonce ct tag now_ms c r c' :
  coordinator_ok base c → attempt_complete nonce ct tag now_ms c = (r, c') →
  ended base c' ∧
  ∀ vmk, r = Some vmk →
    active_ c = true ∧ staged c ∧ presence_given (presence_ c) (attempt_id (descriptor_ c)) ∧
    now_ms < expires_at_ms (descriptor_ c) ∧ descriptor_wf (descriptor_ c) ∧
    delivered (descriptor_ c) (web_public_key_ c) (hkdf_salt (descriptor_ c)) (transcript_ c)
      nonce ct tag (transcript_ c) vmk.
Proof.
  intros Hok E. unfold attempt_complete in E. rewrite fn_get in E. exec_matched E Hm.
  apply (matched_spec base) in Hm; [|done|by destruct (active_ c)].
  destruct matched; cbn [negb] in E.
  2: { by apply (cancel_leave_spec base) in E as [-> ?]. }
  destruct Hm as (-> & Hw & Hexp).
  apply orb_false_iff in Hw as [Ha%negb_false_iff Hw].
  pose proof (ok_live _ _ Hok Ha) as Hl. exec E.
  all: apply on_presence_inv in Ef as (p & Hp & ->).
  { apply (cancel_leave_spec base) in E as [-> ?]; [done|by eapply live_owns]. }
  apply on_crypto_inv in Ef0 as (sc & Ho & ->).
  apply (open_vmk_spec base (descriptor_ c)) in Ho as [Hi Hd]; [|done].
  split; [by split_and!; [..|apply wiped_staged]|]. intros vmk ->.
  apply negb_false_iff in Eb as ->. apply consume_presence_law in Hp as [Hg _].
  destruct (Hd vmk eq_refl) as [Hdel _]. destruct Hl as (_ & _ & _ & _ & Hwf & _).
  unfold coordinator_ok in Hok. rewrite Ha in Hok. destruct Hok as (_ & [Hs|[_ Hs]]).
  - rewrite Hs in Hw. done.
  - by split_and!.
Qed.

Lemma ok_expire base now_ms c b c' :
  coordinator_ok base c → attempt_expire now_ms c = (b, c') → coordinator_ok base c'.
Proof.
  intros Hok E. unfold attempt_expire in E. exec E; [done| |].
  all: apply negb_false_iff in Ec as Ha; pose proof (ok_live _ _ Hok Ha) as Hl.
  all: apply on_crypto_inv in Ef as (sc & Hx & ->); unfold session_expire in Hx; exec Hx.
  all: try done.
  - eapply (cancel_spec base) in Ef0 as [? _]; [by apply ended_ok|by eapply live_owns].
  - eapply (cancel_spec base) in Ef0 as [? _]; [by apply ended_ok|].
    apply idle_owns. eapply reset_spec; [by eapply live_owns|done].
Qed.

(** ** The transition system *)

Inductive attempt_step : AC → AC → Prop :=
  | attempt_step_begin context now_ms c r c' :
      attempt_begin context now_ms c = (r, c') → attempt_step c c'
  | attempt_step_authorize web sig now_ms c b c' :
      attempt_authorize web sig now_ms c = (b, c') → attempt_step c c'
  | attempt_step_complete nonce ct tag now_ms c r c' :
      attempt_complete nonce ct tag now_ms c = (r, c') → attempt_step c c'
  | attempt_step_expire now_ms c b c' :
      attempt_expire now_ms c = (b, c') → attempt_step c c'
  | attempt_step_cancel c x c' : attempt_cancel c = (x, c') → attempt_step c c'
  (** The button, the clock and the display act on the presence. *)
  | attempt_step_presence p c : attempt_step c (c <| presence_ := p |>).

Inductive attempt_reachable (base : gmap Z psa_key) : AC → Prop :=
  | attempt_reachable_new p k : psa_keys k = base → attempt_reachable base (new_coordinator p k)
  | attempt_reachable_step c c' : attempt_reachable base c → attempt_step c c' → attempt_reachable base c'.

Lemma ok_step base c c' : coordinator_ok base c → attempt_step c c' → coordinator_ok base c'.
Proof.
  intros Hok Hs. destruct Hs as [? ? ? ? ? E|? ? ? ? ? ? E|? ? ? ? ? ? ? E|? ? ? ? E|? ? ? E|].
  - eapply ok_begin; [exact Hok|exact E].
  - eapply ok_authorize; [exact Hok|exact E].
  - apply ended_ok. eapply complete_spec; [exact Hok|exact E].
  - eapply ok_expire; [exact Hok|exact E].
  - apply ended_ok. eapply cancel_spec; [by apply coordinator_owns|exact E].
  - exact Hok.
Qed.

Lemma reachable_ok base c : attempt_reachable base c → coordinator_ok base c.
Proof.
  induction 1 as [p k Hk|c c' _ IH Hs]; [by split_and!|by eapply ok_step].
Qed.
End Correct.

(** C22: At every moment, whatever calls were made and however they ended: without
    an attempt, every staged field is zero and the key store holds exactly the
    keys of others; with one, the store holds one more, the ephemeral key pair
    whose public point was announced, and once presence is asked for the staged
    transcript is that of the attempt and the browser's key has signed it where
    the operation requires it. *)
Theorem attempt_invariant `{MbedtlsGcm} {P K} `{PresenceBindingLaws P} `{PsaLaws K}
    base (c : AttemptCoordinator P K) :
  attempt_reachable base c →
  if active_ c then
    psa_keys (snd (crypto_ c)) =
      <[key_id (fst (crypto_ c)) := KeyPair (device_public_key (descriptor_ c))]> base ∧
    base !! key_id (fst (crypto_ c)) = None ∧
    (attempt_state_ c = kAwaitingAuthorization ∨ attempt_state_ c = kAwaitingPresence ∧ staged c)
  else psa_keys (snd (crypto_ c)) = base ∧ wiped c.
Proof.
  intros Hr%reachable_ok. unfold coordinator_ok in Hr. destruct (active_ c).
  - destruct Hr as ((_ & _ & _ & Hb & _ & Hk) & Hs). auto.
  - destruct Hr as ([_ Hk] & Hw). auto.
Qed.

(** C3: A Vault Master Key is delivered only when everything was in order: the
    transcript is that of the attempt, the registered browser signed it where
    the operation requires a signature, the user confirmed this attempt, the
    deadline has not passed, and the key is the one sealed under the session
    key both sides derive, with the transcript as context and authenticated
    data.  Delivered or not, the attempt is over: its key pair is destroyed,
    everything staged is wiped, and another delivery yields nothing. *)
Theorem delivery_authorised `{GcmLaws} {P K} `{PresenceBindingLaws P} `{PsaLaws K}
    base (c c' : AttemptCoordinator P K) nonce ct tag now_ms r :
  attempt_reachable base c → attempt_complete nonce ct tag now_ms c = (r, c') →
  (∀ vmk, r = Some vmk →
     presence_given (presence_ c) (attempt_id (descriptor_ c)) ∧
     now_ms < expires_at_ms (descriptor_ c) ∧
     transcript_ c = transcript_bytes (authorize_input c (web_public_key_ c)) ∧ authenticated c ∧
     ∃ session_key,
       mbedtls_hkdf (hkdf_salt (descriptor_ c))
         (ecdh (web_public_key_ c) (device_public_key (descriptor_ c))) (transcript_ c) = (0, session_key) ∧
       mbedtls_gcm_crypt_and_tag session_key nonce (transcript_ c) vmk = (0, ct, tag)) ∧
  psa_keys (snd (crypto_ c')) = base ∧ wiped c' ∧
  ∀ nonce' ct' tag' now_ms', fst (attempt_complete nonce' ct' tag' now_ms' c') = None.
Proof.
  intros Hr%reachable_ok E. apply (complete_spec base) in E as [Hend Hd]; [|done].
  pose proof (ended_ok _ _ Hend) as Hok'. destruct Hend as (Ha & [_ Hk] & Hw).
  split_and!; [|done|done|].
  - intros vmk Hv. destruct (Hd vmk Hv) as (_ & (Ht & _ & Hauth) & Hg & Hexp & _ & key & Hkdf & Hdec).
    split_and!; [done..|]. exists key. unfold derive_hkdf, decrypt_vmk_gcm in *.
    destruct (mbedtls_hkdf _ _ _) as [code bs] eqn:Eh in Hkdf.
    destruct (Z.eqb_spec code 0) as [->|]; [|done]. injection Hkdf as ->.
    rewrite ecdh_sym, Eh. split; [done|]. destruct (_ =? 0); [|done].
    destruct (mbedtls_gcm_auth_decrypt _ _ _ _ _) as [code' p] eqn:Ed.
    destruct (Z.eqb_spec code' 0) as [->|]; [|done]. injection Hdec as ->. by apply gcm_decrypts.
  - intros nonce' ct' tag' now_ms'.
    destruct (attempt_complete nonce' ct' tag' now_ms' c') as [r' c2] eqn:E. cbn.
    apply (complete_spec base) in E as [_ Hd']; [|done]. destruct r' as [vmk|]; [|done].
    destruct (Hd' vmk eq_refl) as [? _]. congruence.
Qed.

(** ** An unlock, step by step *)

Module AttemptSample.
#[local] Existing Instance checksum_gcm.
#[local] Existing Instance checksum_gcm_laws.

Definition browser_key : bytes := toy_point 40.
Definition web_key : bytes := toy_point 50.
Definition vmk : bytes := seqZ 200 32.

Definition unlock_context : BeginContext :=
  mkContext Operation.kTrustedBrowserUnlock (str "stick-1") (seqZ 100 16) 4 (seqZ 30 16) 2
    browser_key (zeros 65).

Abbreviation Coordinator := (AttemptCoordinator CanonicalPresence ToyKeys).
Definition idle_device : Coordinator := new_coordinator (mkPresence 7 idle_gate) fresh_keys.
Definition begun : Coordinator := Eval vm_compute in snd (attempt_begin unlock_context 1000 idle_device).

(** The browser's side. *)
Definition transcript : bytes := Eval vm_compute in transcript_bytes (authorize_input begun web_key).
Definition signature : bytes := Eval vm_compute in toy_signature browser_key (toy_digest transcript).
Definition session_key : bytes := Eval vm_compute in
  snd (mbedtls_hkdf (hkdf_salt (descriptor_ begun))
         (toy_ecdh web_key (device_public_key (descriptor_ begun))) transcript).
Definition sealed := Eval vm_compute in
  mbedtls_gcm_crypt_and_tag session_key sample_nonce transcript vmk.

Definition authorized : Coordinator := Eval vm_compute in
  snd (attempt_authorize web_key signature 2000 begun).
Definition press (p : CanonicalPresence) : CanonicalPresence :=
  snd (button_pressed 3000
    (observe_button_state true (observe_button_state false (observe_button_state false p)))).
Definition pressed : Coordinator := Eval vm_compute in
  authorized <| presence_ := press (presence_ authorized) |>.
Definition delivered_to : option bytes * Coordinator :=
  attempt_complete sample_nonce (snd (fst sealed)) (snd sealed) 4000 pressed.

Lemma reachable_authorized : attempt_reachable ∅ authorized.
Proof.
  apply (attempt_reachable_step _ begun).
  - apply (attempt_reachable_step _ idle_device); [by apply attempt_reachable_new|].
    eapply (attempt_step_begin unlock_context 1000). vm_compute. reflexivity.
  - eapply (attempt_step_authorize web_key signature 2000). vm_compute. reflexivity.
Qed.

Lemma reachable_pressed : attempt_reachable ∅ pressed.
Proof.
  apply (attempt_reachable_step _ authorized); [apply reachable_authorized|].
  exact (attempt_step_presence (press (presence_ authorized)) authorized).
Qed.

Lemma attempt_invariant_witness : attempt_state_ authorized = kAwaitingPresence ∧ staged authorized.
Proof.
  pose proof (attempt_invariant ∅ authorized reachable_authorized) as H. cbn in H.
  destruct H as (_ & _ & [Hs|Hs]); [discriminate Hs|exact Hs].
Defined.

Lemma delivery_authorised_witness :
  fst delivered_to = Some vmk ∧ presence_given (presence_ pressed) (attempt_id (descriptor_ pressed)).
Proof.
  assert (Hv : fst delivered_to = Some vmk) by (vm_compute; reflexivity).
  split; [exact Hv|].
  destruct (delivery_authorised ∅ pressed (snd delivered_to) sample_nonce (snd (fst sealed))
    (snd sealed) 4000 (fst delivered_to) reachable_pressed) as [Hd _].
  { exact (surjective_pairing delivered_to). }
  destruct (Hd vmk Hv) as [Hg _]. exact Hg.
Defined.

(** ** The gate alone *)

Definition request := snd (gate_begin kPresenceTrustedBrowserUnlock (seqZ 9 16) 1000 7 idle_gate).
Definition gesture_events : list gate_event :=
  [Observe true; Observe false; Confirm 1500 8; Observe false; Observe true; Confirm 2000 9].

Lemma authorisation_needs_gesture_witness :
  fst (consume_confirmation (seqZ 9 16) 2500 (foldl gate_step request gesture_events)) = true ∧
  fst (consume_confirmation (seqZ 9 16) 2600
    (snd (consume_confirmation (seqZ 9 16) 2500 (foldl gate_step request gesture_events)))) = false.
Proof.
  assert (Hc : fst (consume_confirmation (seqZ 9 16) 2500 (foldl gate_step request gesture_events)) = true)
    by (vm_compute; reflexivity).
  split; [exact Hc|].
  destruct (authorisation_needs_gesture kPresenceTrustedBrowserUnlock (seqZ 9 16) 1000 7 idle_gate
    gesture_events (seqZ 9 16) 2500 Hc) as (_ & _ & _ & Honce).
  exact (Honce [] (seqZ 9 16) 2600).
Defined.

Lemma transcript_binding_witness :
  fst (encode_transcript (authorize_input begun web_key) fresh_keys) = Some transcript ∧
  ∀ i k', input_wf i → encode_transcript i fresh_keys = (Some transcript, k') →
    i = authorize_input begun web_key.
Proof.
  assert (He : encode_transcript (authorize_input begun web_key) fresh_keys =
    (Some transcript, snd (encode_transcript (authorize_input begun web_key) fresh_keys)))
    by (vm_compute; reflexivity).
  split; [rewrite He; reflexivity|]. intros i k' Hi E.
  assert (Hw : input_wf (authorize_input begun web_key)).
  { split_and!; try reflexivity; vm_compute; split; congruence. }
  exact (transcript_binding i (authorize_input begun web_key) transcript fresh_keys fresh_keys _ _ Hi Hw E He).
Defined.
End AttemptSample.
