(* ===== verification/Binding.v ===== *)
(** * Which attempts a device accepts

    [session_binding_v2.cpp]: an attempt is started, authorised and completed
    only while its context fits the Vault and the registration on the device.
    The theorem spells the accepted contexts out: for an unlock or a re-key
    there is exactly one. *)

From S2P Require Import Prelude Bytes VaultCrypto Psa DeviceSession UserPresence Transcript Attempt.

Record SessionV2DeviceSnapshot := mkDeviceSnapshot {
  snapshot_device_id : bytes;
  snapshot_vault_present : bool;
  snapshot_vault_id : bytes;
  snapshot_generation : Z;
  snapshot_registration_present : bool;
  snapshot_registration_id : bytes;
  snapshot_registration_epoch : Z;
  snapshot_brk : bytes;
}.

#[export] Instance eta_device_snapshot : Eta SessionV2DeviceSnapshot := λ s,
  mkDeviceSnapshot (snapshot_device_id s) (snapshot_vault_present s) (snapshot_vault_id s)
    (snapshot_generation s) (snapshot_registration_present s) (snapshot_registration_id s)
    (snapshot_registration_epoch s) (snapshot_brk s).

Definition empty_device_snapshot : SessionV2DeviceSnapshot :=
  mkDeviceSnapshot [] false (zeros kSessionVaultIdBytes) 0 false (zeros kRegistrationIdBytes) 0
    (zeros kP256PublicKeyBytes).

(** The loop over two arrays of the same size. *)
Definition same_bytes (left right : bytes) : bool := difference left right =? 0.

Definition existing_vault_matches (context : BeginContext) (snapshot : SessionV2DeviceSnapshot) : bool :=
  snapshot_vault_present snapshot
  && same_bytes (context_vault_id context) (snapshot_vault_id snapshot)
  && (context_expected_generation context =? snapshot_generation snapshot).

Definition existing_registration_matches (context : BeginContext) (snapshot : SessionV2DeviceSnapshot)
    : bool :=
  snapshot_registration_present snapshot
  && same_bytes (context_registration_id context) (snapshot_registration_id snapshot)
  && (context_registration_epoch context =? snapshot_registration_epoch snapshot).

Definition replacement_registration_is_next (context : BeginContext)
    (snapshot : SessionV2DeviceSnapshot) : bool :=
  if negb (snapshot_registration_present snapshot)
     || (snapshot_registration_epoch snapshot =? u32_max) then false
  else
    negb (all_zero (context_registration_id context))
    && negb (same_bytes (context_registration_id context) (snapshot_registration_id snapshot))
    && (context_registration_epoch context =? snapshot_registration_epoch snapshot + 1).

Definition current_brk_is_device_owned (context : BeginContext) (snapshot : SessionV2DeviceSnapshot)
    (optional : bool) : bool :=
  if negb (snapshot_registration_present snapshot) || all_zero (snapshot_brk snapshot) then false
  else if all_zero (context_current_brk context) then optional
  else same_bytes (context_current_brk context) (snapshot_brk snapshot).

Definition clean_unprovisioned_snapshot (snapshot : SessionV2DeviceSnapshot) : bool :=
  negb (snapshot_vault_present snapshot)
  && (snapshot_generation snapshot =? 0)
  && all_zero (snapshot_vault_id snapshot)
  && negb (snapshot_registration_present snapshot)
  && (snapshot_registration_epoch snapshot =? 0)
  && all_zero (snapshot_registration_id snapshot)
  && all_zero (snapshot_brk snapshot).

Definition clean_device_recovery_matches (context : BeginContext) (snapshot : SessionV2DeviceSnapshot)
    : bool :=
  clean_unprovisioned_snapshot snapshot
  && negb (all_zero (context_vault_id context))
  && (context_expected_generation context >? 0)
  && (context_registration_epoch context =? 1)
  && negb (all_zero (context_registration_id context))
  && all_zero (context_current_brk context)
  && negb (all_zero (context_proposed_brk context)).

Definition replacement_matches (context : BeginContext) (snapshot : SessionV2DeviceSnapshot) : bool :=
  existing_vault_matches context snapshot
  && replacement_registration_is_next context snapshot
  && current_brk_is_device_owned context snapshot true
  && negb (all_zero (context_proposed_brk context))
  && negb (same_bytes (context_proposed_brk context) (snapshot_brk snapshot)).

Definition session_v2_begin_matches_snapshot (context : BeginContext)
    (snapshot : SessionV2DeviceSnapshot) : bool :=
  if Nat.eqb (length (snapshot_device_id snapshot)) 0
     || negb (bool_decide (context_device_id context = snapshot_device_id snapshot)) then false
  else
    match context_operation context with
    | Operation.kInitialProvisioning =>
      clean_unprovisioned_snapshot snapshot
      && (context_expected_generation context =? 0)
      && (context_registration_epoch context =? 0)
      && negb (all_zero (context_registration_id context))
      && all_zero (context_current_brk context)
      && negb (all_zero (context_proposed_brk context))
    | Operation.kTrustedBrowserUnlock | Operation.kVmkRekey =>
      existing_vault_matches context snapshot
      && existing_registration_matches context snapshot
      && current_brk_is_device_owned context snapshot false
      && all_zero (context_proposed_brk context)
    | Operation.kRecovery =>
      if clean_device_recovery_matches context snapshot then true
      else replacement_matches context snapshot
    | Operation.kBrowserReplacement => replacement_matches context snapshot
    end.

(** ** The accepted contexts *)

(** The arrays have the sizes of their types. *)
Definition context_wf (c : BeginContext) : Prop :=
  length (context_vault_id c) = kSessionVaultIdBytes ∧
  length (context_registration_id c) = kRegistrationIdBytes ∧
  length (context_current_brk c) = kP256PublicKeyBytes ∧
  length (context_proposed_brk c) = kP256PublicKeyBytes.
Definition snapshot_wf (s : SessionV2DeviceSnapshot) : Prop :=
  length (snapshot_vault_id s) = kSessionVaultIdBytes ∧
  length (snapshot_registration_id s) = kRegistrationIdBytes ∧
  length (snapshot_brk s) = kP256PublicKeyBytes.

Definition zero_key : bytes := zeros kP256PublicKeyBytes.
Definition zero_id : bytes := zeros 16.

(** A device without Vault and registration. *)
Definition clean (s : SessionV2DeviceSnapshot) : Prop :=
  s = empty_device_snapshot <| snapshot_device_id := snapshot_device_id s |>.

(** A device with both, registered to a real key. *)
Definition provisioned (s : SessionV2DeviceSnapshot) : Prop :=
  snapshot_vault_present s = true ∧ snapshot_registration_present s = true ∧ snapshot_brk s ≠ zero_key.

Inductive accepted (s : SessionV2DeviceSnapshot) : BeginContext → Prop :=
  | accept_owner op :
      op = Operation.kTrustedBrowserUnlock ∨ op = Operation.kVmkRekey → provisioned s →
      accepted s (mkContext op (snapshot_device_id s) (snapshot_vault_id s) (snapshot_generation s)
        (snapshot_registration_id s) (snapshot_registration_epoch s) (snapshot_brk s) zero_key)
  | accept_initial vault registration key :
      clean s → registration ≠ zero_id → key ≠ zero_key →
      accepted s (mkContext Operation.kInitialProvisioning (snapshot_device_id s) vault 0
        registration 0 zero_key key)
  | accept_clean_recovery vault generation registration key :
      clean s → vault ≠ zero_id → 0 < generation → registration ≠ zero_id → key ≠ zero_key →
      accepted s (mkContext Operation.kRecovery (snapshot_device_id s) vault generation
        registration 1 zero_key key)
  | accept_replacement op registration current key :
      op = Operation.kRecovery ∨ op = Operation.kBrowserReplacement → provisioned s →
      snapshot_registration_epoch s ≠ u32_max →
      registration ≠ zero_id → registration ≠ snapshot_registration_id s →
      current = zero_key ∨ current = snapshot_brk s →
      key ≠ zero_key → key ≠ snapshot_brk s →
      accepted s (mkContext op (snapshot_device_id s) (snapshot_vault_id s) (snapshot_generation s)
        registration (snapshot_registration_epoch s + 1) current key).

Lemma all_zero_bool l n : length l = n → all_zero l = bool_decide (l = zeros n).
Proof. intros <-. apply eq_true_iff_eq. by rewrite all_zero_spec, bool_decide_eq_true. Qed.

Lemma same_bytes_bool l r : length l = length r → same_bytes l r = bool_decide (l = r).
Proof.
  intros Hl. apply eq_true_iff_eq. unfold same_bytes. rewrite Z.eqb_eq, bool_decide_eq_true.
  split; [by apply difference_eq|]. intros ->. apply difference_refl.
Qed.

#[export] Hint Rewrite negb_true_iff negb_false_iff orb_true_iff orb_false_iff
  andb_true_iff andb_false_iff bool_decide_eq_true bool_decide_eq_false
  Z.eqb_eq Z.eqb_neq Nat.eqb_eq Nat.eqb_neq Z.gtb_ltb Z.ltb_lt Z.ltb_ge : binding_bools.

Section Spec.
Context (c : BeginContext) (s : SessionV2DeviceSnapshot) (Hc : context_wf c) (Hs : snapshot_wf s).

#[local] Ltac specs :=
  destruct Hc as (? & ? & ? & ?), Hs as (? & ? & ?);
  repeat first [ rewrite same_bytes_bool by congruence
               | rewrite (all_zero_bool _ 16) by done
               | rewrite (all_zero_bool _ kP256PublicKeyBytes) by done ];
  autorewrite with binding_bools.

Lemma clean_spec : clean_unprovisioned_snapshot s = true ↔ clean s.
Proof.
  unfold clean_unprovisioned_snapshot, clean. specs. destruct s; cbn. split.
  - intros ((((((-> & ->) & ->) & ->) & ->) & ->) & ->). done.
  - by intros [= -> -> -> -> -> -> ->].
Qed.

Lemma owned_spec optional :
  current_brk_is_device_owned c s optional = true ↔
  snapshot_registration_present s = true ∧ snapshot_brk s ≠ zero_key ∧
  (if bool_decide (context_current_brk c = zero_key) then optional = true
   else context_current_brk c = snapshot_brk s).
Proof.
  unfold current_brk_is_device_owned. specs.
  destruct (snapshot_registration_present s); cbn; [|by split; [|intros []]].
  fold zero_key. case_bool_decide; [by split; [|intros (? & ? & ?)]|].
  case_bool_decide; [by split; [|intros (_ & _ & ?)]|]. rewrite bool_decide_eq_true. tauto.
Qed.

Lemma vault_spec :
  existing_vault_matches c s = true ↔
  snapshot_vault_present s = true ∧ context_vault_id c = snapshot_vault_id s ∧
  context_expected_generation c = snapshot_generation s.
Proof. unfold existing_vault_matches. specs. tauto. Qed.

Lemma registration_spec :
  existing_registration_matches c s = true ↔
  snapshot_registration_present s = true ∧ context_registration_id c = snapshot_registration_id s ∧
  context_registration_epoch c = snapshot_registration_epoch s.
Proof. unfold existing_registration_matches. specs. tauto. Qed.

Lemma next_spec :
  replacement_registration_is_next c s = true ↔
  snapshot_registration_present s = true ∧ snapshot_registration_epoch s ≠ u32_max ∧
  context_registration_id c ≠ zero_id ∧ context_registration_id c ≠ snapshot_registration_id s ∧
  context_registration_epoch c = snapshot_registration_epoch s + 1.
Proof.
  unfold replacement_registration_is_next. specs.
  destruct (snapshot_registration_present s); cbn; [|by split; [|intros []]].
  destruct (Z.eqb_spec (snapshot_registration_epoch s) u32_max) as [E|E];
    [by split; [|intros (_ & ? & _)]|].
  autorewrite with binding_bools. unfold zero_id. tauto.
Qed.

Lemma replacement_spec :
  replacement_matches c s = true ↔
  provisioned s ∧ context_vault_id c = snapshot_vault_id s ∧
  context_expected_generation c = snapshot_generation s ∧
  snapshot_registration_epoch s ≠ u32_max ∧
  context_registration_id c ≠ zero_id ∧ context_registration_id c ≠ snapshot_registration_id s ∧
  context_registration_epoch c = snapshot_registration_epoch s + 1 ∧
  (context_current_brk c = zero_key ∨ context_current_brk c = snapshot_brk s) ∧
  context_proposed_brk c ≠ zero_key ∧ context_proposed_brk c ≠ snapshot_brk s.
Proof.
  unfold replacement_matches, provisioned. rewrite !andb_true_iff, vault_spec, next_spec, owned_spec.
  specs. case_bool_decide; unfold zero_key in *; naive_solver.
Qed.
End Spec.

Lemma begin_matches_spec c s :
  context_wf c → snapshot_wf s →
  session_v2_begin_matches_snapshot c s = true ↔ snapshot_device_id s ≠ [] ∧ accepted s c.
Proof.
  intros Hc Hs. unfold session_v2_begin_matches_snapshot.
  assert (Hdev : Nat.eqb (length (snapshot_device_id s)) 0
                 || negb (bool_decide (context_device_id c = snapshot_device_id s)) = false ↔
                 snapshot_device_id s ≠ [] ∧ context_device_id c = snapshot_device_id s).
  { autorewrite with binding_bools. destruct (snapshot_device_id s); cbn; naive_solver. }
  destruct (_ || _) eqn:Ed.
  { split; [done|]. intros [Hne Ha]. exfalso.
    assert (true = false) by (apply Hdev; split; [done|by destruct Ha]). done. }
  destruct (proj1 Hdev eq_refl) as [Hne Heq]. clear Hdev Ed.
  assert (Hrecovery : clean_device_recovery_matches c s = true ↔
    clean s ∧ context_vault_id c ≠ zero_id ∧ 0 < context_expected_generation c ∧
    context_registration_epoch c = 1 ∧ context_registration_id c ≠ zero_id ∧
    context_current_brk c = zero_key ∧ context_proposed_brk c ≠ zero_key).
  { unfold clean_device_recovery_matches. rewrite !andb_true_iff, clean_spec by done.
    destruct Hc as (? & ? & ? & ?).
    rewrite !(all_zero_bool _ 16), !(all_zero_bool _ kP256PublicKeyBytes) by done.
    autorewrite with binding_bools. unfold zero_id, zero_key. tauto. }
  destruct (context_operation c) eqn:Eop.
  3: { destruct (clean_device_recovery_matches c s) eqn:Ec.
       - destruct (proj1 Hrecovery eq_refl) as (? & ? & ? & Hep & ? & Hcur & ?). split; [intros _|done].
         split; [done|]. destruct c; cbn in *; subst. by constructor.
       - rewrite replacement_spec by done. split.
         + intros (? & ? & ? & ? & ? & ? & ? & ? & ? & ?). split; [done|].
           destruct c; cbn in *; subst. constructor; auto.
         + intros [_ Ha]. destruct Ha; cbn in *; simplify_eq; try (by destruct_or!); try tauto.
           exfalso. assert (false = true) by (apply Hrecovery; tauto). done. }
  all: rewrite ?replacement_spec, ?andb_true_iff, ?clean_spec, ?vault_spec, ?registration_spec, ?owned_spec by done;
    destruct Hc as (? & ? & ? & ?);
    rewrite ?(all_zero_bool _ 16), ?(all_zero_bool _ kP256PublicKeyBytes) by done;
    autorewrite with binding_bools.
  1,4: split;
    [ intros ((((Hv & ? & ?) & _ & ? & ?) & (? & ? & Hb)) & ?); split; [done|];
      case_bool_decide; [done|]; destruct c; cbn in *; subst; constructor; [auto|by split_and!]
    | intros [_ Ha]; destruct Ha as [op Hop (? & ? & ?)| | |op ? ? ? Hop]; cbn in *; simplify_eq;
      [rewrite bool_decide_false by done; by split_and!|by destruct Hop] ].
  - split.
    + intros (((((? & ?) & ?) & ?) & ?) & ?). split; [done|].
      destruct c; cbn in *; subst. by constructor.
    + intros [_ Ha]. destruct Ha as [op Hop| | |op ? ? ? Hop]; cbn in *; simplify_eq;
        try by destruct Hop. by split_and!.
  - split.
    + intros (? & ? & ? & ? & ? & ? & ? & ? & ? & ?). split; [done|].
      destruct c; cbn in *; subst. constructor; auto.
    + intros [_ Ha]. destruct Ha as [op Hop| | |op ? ? ? Hop]; cbn in *; simplify_eq;
        by destruct Hop.
Qed.

(** The device accepts exactly the contexts that fit it: an unlock or a re-key
    must name the stored Vault, its generation, the registration and the
    registered browser key; a provisioning needs a clean device; a recovery
    needs a clean device or the next registration epoch with a new key, which
    is also what a browser replacement needs. *)
Theorem binding_exact c s :
  context_wf c → snapshot_wf s →
  session_v2_begin_matches_snapshot c s = true ↔ snapshot_device_id s ≠ [] ∧ accepted s c.
Proof. apply begin_matches_spec. Qed.

Definition sample_device_snapshot : SessionV2DeviceSnapshot :=
  mkDeviceSnapshot (str "stick-1") true (seqZ 100 16) 4 true (seqZ 30 16) 2 (0x04 :: seqZ 40 64).
Definition sample_unlock : BeginContext :=
  mkContext Operation.kTrustedBrowserUnlock (str "stick-1") (seqZ 100 16) 4 (seqZ 30 16) 2
    (0x04 :: seqZ 40 64) (zeros 65).

Lemma binding_exact_witness :
  session_v2_begin_matches_snapshot sample_unlock sample_device_snapshot = true ∧
  accepted sample_device_snapshot sample_unlock.
Proof.
  assert (Hc : context_wf sample_unlock) by (split_and!; reflexivity).
  assert (Hs : snapshot_wf sample_device_snapshot) by (split_and!; reflexivity).
  assert (Hm : session_v2_begin_matches_snapshot sample_unlock sample_device_snapshot = true)
    by (vm_compute; reflexivity).
  split; [exact Hm|]. destruct (proj1 (binding_exact sample_unlock sample_device_snapshot Hc Hs) Hm) as [_ Ha].
  exact Ha.
Defined.
