(* ===== verification/RegistrationStore.v ===== *)
(** * The registration, as its clients see it

    The part of [registration::Store] that the session and provisioning code
    calls, as a class with its contract.  [Registration] implements it on
    non-volatile storage; [MemoryRegistration] is a small instance for concrete
    runs. *)

From S2P Require Import Prelude Bytes VaultFormat DeviceSession.

Module RegStatus.
Inductive t := kOk | kNotFound | kInvalidArgument | kConflict | kCorrupt | kIo.
#[global] Instance eq_dec : EqDecision t.
Proof. solve_decision. Defined.
Definition is_ok (status : t) : bool := bool_decide (status = kOk).
End RegStatus.

Definition kDeviceIdBytes : nat := 16.
Definition kRegRegistrationIdBytes : nat := 16.

(** [registration::Snapshot] *)
Record RegSnapshot := mkRegSnapshot {
  reg_device_id : bytes;
  reg_present : bool;
  reg_vault_id : bytes;
  reg_registration_id : bytes;
  reg_epoch : Z;
  reg_brk : bytes;
}.
#[export] Instance eta_reg_snapshot : Eta RegSnapshot := λ s,
  mkRegSnapshot (reg_device_id s) (reg_present s) (reg_vault_id s) (reg_registration_id s)
    (reg_epoch s) (reg_brk s).
#[export] Instance reg_snapshot_eq_dec : EqDecision RegSnapshot.
Proof. solve_decision. Defined.

Definition empty_reg_snapshot : RegSnapshot :=
  mkRegSnapshot (zeros kDeviceIdBytes) false (zeros kVaultIdBytes) (zeros kRegRegistrationIdBytes) 0
    (zeros kP256PublicKeyBytes).

(** [%02x] *)
Definition hex_digit (d : Z) : Z := if d <? 10 then 48 + d else 87 + d.
Definition device_id_text (device_id : bytes) : bytes :=
  device_id ≫= λ b, [hex_digit (b / 16); hex_digit (b mod 16)].

Class RegistrationStore (G : Type) := {
  registration_snapshot : G → RegStatus.t * RegSnapshot;
  install_initial : ∀ (vault_id registration_id : bytes) (epoch : Z) (brk : bytes), G → RegStatus.t * G;
  replace_registration : ∀ (vault_id : bytes) (expected_epoch : Z) (registration_id : bytes)
    (new_epoch : Z) (brk : bytes), G → RegStatus.t * G;
  clear_registration : G → RegStatus.t * G;
  recovery_reset_available : G → bool;
  clear_corrupt_registration_for_recovery : G → RegStatus.t * G;
}.

Definition registered_as (device vault registration : bytes) (epoch : Z) (brk : bytes) : RegSnapshot :=
  mkRegSnapshot device true vault registration epoch brk.

(** A success has had its whole effect and shows in the snapshot; the first
    epoch is 1, a replacement advances it by one, and nothing changes the
    device identifier.  An unregistered snapshot carries no registration. *)
Class RegistrationLaws (G : Type) `{RegistrationStore G} := {
  registration_ok : G → Prop;
  snapshot_reg_law g s : registration_ok g → registration_snapshot g = (RegStatus.kOk, s) →
    if reg_present s then 1 ≤ reg_epoch s ≤ u32_max
    else s = empty_reg_snapshot <| reg_device_id := reg_device_id s |>;
  install_law v r e b g st g' : registration_ok g → install_initial v r e b g = (st, g') →
    registration_ok g' ∧ (st = RegStatus.kOk → e = 1 ∧ ∃ device s,
      registration_snapshot g = (RegStatus.kOk, s) ∧ reg_device_id s = device ∧
      registration_snapshot g' = (RegStatus.kOk, registered_as device v r e b));
  replace_reg_law v x r e b g st g' : registration_ok g → replace_registration v x r e b g = (st, g') →
    registration_ok g' ∧ (st = RegStatus.kOk → e = x + 1 ∧ 0 < x ∧ ∃ s,
      registration_snapshot g = (RegStatus.kOk, s) ∧
      registration_snapshot g' = (RegStatus.kOk, registered_as (reg_device_id s) v r e b));
  clear_law g st g' : registration_ok g → clear_registration g = (st, g') →
    registration_ok g' ∧ (st = RegStatus.kOk → ∃ s,
      registration_snapshot g = (RegStatus.kOk, s) ∧
      registration_snapshot g' =
        (RegStatus.kOk, empty_reg_snapshot <| reg_device_id := reg_device_id s |>));
  clear_corrupt_law g st g' : registration_ok g → clear_corrupt_registration_for_recovery g = (st, g') →
    registration_ok g' ∧ (st = RegStatus.kOk → ∃ device,
      registration_snapshot g' = (RegStatus.kOk, empty_reg_snapshot <| reg_device_id := device |>));
}.

(** ** A registration in memory *)

Definition MemoryRegistration : Type := RegSnapshot.

#[export] Instance memory_registration : RegistrationStore MemoryRegistration := {|
  registration_snapshot g := (RegStatus.kOk, g);
  install_initial v r e b g :=
    if reg_present g then (RegStatus.kConflict, g)
    else if negb (e =? 1) then (RegStatus.kInvalidArgument, g)
    else (RegStatus.kOk, registered_as (reg_device_id g) v r e b);
  replace_registration v x r e b g :=
    if negb (0 <? x) || negb (x <? u32_max) || negb (e =? x + 1) then (RegStatus.kInvalidArgument, g)
    else if negb (reg_present g && bool_decide (reg_vault_id g = v) && (reg_epoch g =? x))
    then (RegStatus.kConflict, g)
    else (RegStatus.kOk, registered_as (reg_device_id g) v r e b);
  clear_registration g := (RegStatus.kOk, empty_reg_snapshot <| reg_device_id := reg_device_id g |>);
  recovery_reset_available g := false;
  clear_corrupt_registration_for_recovery g :=
    (RegStatus.kOk, empty_reg_snapshot <| reg_device_id := reg_device_id g |>);
|}.

#[export] Instance memory_registration_laws : RegistrationLaws MemoryRegistration.
Proof.
  refine {| registration_ok := λ g : RegSnapshot,
    if reg_present g then 1 ≤ reg_epoch g ≤ u32_max
    else g = empty_reg_snapshot <| reg_device_id := reg_device_id g |> |}.
  - by intros g s Hg [= <-].
  - intros v r e b g st g' Hg E. cbn in E. destruct (reg_present g) eqn:Ep.
    { injection E as <- <-. rewrite Ep. by split. }
    destruct (Z.eqb_spec e 1) as [->|]; injection E as <- <-; cbn.
    + split; [unfold u32_max; lia|]. intros _. split; [done|]. exists (reg_device_id g), g. done.
    + rewrite Ep. by split.
  - intros v x r e b g st g' Hg E. cbn in E.
    destruct (Z.ltb_spec 0 x), (Z.ltb_spec x u32_max), (Z.eqb_spec e (x + 1)); cbn in E;
      try by (injection E as <- <-).
    destruct (negb _); injection E as <- <-; [done|]. cbn. split; [lia|]. intros _.
    split_and!; [done|done|]. by exists g.
  - intros g st g' Hg [= <- <-]. cbn. split; [done|]. intros _. by exists g.
  - intros g st g' Hg [= <- <-]. cbn. split; [done|]. intros _. by exists (reg_device_id g).
Defined.
