(* ===== verification/Registration.v ===== *)
(** * The registration in non-volatile storage

    [m5auth_registration/registration.cpp]: [registration::Store], which keeps
    the identifier of the device and the browser it is registered for, one
    definition per member function.  The store lives in the default NVS
    partition, which [nvs_flash_init] and [nvs_open] act on; the calls are those
    of [Nvs], with [nvs_erase_all] beside them.  Overwriting local buffers has
    no counterpart. *)

From S2P Require Import Prelude Bytes Nvs VaultFormat VaultCrypto Psa DeviceSession RegistrationStore Random.

(** [NVS_DEFAULT_PART_NAME] *)
Definition kDefaultPartition : string := "nvs".
Definition kNamespace : string := "m5auth_reg2".
Definition kDeviceIdKey : string := "device_id".
Definition kRegistrationKey : string := "active".
Definition kRegistrationMagic : bytes := c_array "M5AREG1".
Definition kEncodedRegistrationBytes : nat :=
  length kRegistrationMagic + kVaultIdBytes + kRegRegistrationIdBytes + 4 + kP256PublicKeyBytes.

Definition map_error (error : esp_err_t) : RegStatus.t :=
  match error with
  | ESP_OK => RegStatus.kOk
  | ESP_ERR_NVS_NOT_FOUND | ESP_ERR_NOT_FOUND => RegStatus.kNotFound
  | ESP_ERR_INVALID_ARG => RegStatus.kInvalidArgument
  | _ => RegStatus.kIo
  end.
Definition esp_ok (error : esp_err_t) : bool := bool_decide (error = ESP_OK).

Definition reg_status_code (status : RegStatus.t) : string :=
  match status with
  | RegStatus.kOk => "ok"
  | RegStatus.kNotFound => "not_found"
  | RegStatus.kInvalidArgument => "invalid_argument"
  | RegStatus.kConflict => "registration_conflict"
  | RegStatus.kCorrupt => "registration_corrupt"
  | RegStatus.kIo => "registration_io_error"
  end.

Definition write_u32 (value : Z) : bytes :=
  [byte_at value 24; byte_at value 16; byte_at value 8; byte_at value 0].
(** The four bytes at the front of [input], shifted in 32 bits. *)
Definition shl32 (b n : Z) : Z := Z.land (Z.shiftl (Z.land b u32_max) n) u32_max.
Definition read_u32 (input : bytes) : Z :=
  let at_ i := nth i input 0 in
  Z.lor (Z.lor (Z.lor (shl32 (at_ 0%nat) 24) (shl32 (at_ 1%nat) 16)) (shl32 (at_ 2%nat) 8)) (shl32 (at_ 3%nat) 0).

Definition encode_registration (vault_id registration_id : bytes) (epoch : Z) (brk : bytes) : bytes :=
  kRegistrationMagic ++ vault_id ++ registration_id ++ write_u32 epoch ++ brk.

(** What the record holds behind its magic: the four fields. *)
Definition decode_registration (encoded : bytes) : bytes * bytes * Z * bytes :=
  let rest := drop (length kRegistrationMagic) encoded in
  let vault_id := take kVaultIdBytes rest in
  let rest := drop kVaultIdBytes rest in
  let registration_id := take kRegRegistrationIdBytes rest in
  let rest := drop kRegRegistrationIdBytes rest in
  let epoch := read_u32 rest in
  let rest := drop 4 rest in
  (vault_id, registration_id, epoch, take kP256PublicKeyBytes rest).

(** [nvs_erase_all]: every key of the handle's namespace is erased, though the
    call may stop on the way. *)
Class NvsEraseAll (N : Type) := { nvs_erase_all : Z → N → esp_err_t * N }.
Class NvsEraseAllLaws (N : Type) `{NvsLaws N} `{NvsEraseAll N} := {
  nvs_erase_all_law h n e n' ns : nvs_erase_all h n = (e, n') → handles (view n) !! h = Some ns →
    committed (view n') = committed (view n) ∧ handles (view n') = handles (view n) ∧
    (∃ keys, pending (view n') = pending (view n) ++ map (λ k, ((ns, k), None)) keys) ∧
    (e = ESP_OK → ∀ k, visible (view n') !! (ns, k) = None);
}.

Record Store {N K Q : Type} := mkStore {
  ready_ : bool;
  recovery_reset_available_ : bool;
  device_id_recovery_required_ : bool;
  snapshot_ : RegSnapshot;
  store_nvs_ : N;
  store_keys_ : K;
  store_random_ : Q;
}.
Arguments Store : clear implicits.
#[export] Instance eta_store {N K Q} : Eta (Store N K Q) := λ s,
  mkStore N K Q (ready_ s) (recovery_reset_available_ s) (device_id_recovery_required_ s) (snapshot_ s)
    (store_nvs_ s) (store_keys_ s) (store_random_ s).
Definition new_store {N K Q} (nvs : N) (keys : K) (random : Q) : Store N K Q :=
  mkStore N K Q false false false empty_reg_snapshot nvs keys random.

(** The snapshot of a device without a registration. *)
Definition unregistered (device_id : bytes) : RegSnapshot := empty_reg_snapshot <| reg_device_id := device_id |>.

Section Store.
Context {N K Q : Type} `{Nvs N} `{NvsEraseAll N} `{Psa K} `{EspRandom Q}.
Abbreviation St := (Store N K Q).
Definition store_op (A : Type) : Type := St → A * St.

Definition on_nvs {A} (f : N → A * N) : store_op A := λ s,
  let '(a, n) := f (store_nvs_ s) in (a, s <| store_nvs_ := n |>).
Definition valid_public_key (key : bytes) : store_op bool := λ s,
  let '(b, k) := valid_p256_public_key key (store_keys_ s) in (b, s <| store_keys_ := k |>).

Definition open_namespace (mode : nvs_open_mode_t) : store_op (RegStatus.t * Z) := λ s,
  let '((e, handle), s) := on_nvs (nvs_open_from_partition kDefaultPartition kNamespace mode) s in
  ((map_error e, handle), s).

(** [nvs_close(handle); return status;] *)
Definition close_and_leave {R A} (handle : Z) (r : R) : ctl St R A :=
  call (on_nvs (nvs_close handle));; leave r.

(** [if (result == ESP_OK) result = nvs_commit(handle); nvs_close(handle);] *)
Definition commit_and_close (handle : Z) (result : esp_err_t) : store_op esp_err_t := fn (
  result ← (if esp_ok result then call (on_nvs (nvs_commit handle)) else mret result);
  call (on_nvs (nvs_close handle));;
  mret result).

Definition set_device_id (device_id : bytes) (s : St) : St :=
  s <| snapshot_ := snapshot_ s <| reg_device_id := device_id |> |>.

Definition generate_device_id_candidate : store_op unit := λ s,
  let '(device_id, q) := nonzero_bytes kDeviceIdBytes (store_random_ s) in
  (tt, set_device_id device_id s <| store_random_ := q |>).

Definition load_or_create_device_id : store_op RegStatus.t := fn (
  x ← call (open_namespace NVS_READWRITE);
  let '(status, handle) := x in
  leave_if (negb (RegStatus.is_ok status)) status;;
  x ← call (on_nvs (nvs_get_blob_size handle kDeviceIdKey));
  let '(result, size) := x in
  if esp_ok result then
    if negb (size =? Z.of_nat kDeviceIdBytes) then
      call (on_nvs (nvs_close handle));;
      modify (set_device_id (zeros kDeviceIdBytes));;
      leave RegStatus.kCorrupt
    else
      x ← call (on_nvs (nvs_get_blob handle kDeviceIdKey));
      let '(result, device_id) := x in
      call (on_nvs (nvs_close handle));;
      if negb (esp_ok result) then
        modify (set_device_id (zeros kDeviceIdBytes));;
        leave (map_error result)
      else if negb (Nat.eqb (length device_id) kDeviceIdBytes) || all_zero device_id then
        modify (set_device_id (zeros kDeviceIdBytes));;
        leave RegStatus.kCorrupt
      else
        modify (set_device_id device_id);;
        leave RegStatus.kOk
  else if negb (bool_decide (result = ESP_ERR_NVS_NOT_FOUND)) then close_and_leave handle (map_error result)
  else
    call generate_device_id_candidate;;
    s ← get_state;
    result ← call (on_nvs (nvs_set_blob handle kDeviceIdKey (reg_device_id (snapshot_ s))));
    result ← call (commit_and_close handle result);
    (if negb (esp_ok result) then modify (set_device_id (zeros kDeviceIdBytes)) else mret tt);;
    mret (map_error result)).

(** The snapshot is emptied first, apart from the identifier of the device. *)
Definition load_registration : store_op RegStatus.t := fn (
  s ← get_state;
  let device_id := reg_device_id (snapshot_ s) in
  modify (λ s, s <| snapshot_ := unregistered device_id |>);;
  x ← call (open_namespace NVS_READONLY);
  let '(status, handle) := x in
  leave_if (negb (RegStatus.is_ok status)) status;;
  x ← call (on_nvs (nvs_get_blob_size handle kRegistrationKey));
  let '(result, size) := x in
  if bool_decide (result = ESP_ERR_NVS_NOT_FOUND) then close_and_leave handle RegStatus.kNotFound
  else if negb (esp_ok result) then close_and_leave handle (map_error result)
  else if negb (size =? Z.of_nat kEncodedRegistrationBytes) then close_and_leave handle RegStatus.kCorrupt
  else
    x ← call (on_nvs (nvs_get_blob handle kRegistrationKey));
    let '(result, encoded) := x in
    call (on_nvs (nvs_close handle));;
    leave_if (negb (esp_ok result)) (map_error result);;
    leave_if (negb (Nat.eqb (length encoded) kEncodedRegistrationBytes)) RegStatus.kCorrupt;;
    leave_if (negb (bool_decide (take (length kRegistrationMagic) encoded = kRegistrationMagic)))
      RegStatus.kCorrupt;;
    let '(vault_id, registration_id, epoch, brk) := decode_registration encoded in
    valid ← (if all_zero vault_id || all_zero registration_id || (epoch =? 0) then mret false
             else call (valid_public_key brk));
    leave_if (negb valid) RegStatus.kCorrupt;;
    modify (λ s, s <| snapshot_ := registered_as device_id vault_id registration_id epoch brk |>);;
    mret RegStatus.kOk).

Definition initialize : store_op RegStatus.t := fn (
  modify (λ s, s <| ready_ := false |> <| recovery_reset_available_ := false |>
                 <| device_id_recovery_required_ := false |> <| snapshot_ := empty_reg_snapshot |>);;
  nvs_status ← call (on_nvs (nvs_flash_init_partition kDefaultPartition));
  leave_if (negb (esp_ok nvs_status)) (map_error nvs_status);;
  status ← call load_or_create_device_id;
  if bool_decide (status = RegStatus.kCorrupt) then
    modify (λ s, s <| snapshot_ := empty_reg_snapshot |>);;
    call generate_device_id_candidate;;
    modify (λ s, s <| recovery_reset_available_ := true |> <| device_id_recovery_required_ := true |>);;
    leave status
  else
    leave_if (negb (RegStatus.is_ok status)) status;;
    s ← get_state;
    let stable_device_id := reg_device_id (snapshot_ s) in
    status ← call load_registration;
    if bool_decide (status = RegStatus.kCorrupt) then
      modify (λ s, s <| snapshot_ := unregistered stable_device_id |> <| recovery_reset_available_ := true |>);;
      leave status
    else if negb (RegStatus.is_ok status) && negb (bool_decide (status = RegStatus.kNotFound)) then
      modify (λ s, s <| snapshot_ := empty_reg_snapshot |>);;
      leave status
    else
      modify (λ s, s <| ready_ := true |>);;
      mret RegStatus.kOk).

Definition persist_registration (vault_id registration_id : bytes) (epoch : Z) (brk : bytes)
    : store_op RegStatus.t := fn (
  valid ← (if all_zero vault_id || all_zero registration_id || (epoch =? 0) then mret false
           else call (valid_public_key brk));
  leave_if (negb valid) RegStatus.kInvalidArgument;;
  let encoded := encode_registration vault_id registration_id epoch brk in
  x ← call (open_namespace NVS_READWRITE);
  let '(status, handle) := x in
  leave_if (negb (RegStatus.is_ok status)) status;;
  result ← call (on_nvs (nvs_set_blob handle kRegistrationKey encoded));
  result ← call (commit_and_close handle result);
  leave_if (negb (esp_ok result)) (map_error result);;
  modify (λ s, s <| snapshot_ :=
    registered_as (reg_device_id (snapshot_ s)) vault_id registration_id epoch brk |>);;
  mret RegStatus.kOk).

Definition store_snapshot (s : St) : RegStatus.t * RegSnapshot :=
  if negb (ready_ s) then
    if recovery_reset_available_ s then (RegStatus.kCorrupt, snapshot_ s)
    else (RegStatus.kIo, empty_reg_snapshot)
  else (RegStatus.kOk, snapshot_ s).

Definition store_install_initial (vault_id registration_id : bytes) (epoch : Z) (brk : bytes)
    : store_op RegStatus.t := fn (
  s ← get_state;
  leave_if (negb (ready_ s)) RegStatus.kIo;;
  refresh ← call load_registration;
  leave_if (negb (bool_decide (refresh = RegStatus.kNotFound)))
    (if RegStatus.is_ok refresh then RegStatus.kConflict else refresh);;
  leave_if (negb (epoch =? 1)) RegStatus.kInvalidArgument;;
  call (persist_registration vault_id registration_id epoch brk)).

Definition store_replace (vault_id : bytes) (expected_epoch : Z) (registration_id : bytes) (new_epoch : Z)
    (brk : bytes) : store_op RegStatus.t := fn (
  s ← get_state;
  leave_if (negb (ready_ s) || (expected_epoch =? 0) || (expected_epoch =? u32_max)
            || negb (new_epoch =? expected_epoch + 1)) RegStatus.kInvalidArgument;;
  refresh ← call load_registration;
  leave_if (negb (RegStatus.is_ok refresh)) refresh;;
  s ← get_state;
  leave_if (negb (reg_present (snapshot_ s)) || negb (bool_decide (reg_vault_id (snapshot_ s) = vault_id))
            || negb (reg_epoch (snapshot_ s) =? expected_epoch)) RegStatus.kConflict;;
  call (persist_registration vault_id registration_id new_epoch brk)).

(** [nvs_erase_key], where nothing to erase is not an error. *)
Definition erase_registration_key (handle : Z) : store_op esp_err_t := λ s,
  let '(result, s) := on_nvs (nvs_erase_key handle kRegistrationKey) s in
  (if bool_decide (result = ESP_ERR_NVS_NOT_FOUND) then ESP_OK else result, s).

Definition store_clear : store_op RegStatus.t := fn (
  s ← get_state;
  leave_if (negb (ready_ s)) RegStatus.kIo;;
  x ← call (open_namespace NVS_READWRITE);
  let '(status, handle) := x in
  leave_if (negb (RegStatus.is_ok status)) status;;
  result ← call (erase_registration_key handle);
  result ← call (commit_and_close handle result);
  leave_if (negb (esp_ok result)) (map_error result);;
  modify (λ s, s <| snapshot_ := unregistered (reg_device_id (snapshot_ s)) |>
                 <| recovery_reset_available_ := false |> <| device_id_recovery_required_ := false |>);;
  mret RegStatus.kOk).

Definition store_clear_corrupt : store_op RegStatus.t := fn (
  s ← get_state;
  if ready_ s then call store_clear
  else
  leave_if (negb (recovery_reset_available_ s) || all_zero (reg_device_id (snapshot_ s))) RegStatus.kIo;;
  let recovery_device_id := reg_device_id (snapshot_ s) in
  x ← call (open_namespace NVS_READWRITE);
  let '(status, handle) := x in
  leave_if (negb (RegStatus.is_ok status)) status;;
  result ← (if device_id_recovery_required_ s then
              result ← call (on_nvs (nvs_erase_all handle));
              if esp_ok result then call (on_nvs (nvs_set_blob handle kDeviceIdKey recovery_device_id))
              else mret result
            else call (erase_registration_key handle));
  result ← call (commit_and_close handle result);
  leave_if (negb (esp_ok result)) (map_error result);;
  modify (λ s, s <| snapshot_ := unregistered recovery_device_id |> <| recovery_reset_available_ := false |>
                 <| device_id_recovery_required_ := false |> <| ready_ := true |>);;
  mret RegStatus.kOk).

Definition reinitialize_after_partition_reset : store_op RegStatus.t := fn (
  modify (λ s, s <| ready_ := false |> <| recovery_reset_available_ := false |>
                 <| device_id_recovery_required_ := false |> <| snapshot_ := empty_reg_snapshot |>);;
  call initialize).

#[export] Instance nvs_registration : RegistrationStore St := {|
  registration_snapshot := store_snapshot;
  install_initial := store_install_initial;
  replace_registration := store_replace;
  clear_registration := store_clear;
  recovery_reset_available := recovery_reset_available_;
  clear_corrupt_registration_for_recovery := store_clear_corrupt;
|}.
End Store.
