(* ===== verification/VmkSink.v ===== *)
(** * From a delivered key to an unlocked Vault

    [canonical_v2_state.cpp]: [CanonicalBindingSource], which shows the session
    handler the Vault and the registration of the device, and
    [CanonicalVmkSink], which takes a delivered key to the runtime, at once or
    with the envelope that follows.  The mutex they share has no counterpart:
    every member function runs under it.  The monotonic clock they read is an
    argument. *)

From S2P Require Import Prelude Bytes VaultFormat VaultCrypto Persistence Runtime.
From S2P Require Import Psa DeviceSession UserPresence Transcript Attempt Binding RegistrationStore.

Definition kPendingVaultVmkTtlMs : Z := 30000.

Record CanonicalVmkSink {P G : Type} := mkSink {
  runtime_ : Runtime P;
  registration_ : G;
  pending_vmk_ : bytes;
  pending_context_ : BeginContext;
  pending_ : bool;
  deadline_armed_ : bool;
  pending_expires_at_ms_ : Z;
}.
Arguments CanonicalVmkSink : clear implicits.
#[export] Instance eta_sink {P G} : Eta (CanonicalVmkSink P G) := λ s,
  mkSink P G (runtime_ s) (registration_ s) (pending_vmk_ s) (pending_context_ s) (pending_ s)
    (deadline_armed_ s) (pending_expires_at_ms_ s).

Definition new_sink {P G} (runtime : Runtime P) (registration : G) : CanonicalVmkSink P G :=
  mkSink P G runtime registration (zeros kVmkBytes) empty_context false false 0.

Definition envelope_matches_pending (envelope : VaultEnvelope) (context : BeginContext)
    (expected : Z) : bool :=
  is_supported_vault_format (vault_format_version envelope)
  && (storage_schema_version envelope =? kTargetStorageSchemaVersion)
  && bool_decide (VaultFormat.vault_id envelope = context_vault_id context)
  && (generation envelope =? expected)
  && negb (Nat.eqb (length (ciphertext envelope)) 0).

Section Sink.
Context `{MbedtlsGcm} {P G : Type} `{Persistence P} `{RegistrationStore G}.
Abbreviation Sink := (CanonicalVmkSink P G).
Definition sink_op (A : Type) : Type := Sink → A * Sink.

Definition in_runtime {A} (f : Runtime P → A * Runtime P) : sink_op A := λ s,
  let '(a, r) := f (runtime_ s) in (a, s <| runtime_ := r |>).
Definition in_registration {A} (f : G → A * G) : sink_op A := λ s,
  let '(a, g) := f (registration_ s) in (a, s <| registration_ := g |>).

(** [CanonicalBindingSource::snapshot]: the snapshot, when it returns true. *)
Definition binding_snapshot (runtime : Runtime P) (registration : G) : option SessionV2DeviceSnapshot :=
  match metadata runtime, registration_snapshot registration with
  | (kOk, Some m), (RegStatus.kOk, reg) =>
    if negb (Bool.eqb (m_has_vault m) (reg_present reg)) then None
    else if m_has_vault m && negb (bool_decide (m_vault_id m = reg_vault_id reg)) then None
    else
      let result := empty_device_snapshot
        <| snapshot_device_id := device_id_text (reg_device_id reg) |> in
      if Nat.eqb (length (snapshot_device_id result)) 0 then None
      else
        let result := result <| snapshot_vault_present := m_has_vault m |> in
        let result := if m_has_vault m
          then result <| snapshot_vault_id := m_vault_id m |> <| snapshot_generation := m_generation m |>
          else result in
        let result := result <| snapshot_registration_present := reg_present reg |> in
        Some (if reg_present reg
          then result <| snapshot_registration_id := reg_registration_id reg |>
                      <| snapshot_registration_epoch := reg_epoch reg |>
                      <| snapshot_brk := reg_brk reg |>
          else result)
  | _, _ => None
  end.

Definition cancel_pending (s : Sink) : Sink :=
  s <| pending_vmk_ := wipe (pending_vmk_ s) |>
    <| pending_context_ := wipe_context (pending_context_ s)
         <| context_operation := Operation.kTrustedBrowserUnlock |> |>
    <| pending_ := false |> <| deadline_armed_ := false |> <| pending_expires_at_ms_ := 0 |>.

Definition vacant (m : Metadata) : bool :=
  State.eqb (m_state m) State.kUnprovisioned || State.eqb (m_state m) State.kReprovisionRequired.

Definition prepare_attempt (context : BeginContext) : sink_op bool := fn (
  modify cancel_pending;;
  s ← get_state;
  match metadata (runtime_ s) with
  | (kOk, Some m) =>
    match context_operation context with
    | Operation.kInitialProvisioning => mret (negb (m_has_vault m) && vacant m)
    | Operation.kTrustedBrowserUnlock => mret (m_has_vault m && State.eqb (m_state m) State.kLocked)
    | Operation.kRecovery =>
      if negb (m_has_vault m) then mret (vacant m)
      else
        status ← call (in_runtime enter_registration_replacement_boundary);
        mret (is_ok status)
    | Operation.kBrowserReplacement =>
      if negb (m_has_vault m) then leave false
      else
        status ← call (in_runtime enter_registration_replacement_boundary);
        mret (is_ok status)
    | Operation.kVmkRekey =>
      leave_if (negb (m_has_vault m) || negb (unlocked (runtime_ s))) false;;
      status ← call (in_runtime enter_vmk_rekey_boundary);
      mret (is_ok status)
    end
  | _ => leave false
  end).

Definition set_pending (context : BeginContext) (vmk : bytes) (s : Sink) : Sink :=
  s <| pending_vmk_ := vmk |> <| pending_context_ := context |> <| pending_ := true |>
    <| deadline_armed_ := false |> <| pending_expires_at_ms_ := 0 |>.

(** The last statements of a recovery on a provisioned device, and of a browser
    replacement: unlock with the key, then move the registration on. *)
Definition unlock_and_replace (context : BeginContext) (vmk : bytes) (now_ms : Z) : sink_op bool := fn (
  leave_if (context_registration_epoch context =? 0) false;;
  status ← call (in_runtime (unlock vmk now_ms));
  leave_if (negb (is_ok status)) false;;
  registration_status ← call (in_registration
    (replace_registration (context_vault_id context) (context_registration_epoch context - 1)
       (context_registration_id context) (context_registration_epoch context)
       (context_proposed_brk context)));
  if negb (RegStatus.is_ok registration_status) then
    call (in_runtime lock);;
    leave false
  else mret true).

(** [now_ms] is what [runtime_monotonic_ms] returns. *)
Definition install_vmk (context : BeginContext) (vmk : bytes) (now_ms : Z) : sink_op bool := fn (
  modify cancel_pending;;
  match context_operation context with
  | Operation.kTrustedBrowserUnlock =>
    status ← call (in_runtime (unlock vmk now_ms));
    mret (is_ok status)
  | Operation.kRecovery =>
    s ← get_state;
    match metadata (runtime_ s) with
    | (kOk, Some m) =>
      if negb (m_has_vault m) then
        leave_if (negb (vacant m) || (context_expected_generation context =? 0)
                  || negb (context_registration_epoch context =? 1)
                  || negb (all_zero (context_current_brk context))) false;;
        modify (set_pending context vmk);;
        mret true
      else call (unlock_and_replace context vmk now_ms)
    | _ => leave false
    end
  | Operation.kBrowserReplacement => call (unlock_and_replace context vmk now_ms)
  | Operation.kInitialProvisioning | Operation.kVmkRekey =>
    modify (set_pending context vmk);;
    mret true
  end).

Definition arm_pending_deadline (now_ms : Z) (s : Sink) : Sink :=
  if negb (pending_ s) then s
  else s <| deadline_armed_ := true |>
         <| pending_expires_at_ms_ := deadline kPendingVaultVmkTtlMs now_ms |>.

Definition expire_pending (now_ms : Z) (s : Sink) : bool * Sink :=
  if negb (pending_ s) || negb (deadline_armed_ s) || (now_ms <? pending_expires_at_ms_ s)
  then (false, s) else (true, cancel_pending s).

Definition pending_valid (operation : Operation.t) (now_ms : Z) : sink_op bool := fn (
  call (expire_pending now_ms);;
  s ← get_state;
  mret (pending_ s && deadline_armed_ s
        && bool_decide (context_operation (pending_context_ s) = operation))).

(** What [install_initial_vault] and [install_recovered_vault] do once the
    envelope fits: format, install and unlock, then register. *)
Definition install_and_register (envelope : VaultEnvelope) (now_ms : Z) : sink_op bool := fn (
  s ← get_state;
  let context := pending_context_ s in
  let vmk := pending_vmk_ s in
  status ← call (in_runtime format_for_schema2);
  status ← (if is_ok status then call (in_runtime (install_encrypted_vault envelope vmk))
            else mret status);
  status ← (if is_ok status then call (in_runtime (unlock vmk now_ms)) else mret status);
  if negb (is_ok status) then
    call (in_runtime factory_reset);;
    modify cancel_pending;;
    leave false
  else
    registration_status ← call (in_registration
      (install_initial (context_vault_id context) (context_registration_id context) 1
         (context_proposed_brk context)));
    if negb (RegStatus.is_ok registration_status) then
      call (in_runtime factory_reset);;
      modify cancel_pending;;
      leave false
    else
      modify cancel_pending;;
      mret true).

Definition install_initial_vault (envelope : VaultEnvelope) (now_ms : Z) : sink_op bool := fn (
  valid ← call (pending_valid Operation.kInitialProvisioning now_ms);
  s ← get_state;
  let context := pending_context_ s in
  if negb valid || negb (context_expected_generation context =? 0)
     || negb (context_registration_epoch context =? 0)
     || all_zero (context_registration_id context)
     || negb (envelope_matches_pending envelope context 1)
  then modify cancel_pending;; leave false
  else call (install_and_register envelope now_ms)).

Definition install_recovered_vault (envelope : VaultEnvelope) (now_ms : Z) : sink_op bool := fn (
  valid ← call (pending_valid Operation.kRecovery now_ms);
  s ← get_state;
  let context := pending_context_ s in
  if negb valid || (context_expected_generation context =? 0)
     || negb (context_registration_epoch context =? 1)
     || negb (all_zero (context_current_brk context))
     || all_zero (context_registration_id context)
     || negb (envelope_matches_pending envelope context (context_expected_generation context))
  then modify cancel_pending;; leave false
  else call (install_and_register envelope now_ms)).

Definition install_rekeyed_vault (expected_generation : Z) (envelope : VaultEnvelope) (now_ms : Z)
    : sink_op bool := fn (
  valid ← call (pending_valid Operation.kVmkRekey now_ms);
  s ← get_state;
  let context := pending_context_ s in
  if negb valid || negb (expected_generation =? context_expected_generation context)
     || (expected_generation =? u64_max)
     || negb (envelope_matches_pending envelope context (expected_generation + 1))
  then modify cancel_pending;; leave false
  else
    status ← call (in_runtime
      (rekey_encrypted_vault expected_generation envelope (pending_vmk_ s) now_ms));
    modify cancel_pending;;
    mret (is_ok status)).
End Sink.
