(* ===== verification/VmkSinkCorrect.v ===== *)
(** * Correctness of the key sink

    A key waits in the sink only between a completed attempt and its envelope;
    every other path leaves it zero.  What succeeds leaves the Vault unlocked
    with the delivered key and the registration of the attempt; what fails does
    not leave a half-installed Vault open. *)

From S2P Require Import Prelude Bytes VaultFormat VaultCrypto Persistence Runtime RuntimeCorrect.
From S2P Require Import Psa DeviceSession UserPresence Transcript Attempt Binding RegistrationStore VmkSink.

Ltac exec_sink H :=
  repeat (exec_step H;
    repeat match goal with
    | E : in_runtime ?f ?s = _ |- _ => unfold in_runtime in E; destruct (f (runtime_ s)) eqn:?; apply pair_eq in E; destruct E; subst
    | E : in_registration ?f ?s = _ |- _ =>
        unfold in_registration in E; destruct (f (registration_ s)) eqn:?; apply pair_eq in E; destruct E; subst
    end).

Section SinkCorrect.
Context `{MbedtlsGcm} {P G : Type} `{Persistence P} `{RegistrationStore G}.
Implicit Types (s : CanonicalVmkSink P G) (r : Runtime P) (g : G).

(** No key waits. *)
Definition no_pending s : Prop :=
  pending_ s = false ∧ deadline_armed_ s = false ∧ all_zero (pending_vmk_ s) = true.

Record sink_ok s : Prop := {
  sink_runtime : reachable (runtime_ s);
  sink_idle : pending_ s = false → no_pending s;
  sink_waits : pending_ s = true →
    context_operation (pending_context_ s) ∈
      [Operation.kInitialProvisioning; Operation.kRecovery; Operation.kVmkRekey];
}.

Lemma no_pending_cancel s : no_pending (cancel_pending s).
Proof. split_and!; [done..|]. apply all_zero_zeros. Qed.

Lemma cancel_ok s : reachable (runtime_ s) → sink_ok (cancel_pending s).
Proof. intros Hr. split; [done|intros _; apply no_pending_cancel|done]. Qed.

Lemma runtime_ok s r : sink_ok s → reachable r → sink_ok (s <| runtime_ := r |>).
Proof. intros [? ? ?] Hr. by split. Qed.
Lemma registration_ok_sink s g : sink_ok s → sink_ok (s <| registration_ := g |>).
Proof. intros []. by split. Qed.

(** *** The runtime's operations, from here *)

Lemma unlock_cases k now r st r' :
  unlock k now r = (st, r') →
  st ≠ kOk ∧ r' = r ∨
  st = kOk ∧ unlocked r = false ∧ unlocked r' = true ∧ vmk_ r' = k ∧ envelope_ r' = envelope_ r ∧
  unlocked_since_ms_ r' = now ∧
  validate_envelope_with_key (envelope_ r) k = (kOk, auto_lock_days_ r').
Proof.
  intros E. unfold unlock in E. exec E; bools; subst; try by left. right.
  unfold unlocked. cbn. repeat match goal with E : initialized_ _ = _ |- _ => rewrite E | E : state_ _ = _ |- _ => rewrite E end.
  by split_and!.
Qed.

Lemma boundary_closed r st r' : enter_recovery_boundary r = (st, r') → unlocked r' = false.
Proof.
  intros E. unfold enter_recovery_boundary in E. exec E; bools; unfold unlocked; cbn; rewrite ?andb_false_r; try done.
  by rewrite Ec.
Qed.

Lemma lock_closed r st r' : lock r = (st, r') → unlocked r' = false.
Proof. apply boundary_closed. Qed.

Lemma reset_closed r st r' : factory_reset r = (st, r') → unlocked r' = false.
Proof.
  intros E. unfold factory_reset in E. exec_rt E; unfold unlocked; cbn; rewrite ?andb_false_r; try done.
  apply negb_true_iff in Ec. by rewrite Ec.
Qed.

Lemma install_installed e k r r' :
  install_encrypted_vault e k r = (kOk, r') → envelope_ r' = e ∧ has_vault_ r' = true.
Proof.
  intros E. unfold install_encrypted_vault in E. exec_rt E; bools; try done; try congruence.
  by destruct a0.
Qed.

(** *** The invariant *)

#[local] Hint Resolve runtime_ok registration_ok_sink cancel_ok sink_runtime : m5.

Lemma boundary_reachable r st r' :
  reachable r → enter_registration_replacement_boundary r = (st, r') → reachable r'.
Proof. intros Hr E. eapply reachable_step; [exact Hr|by eapply step_recovery]. Qed.
Lemma rekey_boundary_reachable r st r' :
  reachable r → enter_vmk_rekey_boundary r = (st, r') → reachable r'.
Proof. intros Hr E. eapply reachable_step; [exact Hr|by eapply step_boundary]. Qed.
Lemma unlock_reachable k now r st r' : reachable r → unlock k now r = (st, r') → reachable r'.
Proof. intros Hr E. eapply reachable_step; [exact Hr|by eapply step_unlock]. Qed.
Lemma lock_reachable r st r' : reachable r → lock r = (st, r') → reachable r'.
Proof. intros Hr E. eapply reachable_step; [exact Hr|by eapply step_lock]. Qed.
Lemma format_reachable r st r' : reachable r → format_for_schema2 r = (st, r') → reachable r'.
Proof. intros Hr E. eapply reachable_step; [exact Hr|by eapply step_format]. Qed.
Lemma install_reachable e k r st r' :
  reachable r → install_encrypted_vault e k r = (st, r') → reachable r'.
Proof. intros Hr E. eapply reachable_step; [exact Hr|by eapply step_install]. Qed.
Lemma reset_reachable r st r' : reachable r → factory_reset r = (st, r') → reachable r'.
Proof. intros Hr E. eapply reachable_step; [exact Hr|by eapply step_reset]. Qed.
Lemma rekey_reachable n e k now r st r' :
  reachable r → rekey_encrypted_vault n e k now r = (st, r') → reachable r'.
Proof. intros Hr E. eapply reachable_step; [exact Hr|by eapply step_rekey]. Qed.

Lemma set_pending_ok context vmk s :
  sink_ok s →
  context_operation context ∈ [Operation.kInitialProvisioning; Operation.kRecovery; Operation.kVmkRekey] →
  sink_ok (set_pending context vmk s).
Proof. intros [Hr _ _] Hc. by split. Qed.

Lemma prepare_ok context s b s' : sink_ok s → prepare_attempt context s = (b, s') → sink_ok s'.
Proof.
  intros [Hr _ _] E. unfold prepare_attempt in E. exec_sink E; eauto with m5.
  all: apply runtime_ok; [by apply cancel_ok|].
  1-2: by eapply boundary_reachable.
  by eapply rekey_boundary_reachable.
Qed.

Lemma unlock_and_replace_ok context vmk now s b s' :
  sink_ok s → unlock_and_replace context vmk now s = (b, s') → sink_ok s'.
Proof.
  intros Hs E. unfold unlock_and_replace in E. exec_sink E; try done.
  all: repeat first [apply runtime_ok | apply registration_ok_sink]; try done; cbn in *;
    eauto using unlock_reachable, lock_reachable, sink_runtime.
Qed.

Lemma install_vmk_ok context vmk now s b s' :
  sink_ok s → install_vmk context vmk now s = (b, s') → sink_ok s'.
Proof.
  intros Hs E. pose proof (cancel_ok s (sink_runtime _ Hs)) as Hc. unfold install_vmk in E.
  exec_sink E; eauto using unlock_and_replace_ok.
  all: first [apply set_pending_ok; [done|]; rewrite ?Em; set_solver | apply runtime_ok; [done|]].
  eapply unlock_reachable; [|done]. apply Hs.
Qed.

Lemma arm_ok now s : sink_ok s → sink_ok (arm_pending_deadline now s).
Proof.
  intros [Hr Hi Hw]. unfold arm_pending_deadline. destruct (pending_ s) eqn:E; cbn [negb]; split; cbn;
    rewrite ?E; done || auto.
Qed.

Lemma expire_ok now s b s' : sink_ok s → expire_pending now s = (b, s') → sink_ok s'.
Proof.
  intros Hs E. unfold expire_pending in E. destruct (_ || _); apply pair_eq in E as [_ <-]; [done|].
  apply cancel_ok, Hs.
Qed.

Lemma pending_valid_cases operation now s b s' :
  pending_valid operation now s = (b, s') →
  (s' = s ∨ s' = cancel_pending s) ∧
  (b = true → s' = s ∧ pending_ s = true ∧ deadline_armed_ s = true ∧ now < pending_expires_at_ms_ s ∧
              context_operation (pending_context_ s) = operation).
Proof.
  intros E. unfold pending_valid in E. exec E. unfold expire_pending in Ef.
  destruct (pending_ s) eqn:Ep, (deadline_armed_ s) eqn:Ed, (Z.ltb_spec now (pending_expires_at_ms_ s));
    apply pair_eq in Ef as [_ <-]; (split; [by auto|]); rewrite ?Ep, ?Ed; cbn; try done.
  by rewrite bool_decide_eq_true.
Qed.

(** A key waits for the operation, and its deadline has not passed. *)
Definition waits operation now s : bool :=
  pending_ s && deadline_armed_ s && (now <? pending_expires_at_ms_ s) &&
  bool_decide (context_operation (pending_context_ s) = operation).

Lemma waits_inv operation now s :
  waits operation now s = true →
  pending_ s = true ∧ deadline_armed_ s = true ∧ now < pending_expires_at_ms_ s.
Proof. unfold waits. rewrite !andb_true_iff, Z.ltb_lt. tauto. Qed.

Lemma pending_valid_waits operation now s b s' :
  pending_valid operation now s = (b, s') → b = waits operation now s.
Proof.
  intros E. unfold pending_valid, waits in *. exec E. unfold expire_pending in Ef.
  destruct (pending_ s) eqn:Ep, (deadline_armed_ s) eqn:Ed, (Z.ltb_spec now (pending_expires_at_ms_ s));
    apply pair_eq in Ef as [_ <-]; rewrite ?Ep, ?Ed; done.
Qed.

(** What the second half of an installation does, given the key that waits. *)
Lemma install_and_register_cases envelope now s b s' :
  sink_ok s → install_and_register envelope now s = (b, s') →
  sink_ok s' ∧ no_pending s' ∧
  (b = false → unlocked (runtime_ s') = false) ∧
  (b = true → unlocked (runtime_ s') = true ∧ vmk_ (runtime_ s') = pending_vmk_ s ∧
     envelope_ (runtime_ s') = envelope ∧ unlocked_since_ms_ (runtime_ s') = now ∧
     install_initial (context_vault_id (pending_context_ s)) (context_registration_id (pending_context_ s))
       1 (context_proposed_brk (pending_context_ s)) (registration_ s) = (RegStatus.kOk, registration_ s')).
Proof.
  intros Hs E. pose proof (sink_runtime _ Hs) as Hr. unfold install_and_register in E. exec_sink E.
  all: try (exfalso; match goal with
    | E : negb (is_ok ?a) = false, E' : is_ok ?a = false |- _ => by rewrite E' in E end).
  all: cbn [runtime_ registration_ upd_field] in *.
  all: match goal with |- sink_ok (cancel_pending ?x) ∧ _ =>
    assert (Hx : reachable (runtime_ x)) by
      (cbn; repeat lazymatch goal with
         | E : ?f = (_, ?r) |- reachable ?r =>
             first [ eapply reset_reachable; [|exact E] | eapply unlock_reachable; [|exact E]
                   | eapply install_reachable; [|exact E] | eapply format_reachable; [|exact E] ]
         end; exact Hr) end.
  all: split; [by apply cancel_ok|]; split; [apply no_pending_cancel|]; split; [try done|try done].
  all: try (intros _; cbn; by eapply reset_closed).
  intros _. cbn. apply negb_false_iff, is_ok_true in Eb1.
  apply negb_false_iff, bool_decide_eq_true in Eb2. subst.
  apply is_ok_true in Eb0. subst.
  apply install_installed in Heqp0 as [He _].
  apply unlock_cases in Heqp1 as [[? _]|(_ & _ & ? & ? & ? & ? & _)]; [done|].
  split_and!; congruence.
Qed.

(** What an installation of either kind does: unless it is admitted (a key waits
    for the operation, in time, and the envelope fits the attempt), the pending
    key goes and nothing else happens; otherwise the above. *)
Definition installed_from (admitted : bool) envelope now s b s' : Prop :=
  no_pending s' ∧
  if admitted then
    (b = false → unlocked (runtime_ s') = false) ∧
    (b = true → unlocked (runtime_ s') = true ∧ vmk_ (runtime_ s') = pending_vmk_ s ∧
       envelope_ (runtime_ s') = envelope ∧ unlocked_since_ms_ (runtime_ s') = now ∧
       install_initial (context_vault_id (pending_context_ s)) (context_registration_id (pending_context_ s))
         1 (context_proposed_brk (pending_context_ s)) (registration_ s) = (RegStatus.kOk, registration_ s'))
  else b = false ∧ runtime_ s' = runtime_ s ∧ registration_ s' = registration_ s.

Definition initial_fits envelope (context : BeginContext) : bool :=
  (context_expected_generation context =? 0) && (context_registration_epoch context =? 0) &&
  negb (all_zero (context_registration_id context)) && envelope_matches_pending envelope context 1.
Definition recovered_fits envelope (context : BeginContext) : bool :=
  negb (context_expected_generation context =? 0) && (context_registration_epoch context =? 1) &&
  all_zero (context_current_brk context) && negb (all_zero (context_registration_id context)) &&
  envelope_matches_pending envelope context (context_expected_generation context).

Definition initial_admitted envelope now s : bool :=
  waits Operation.kInitialProvisioning now s && initial_fits envelope (pending_context_ s).
Definition recovered_admitted envelope now s : bool :=
  waits Operation.kRecovery now s && recovered_fits envelope (pending_context_ s).

Lemma installed_refused envelope now s s0 :
  s0 = s ∨ s0 = cancel_pending s → installed_from false envelope now s false (cancel_pending s0).
Proof. intros Hs. split; [apply no_pending_cancel|]. by destruct Hs as [->| ->]. Qed.

Lemma installed_accepted envelope now s b s' :
  sink_ok s → install_and_register envelope now s = (b, s') →
  sink_ok s' ∧ installed_from true envelope now s b s'.
Proof. intros Hs E. by apply install_and_register_cases in E as (? & ? & ? & ?). Qed.

Lemma install_initial_cases envelope now s b s' :
  sink_ok s → install_initial_vault envelope now s = (b, s') →
  sink_ok s' ∧ installed_from (initial_admitted envelope now s) envelope now s b s'.
Proof.
  intros Hs E. pose proof (sink_runtime _ Hs) as Hr. unfold install_initial_vault in E. exec_sink E.
  all: destruct (pending_valid_cases _ _ _ _ _ Ef) as [Hc Hv]; apply pending_valid_waits in Ef as Hw;
    unfold initial_admitted; rewrite <- Hw.
  - split; [apply cancel_ok; by destruct Hc as [->| ->]|].
    replace (a && _) with false; [by apply installed_refused|]. destruct a; [|done].
    destruct (Hv eq_refl) as (-> & _). unfold initial_fits. cbn in Eb |- *.
    by destruct (_ =? 0), (_ =? 0), (all_zero _), (envelope_matches_pending _ _ _).
  - destruct a; [|done]. destruct (Hv eq_refl) as (-> & _).
    replace (true && _) with true; [by apply installed_accepted|]. unfold initial_fits. cbn in Eb |- *.
    by destruct (_ =? 0), (_ =? 0), (all_zero _), (envelope_matches_pending _ _ _).
Qed.

Lemma install_recovered_cases envelope now s b s' :
  sink_ok s → install_recovered_vault envelope now s = (b, s') →
  sink_ok s' ∧ installed_from (recovered_admitted envelope now s) envelope now s b s'.
Proof.
  intros Hs E. pose proof (sink_runtime _ Hs) as Hr. unfold install_recovered_vault in E. exec_sink E.
  all: destruct (pending_valid_cases _ _ _ _ _ Ef) as [Hc Hv]; apply pending_valid_waits in Ef as Hw;
    unfold recovered_admitted; rewrite <- Hw.
  - split; [apply cancel_ok; by destruct Hc as [->| ->]|].
    replace (a && _) with false; [by apply installed_refused|]. destruct a; [|done].
    destruct (Hv eq_refl) as (-> & _). unfold recovered_fits. cbn in Eb |- *.
    by destruct (_ =? 0), (_ =? 1), (all_zero (context_current_brk _)),
      (all_zero (context_registration_id _)), (envelope_matches_pending _ _ _).
  - destruct a; [|done]. destruct (Hv eq_refl) as (-> & _).
    replace (true && _) with true; [by apply installed_accepted|]. unfold recovered_fits. cbn in Eb |- *.
    by destruct (_ =? 0), (_ =? 1), (all_zero (context_current_brk _)),
      (all_zero (context_registration_id _)), (envelope_matches_pending _ _ _).
Qed.

(** The same for a re-keyed Vault. *)
Lemma install_rekeyed_cases expected envelope now s b s' :
  sink_ok s → install_rekeyed_vault expected envelope now s = (b, s') →
  sink_ok s' ∧ no_pending s' ∧ registration_ s' = registration_ s ∧
  (b = false → failed_closed (runtime_ s) (runtime_ s')) ∧
  (b = true →
     pending_ s = true ∧ deadline_armed_ s = true ∧ now < pending_expires_at_ms_ s ∧
     context_operation (pending_context_ s) = Operation.kVmkRekey ∧
     expected = context_expected_generation (pending_context_ s) ∧
     generation envelope = expected + 1 ∧
     unlocked (runtime_ s') = true ∧ vmk_ (runtime_ s') = pending_vmk_ s ∧
     envelope_ (runtime_ s') = envelope ∧
     unlocked_since_ms_ (runtime_ s') = unlocked_since_ms_ (runtime_ s)).
Proof.
  intros Hs E. pose proof (sink_runtime _ Hs) as Hr. unfold install_rekeyed_vault in E. exec_sink E.
  all: destruct (pending_valid_cases _ _ _ _ _ Ef) as [Hc Hv].
  - assert (Hr0 : runtime_ s0 = runtime_ s ∧ registration_ s0 = registration_ s) by (by destruct Hc as [->| ->]).
    destruct Hr0 as [Hr0 Hg0]. split_and!; try done; [apply cancel_ok; by rewrite Hr0|apply no_pending_cancel|].
    intros _. cbn. rewrite Hr0. apply failed_same.
  - destruct a; [|done]. destruct (Hv eq_refl) as (-> & ? & ? & ? & Hop).
    split; [|split; [apply no_pending_cancel|split; [done|]]].
    { apply cancel_ok. cbn. by eapply rekey_reachable. }
    apply rekey_spec in Heqp as [Hok Hko]. cbn. split.
    + intros Hb. apply Hko. by apply is_ok_false.
    + intros Hb. apply is_ok_true in Hb. destruct (Hok Hb) as (? & Hsucc & _ & _ & ? & ? & ?).
      apply orb_false_iff in Eb as [Eb _]. apply orb_false_iff in Eb as [Eb _].
      apply orb_false_iff in Eb as [_ Eb]. apply negb_false_iff, Z.eqb_eq in Eb.
      unfold succeeds in Hsucc. destruct_and! Hsucc. by split_and!.
Qed.

(** ** The transition system *)

(** The calls on the sink, and what else happens to the runtime and the
    registration it refers to. *)
Inductive sink_step : CanonicalVmkSink P G → CanonicalVmkSink P G → Prop :=
  | sink_prepare context s b s' : prepare_attempt context s = (b, s') → sink_step s s'
  | sink_install context vmk now s b s' : install_vmk context vmk now s = (b, s') → sink_step s s'
  | sink_arm now s : sink_step s (arm_pending_deadline now s)
  | sink_expire now s b s' : expire_pending now s = (b, s') → sink_step s s'
  | sink_cancel s : sink_step s (cancel_pending s)
  | sink_initial e now s b s' : install_initial_vault e now s = (b, s') → sink_step s s'
  | sink_recovered e now s b s' : install_recovered_vault e now s = (b, s') → sink_step s s'
  | sink_rekeyed n e now s b s' : install_rekeyed_vault n e now s = (b, s') → sink_step s s'
  | sink_runtime_step l s r : step l (runtime_ s) r → sink_step s (s <| runtime_ := r |>)
  | sink_registration_step s g : sink_step s (s <| registration_ := g |>).

Inductive sink_reachable : CanonicalVmkSink P G → Prop :=
  | sink_reachable_new r g : reachable r → sink_reachable (new_sink r g)
  | sink_reachable_step s s' : sink_reachable s → sink_step s s' → sink_reachable s'.

Lemma sink_step_ok s s' : sink_ok s → sink_step s s' → sink_ok s'.
Proof.
  intros Hs Hst. destruct Hst.
  - by eapply prepare_ok.
  - by eapply install_vmk_ok.
  - by apply arm_ok.
  - by eapply expire_ok.
  - apply cancel_ok, Hs.
  - by eapply install_initial_cases.
  - by eapply install_recovered_cases.
  - by eapply install_rekeyed_cases.
  - apply runtime_ok; [done|]. eapply reachable_step; [apply Hs|done].
  - by apply registration_ok_sink.
Qed.

Lemma sink_reachable_ok s : sink_reachable s → sink_ok s.
Proof.
  induction 1 as [r g Hr|s s' _ IH Hst]; [|by eapply sink_step_ok].
  split; [done| |done]. intros _. split_and!; [done..|]. apply all_zero_zeros.
Qed.
End SinkCorrect.

Section SinkProperties.
Context `{MbedtlsGcm} {P G : Type} `{Persistence P} `{RegistrationLaws G}.
Implicit Types (s : CanonicalVmkSink P G).

(** C19: A delivered key waits in memory only for an envelope that is to come: in
    every reachable state without a pending installation its memory is zero;
    each installation, successful or not, and each expiry ends with it zero;
    and none succeeds without a key that waits for that operation and whose
    deadline has not passed. *)
Theorem pending_key_single_use s :
  sink_reachable s →
  (pending_ s = false → no_pending s) ∧
  (∀ e now b s', install_initial_vault e now s = (b, s') ∨ install_recovered_vault e now s = (b, s') ∨
     (∃ n, install_rekeyed_vault n e now s = (b, s')) →
     no_pending s' ∧
     (b = true → pending_ s = true ∧ deadline_armed_ s = true ∧ now < pending_expires_at_ms_ s)) ∧
  (∀ now b s', expire_pending now s = (b, s') →
     if b then no_pending s' else s' = s ∧ (deadline_armed_ s = true → now < pending_expires_at_ms_ s)).
Proof.
  intros Hr%sink_reachable_ok. split; [apply Hr|split].
  - intros e now b s' [E|[E|[n E]]].
    + apply install_initial_cases in E as (_ & Hn & Hi); [|done]. split; [done|].
      unfold initial_admitted in Hi. destruct (waits _ _ _) eqn:Hw; [intros _; by eapply waits_inv|].
      by destruct Hi as [-> _].
    + apply install_recovered_cases in E as (_ & Hn & Hi); [|done]. split; [done|].
      unfold recovered_admitted in Hi. destruct (waits _ _ _) eqn:Hw; [intros _; by eapply waits_inv|].
      by destruct Hi as [-> _].
    + apply install_rekeyed_cases in E as (_ & ? & _ & _ & ?); [|done]. split; [done|]. tauto.
  - intros now b s' E. unfold expire_pending in E. pose proof (sink_idle _ Hr) as Hi.
    destruct (pending_ s), (deadline_armed_ s) eqn:Ed, (Z.ltb_spec now (pending_expires_at_ms_ s));
      apply pair_eq in E as [<- <-]; cbn; try (by split); try apply no_pending_cancel.
    destruct (Hi eq_refl) as (_ & ? & _). congruence.
Qed.

(** C24: Installing the first Vault, or the one recovered onto a clean device, from
    any reachable state.  It is admitted exactly when a key delivered for that
    operation waits, its deadline has not passed and the envelope fits the
    attempt.  If it is not, it fails, drops the pending key and touches neither
    the runtime (which may have an unlocked Vault, and keeps it) nor the
    registration.  If it is, success leaves the Vault unlocked at [now], with
    exactly that envelope and the delivered key, and the device registered for
    it under epoch 1 and its own identifier; failure leaves no Vault unlocked.
    Either way no key waits afterwards. *)
Theorem envelope_installation e now s b s' :
  sink_reachable s → registration_ok (registration_ s) →
  (install_initial_vault e now s = (b, s') → installed_from (initial_admitted e now s) e now s b s') ∧
  (install_recovered_vault e now s = (b, s') → installed_from (recovered_admitted e now s) e now s b s') ∧
  (install_initial_vault e now s = (b, s') ∨ install_recovered_vault e now s = (b, s') → b = true →
   ∃ g, registration_snapshot (registration_ s) = (RegStatus.kOk, g) ∧
     registration_snapshot (registration_ s') = (RegStatus.kOk,
       registered_as (reg_device_id g) (context_vault_id (pending_context_ s))
         (context_registration_id (pending_context_ s)) 1 (context_proposed_brk (pending_context_ s)))).
Proof.
  intros Hr%sink_reachable_ok Hg.
  assert (Hreg : ∀ admitted, installed_from admitted e now s true s' →
    ∃ g, registration_snapshot (registration_ s) = (RegStatus.kOk, g) ∧
     registration_snapshot (registration_ s') = (RegStatus.kOk,
       registered_as (reg_device_id g) (context_vault_id (pending_context_ s))
         (context_registration_id (pending_context_ s)) 1 (context_proposed_brk (pending_context_ s)))).
  { intros [] (_ & Hi); [|by destruct Hi].
    destruct Hi as [_ Hok]. destruct (Hok eq_refl) as (_ & _ & _ & _ & Hi).
    apply install_law in Hi as [_ Hi]; [|done].
    destruct (Hi eq_refl) as (_ & d & g & Hs & <- & Hs'). eauto. }
  split; [|split].
  - intros E. by eapply install_initial_cases.
  - intros E. by eapply install_recovered_cases.
  - intros [E|E] ->; eapply Hreg.
    + by eapply install_initial_cases.
    + by eapply install_recovered_cases.
Qed.

(** A key that opened the stored Vault, and what became of the registration. *)
Definition registered_for context s s' : Prop :=
  ∃ g, registration_snapshot (registration_ s) = (RegStatus.kOk, g) ∧
    registration_snapshot (registration_ s') = (RegStatus.kOk,
      registered_as (reg_device_id g) (context_vault_id context) (context_registration_id context)
        (context_registration_epoch context) (context_proposed_brk context)).
Definition opened_with vmk now s s' : Prop :=
  unlocked (runtime_ s) = false ∧ unlocked (runtime_ s') = true ∧ vmk_ (runtime_ s') = vmk ∧
  envelope_ (runtime_ s') = envelope_ (runtime_ s) ∧ unlocked_since_ms_ (runtime_ s') = now.
Definition waits_for context vmk s s' : Prop :=
  pending_ s' = true ∧ deadline_armed_ s' = false ∧ pending_vmk_ s' = vmk ∧ pending_context_ s' = context ∧
  runtime_ s' = runtime_ s ∧ registration_ s' = registration_ s ∧
  context_operation context ≠ Operation.kTrustedBrowserUnlock.
Definition not_opened s s' : Prop := runtime_ s' = runtime_ s ∨ unlocked (runtime_ s') = false.

Lemma unlock_and_replace_cases context vmk now s b s' :
  registration_ok (registration_ s) →
  unlock_and_replace context vmk now (cancel_pending s) = (b, s') →
  no_pending s' ∧ if b then opened_with vmk now s s' ∧ registered_for context s s' else not_opened s s'.
Proof.
  intros Hg E. unfold unlock_and_replace in E. exec_sink E; (split; [apply no_pending_cancel|]).
  - by left.
  - left. by apply unlock_cases in Heqp as [[_ ->]|(-> & _)].
  - right. cbn in *. by eapply lock_closed.
  - apply unlock_cases in Heqp as [[? _]|(_ & ? & ? & ? & ? & ? & _)]; [by destruct a|].
    apply negb_false_iff, bool_decide_eq_true in Eb. subst a0.
    apply replace_reg_law in Heqp0 as [_ Hr]; [|done]. destruct (Hr eq_refl) as (_ & _ & g' & ? & ?).
    split; [done|]. by exists g'.
Qed.

(** Delivering a key ends in one of three ways.  It waits, for an operation
    that needs an envelope, and nothing else changed; or it opened the stored
    Vault, which was locked, and for a recovery or a replacement the device is
    now registered for the attempt's browser key; or it failed, no key waits,
    and the runtime is as it was or locked. *)
Theorem install_vmk_exact context vmk now s b s' :
  registration_ok (registration_ s) → install_vmk context vmk now s = (b, s') →
  if b then
    waits_for context vmk s s' ∨
    no_pending s' ∧ opened_with vmk now s s' ∧
      (if bool_decide (context_operation context = Operation.kTrustedBrowserUnlock)
       then registration_ s' = registration_ s else registered_for context s s')
  else no_pending s' ∧ not_opened s s'.
Proof.
  intros Hg E. unfold install_vmk in E.
  assert (Hn : ∀ s0, s0 = cancel_pending s → no_pending s0 ∧ not_opened s s0).
  { intros s0 ->. split; [apply no_pending_cancel|by left]. }
  exec_sink E; auto.
  all: try (left; unfold waits_for; rewrite ?Em; by split_and!).
  2-3: apply unlock_and_replace_cases in E as [Hp Hc]; [|done]; destruct b; [right|done];
    rewrite ?Em; by destruct Hc.
  apply unlock_cases in Heqp as [[Hst ->]|(-> & ? & ? & ? & ? & ? & _)].
  - apply is_ok_false in Hst. rewrite Hst. by apply Hn.
  - right. split; [apply no_pending_cancel|]. by split.
Qed.
End SinkProperties.

(** ** A concrete run: a first Vault is provisioned *)

Module SinkSample.
#[local] Existing Instance checksum_gcm.
Abbreviation MemorySink := (CanonicalVmkSink MemoryStore MemoryRegistration).

Definition unregistered : RegSnapshot := empty_reg_snapshot <| reg_device_id := seqZ 1 16 |>.
Definition provisioning : BeginContext :=
  mkContext Operation.kInitialProvisioning (str "stick-1") sample_vault_id 0 (seqZ 30 16) 0
    (zeros 65) (4 :: seqZ 40 64).
Definition sink0 : MemorySink := new_sink (snd (initialize Sample.fresh)) unregistered.
Definition delivered_sink : MemorySink := snd (install_vmk provisioning Sample.key1 50 sink0).
Definition waiting : MemorySink := arm_pending_deadline 100 delivered_sink.
Definition provisioned_sink : MemorySink := snd (install_initial_vault Sample.e1 200 waiting).

Lemma reachable_sink0 : sink_reachable sink0.
Proof.
  apply sink_reachable_new. eapply reachable_step; [apply reachable_new|].
  apply (step_initialize Sample.fresh (fst (initialize Sample.fresh))). apply surjective_pairing.
Qed.
Lemma reachable_waiting : sink_reachable waiting.
Proof.
  eapply sink_reachable_step; [|apply sink_arm].
  eapply sink_reachable_step; [apply reachable_sink0|].
  apply (sink_install provisioning Sample.key1 50 _ (fst (install_vmk provisioning Sample.key1 50 sink0))).
  apply surjective_pairing.
Qed.

Lemma provisioned_run : install_initial_vault Sample.e1 200 waiting = (true, provisioned_sink).
Proof.
  assert (Hb : fst (install_initial_vault Sample.e1 200 waiting) = true) by (vm_compute; reflexivity).
  rewrite <- Hb. apply surjective_pairing.
Qed.

Lemma pending_key_single_use_witness : pending_vmk_ waiting = Sample.key1 ∧ no_pending provisioned_sink.
Proof.
  split; [vm_compute; reflexivity|].
  destruct (pending_key_single_use waiting reachable_waiting) as (_ & Hi & _).
  destruct (Hi Sample.e1 200 true provisioned_sink (or_introl provisioned_run)) as [Hn _]. exact Hn.
Defined.

Lemma envelope_installation_witness :
  unlocked (runtime_ provisioned_sink) = true ∧ envelope_ (runtime_ provisioned_sink) = Sample.e1 ∧
  ∃ g, registration_snapshot (registration_ provisioned_sink) = (RegStatus.kOk, g) ∧ reg_epoch g = 1.
Proof.
  destruct (envelope_installation Sample.e1 200 waiting true provisioned_sink reachable_waiting)
    as (Hi & _ & Hreg); [vm_compute; reflexivity|].
  assert (Ha : initial_admitted Sample.e1 200 waiting = true) by (vm_compute; reflexivity).
  destruct (Hi provisioned_run) as (_ & Hok). rewrite Ha in Hok. destruct Hok as [_ Hok].
  destruct (Hok eq_refl) as (Hu & _ & He & _).
  destruct (Hreg (or_introl provisioned_run) eq_refl) as (g & _ & Hg).
  split; [exact Hu|split; [exact He|]]. eexists. split; [exact Hg|reflexivity].
Defined.

(** The Vault locked again, and then opened by the browser. *)
Definition locked_sink : MemorySink :=
  provisioned_sink <| runtime_ := snd (lock (runtime_ provisioned_sink)) |>.
Definition unlock_context : BeginContext := provisioning
  <| context_operation := Operation.kTrustedBrowserUnlock |> <| context_expected_generation := 1 |>
  <| context_registration_epoch := 1 |>.

Definition opened_sink : MemorySink := snd (install_vmk unlock_context Sample.key1 300 locked_sink).

Lemma opened_run : install_vmk unlock_context Sample.key1 300 locked_sink = (true, opened_sink).
Proof.
  assert (Hb : fst (install_vmk unlock_context Sample.key1 300 locked_sink) = true)
    by (vm_compute; reflexivity).
  rewrite <- Hb. apply surjective_pairing.
Qed.

Lemma install_vmk_exact_witness : opened_with Sample.key1 300 locked_sink opened_sink.
Proof.
  assert (Hreg : registration_ok (registration_ locked_sink))
    by (vm_compute; split; [discriminate|intros He; discriminate He]).
  destruct (install_vmk_exact unlock_context Sample.key1 300 locked_sink true opened_sink Hreg opened_run)
    as [Hw|Ho]; [exfalso|exact (proj1 (proj2 Ho))].
  unfold waits_for in Hw. apply Hw. reflexivity.
Defined.
End SinkSample.
