(* ===== verification/Json.v ===== *)
(** * Requests and responses

    The JSON values the protocol code reads through cJSON and the readers built
    on them, which [provisioning/session_protocol_v2.cpp] and
    [canonical_protocol_v2.cpp] both define.  cJSON itself (parsing and
    printing) is not modelled: a request is the value it parsed, a response the
    value handed to it.  A string is the C string cJSON exposes; a number is
    the [double] in [valuedouble], every finite one of which is a rational. *)

From Stdlib Require Import QArith_base.
From S2P Require Import Prelude Bytes Base64url DeviceSession.
Open Scope Z_scope.

Inductive double := Finite (q : Q) | NotFinite.

#[warnings="-register-all"]
Inductive json :=
  | JNull
  | JBool (b : bool)
  | JNumber (d : double)
  | JString (s : bytes)
  | JArray (items : list json)
  | JObject (members : list (string * json)).

(** [cJSON_GetObjectItemCaseSensitive]: the first member with that key. *)
Definition get_item (object : json) (key : string) : option json :=
  match object with
  | JObject members => snd <$> (snd <$> list_find (λ m : string * json, m.1 = key) members)
  | _ => None
  end.

Definition int_max : Z := 2 ^ 31 - 1.

(** A number that is an integer of the given range. *)
Definition read_integer (maximum : Z) (item : option json) : option Z :=
  match item with
  | Some (JNumber (Finite q)) =>
    if negb (Qle_bool 0 q) || negb (Qle_bool q (inject_Z maximum)) then None
    else
      let parsed := Z.quot (Qnum q) (Z.pos (Qden q)) in
      if negb (Qeq_bool (inject_Z parsed) q) then None else Some parsed
  | _ => None
  end.

Definition read_nonnegative_int : option json → option Z := read_integer int_max.
Definition read_u32_allow_zero : option json → option Z := read_integer 4294967295.

(** The loop over the digits. *)
Fixpoint decimal_loop (text : bytes) (parsed : Z) : option Z :=
  match text with
  | [] => Some parsed
  | cursor :: text =>
    if (cursor <? 48) || (cursor >? 57) then None
    else
      let digit := u8 (cursor - 48) in
      if parsed >? (u64_max - digit) / 10 then None
      else decimal_loop text (parsed * 10 + digit)
  end.

Definition parse_u64_decimal (text : bytes) : option Z :=
  match text with
  | [] => None
  | 48 :: _ :: _ => None
  | _ => decimal_loop text 0
  end.

Definition read_u64_decimal (item : option json) : option Z :=
  match item with Some (JString text) => parse_u64_decimal text | _ => None end.

Definition read_string (object : json) (key : string) (maximum : nat) : option bytes :=
  match get_item object key with
  | Some (JString text) =>
    if Nat.eqb (length text) 0 || Nat.ltb maximum (length text) then None else Some text
  | _ => None
  end.

Definition read_binary (n : nat) (object : json) (key : string) : option bytes :=
  match get_item object key with
  | Some (JString text) =>
    match base64url_decode text with
    | Some decoded => if Nat.eqb (length decoded) n then Some decoded else None
    | None => None
    end
  | _ => None
  end.

(** The signature; empty when the member is absent. *)
Definition read_optional_signature (object : json) : option bytes :=
  match get_item object "brk_signature" with
  | None => Some []
  | Some (JString text) =>
    match base64url_decode text with
    | Some decoded => if Nat.eqb (length decoded) kBrkSignatureBytes then Some decoded else None
    | None => None
    end
  | Some _ => None
  end.

(** ** Responses *)

Definition number (z : Z) : json := JNumber (Finite (inject_Z z)).
Definition kJsonProtocolVersion : Z := 2.

Definition response_root (id : Z) (ok : bool) (rest : list (string * json)) : json :=
  JObject ([("v"%string, number kJsonProtocolVersion); ("id"%string, number id);
            ("ok"%string, JBool ok)] ++ rest).
Definition error_response (id : Z) (code : string) : json :=
  response_root id false [("error"%string, JObject [("code"%string, JString (str code))])].
Definition success_response (id : Z) (data : list (string * json)) : json :=
  response_root id true [("data"%string, JObject data)].
Definition empty_success (id : Z) : json := success_response id [].

Definition response_ok (response : json) : bool :=
  match get_item response "ok" with Some (JBool b) => b | _ => false end.

(** ** The decimal reader *)

(** The digits of [v], most significant first. *)
Fixpoint digits (fuel : nat) (v : Z) : bytes :=
  match fuel with
  | O => []
  | S fuel => if v <? 10 then [48 + v] else digits fuel (v / 10) ++ [48 + v mod 10]
  end.
(** Twenty digits are enough for 64 bits. *)
Definition decimal (v : Z) : bytes := digits 20 v.

Definition is_digit (b : Z) : Prop := 48 ≤ b ≤ 57.
Definition digits_value (parsed : Z) (text : bytes) : Z :=
  foldl (λ acc b, acc * 10 + (b - 48)) parsed text.

Definition canonical (text : bytes) : Prop :=
  text ≠ [] ∧ Forall is_digit text ∧ (head text = Some 48 → length text = 1%nat).

Lemma digits_value_ge text parsed :
  Forall is_digit text → 0 ≤ parsed → parsed ≤ digits_value parsed text.
Proof.
  intros Ht. revert parsed. induction Ht as [|b text Hb Ht IH]; intros parsed Hp; cbn; [lia|].
  unfold is_digit in Hb. specialize (IH (parsed * 10 + (b - 48))). unfold digits_value in IH. lia.
Qed.

Lemma decimal_loop_spec text parsed v :
  0 ≤ parsed ≤ u64_max →
  decimal_loop text parsed = Some v ↔
  Forall is_digit text ∧ v = digits_value parsed text ∧ v ≤ u64_max.
Proof.
  revert parsed. induction text as [|b text IH]; intros parsed Hp; cbn [decimal_loop].
  - cbn. split; [intros [= <-]; split_and!; [constructor|done|lia]|by intros (_ & -> & _)].
  - rewrite Forall_cons. unfold is_digit. rewrite Z.gtb_ltb.
    destruct (Z.ltb_spec b 48), (Z.ltb_spec 57 b); cbn [orb];
      try (split; [done|intros ((? & _) & _); lia]).
    replace (u8 (b - 48)) with (b - 48) by (unfold u8; rewrite land_ff; lia).
    change (digits_value parsed (b :: text)) with (digits_value (parsed * 10 + (b - 48)) text).
    rewrite Z.gtb_ltb. destruct (Z.ltb_spec ((u64_max - (b - 48)) / 10) parsed) as [Hov|Hov].
    + split; [done|]. intros ((_ & Ht) & -> & Hv).
      pose proof (digits_value_ge text (parsed * 10 + (b - 48)) Ht). lia.
    + rewrite IH by lia. intuition lia.
Qed.

Lemma digits_value_snoc text b : digits_value 0 (text ++ [b]) = digits_value 0 text * 10 + (b - 48).
Proof. unfold digits_value. by rewrite foldl_snoc. Qed.

Lemma digits_spec fuel v :
  0 ≤ v < 10 ^ Z.of_nat fuel → (0 < fuel)%nat →
  canonical (digits fuel v) ∧ digits_value 0 (digits fuel v) = v ∧ (1 ≤ v → head (digits fuel v) ≠ Some 48).
Proof.
  revert v. induction fuel as [|fuel IH]; intros v Hv Hf; [lia|]. cbn [digits].
  destruct (Z.ltb_spec v 10).
  - split; [split; [done|split; [|done]]|split; [cbn; lia|intros ? [= ?]; lia]].
    constructor; [unfold is_digit; lia|done].
  - assert (Hfuel : (0 < fuel)%nat) by (destruct fuel; [cbn in Hv; lia|lia]).
    rewrite Nat2Z.inj_succ, Z.pow_succ_r in Hv by lia.
    destruct (IH (v / 10)) as ((Hne & Hall & _) & Hval & Hhead); [lia|done|].
    specialize (Hhead ltac:(lia)). rewrite digits_value_snoc, Hval.
    destruct (digits fuel (v / 10)) as [|d l]; [done|]. cbn in Hhead |- *.
    split; [|split; [lia|done]]. split; [done|]. split; [|done].
    rewrite app_comm_cons. apply Forall_app. split; [done|]. constructor; [unfold is_digit; lia|done].
Qed.

Lemma canonical_digits text fuel :
  canonical text → digits_value 0 text < 10 ^ Z.of_nat fuel → (0 < fuel)%nat →
  text = digits fuel (digits_value 0 text).
Proof.
  revert fuel. induction text as [|b text IH] using rev_ind; intros fuel (Hne & Hall & Hhead) Hv Hf; [done|].
  apply Forall_app in Hall as [Hall Hb]. apply Forall_cons in Hb as [Hb _]. unfold is_digit in Hb.
  rewrite digits_value_snoc in *. pose proof (digits_value_ge text 0 Hall ltac:(lia)) as Hge.
  destruct fuel as [|fuel]; [lia|]. cbn [digits].
  destruct text as [|d text].
  { change (digits_value 0 []) with 0 in *. rewrite (proj2 (Z.ltb_lt _ _)) by lia. cbn [app]. f_equal. lia. }
  assert (Hd : d ≠ 48). { intros ->. specialize (Hhead eq_refl). rewrite length_app in Hhead. cbn in Hhead. lia. }
  assert (Hd' : 1 ≤ digits_value 0 (d :: text)).
  { apply Forall_cons in Hall as [Hd0 Hall]. unfold is_digit in Hd0.
    pose proof (digits_value_ge text (d - 48) Hall ltac:(lia)).
    change (digits_value 0 (d :: text)) with (digits_value (0 * 10 + (d - 48)) text).
    replace (0 * 10 + (d - 48)) with (d - 48) by lia. lia. }
  rewrite Nat2Z.inj_succ, Z.pow_succ_r in Hv by lia.
  set (w := digits_value 0 (d :: text)) in *.
  destruct (Z.ltb_spec (w * 10 + (b - 48)) 10); [lia|].
  assert (Hfuel : (0 < fuel)%nat) by (destruct fuel; [change (10 ^ Z.of_nat 0) with 1 in Hv; lia|lia]).
  replace ((w * 10 + (b - 48)) / 10) with w by lia.
  replace (48 + (w * 10 + (b - 48)) mod 10) with b by lia.
  f_equal. apply IH; [|lia|done]. split; [done|]. split; [done|]. cbn. congruence.
Qed.

(** The reader of 64-bit numbers accepts exactly their canonical decimal
    form: no sign, no leading zero, nothing else, and nothing above
    [2^64 - 1] - in particular no wrap-around. *)
Theorem u64_decimal_exact text v :
  parse_u64_decimal text = Some v ↔ is_u64 v ∧ text = decimal v.
Proof.
  assert (Hparse : parse_u64_decimal text = Some v ↔ canonical text ∧ v = digits_value 0 text ∧ v ≤ u64_max).
  { unfold parse_u64_decimal, canonical. destruct text as [|b text]; [by split; [|intros ((? & _) & _)]|].
    destruct (decide (b = 48 ∧ text ≠ [])) as [[-> Hne]|Hb].
    - destruct text as [|c text]; [done|]. split; [done|]. intros ((_ & _ & Hl) & _). by specialize (Hl eq_refl).
    - transitivity (decimal_loop (b :: text) 0 = Some v).
      { repeat (case_match; try done); subst; try (destruct Hb; by split). }
      rewrite decimal_loop_spec by (unfold u64_max; lia).
      split; [intros (? & ? & ?); split_and!; try done|tauto].
      cbn. intros [= ->]. destruct text; [done|]. destruct Hb; by split. }
  rewrite Hparse. unfold is_u64, decimal. split.
  - intros (Hc & -> & Hv). pose proof (digits_value_ge text 0 ltac:(by destruct Hc as (_ & ? & _)) ltac:(lia)).
    split; [lia|]. apply canonical_digits; [done|unfold u64_max in Hv; cbn; lia|lia].
  - intros (Hv & ->). destruct (digits_spec 20 v) as (Hc & Hval & _); [unfold u64_max in Hv; cbn; lia|lia|].
    split_and!; [done|done|lia].
Qed.
