(* ===== verification/JsonWipe.v ===== *)
(** * Wiping a request before it is freed

    [wipe_sensitive_json] and [delete_request], which session_protocol_v2.cpp,
    canonical_protocol_v2.cpp and protocol.cpp each define: they differ in the names
    of the members that are sensitive. *)

From S2P Require Import Prelude Bytes DeviceSession Json.

(** What overwrites a C string up to its terminating NUL. *)
Definition wiped_text (s : bytes) : bytes := zeros (length s).

Section Wipe.
Context (sensitive : string → bool).

Fixpoint wipe_members (item : json) : json :=
  match item with
  | JObject members =>
    JObject (map (λ m : string * json,
      let '(key, child) := m in
      (key, match child with
            | JString text => if sensitive key then JString (wiped_text text) else child
            | JObject _ | JArray _ => wipe_members child
            | _ => child
            end)) members)
  | JArray items =>
    JArray (map (λ child, match child with JObject _ | JArray _ => wipe_members child | _ => child end) items)
  | _ => item
  end.
End Wipe.

(** ** The protocol of version 2 *)

Definition sensitive_json_field (key : string) : bool :=
  String.eqb key "brk_signature" || String.eqb key "web_public_key" || String.eqb key "nonce"
  || String.eqb key "ciphertext" || String.eqb key "tag".
Definition wipe_request_json : json → json := wipe_members sensitive_json_field.

Section Deleted.
Context (cJSON_ParseWithLength : bytes → option json).

(** The tree that is freed at the end of a line, on every path of the session's
    handler and of the protocol's. *)
Definition session_deleted_request (line : bytes) : option json := wipe_request_json <$> cJSON_ParseWithLength line.
Definition canonical_deleted_request (line : bytes) : option json := wipe_request_json <$> cJSON_ParseWithLength line.
End Deleted.

(** ** What is freed *)

(** A member of [root] at any depth. *)
Inductive inside : json → string → json → Prop :=
  | inside_here members key child : (key, child) ∈ members → inside (JObject members) key child
  | inside_member members k c key child :
      (k, c) ∈ members → inside c key child → inside (JObject members) key child
  | inside_item items c key child : c ∈ items → inside c key child → inside (JArray items) key child.

Section Wiped.
Context (sensitive : string → bool).

Lemma child_wiped key c : ∃ item,
  (match c with
   | JString text => if sensitive key then JString (wiped_text text) else c
   | JObject _ | JArray _ => wipe_members sensitive c
   | _ => c
   end) = wipe_members sensitive item.
Proof.
  destruct c as [|b|d|t|items|members]; [by exists JNull|by exists (JBool b)|by exists (JNumber d)| |
    by exists (JArray items)|by exists (JObject members)].
  destruct (sensitive key); [by exists (JString (wiped_text t))|by exists (JString t)].
Qed.
Lemma item_wiped c : ∃ item,
  (match c with JObject _ | JArray _ => wipe_members sensitive c | _ => c end) = wipe_members sensitive item.
Proof.
  destruct c as [|b|d|t|items|members]; [by exists JNull|by exists (JBool b)|by exists (JNumber d)|by exists (JString t)|
    by exists (JArray items)|by exists (JObject members)].
Qed.

(** Wherever there was a sensitive text, there are zeros. *)
Lemma sensitive_wiped item key value :
  inside (wipe_members sensitive item) key (JString value) → sensitive key = true → all_zero value = true.
Proof.
  remember (wipe_members sensitive item) as root eqn:E. remember (JString value) as child eqn:Ev. intros Hin Hk.
  revert item E. induction Hin as [members key child Hm|members k c key child Hm _ IH|items c key child Hi _ IH]; intros item E.
  - subst child. destruct item; try done. injection E as ->.
    apply list_elem_of_In, in_map_iff in Hm as ([k0 c0] & Hc & _). injection Hc as -> Hc.
    destruct c0; try done. rewrite Hk in Hc. injection Hc as <-. unfold wiped_text, all_zero. induction (length s); cbn; auto.
  - destruct item; try done. injection E as ->. apply list_elem_of_In, in_map_iff in Hm as ([k0 c0] & Hc & _).
    injection Hc as -> Hc. destruct (child_wiped k c0) as [item Hw]. apply (IH Ev Hk item). congruence.
  - destruct item as [| | | |children|]; try done. injection E as ->. apply list_elem_of_In, in_map_iff in Hi as (c0 & Hc & _).
    destruct (item_wiped c0) as [item Hw]. apply (IH Ev Hk item). congruence.
Qed.

(** What is not sensitive is freed as it was. *)
Lemma others_kept item key value : sensitive key = false → inside item key (JString value) →
  inside (wipe_members sensitive item) key (JString value).
Proof.
  intros Hs Hin. remember (JString value) as child eqn:Ev.
  induction Hin as [members key child Hm|members k c key child Hm Hin IH|items c key child Hi Hin IH]; cbn [wipe_members].
  - subst. apply inside_here. apply list_elem_of_In, in_map_iff. exists (key, JString value). rewrite Hs.
    split; [done|by apply list_elem_of_In].
  - apply inside_member with k (wipe_members sensitive c); [|by apply IH].
    apply list_elem_of_In, in_map_iff. exists (k, c). split; [|by apply list_elem_of_In]. by destruct Hin.
  - apply inside_item with (wipe_members sensitive c); [|by apply IH].
    apply list_elem_of_In, in_map_iff. exists c. split; [|by apply list_elem_of_In]. by destruct Hin.
Qed.
End Wiped.

(** No signature, key, nonce, ciphertext or tag of a request is left in what
    version 2 frees. *)
Theorem no_key_material_is_freed parse line root key value :
  canonical_deleted_request parse line = Some root →
  inside root key (JString value) → sensitive_json_field key = true → all_zero value = true.
Proof.
  intros E. apply fmap_Some in E as (item & _ & ->). apply sensitive_wiped.
Qed.
