(* ===== verification/SessionHandler.v ===== *)
(** * The session messages

    [provisioning/session_protocol_v2.cpp]: [StagedSessionV2Handler], which
    takes one parsed line at a time through the attempt coordinator, checks the
    attempt against what the device holds now, and hands a delivered key on.
    What it needs of the device is the class [SessionV2Device], which puts
    [SessionV2BindingSource] and [SessionV2VmkSink] together since both look at
    the same device; [VmkSink] implements it.

    The line is parsed by cJSON, a parameter.  Erasing local copies has no
    counterpart. *)

From S2P Require Import Prelude Bytes VaultFormat VaultCrypto Persistence Runtime.
From S2P Require Import Psa DeviceSession UserPresence Base64url Transcript Attempt Binding Json.
From S2P Require Import RegistrationStore VmkSink.

Definition kMaxSessionV2MessageBytes : nat := 2048.

(** A C string as the text it holds. *)
Definition text (value : bytes) : string :=
  String.string_of_list_ascii ((λ b, Ascii.ascii_of_N (Z.to_N b)) <$> value).

(** ** What the handler needs of the device *)

Class SessionV2Device (E : Type) := {
  device_snapshot : E → option SessionV2DeviceSnapshot;
  device_install_vmk : BeginContext → bytes → Z → E → bool * E;
}.

#[export] Instance vmk_sink_device `{MbedtlsGcm} {P G} `{Persistence P} `{RegistrationStore G} :
    SessionV2Device (CanonicalVmkSink P G) := {|
  device_snapshot s := binding_snapshot (runtime_ s) (registration_ s);
  device_install_vmk := install_vmk;
|}.

(** ** Reading a request *)

Definition parse_begin_context (params : json) : option BeginContext :=
  operation_text ← read_string params "operation" 32;
  operation ← parse_operation (text operation_text);
  device_id ← read_string params "device_id" kMaxDeviceIdBytes;
  vault_id ← read_binary kSessionVaultIdBytes params "vault_id";
  registration_id ← read_binary kRegistrationIdBytes params "registration_id";
  epoch ← read_u32_allow_zero (get_item params "registration_epoch");
  current ← read_binary kP256PublicKeyBytes params "current_brk_public_key";
  proposed ← read_binary kP256PublicKeyBytes params "proposed_brk_public_key";
  generation ← read_u64_decimal (get_item params "expected_generation");
  Some (mkContext operation device_id vault_id generation registration_id epoch current proposed).

Definition same_attempt (left right : bytes) : bool := difference left right =? 0.

(** ** Responses *)

Definition begin_success (id : Z) (descriptor : AttemptDescriptor) (now_ms : Z) : json :=
  success_response id
    [("attempt_id"%string, JString (base64url_encode (attempt_id descriptor)));
     ("challenge"%string, JString (base64url_encode (challenge descriptor)));
     ("device_public_key"%string, JString (base64url_encode (device_public_key descriptor)));
     ("expires_in_ms"%string, number
       (if expires_at_ms descriptor >? now_ms then expires_at_ms descriptor - now_ms else 0))].

Definition state_name (state : AttemptState) : string :=
  match state with
  | kIdle => "cancelled"
  | kAwaitingAuthorization => "awaiting_authorization"
  | kAwaitingPresence => "awaiting_presence"
  | kConfirmed => "confirmed"
  end.

Definition state_success (id : Z) (state : string) : json :=
  success_response id [("state"%string, JString (str state))].

(** ** The handler *)

Record StagedSessionV2Handler {P K E : Type} := mkHandler {
  coordinator_ : AttemptCoordinator P K;
  device_ : E;
  handler_context_ : BeginContext;
  context_active_ : bool;
}.
Arguments StagedSessionV2Handler : clear implicits.
#[export] Instance eta_handler {P K E} : Eta (StagedSessionV2Handler P K E) := λ h,
  mkHandler P K E (coordinator_ h) (device_ h) (handler_context_ h) (context_active_ h).

Definition new_handler {P K E} (coordinator : AttemptCoordinator P K) (device : E) :
    StagedSessionV2Handler P K E := mkHandler P K E coordinator device empty_context false.

Section Handler.
Context `{MbedtlsGcm} {P K E : Type} `{PresenceBinding P} `{Psa K} `{SessionV2Device E}.
Context (cJSON_ParseWithLength : bytes → option json).
Abbreviation Handler := (StagedSessionV2Handler P K E).
Definition handler_op (A : Type) : Type := Handler → A * Handler.

Definition on_coordinator {A} (f : attempt_op A) : handler_op A := λ h,
  let '(a, c) := f (coordinator_ h) in (a, h <| coordinator_ := c |>).
Definition on_device {A} (f : E → A * E) : handler_op A := λ h,
  let '(a, e) := f (device_ h) in (a, h <| device_ := e |>).

Definition clear_context (h : Handler) : Handler :=
  h <| handler_context_ := wipe_context (handler_context_ h) |> <| context_active_ := false |>.

Definition fail_closed (id : Z) (code : string) : handler_op json := fn (
  call (on_coordinator attempt_cancel);;
  modify clear_context;;
  mret (error_response id code)).

Definition handler_disconnect : handler_op unit := fn (
  call (on_coordinator attempt_cancel);;
  modify clear_context;;
  mret tt).

Definition handler_expire (now_ms : Z) : handler_op bool := fn (
  expired ← call (on_coordinator (attempt_expire now_ms));
  leave_if (negb expired) false;;
  modify clear_context;;
  mret true).

Definition current_binding_matches (h : Handler) : bool :=
  if negb (context_active_ h) then false
  else match device_snapshot (device_ h) with
       | Some snapshot => session_v2_begin_matches_snapshot (handler_context_ h) snapshot
       | None => false
       end.

(** The check of the attempt identifier that four of the messages make. *)
Definition stale (attempt : bytes) (h : Handler) : bool :=
  negb (context_active_ h) || negb (active_ (coordinator_ h))
  || negb (same_attempt attempt (attempt_id (descriptor_ (coordinator_ h)))).

Definition handle_begin (id : Z) (params : json) (now_ms : Z) : handler_op json := fn (
  call (on_coordinator attempt_cancel);;
  modify clear_context;;
  match parse_begin_context params with
  | None => leave (error_response id "invalid_request")
  | Some parsed =>
    h ← get_state;
    match device_snapshot (device_ h) with
    | None => leave (error_response id "invalid_state")
    | Some snapshot =>
      leave_if (negb (session_v2_begin_matches_snapshot parsed snapshot))
        (error_response id "binding_mismatch");;
      begun ← call (on_coordinator (attempt_begin parsed now_ms));
      match begun with
      | None => leave (error_response id "invalid_request")
      | Some descriptor =>
        modify (λ h, h <| handler_context_ := parsed |> <| context_active_ := true |>);;
        mret (begin_success id descriptor now_ms)
      end
    end
  end).

Definition handle_authorize (id : Z) (params : json) (now_ms : Z) : handler_op json := fn (
  h ← get_state;
  match read_binary kAttemptIdBytes params "attempt_id",
        read_binary kP256PublicKeyBytes params "web_public_key", read_optional_signature params with
  | Some attempt, Some web_public, Some signature =>
    if stale attempt h then call (fail_closed id "stale_attempt")
    else if negb (current_binding_matches h) then call (fail_closed id "binding_mismatch")
    else
      authorized ← call (on_coordinator (attempt_authorize web_public signature now_ms));
      if negb authorized then
        modify clear_context;;
        leave (error_response id "authentication_failed")
      else mret (empty_success id)
  | _, _, _ => call (fail_closed id "invalid_request")
  end).

Definition handle_status (id : Z) (params : json) (now_ms : Z) : handler_op json := fn (
  h ← get_state;
  match read_binary kAttemptIdBytes params "attempt_id" with
  | Some attempt =>
    if stale attempt h then call (fail_closed id "stale_attempt")
    else if negb (current_binding_matches h) then call (fail_closed id "binding_mismatch")
    else
      expired ← call (on_coordinator (attempt_expire now_ms));
      if expired : bool then
        modify clear_context;;
        leave (state_success id "expired")
      else
        h ← get_state;
        mret (state_success id (state_name (attempt_state (coordinator_ h))))
  | None => call (fail_closed id "invalid_request")
  end).

(** [clock_ms] is what the monotonic clock shows when the key is installed. *)
Definition handle_complete (id : Z) (params : json) (now_ms clock_ms : Z) : handler_op json := fn (
  h ← get_state;
  match read_binary kAttemptIdBytes params "attempt_id", read_binary kSessionNonceBytes params "nonce",
        read_binary kVmkBytes params "ciphertext", read_binary kSessionTagBytes params "tag" with
  | Some attempt, Some nonce, Some ciphertext, Some tag =>
    if stale attempt h then call (fail_closed id "stale_attempt")
    else if negb (current_binding_matches h) then call (fail_closed id "binding_mismatch")
    else
      opened ← call (on_coordinator (attempt_complete nonce ciphertext tag now_ms));
      match opened with
      | None =>
        modify clear_context;;
        leave (error_response id "session_rejected")
      | Some vmk =>
        h ← get_state;
        if negb (current_binding_matches h) then
          modify clear_context;;
          leave (error_response id "binding_mismatch")
        else
          installed ← call (on_device (device_install_vmk (handler_context_ h) vmk clock_ms));
          modify clear_context;;
          mret (if installed : bool then empty_success id else error_response id "invalid_state")
      end
  | _, _, _, _ => call (fail_closed id "invalid_request")
  end).

Definition handle_cancel (id : Z) (params : json) : handler_op json := fn (
  h ← get_state;
  match read_binary kAttemptIdBytes params "attempt_id" with
  | Some attempt =>
    if negb (context_active_ h) || negb (active_ (coordinator_ h)) then
      modify clear_context;;
      leave (empty_success id)
    else if negb (same_attempt attempt (attempt_id (descriptor_ (coordinator_ h))))
    then call (fail_closed id "stale_attempt")
    else
      call (on_coordinator attempt_cancel);;
      modify clear_context;;
      mret (empty_success id)
  | None => call (fail_closed id "invalid_request")
  end).

Definition dispatch (id : Z) (op : string) (params : json) (now_ms clock_ms : Z) : handler_op json :=
  if String.eqb op "session.begin" then handle_begin id params now_ms
  else if String.eqb op "session.authorize" then handle_authorize id params now_ms
  else if String.eqb op "session.status" then handle_status id params now_ms
  else if String.eqb op "session.complete" then handle_complete id params now_ms clock_ms
  else if String.eqb op "session.cancel" then handle_cancel id params
  else fail_closed id "unsupported_op".

Definition is_object (value : json) : bool := match value with JObject _ => true | _ => false end.

(** The fields every request has: the status with which it is refused, or its
    identifier, its operation and its parameters. *)
Definition request_header (root : json) : (Z * string) + (Z * bytes * json) :=
  match read_nonnegative_int (get_item root "id") with
  | None => inl (0, "invalid_id"%string)
  | Some id =>
    match read_nonnegative_int (get_item root "v") with
    | Some version =>
      if negb (version =? kProtocolVersion) then inl (id, "unsupported_version"%string)
      else
        match get_item root "op", get_item root "params" with
        | Some (JString op), Some (JObject members) => inr (id, op, JObject members)
        | _, _ => inl (id, "invalid_request"%string)
        end
    | None => inl (id, "unsupported_version"%string)
    end
  end.

Definition session_handle_line (line : bytes) (now_ms clock_ms : Z) : handler_op json :=
  if Nat.eqb (length line) 0 then fail_closed 0 "invalid_request"
  else if Nat.ltb kMaxSessionV2MessageBytes (length line) then fail_closed 0 "message_too_large"
  else
    match cJSON_ParseWithLength line with
    | Some (JObject members) =>
      match request_header (JObject members) with
      | inl (id, code) => fail_closed id code
      | inr (id, op, params) => dispatch id (text op) params now_ms clock_ms
      end
    | _ => fail_closed 0 "invalid_json"
    end.
End Handler.
