(* ===== verification/SessionHandlerCorrect.v ===== *)
(** * Correctness of the session messages

    The handler's context is the coordinator's, from [session.begin] until the
    attempt ends; every refusal ends it; and the device is only touched by a
    delivery that the user and the registered browser have authorised. *)

From S2P Require Import Prelude Bytes VaultFormat VaultCrypto Persistence Runtime.
From S2P Require Import Psa DeviceSession UserPresence Base64url Transcript Attempt AttemptCorrect Binding Json.
From S2P Require Import RuntimeCorrect RegistrationStore VmkSink VmkSinkCorrect SessionHandler.

Ltac exec_handler H :=
  repeat (exec_step H;
    repeat match goal with
    | E : on_coordinator ?f ?s = _ |- _ =>
        unfold on_coordinator in E; destruct (f (coordinator_ s)) eqn:?; apply pair_eq in E; destruct E; subst
    | E : on_device ?f ?s = _ |- _ =>
        unfold on_device in E; destruct (f (device_ s)) eqn:?; apply pair_eq in E; destruct E; subst
    end).

Section Coordinator.
Context `{MbedtlsGcm} {P K : Type} `{PresenceBindingLaws P} `{PsaLaws K}.
Implicit Types (c : AttemptCoordinator P K).

(** ** What the handler sees of the coordinator *)

Lemma cancel_inactive c x c' : attempt_cancel c = (x, c') → active_ c' = false.
Proof. intros E. unfold attempt_cancel in E. by exec E. Qed.
Lemma cancel_leave_inactive {R} (r0 r : R) c c' :
  fn (cancel_and_leave r0) c = (r, c') → r = r0 ∧ active_ c' = false.
Proof. intros E. unfold cancel_and_leave in E. exec E. split; [done|]. by eapply cancel_inactive. Qed.

Lemma begin_cases context now_ms c r c' :
  attempt_begin context now_ms c = (r, c') →
  if r then active_ c' = true ∧ context_ c' = context else active_ c' = false.
Proof.
  intros E. unfold attempt_begin in E. exec E; apply cancel_inactive in Ef.
  all: apply on_crypto_inv in Ef0 as (? & _ & ->); try apply on_crypto_inv in Ef1 as (? & _ & ->); done.
Qed.

Lemma handler_expire_cases now_ms c b c' :
  attempt_expire now_ms c = (b, c') →
  if b then active_ c' = false
  else active_ c' = active_ c ∧ context_ c' = context_ c ∧
    (active_ c = true → now_ms < expires_at_ms (descriptor_ c)).
Proof.
  intros E. unfold attempt_expire in E. exec E; try (by eapply cancel_inactive).
  - apply negb_true_iff in Ec. by rewrite Ec.
  - apply on_crypto_inv in Ef as (? & _ & ->). cbn in *. apply orb_false_iff in Eb as [_ Eb].
    split_and!; [done..|]. intros _. rewrite Z.geb_leb in Eb. by apply Z.leb_gt.
Qed.

Lemma signature_keeps transcript sig now_ms c b c' :
  signature_accepted transcript sig now_ms c = (b, c') → active_ c' = active_ c ∧ context_ c' = context_ c.
Proof.
  intros E. unfold signature_accepted, check_brk_signature in E.
  exec E; try done; exec E; try done; by apply on_crypto_inv in E as (? & _ & ->).
Qed.

Lemma authorize_cases web sig now_ms c b c' :
  attempt_authorize web sig now_ms c = (b, c') →
  if b then active_ c' = active_ c ∧ context_ c' = context_ c else active_ c' = false.
Proof.
  intros E. unfold attempt_authorize in E. rewrite fn_get in E. exec_matched E Hm.
  assert (Hc : active_ sm = active_ c ∧ context_ sm = context_ c).
  { destruct (_ || _) in Hm; [by apply pair_eq in Hm as [_ <-]|].
    by apply on_crypto_inv in Hm as (? & _ & ->). }
  exec E; try by apply cancel_leave_inactive in E as [-> ?].
  all: apply on_crypto_inv in Ef as (? & _ & ->); apply signature_keeps in Ef0;
    apply on_presence_inv in Ef1 as (? & _ & ->); cbn in *.
  by destruct Hc as [<- <-].
Qed.

Lemma complete_inactive nonce ct tag now_ms c r c' :
  attempt_complete nonce ct tag now_ms c = (r, c') → active_ c' = false.
Proof.
  intros E. unfold attempt_complete in E. rewrite fn_get in E. exec_matched E Hm.
  exec E; try by apply cancel_leave_inactive in E as [-> ?]. done.
Qed.
End Coordinator.

(** ** The invariant *)

Lemma read_binary_length n params key value :
  read_binary n params key = Some value → length value = n.
Proof.
  unfold read_binary. intros E. repeat case_match; try done. simplify_eq.
  by match goal with E : Nat.eqb _ _ = true |- _ => apply Nat.eqb_eq in E end.
Qed.

Lemma parsed_context_wf params context : parse_begin_context params = Some context → context_wf context.
Proof.
  unfold parse_begin_context. intros E.
  repeat match type of E with
  | (?o ≫= _) = Some _ => let Ex := fresh in destruct o eqn:Ex; cbn in E; [|done]
  end.
  injection E as <-. unfold context_wf. cbn.
  split_and!; by eapply read_binary_length.
Qed.

Section Handler.
Context `{MbedtlsGcm} {P K E : Type} `{PresenceBindingLaws P} `{PsaLaws K} `{SessionV2Device E}.
Context (cJSON_ParseWithLength : bytes → option json).
Implicit Types (h : StagedSessionV2Handler P K E).

(** Nothing but the kind of operation is left of a context. *)
Definition wiped_context (context : BeginContext) : Prop :=
  context_device_id context = [] ∧ all_zero (context_vault_id context) = true ∧
  context_expected_generation context = 0 ∧ all_zero (context_registration_id context) = true ∧
  context_registration_epoch context = 0 ∧ all_zero (context_current_brk context) = true ∧
  all_zero (context_proposed_brk context) = true.

Lemma wiped_wipe context : wiped_context (wipe_context context).
Proof. unfold wiped_context, wipe. cbn. split_and!; done || apply all_zero_zeros. Qed.

Record handler_ok h : Prop := {
  handler_one_attempt : context_active_ h = active_ (coordinator_ h);
  handler_same_context : context_active_ h = true →
    handler_context_ h = context_ (coordinator_ h) ∧ context_wf (handler_context_ h);
  handler_wiped : context_active_ h = false → wiped_context (handler_context_ h);
}.

(** The attempt has ended. *)
Definition no_attempt h : Prop :=
  context_active_ h = false ∧ active_ (coordinator_ h) = false ∧ wiped_context (handler_context_ h).

Lemma no_attempt_ok h : no_attempt h → handler_ok h.
Proof. intros (Hc & Ha & Hw). split; congruence || done. Qed.

(** What a delivery to the device presupposes. *)
Definition delivers (now_ms clock_ms : Z) h h' : Prop :=
  ∃ snapshot nonce ct tag vmk c1 b,
    context_active_ h = true ∧ device_snapshot (device_ h) = Some snapshot ∧
    session_v2_begin_matches_snapshot (handler_context_ h) snapshot = true ∧
    attempt_complete nonce ct tag now_ms (coordinator_ h) = (Some vmk, c1) ∧
    device_install_vmk (handler_context_ h) vmk clock_ms (device_ h) = (b, device_ h').

(** What handling a message leaves. *)
Definition handled (now_ms clock_ms : Z) h (response : json) h' : Prop :=
  handler_ok h' ∧ rtc attempt_step (coordinator_ h) (coordinator_ h') ∧
  (response_ok response = false → no_attempt h') ∧
  (device_ h' = device_ h ∨ delivers now_ms clock_ms h h').

Lemma handled_ended now_ms clock_ms h response h' :
  rtc attempt_step (coordinator_ h) (coordinator_ h') → no_attempt h' → device_ h' = device_ h →
  handled now_ms clock_ms h response h'.
Proof. intros Hr Hn Hd. split; [by apply no_attempt_ok|]. auto. Qed.

Lemma handled_going now_ms clock_ms h response h' :
  rtc attempt_step (coordinator_ h) (coordinator_ h') →
  handler_ok h' → response_ok response = true → device_ h' = device_ h →
  handled now_ms clock_ms h response h'.
Proof. intros Hr Hh Hk Hd. split_and!; [done|done|congruence|by left]. Qed.

#[local] Hint Constructors attempt_step : m5.
#[local] Hint Resolve rtc_refl rtc_once : m5.
#[local] Ltac steps :=
  cbn; repeat match goal with
  | E : attempt_cancel _ = _ |- _ => apply attempt_step_cancel in E
  | E : attempt_begin _ _ _ = _ |- _ => apply attempt_step_begin in E
  | E : attempt_authorize _ _ _ _ = _ |- _ => apply attempt_step_authorize in E
  | E : attempt_complete _ _ _ _ _ = _ |- _ => apply attempt_step_complete in E
  | E : attempt_expire _ _ = _ |- _ => apply attempt_step_expire in E
  end; eauto using rtc_once, rtc_l, rtc_refl.

#[local] Ltac ended := split_and!; [done|done|apply wiped_wipe].

Lemma fail_closed_handled now_ms clock_ms h id code response h' :
  fail_closed id code h = (response, h') → handled now_ms clock_ms h response h'.
Proof.
  intros Ef. unfold fail_closed in Ef. exec_handler Ef. apply handled_ended; [by steps| |done].
  apply cancel_inactive in Heqp. ended.
Qed.
#[local] Hint Resolve fail_closed_handled : m5.

Lemma stale_false attempt h :
  stale attempt h = false →
  context_active_ h = true ∧ active_ (coordinator_ h) = true ∧
  difference attempt (attempt_id (descriptor_ (coordinator_ h))) = 0.
Proof.
  unfold stale, same_attempt. rewrite !orb_false_iff, !negb_false_iff, Z.eqb_eq. tauto.
Qed.

(** Handling goes on with the coordinator that [f] left. *)
Lemma going_ok h c :
  handler_ok h → active_ c = active_ (coordinator_ h) → context_ c = context_ (coordinator_ h) →
  handler_ok (h <| coordinator_ := c |>).
Proof. intros [Ho Hs Hw] Ha Hc. split; cbn; rewrite ?Ha, ?Hc; done. Qed.

Lemma handle_begin_handled now_ms clock_ms id params h response h' :
  handle_begin id params now_ms h = (response, h') → handled now_ms clock_ms h response h'.
Proof.
  intros E'. unfold handle_begin in E'. exec_handler E'.
  all: try (apply handled_ended; [by steps| |done];
    first [apply cancel_inactive in Heqp; ended | apply begin_cases in Heqp0; ended]).
  apply handled_going; [by steps| |done|done]. apply begin_cases in Heqp0 as [Ha Hc].
  apply parsed_context_wf in Em. split; cbn; done || auto.
Qed.

Lemma handle_authorize_handled now_ms clock_ms id params h response h' :
  handler_ok h → handle_authorize id params now_ms h = (response, h') →
  handled now_ms clock_ms h response h'.
Proof.
  intros Hh E'. unfold handle_authorize in E'. exec_handler E'; eauto with m5.
  - apply handled_ended; [by steps| |done]. apply authorize_cases in Heqp. destruct a; [done|]. ended.
  - apply handled_going; [by steps| |done|done]. apply authorize_cases in Heqp.
    destruct a; [|done]. destruct Heqp. by apply going_ok.
Qed.

Lemma handle_status_handled now_ms clock_ms id params h response h' :
  handler_ok h → handle_status id params now_ms h = (response, h') →
  handled now_ms clock_ms h response h'.
Proof.
  intros Hh E'. unfold handle_status in E'. exec_handler E'; eauto with m5.
  - apply handled_ended; [by steps| |done]. apply handler_expire_cases in Heqp. ended.
  - apply handled_going; [by steps| |done|done].
    apply handler_expire_cases in Heqp as (? & ? & _). by apply going_ok.
Qed.

Lemma handle_complete_handled now_ms clock_ms id params h response h' :
  handler_ok h → handle_complete id params now_ms clock_ms h = (response, h') →
  handled now_ms clock_ms h response h'.
Proof.
  intros Hh E'. unfold handle_complete in E'. exec_handler E'; eauto with m5.
  all: pose proof (complete_inactive _ _ _ _ _ _ _ Heqp) as Hi.
  all: try (by apply handled_ended; [by steps|ended|done]).
  apply stale_false in Eb as (Ha & _). apply negb_false_iff in Eb0. unfold current_binding_matches in Eb0.
  rewrite Ha in Eb0. destruct (device_snapshot (device_ h)) as [snapshot|] eqn:Es; [|done].
  split; [apply no_attempt_ok; ended|]. split; [by steps|]. split; [intros _; ended|]. right. do 7 eexists. eauto 7.
Qed.

Lemma handle_cancel_handled now_ms clock_ms id params h response h' :
  handler_ok h → handle_cancel id params h = (response, h') → handled now_ms clock_ms h response h'.
Proof.
  intros [Ho Hs Hw] E'. unfold handle_cancel in E'. exec_handler E'; eauto with m5.
  - apply handled_ended; [by steps| |done]. rewrite Ho in Eb.
    split_and!; [done|cbn; by destruct (active_ (coordinator_ h))|apply wiped_wipe].
  - apply handled_ended; [by steps| |done]. apply cancel_inactive in Heqp. ended.
Qed.

Lemma session_line_handled line now_ms clock_ms h response h' :
  handler_ok h → session_handle_line cJSON_ParseWithLength line now_ms clock_ms h = (response, h') →
  handled now_ms clock_ms h response h'.
Proof.
  intros Hh E'. unfold session_handle_line, dispatch in E'.
  repeat match type of E' with
  | (if ?b then _ else _) _ = _ => destruct b
  | (match ?x with _ => _ end) _ = _ => destruct x
  end; eauto using handle_begin_handled, handle_authorize_handled, handle_status_handled,
    handle_complete_handled, handle_cancel_handled with m5.
Qed.

(** ** The transition system *)

(** Lines, the clock and disconnections; the button acts on the presence and
    the rest of the firmware on the device in between. *)
Inductive handler_step : StagedSessionV2Handler P K E → StagedSessionV2Handler P K E → Prop :=
  | handler_line line now_ms clock_ms h response h' :
      session_handle_line cJSON_ParseWithLength line now_ms clock_ms h = (response, h') → handler_step h h'
  | handler_step_expire now_ms h b h' : handler_expire now_ms h = (b, h') → handler_step h h'
  | handler_step_disconnect h x h' : handler_disconnect h = (x, h') → handler_step h h'
  | handler_presence p h : handler_step h (h <| coordinator_ := coordinator_ h <| presence_ := p |> |>)
  | handler_device e h : handler_step h (h <| device_ := e |>).

Inductive handler_reachable (base : gmap Z psa_key) : StagedSessionV2Handler P K E → Prop :=
  | handler_reachable_new p k e :
      psa_keys k = base → handler_reachable base (new_handler (new_coordinator p k) e)
  | handler_reachable_step h h' : handler_reachable base h → handler_step h h' → handler_reachable base h'.

Lemma disconnect_handled h x h' :
  handler_disconnect h = (x, h') → no_attempt h' ∧ rtc attempt_step (coordinator_ h) (coordinator_ h').
Proof.
  intros E'. unfold handler_disconnect in E'. exec_handler E'. split; [|by steps].
  apply cancel_inactive in Heqp. ended.
Qed.

Lemma handler_expire_handled now_ms h b h' :
  handler_ok h → handler_expire now_ms h = (b, h') →
  handler_ok h' ∧ rtc attempt_step (coordinator_ h) (coordinator_ h') ∧
  if b then no_attempt h'
  else context_active_ h' = true → now_ms < expires_at_ms (descriptor_ (coordinator_ h)).
Proof.
  intros Hh E'. unfold handler_expire in E'. exec_handler E'.
  - apply negb_true_iff in Ec as ->. split_and!; [|by steps|];
      apply handler_expire_cases in Heqp as (Ha & Hc & Hx); [by apply going_ok|].
    intros Hact. apply Hx. rewrite <- (handler_one_attempt _ Hh). exact Hact.
  - apply negb_false_iff in Ec as ->. split_and!; [|by steps|];
      apply handler_expire_cases in Heqp; [apply no_attempt_ok|]; ended.
Qed.

Lemma handler_step_ok h h' :
  handler_ok h → handler_step h h' → handler_ok h' ∧ rtc attempt_step (coordinator_ h) (coordinator_ h').
Proof.
  intros Hh Hs. destruct Hs as [? ? ? ? ? ? E'|? ? ? ? E'|? ? ? E'| | ].
  - apply session_line_handled in E' as (? & ? & _); [by split|done].
  - by apply handler_expire_handled in E' as (? & ? & _).
  - apply disconnect_handled in E' as [? ?]. split; [by apply no_attempt_ok|done].
  - split; [by apply going_ok|]. apply rtc_once, attempt_step_presence.
  - split; [by destruct Hh|apply rtc_refl].
Qed.

Lemma attempt_reachable_rtc base c c' :
  attempt_reachable base c → rtc attempt_step c c' → attempt_reachable base c'.
Proof. intros Hc Hs. revert Hc. induction Hs; eauto using attempt_reachable_step. Qed.

Lemma handler_reachable_ok base h :
  handler_reachable base h → handler_ok h ∧ attempt_reachable base (coordinator_ h).
Proof.
  induction 1 as [p k e Hk|h h' _ [IH IHr] Hs].
  - split; [|by apply attempt_reachable_new]. split; [done|done|]. intros _.
    unfold wiped_context. cbn. split_and!; done || apply all_zero_zeros.
  - destruct (handler_step_ok _ _ IH Hs). eauto using attempt_reachable_rtc.
Qed.
End Handler.

Section Properties.
Context `{MbedtlsGcm} {P K E : Type} `{PresenceBindingLaws P} `{PsaLaws K} `{SessionV2Device E}.
Context (cJSON_ParseWithLength : bytes → option json).
Implicit Types (h : StagedSessionV2Handler P K E).

(** At every moment the handler has an attempt exactly when the coordinator
    does, for the same context; otherwise the context is wiped, and so is
    everything the coordinator staged, and the key store holds no key of the
    session. *)
Theorem session_state_invariant base h :
  handler_reachable cJSON_ParseWithLength base h →
  context_active_ h = active_ (coordinator_ h) ∧
  if context_active_ h
  then handler_context_ h = context_ (coordinator_ h) ∧ context_wf (handler_context_ h)
  else wiped_context (handler_context_ h) ∧ wiped (coordinator_ h) ∧
    psa_keys (snd (crypto_ (coordinator_ h))) = base.
Proof.
  intros [[Ho Hs Hw] Hr%reachable_ok]%handler_reachable_ok. split; [done|].
  destruct (context_active_ h); [by apply Hs|]. unfold coordinator_ok in Hr. rewrite <- Ho in Hr.
  destruct Hr as [[_ Hk] Hwc]. auto.
Qed.

(** C20: Whatever line arrives - empty, oversized, not JSON, malformed, stale, in
    the wrong state or wrongly signed - a response that is not a success
    leaves no attempt behind: the key store is back to what it was and every
    staged value is zero. *)
Theorem refusal_ends_attempt base line now_ms clock_ms h response h' :
  handler_reachable cJSON_ParseWithLength base h →
  session_handle_line cJSON_ParseWithLength line now_ms clock_ms h = (response, h') →
  response_ok response = false →
  no_attempt h' ∧ wiped (coordinator_ h') ∧ psa_keys (snd (crypto_ (coordinator_ h'))) = base.
Proof.
  intros [Hh Hr]%handler_reachable_ok E' Hf.
  apply session_line_handled in E' as (_ & Hs & Hn & _); [|done].
  pose proof (Hn Hf) as (_ & Ha & _). split; [by apply Hn|].
  apply (attempt_reachable_rtc _ _ _ Hr), reachable_ok in Hs. unfold coordinator_ok in Hs.
  rewrite Ha in Hs. by destruct Hs as [[_ Hk] Hw].
Qed.

(** C2: A line changes the device only by delivering a key: for an attempt the
    device accepts as it is now, whose user has confirmed it and whose time has
    not passed, over a transcript of exactly this attempt, signed by the
    browser key the device is registered for where the operation requires it,
    and opened under a key agreed with the attempt's ephemeral key. *)
Theorem device_changes_authorised base line now_ms clock_ms h response h' :
  handler_reachable cJSON_ParseWithLength base h →
  session_handle_line cJSON_ParseWithLength line now_ms clock_ms h = (response, h') →
  device_ h' = device_ h ∨
  let c := coordinator_ h in
  ∃ snapshot nonce ct tag vmk installed,
    device_snapshot (device_ h) = Some snapshot ∧
    presence_given (presence_ c) (attempt_id (descriptor_ c)) ∧
    now_ms < expires_at_ms (descriptor_ c) ∧
    transcript_ c = transcript_bytes (authorize_input c (web_public_key_ c)) ∧
    (snapshot_wf snapshot →
       accepted snapshot (context_ c) ∧
       (brk_signature_required (context_operation (context_ c)) = true →
        ∃ signature, signs (snapshot_brk snapshot) (sha256 (transcript_ c)) signature)) ∧
    delivered (descriptor_ c) (web_public_key_ c) (hkdf_salt (descriptor_ c)) (transcript_ c)
      nonce ct tag (transcript_ c) vmk ∧
    device_install_vmk (context_ c) vmk clock_ms (device_ h) = (installed, device_ h').
Proof.
  intros [Hh Hr%reachable_ok]%handler_reachable_ok E'.
  apply session_line_handled in E' as (_ & _ & _ & Hd); [|done]. destruct Hd as [Hd|Hd]; [by left|right].
  destruct Hd as (snapshot & nonce & ct & tag & vmk & c1 & b & Ha & Hsnap & Hm & Hc & Hi).
  destruct (handler_same_context _ Hh Ha) as [Hctx Hwf]. rewrite Hctx in Hm, Hi, Hwf.
  apply (complete_spec base) in Hc as [_ Hc]; [|done].
  destruct (Hc vmk eq_refl) as (_ & (Ht & _ & Hauth) & Hp & Hnow & _ & Hdel).
  exists snapshot, nonce, ct, tag, vmk, b. split_and!; try done.
  intros Hsw. apply begin_matches_spec in Hm as [_ Hacc]; [|done..]. split; [done|].
  intros Hreq. destruct (Hauth Hreq) as [sig Hsig]. exists sig.
  assert (Hbrk : context_current_brk (context_ (coordinator_ h)) = snapshot_brk snapshot).
  { destruct Hacc as [| | |op ? ? ? Hop]; [done|done|done|]. by destruct Hop as [-> | ->]. }
  by rewrite <- Hbrk.
Qed.

(** C39: An attempt does not outlive its deadline: once the clock has reached it,
    expiring the handler ends the attempt, whatever its state. *)
Theorem expiry_ends_attempt base now_ms h b h' :
  handler_reachable cJSON_ParseWithLength base h → handler_expire now_ms h = (b, h') →
  expires_at_ms (descriptor_ (coordinator_ h)) ≤ now_ms →
  no_attempt h'.
Proof.
  intros [Hh _]%handler_reachable_ok E' Hn.
  apply handler_expire_handled in E' as ([Ho _ Hw] & _ & He); [|done].
  destruct b; [done|]. destruct (context_active_ h') eqn:Hc; [specialize (He eq_refl); lia|].
  split_and!; auto.
Qed.
End Properties.

(** ** A locked device is opened from the browser, message by message *)

Module HandlerSample.
#[local] Existing Instance checksum_gcm.
#[local] Existing Instance checksum_gcm_laws.

Definition browser_key : bytes := toy_point 40.
Definition web_key : bytes := toy_point 50.
Definition unlock_context : BeginContext :=
  mkContext Operation.kTrustedBrowserUnlock (device_id_text (seqZ 1 16)) sample_vault_id 1
    (seqZ 30 16) 1 browser_key (zeros 65).

Abbreviation Coordinator := (AttemptCoordinator CanonicalPresence ToyKeys).
Definition idle_coordinator : Coordinator := new_coordinator (mkPresence 7 idle_gate) fresh_keys.
(** What the browser learns and computes. *)
Definition begun : Coordinator := snd (attempt_begin unlock_context 1000 idle_coordinator).
Definition attempt : bytes := Eval vm_compute in attempt_id (descriptor_ begun).
Definition transcript : bytes := Eval vm_compute in transcript_bytes (authorize_input begun web_key).
Definition signature : bytes := Eval vm_compute in toy_signature browser_key (toy_digest transcript).
Definition session_key : bytes := Eval vm_compute in
  snd (mbedtls_hkdf (hkdf_salt (descriptor_ begun))
         (toy_ecdh web_key (device_public_key (descriptor_ begun))) transcript).
Definition sealed := Eval vm_compute in
  mbedtls_gcm_crypt_and_tag session_key sample_nonce transcript Sample.key1.

Definition member (key : string) (value : bytes) : string * json := (key, JString value).
Definition binary (key : string) (value : bytes) : string * json := member key (base64url_encode value).
Definition request (op : string) (params : list (string * json)) : json :=
  JObject [("v"%string, number 2); ("id"%string, number 1); member "op" (str op);
           ("params"%string, JObject params)].

Definition begin_request : json := request "session.begin"
  [member "operation" (str "trusted_browser_unlock");
   member "device_id" (context_device_id unlock_context);
   binary "vault_id" sample_vault_id; member "expected_generation" (str "1");
   binary "registration_id" (seqZ 30 16); ("registration_epoch"%string, number 1);
   binary "current_brk_public_key" browser_key; binary "proposed_brk_public_key" (zeros 65)].
Definition authorize_request : json := request "session.authorize"
  [binary "attempt_id" attempt; binary "web_public_key" web_key; binary "brk_signature" signature].
Definition complete_request : json := request "session.complete"
  [binary "attempt_id" attempt; binary "nonce" sample_nonce;
   binary "ciphertext" (snd (fst sealed)); binary "tag" (snd sealed)].

(** A parser that knows four lines. *)
Definition parse (line : bytes) : option json :=
  match line with
  | [1] => Some begin_request | [2] => Some authorize_request | [3] => Some complete_request
  | [4] => Some (request "session.status" [])
  | _ => None
  end.

Abbreviation Handler := (StagedSessionV2Handler CanonicalPresence ToyKeys SinkSample.MemorySink).
Definition send (line : bytes) (now_ms : Z) (h : Handler) : json * Handler :=
  session_handle_line parse line now_ms now_ms h.
Definition h0 : Handler := new_handler idle_coordinator SinkSample.locked_sink.
Definition h1 : Handler := snd (send [1] 1000 h0).
Definition h2 : Handler := snd (send [2] 2000 h1).
Definition h3 : Handler :=
  h2 <| coordinator_ := coordinator_ h2 <| presence_ := AttemptSample.press (presence_ (coordinator_ h2)) |> |>.

Lemma send_pair line now_ms h :
  session_handle_line parse line now_ms now_ms h = (fst (send line now_ms h), snd (send line now_ms h)).
Proof. unfold send. apply surjective_pairing. Qed.
Lemma send_step line now_ms h : handler_step parse h (snd (send line now_ms h)).
Proof. eapply handler_line. apply (send_pair line now_ms h). Qed.
Lemma reachable_h0 : handler_reachable parse ∅ h0.
Proof. apply handler_reachable_new. reflexivity. Qed.
Lemma reachable_h1 : handler_reachable parse ∅ h1.
Proof. exact (handler_reachable_step _ _ _ _ reachable_h0 (send_step [1] 1000 h0)). Qed.
Lemma reachable_h2 : handler_reachable parse ∅ h2.
Proof. exact (handler_reachable_step _ _ _ _ reachable_h1 (send_step [2] 2000 h1)). Qed.
Lemma reachable_h3 : handler_reachable parse ∅ h3.
Proof.
  exact (handler_reachable_step _ _ _ _ reachable_h2
    (handler_presence parse (AttemptSample.press (presence_ (coordinator_ h2))) h2)).
Qed.

Lemma session_state_invariant_witness :
  context_active_ h2 = true ∧ handler_context_ h2 = context_ (coordinator_ h2).
Proof.
  assert (Ha : context_active_ h2 = true) by (vm_compute; reflexivity). split; [exact Ha|].
  destruct (session_state_invariant parse ∅ h2 reachable_h2) as [_ Hs]. rewrite Ha in Hs. exact (proj1 Hs).
Defined.

(** A status request without an attempt identifier. *)
Lemma refusal_ends_attempt_witness :
  context_active_ h2 = true ∧ response_ok (fst (send [4] 2500 h2)) = false ∧
  no_attempt (snd (send [4] 2500 h2)).
Proof.
  assert (Ha : context_active_ h2 = true) by (vm_compute; reflexivity).
  assert (Hf : response_ok (fst (send [4] 2500 h2)) = false) by (vm_compute; reflexivity).
  split; [exact Ha|split; [exact Hf|]].
  exact (proj1 (refusal_ends_attempt parse ∅ [4] 2500 2500 h2 (fst (send [4] 2500 h2)) (snd (send [4] 2500 h2))
    reachable_h2 (send_pair [4] 2500 h2) Hf)).
Defined.

Lemma expiry_ends_attempt_witness :
  context_active_ h1 = true ∧ no_attempt (snd (handler_expire 31000 h1)).
Proof.
  split; [vm_compute; reflexivity|].
  apply (expiry_ends_attempt parse ∅ 31000 h1 (fst (handler_expire 31000 h1)) _ reachable_h1).
  - apply surjective_pairing.
  - vm_compute. discriminate.
Defined.

Lemma device_changes_authorised_witness :
  unlocked (runtime_ (device_ h3)) = false ∧
  unlocked (runtime_ (device_ (snd (send [3] 4000 h3)))) = true ∧
  presence_given (presence_ (coordinator_ h3)) (attempt_id (descriptor_ (coordinator_ h3))).
Proof.
  assert (H3 : unlocked (runtime_ (device_ h3)) = false) by (vm_compute; reflexivity).
  assert (H4 : unlocked (runtime_ (device_ (snd (send [3] 4000 h3)))) = true) by (vm_compute; reflexivity).
  split; [exact H3|split; [exact H4|]].
  pose proof (device_changes_authorised parse ∅ [3] 4000 4000 h3 (fst (send [3] 4000 h3))
    (snd (send [3] 4000 h3)) reachable_h3 (send_pair [3] 4000 h3)) as Hd.
  cbv zeta in Hd.
  destruct Hd as [Hd|(snapshot & nonce & ct & tag & vmk & b & _ & Hp & _)]; [exfalso|exact Hp].
  rewrite Hd, H3 in H4. discriminate H4.
Defined.
End HandlerSample.
