(* ===== verification/TrustedTime.v ===== *)
(** * The trusted clock

    [m5auth_time/trusted_time.cpp]: [TrustedClock], an anchor in Unix time
    projected along the monotonic clock.  Seconds are [uint64_t], microseconds
    [int64_t]; the checks of the code keep the projection from wrapping, and the
    monotonic clock counts from boot, so its differences fit.  The mutex has no
    counterpart. *)

From S2P Require Import Prelude Bytes.

Definition kResyncIntervalSeconds : Z := 6 * 60 * 60.
Definition kStaleAfterSeconds : Z := 24 * 60 * 60.
Definition kMaxNtpJumpSeconds : Z := 300.
Definition kMicroseconds : Z := 1000000.

Inductive Readiness := kNotSynced | kReady | kStale.
Inductive Source := kNone | kNtp | kUsb.
#[export] Instance readiness_eq_dec : EqDecision Readiness.
Proof. solve_decision. Defined.
#[export] Instance source_eq_dec : EqDecision Source.
Proof. solve_decision. Defined.

(** [time::Snapshot] *)
Record TimeSnapshot := mkTimeSnapshot {
  readiness : Readiness;
  source : Source;
  last_sync_unix_seconds : Z;
  age_seconds : Z;
  resync_due : bool;
}.
#[export] Instance eta_time_snapshot : Eta TimeSnapshot := λ s,
  mkTimeSnapshot (readiness s) (source s) (last_sync_unix_seconds s) (age_seconds s) (resync_due s).
Definition empty_time_snapshot : TimeSnapshot := mkTimeSnapshot kNotSynced kNone 0 0 false.

Record TrustedClock := mkClock {
  synchronized_ : bool;
  base_unix_seconds_ : Z;
  base_monotonic_us_ : Z;
  source_ : Source;
}.
Definition new_clock : TrustedClock := mkClock false 0 0 kNone.

Definition elapsed_us (now_monotonic_us base_monotonic_us : Z) : Z :=
  if now_monotonic_us <? base_monotonic_us then -1 else now_monotonic_us - base_monotonic_us.

Definition mark_synchronized (unix_seconds monotonic_us : Z) (source : Source) (c : TrustedClock)
    : TrustedClock := mkClock true unix_seconds monotonic_us source.

(** The projection of an anchor: [None] where the code refuses. *)
Definition project (c : TrustedClock) (elapsed : Z) : option Z :=
  if elapsed <? 0 then None
  else
    let elapsed_seconds := Z.quot elapsed kMicroseconds in
    if base_unix_seconds_ c >? u64_max - elapsed_seconds then None
    else Some (base_unix_seconds_ c + elapsed_seconds).

Definition accept_ntp_sample (unix_seconds monotonic_us : Z) (c : TrustedClock) : bool * TrustedClock :=
  let accepted := (true, mkClock true unix_seconds monotonic_us kNtp) in
  if synchronized_ c then
    match project c (elapsed_us monotonic_us (base_monotonic_us_ c)) with
    | None => (false, c)
    | Some projected =>
      let delta := if unix_seconds >=? projected then unix_seconds - projected else projected - unix_seconds in
      if delta >? kMaxNtpJumpSeconds then (false, c) else accepted
    end
  else accepted.

Definition clock_snapshot (monotonic_us : Z) (c : TrustedClock) : TimeSnapshot :=
  if negb (synchronized_ c) then empty_time_snapshot
  else
    let result := empty_time_snapshot <| source := source_ c |>
                    <| last_sync_unix_seconds := base_unix_seconds_ c |> in
    let elapsed := elapsed_us monotonic_us (base_monotonic_us_ c) in
    if elapsed <? 0 then result <| readiness := kStale |> <| resync_due := true |>
    else
      result <| age_seconds := Z.quot elapsed kMicroseconds |>
             <| resync_due := elapsed >=? kResyncIntervalSeconds * kMicroseconds |>
             <| readiness := if elapsed >? kStaleAfterSeconds * kMicroseconds then kStale else kReady |>.

Definition current_unix_seconds (monotonic_us : Z) (c : TrustedClock) : option Z :=
  if negb (synchronized_ c) then None
  else
    let elapsed := elapsed_us monotonic_us (base_monotonic_us_ c) in
    if (elapsed <? 0) || (elapsed >? kStaleAfterSeconds * kMicroseconds) then None
    else project c elapsed.

Definition readiness_name (readiness : Readiness) : string :=
  match readiness with kNotSynced => "not_synced" | kReady => "ready" | kStale => "stale" end.
Definition source_name (source : Source) : string :=
  match source with kNone => "none" | kNtp => "ntp" | kUsb => "usb" end.
Definition source_authenticity_name (source : Source) : string :=
  match source with
  | kNone => "none" | kNtp => "unauthenticated_network" | kUsb => "local_host_asserted"
  end.

(** ** Properties *)

Definition clock_ok (c : TrustedClock) : Prop := is_u64 (base_unix_seconds_ c).

(** The time the clock would show [elapsed] microseconds after the boot time
    [now], with unbounded integers. *)
Definition ideal (c : TrustedClock) (now : Z) : Z :=
  base_unix_seconds_ c + (now - base_monotonic_us_ c) / kMicroseconds.

Lemma project_spec c elapsed t :
  clock_ok c →
  project c elapsed = Some t ↔
  0 ≤ elapsed ∧ t = base_unix_seconds_ c + elapsed / kMicroseconds ∧ t ≤ u64_max.
Proof.
  unfold project, clock_ok, is_u64, kMicroseconds. intros Hc.
  destruct (Z.ltb_spec elapsed 0); [split; [done|lia]|]. rewrite Z.quot_div_nonneg, Z.gtb_ltb by lia.
  destruct (Z.ltb_spec (u64_max - elapsed / 1000000) (base_unix_seconds_ c)).
  - split; [done|lia].
  - split; [intros [= <-]; lia|]. intros (_ & -> & _). done.
Qed.

Lemma elapsed_spec now base :
  elapsed_us now base = -1 ∧ now < base ∨ elapsed_us now base = now - base ∧ base ≤ now.
Proof. unfold elapsed_us. destruct (Z.ltb_spec now base); [by left|right; split; lia]. Qed.

(** The clock gives a time exactly while its anchor is at most a day old and
    not in the future of the monotonic clock; the time is the anchor's plus the
    whole seconds elapsed and never wraps; and the snapshot says "ready" in
    exactly those states (unless the time itself would not fit 64 bits). *)
Lemma current_time_exact c now t :
  clock_ok c →
  (current_unix_seconds now c = Some t ↔
     synchronized_ c = true ∧ 0 ≤ now - base_monotonic_us_ c ≤ kStaleAfterSeconds * kMicroseconds ∧
     t = ideal c now ∧ is_u64 t) ∧
  (readiness (clock_snapshot now c) = kReady ↔
     synchronized_ c = true ∧ 0 ≤ now - base_monotonic_us_ c ≤ kStaleAfterSeconds * kMicroseconds).
Proof.
  intros Hc. unfold current_unix_seconds, clock_snapshot, ideal, is_u64, kStaleAfterSeconds.
  destruct (synchronized_ c); cbn; [|split; split; [done|naive_solver|done|naive_solver]].
  destruct (elapsed_spec now (base_monotonic_us_ c)) as [[-> Hlt]|[-> Hge]].
  { cbn. split; (split; [done|intros; destruct_and?; lia]). }
  rewrite (proj2 (Z.ltb_ge _ 0)) by lia. rewrite Z.gtb_ltb. cbn [orb].
  destruct (Z.ltb_spec (24 * 60 * 60 * kMicroseconds) (now - base_monotonic_us_ c)); cbn.
  - split; (split; [done|intros; destruct_and?; lia]).
  - split; [|split; [intros _; split; [done|lia]|done]]. rewrite project_spec by done.
    unfold clock_ok, is_u64, kMicroseconds in *. split; intros; destruct_and?; split_and!; auto; lia.
Qed.

(** Events of a running clock. *)
Inductive clock_event := NtpSample (unix_seconds monotonic_us : Z) | Anchor (unix_seconds monotonic_us : Z).
Definition clock_step (c : TrustedClock) (ev : clock_event) : TrustedClock :=
  match ev with
  | NtpSample unix now => snd (accept_ntp_sample unix now c)
  | Anchor unix now => mark_synchronized unix now kUsb c
  end.
Definition is_sample (ev : clock_event) : Prop :=
  match ev with NtpSample unix _ => is_u64 unix | Anchor _ _ => False end.

Lemma sample_cases unix now c :
  clock_ok c → is_u64 unix → synchronized_ c = true →
  accept_ntp_sample unix now c = (false, c) ∨
  accept_ntp_sample unix now c = (true, mkClock true unix now kNtp) ∧
    base_monotonic_us_ c ≤ now ∧ Z.abs (unix - ideal c now) ≤ kMaxNtpJumpSeconds.
Proof.
  intros Hc Hu Hs. unfold accept_ntp_sample. rewrite Hs.
  destruct (project c _) as [p|] eqn:Hp; [|by left]. apply project_spec in Hp as (He & -> & _); [|done].
  destruct (elapsed_spec now (base_monotonic_us_ c)) as [[Hx ?]|[Hx ?]]; rewrite Hx in *; [lia|].
  fold (ideal c now). rewrite Z.gtb_ltb. destruct (Z.ltb_spec kMaxNtpJumpSeconds
    (if unix >=? ideal c now then unix - ideal c now else ideal c now - unix)) as [|Hd]; [by left|].
  right. split_and!; [done|lia|]. rewrite Z.geb_leb in Hd. destruct (Z.leb_spec (ideal c now) unix); lia.
Qed.

(** C25: Network time can only pull the clock slowly: after any number [n] of
    samples, whatever times they claim, the clock is within [301 * n] seconds of
    where its anchor put it (300 per sample, and one for the fraction of a
    second that a new anchor drops).  A rejected sample changes nothing, and
    the clock stays synchronized. *)
Theorem ntp_drift_bounded evs c now :
  clock_ok c → synchronized_ c = true → Forall is_sample evs →
  let c' := foldl clock_step c evs in
  synchronized_ c' = true ∧ clock_ok c' ∧ base_monotonic_us_ c ≤ base_monotonic_us_ c' ∧
  Z.abs (ideal c' now - ideal c now) ≤ (kMaxNtpJumpSeconds + 1) * Z.of_nat (length evs).
Proof.
  cbn zeta. intros Hc Hs Hev. revert c Hc Hs. induction Hev as [|ev evs Hv Hev IH]; intros c Hc Hs.
  { cbn. split_and!; [done|done|lia|]. rewrite Z.sub_diag. cbn. lia. }
  destruct ev as [unix at_us|]; [|done]. cbn [foldl clock_step length is_sample] in *.
  destruct (sample_cases unix at_us c Hc Hv Hs) as [E|(E & Hmono & Hj)]; rewrite E; cbn [snd].
  - destruct (IH c Hc Hs) as (? & ? & ? & ?). unfold kMaxNtpJumpSeconds in *. split_and!; [done|done|lia|lia].
  - destruct (IH (mkClock true unix at_us kNtp)) as (? & ? & Hb & Hd); [done|done|].
    cbn [base_monotonic_us_] in Hb. split_and!; [done|done|lia|].
    assert (Hstep : Z.abs (ideal (mkClock true unix at_us kNtp) now - ideal c now) ≤ kMaxNtpJumpSeconds + 1).
    { unfold ideal, kMicroseconds, kMaxNtpJumpSeconds in *. cbn. lia. }
    unfold kMaxNtpJumpSeconds in *. lia.
Qed.

Definition sample_clock : TrustedClock := mkClock true 1800000000 5000000 kUsb.

Lemma current_time_exact_witness :
  current_unix_seconds 65500000 sample_clock = Some 1800000060 ∧
  readiness (clock_snapshot 65500000 sample_clock) = kReady.
Proof.
  assert (Hc : clock_ok sample_clock) by (split; vm_compute; discriminate).
  destruct (current_time_exact sample_clock 65500000 1800000060 Hc) as [[_ Ht] [_ Hr]].
  split; [apply Ht|apply Hr]; split_and!; (reflexivity || (vm_compute; repeat split; discriminate)).
Defined.

Lemma ntp_drift_bounded_witness :
  let c' := foldl clock_step sample_clock
    [NtpSample 1800000290 6000000; NtpSample 99 7000000; NtpSample 1800000000 8000000] in
  base_unix_seconds_ c' = 1800000000 ∧
  Z.abs (ideal c' 90000000 - ideal sample_clock 90000000) ≤ 903.
Proof.
  split; [vm_compute; reflexivity|].
  apply (ntp_drift_bounded [NtpSample 1800000290 6000000; NtpSample 99 7000000; NtpSample 1800000000 8000000]
    sample_clock 90000000).
  - split; vm_compute; discriminate.
  - reflexivity.
  - repeat constructor; vm_compute; repeat split; discriminate.
Defined.
