(* ===== verification/TimeService.v ===== *)
(** * The time service

    [m5auth_time/canonical_time_service.cpp]: [TimeService], which anchors the
    trusted clock from the network with the Vault's Wi-Fi record, or from the
    USB host.  It shares the Vault runtime with the rest of the firmware, so its
    operations act on the runtime and the service together.

    The network stack of ESP-IDF and the clocks are the class [EspNetwork];
    ticks are milliseconds.  The two mutexes have no counterpart (an operation
    is one step), nor has the task that calls [resync_if_due] every minute. *)

From S2P Require Import Prelude Bytes VaultFormat VaultCrypto Persistence Runtime TrustedTime.

Definition kMinAcceptedUnixSeconds : Z := 1577836800.
Definition kMaxAcceptedUnixSeconds : Z := 4102444800.
Definition kInitialNtpRetrySeconds : Z := 60.
Definition kBootBackoff : list Z := [1000; 3000].
Definition kWifiConnectTimeout : Z := 6000.
Definition kSntpTimeout : Z := 8000.
Definition kPollInterval : Z := 100.
Definition kMaxSsidBytes : nat := 32.
Definition kMaxPasswordBytes : nat := 64.

Module SyncResult.
Inductive t :=
  | kOk | kNotConfigured | kLocked | kNotDue | kInvalidTime | kRejectedJump
  | kNetworkUnavailable | kSyncFailed | kInternalError.
#[global] Instance eq_dec : EqDecision t.
Proof. solve_decision. Defined.
End SyncResult.

Definition sync_result_code (result : SyncResult.t) : string :=
  match result with
  | SyncResult.kOk => "ok"
  | SyncResult.kNotConfigured => "wifi_not_configured"
  | SyncResult.kLocked => "invalid_state"
  | SyncResult.kNotDue => "time_sync_not_due"
  | SyncResult.kInvalidTime => "invalid_time"
  | SyncResult.kRejectedJump => "time_jump_rejected"
  | SyncResult.kNetworkUnavailable => "network_unavailable"
  | SyncResult.kSyncFailed => "time_sync_failed"
  | SyncResult.kInternalError => "time_internal_error"
  end.

(** ** The network stack *)

Inductive net_error := NetOk | NetInvalidState | NetFailed.
#[export] Instance net_error_eq_dec : EqDecision net_error.
Proof. solve_decision. Defined.

(** The calls that return an [esp_err_t], by name. *)
Inductive net_call :=
  | esp_netif_init | esp_event_loop_create_default | esp_wifi_init | esp_wifi_set_storage
  | esp_wifi_set_mode | esp_wifi_set_config (ssid password : bytes) | esp_wifi_start | esp_wifi_connect
  | esp_wifi_sta_get_ap_info | esp_wifi_disconnect | esp_wifi_stop | esp_wifi_deinit
  | esp_netif_sntp_init | esp_netif_sntp_sync_wait (timeout : Z).

Class EspNetwork (N : Type) := {
  net : net_call → N → net_error * N;
  (** whether the pointer is not null *)
  esp_netif_create_default_wifi_sta : N → bool * N;
  esp_netif_destroy_default_wifi : N → unit * N;
  (** the station's address, when the call succeeds *)
  esp_netif_get_ip_info : N → option Z * N;
  esp_netif_sntp_deinit : N → unit * N;
  vTaskDelay : Z → N → unit * N;
  gettimeofday : N → option Z * N;
  settimeofday : Z → N → bool * N;
  esp_timer_get_time : N → Z * N;
}.

Record TimeService {N : Type} := mkTimeService {
  clock_ : TrustedClock;
  network_initialized_ : bool;
  station_netif_ : bool;
  last_initial_attempt_us_ : Z;
  last_periodic_attempt_us_ : Z;
  net_ : N;
}.
Arguments TimeService : clear implicits.
#[export] Instance eta_time_service {N} : Eta (TimeService N) := λ t,
  mkTimeService N (clock_ t) (network_initialized_ t) (station_netif_ t) (last_initial_attempt_us_ t)
    (last_periodic_attempt_us_ t) (net_ t).
Definition new_time_service {N} (net : N) : TimeService N := mkTimeService N new_clock false false (-1) (-1) net.

Definition acceptable_unix_seconds (unix_seconds : Z) : bool :=
  (unix_seconds >=? kMinAcceptedUnixSeconds) && (unix_seconds <=? kMaxAcceptedUnixSeconds).

Section Service.
Context {N : Type} `{EspNetwork N}.
Abbreviation Service := (TimeService N).
Definition service_op (A : Type) : Type := Service → A * Service.

Definition on_net {A} (f : N → A * N) : service_op A := λ t,
  let '(a, n) := f (net_ t) in (a, t <| net_ := n |>).
(** A call whose error code is looked at. *)
Definition esp (c : net_call) : service_op net_error := on_net (net c).

(** A failure inside [ensure_network_initialized] after the driver is up. *)
Definition drop_station {A} (deinit : bool) : ctl Service bool A :=
  (if deinit then (call (esp esp_wifi_deinit);; mret tt) else mret tt);;
  call (on_net esp_netif_destroy_default_wifi);;
  modify (λ t, t <| station_netif_ := false |>);;
  leave false.

Definition ensure_network_initialized : service_op bool := fn (
  t ← get_state;
  leave_if (network_initialized_ t) true;;
  result ← call (esp esp_netif_init);
  leave_if (bool_decide (result = NetFailed)) false;;
  result ← call (esp esp_event_loop_create_default);
  leave_if (bool_decide (result = NetFailed)) false;;
  created ← call (on_net esp_netif_create_default_wifi_sta);
  modify (λ t, t <| station_netif_ := created |>);;
  leave_if (negb created) false;;
  result ← call (esp esp_wifi_init);
  if negb (bool_decide (result = NetOk)) then drop_station false
  else
  result ← call (esp esp_wifi_set_storage);
  if negb (bool_decide (result = NetOk)) then drop_station true
  else
  result ← call (esp esp_wifi_set_mode);
  if negb (bool_decide (result = NetOk)) then drop_station true
  else
    modify (λ t, t <| network_initialized_ := true |>);;
    mret true).

Definition teardown_network : service_op unit := fn (
  t ← get_state;
  (if network_initialized_ t then
     call (esp esp_wifi_disconnect);;
     call (esp esp_wifi_stop);;
     call (esp esp_wifi_deinit);;
     modify (λ t, t <| network_initialized_ := false |>)
   else mret tt);;
  t ← get_state;
  (if station_netif_ t then
     call (on_net esp_netif_destroy_default_wifi);;
     modify (λ t, t <| station_netif_ := false |>)
   else mret tt);;
  mret tt).

(** The wait for an address: at most [kWifiConnectTimeout / kPollInterval] polls. *)
Fixpoint wait_for_ip (fuel : nat) (waited : Z) : service_op bool := fn (
  leave_if (negb (waited <? kWifiConnectTimeout)) false;;
  ap ← call (esp esp_wifi_sta_get_ap_info);
  got_ip ← (if bool_decide (ap = NetOk)
            then addr ← call (on_net esp_netif_get_ip_info);
                 mret (match addr with Some a => negb (a =? 0) | None => false end)
            else mret false);
  leave_if got_ip true;;
  call (on_net (vTaskDelay kPollInterval));;
  match fuel with
  | O => leave false
  | S fuel => call (wait_for_ip fuel (waited + kPollInterval))
  end).
Definition wait_fuel : nat := Z.to_nat (kWifiConnectTimeout / kPollInterval).

(** Tear down and return, as the failing branches do. *)
Definition teardown_and_leave {A} (result : SyncResult.t) : ctl Service SyncResult.t A :=
  call teardown_network;; leave result.
Definition esp_or_fail (c : net_call) : ctl Service SyncResult.t unit :=
  result ← call (esp c);
  if negb (bool_decide (result = NetOk)) then teardown_and_leave SyncResult.kSyncFailed else mret tt.

Definition connect_and_sync (ssid password : bytes) : service_op SyncResult.t := fn (
  leave_if (Nat.eqb (length ssid) 0 || Nat.ltb kMaxSsidBytes (length ssid)
            || Nat.eqb (length password) 0 || Nat.ltb kMaxPasswordBytes (length password))
    SyncResult.kSyncFailed;;
  ready ← call ensure_network_initialized;
  leave_if (negb ready) SyncResult.kNetworkUnavailable;;
  esp_or_fail (esp_wifi_set_config ssid password);;
  esp_or_fail esp_wifi_start;;
  esp_or_fail esp_wifi_connect;;
  got_ip ← call (wait_for_ip wait_fuel 0);
  (if negb got_ip then teardown_and_leave SyncResult.kSyncFailed else mret tt);;
  esp_or_fail esp_netif_sntp_init;;
  result ← call (esp (esp_netif_sntp_sync_wait kSntpTimeout));
  now ← (if bool_decide (result = NetOk) then call (on_net gettimeofday) else mret None);
  call (on_net esp_netif_sntp_deinit);;
  call teardown_network;;
  match now with
  | None => leave SyncResult.kSyncFailed
  | Some tv_sec =>
    leave_if (negb ((tv_sec >=? 0) && acceptable_unix_seconds tv_sec)) SyncResult.kSyncFailed;;
    monotonic_us ← call (on_net esp_timer_get_time);
    t ← get_state;
    let '(accepted, clock) := accept_ntp_sample tv_sec monotonic_us (clock_ t) in
    modify (λ t, t <| clock_ := clock |>);;
    leave_if (negb accepted) SyncResult.kRejectedJump;;
    mret SyncResult.kOk
  end).

Definition time_status (t : Service) : TimeSnapshot * Service :=
  let '(now, n) := esp_timer_get_time (net_ t) in (clock_snapshot now (clock_ t), t <| net_ := n |>).
Definition service_unix_seconds (t : Service) : option Z * Service :=
  let '(now, n) := esp_timer_get_time (net_ t) in (current_unix_seconds now (clock_ t), t <| net_ := n |>).
End Service.

(** ** With the runtime *)

Section Sync.
Context `{MbedtlsGcm} {P N : Type} `{Persistence P} `{EspNetwork N}.
Abbreviation RS := (Runtime P * TimeService N)%type.
Definition sync_op (A : Type) : Type := RS → A * RS.

Definition on_service {A} (f : service_op A) : sync_op A := λ s,
  let '(a, t) := f (snd s) in (a, (fst s, t)).

(** The consumer that copies the Wi-Fi record. *)
Definition copy_wifi (w : WifiRecord) (_ : bytes * bytes) : Status * (bytes * bytes) :=
  (kOk, (ssid w, password w)).
Definition read_wifi : sync_op (Status * (bytes * bytes)) := λ s,
  let '(status, (r, copied)) := with_wifi (Some copy_wifi) (fst s, ([], [])) in
  ((status, copied), (r, snd s)).

Definition sync_ntp_once : sync_op SyncResult.t := fn (
  x ← call read_wifi;
  let '(status, (ssid, password)) := x in
  leave_if (bool_decide (status = kNotFound)) SyncResult.kNotConfigured;;
  leave_if (bool_decide (status = kLocked) || bool_decide (status = kInvalidState)) SyncResult.kLocked;;
  leave_if (negb (is_ok status)) SyncResult.kInternalError;;
  call (on_service (connect_and_sync ssid password))).

Definition final_result (result : SyncResult.t) : bool :=
  bool_decide (result = SyncResult.kOk) || bool_decide (result = SyncResult.kNotConfigured)
  || bool_decide (result = SyncResult.kLocked) || bool_decide (result = SyncResult.kInternalError).

(** The loop over the attempts; [backoff] holds the delays still to come. *)
Fixpoint boot_attempts (attempts : nat) (backoff : list Z) (result : SyncResult.t) : sync_op SyncResult.t :=
  match attempts with
  | O => fn (mret result)
  | S attempts => fn (
      result ← call sync_ntp_once;
      leave_if (final_result result) result;;
      match backoff with
      | delay :: backoff =>
        call (on_service (on_net (vTaskDelay delay)));;
        call (boot_attempts attempts backoff result)
      | [] => call (boot_attempts attempts [] result)
      end)
  end.
Definition boot_sync : sync_op SyncResult.t := boot_attempts 3 kBootBackoff SyncResult.kNotConfigured.

Definition sync_from_usb (unix_seconds : Z) : sync_op SyncResult.t := fn (
  leave_if (negb (acceptable_unix_seconds unix_seconds)) SyncResult.kInvalidTime;;
  s ← get_state;
  leave_if (negb (unlocked (fst s))) SyncResult.kLocked;;
  set ← call (on_service (on_net (settimeofday unix_seconds)));
  leave_if (negb set) SyncResult.kInternalError;;
  now ← call (on_service (on_net esp_timer_get_time));
  modify (λ s, (fst s, snd s <| clock_ := mark_synchronized unix_seconds now kUsb (clock_ (snd s)) |>));;
  mret SyncResult.kOk).

Definition resync_if_due : sync_op SyncResult.t := fn (
  before ← call (on_service time_status);
  leave_if (negb (bool_decide (readiness before = kNotSynced)) && negb (resync_due before)) SyncResult.kNotDue;;
  now ← call (on_service (on_net esp_timer_get_time));
  s ← get_state;
  let current := clock_snapshot now (clock_ (snd s)) in
  if bool_decide (readiness current = kNotSynced) then
    leave_if ((last_initial_attempt_us_ (snd s) >=? 0)
              && (now - last_initial_attempt_us_ (snd s) <? kInitialNtpRetrySeconds * kMicroseconds))
      SyncResult.kNotDue;;
    result ← call sync_ntp_once;
    (if negb (bool_decide (result = SyncResult.kLocked))
     then modify (λ s, (fst s, snd s <| last_initial_attempt_us_ := now |>)) else mret tt);;
    (if bool_decide (result = SyncResult.kOk)
     then modify (λ s, (fst s, snd s <| last_initial_attempt_us_ := -1 |>)) else mret tt);;
    mret result
  else
    leave_if (negb (resync_due current)) SyncResult.kNotDue;;
    leave_if ((last_periodic_attempt_us_ (snd s) >=? 0)
              && (now - last_periodic_attempt_us_ (snd s) <? kResyncIntervalSeconds * kMicroseconds))
      SyncResult.kNotDue;;
    modify (λ s, (fst s, snd s <| last_periodic_attempt_us_ := now |>));;
    call sync_ntp_once).
End Sync.
