(* ===== verification/TimeServiceCorrect.v ===== *)
(** * Correctness of the time service

    Whatever the network stack answers, no operation leaves the Wi-Fi driver (and
    with it the credentials) up; the clock only moves with the Vault unlocked,
    to an acceptable time; the wait for an address ends. *)

From S2P Require Import Prelude Bytes VaultFormat VaultCrypto Persistence Runtime RuntimeCorrect.
From S2P Require Import TrustedTime TimeService.

Section Service.
Context {N : Type} `{EspNetwork N}.
Implicit Types (t : TimeService N).

(** The driver and the station interface are gone. *)
Definition network_down t : Prop := network_initialized_ t = false ∧ station_netif_ t = false.
(** Only the network stack has been used. *)
Definition only_net t t' : Prop := t' = t <| net_ := net_ t' |>.

Lemma only_net_refl t : only_net t t.
Proof. by destruct t. Qed.
Lemma only_net_trans t1 t2 t3 : only_net t1 t2 → only_net t2 t3 → only_net t1 t3.
Proof. unfold only_net. intros -> ->. done. Qed.

Lemma on_net_only {A} (f : N → A * N) t a t' : on_net f t = (a, t') → only_net t t'.
Proof. unfold on_net. destruct (f (net_ t)) as [b n]. by intros [= <- <-]. Qed.
Lemma esp_only c t a t' : esp c t = (a, t') → only_net t t'.
Proof. apply on_net_only. Qed.
End Service.

(** Executes a service operation; what remains is about the fields. *)
Ltac exec_service H :=
  repeat (exec_step H; cbn [fst snd] in *;
    repeat match goal with
    | E : on_net _ _ = _ |- _ => apply on_net_only in E; unfold only_net in E
    | E : esp _ _ = _ |- _ => apply esp_only in E; unfold only_net in E
    | E : ?t = ?t0 <| net_ := net_ ?t |> |- _ =>
        let n := fresh "n" in set (n := net_ t) in E; clearbody n; subst t; cbn in *
    end).

Section Correct.
Context {N : Type} `{EspNetwork N}.
Implicit Types (t : TimeService N).

(** The clock and the retry marks are as before. *)
Definition same_marks t t' : Prop :=
  last_initial_attempt_us_ t' = last_initial_attempt_us_ t ∧
  last_periodic_attempt_us_ t' = last_periodic_attempt_us_ t.
Definition same_rest t t' : Prop := clock_ t' = clock_ t ∧ same_marks t t'.

Lemma teardown_spec t x t' : teardown_network t = (x, t') → network_down t' ∧ same_rest t t'.
Proof. intros E. unfold teardown_network in E. by exec_service E. Qed.

Lemma ensure_network_spec t b t' :
  network_down t → ensure_network_initialized t = (b, t') →
  same_rest t t' ∧ (b = false → network_down t').
Proof.
  intros [Hn Hs] E. unfold ensure_network_initialized, drop_station in E.
  exec_service E; unfold same_rest, same_marks; cbn; try done; try congruence.
  split; [done|]. intros _. split; cbn; [done|]. by destruct a1.
Qed.

#[local] Ltac net_only :=
  unfold only_net in *; repeat match goal with t : TimeService _ |- _ => destruct t end; cbn in *; congruence.

Lemma wait_only fuel waited t b t' : wait_for_ip fuel waited t = (b, t') → only_net t t'.
Proof.
  revert waited t b t'. induction fuel as [|fuel IH]; intros waited t b t' E; cbn [wait_for_ip] in E.
  - exec_service E; net_only.
  - exec_service E; try apply IH in E; net_only.
Qed.

Lemma wait_rest fuel waited t b t' : wait_for_ip fuel waited t = (b, t') → same_rest t t'.
Proof. intros ->%wait_only. done. Qed.

#[local] Ltac rests :=
  unfold same_rest, same_marks in *; cbn in *; destruct_and?; split_and?; congruence.

(** What an operation may do to the clock: nothing, or anchor it at an
    acceptable time, from the network only within the bound of the clock. *)
Definition acceptable (seconds : Z) : Prop := kMinAcceptedUnixSeconds ≤ seconds ≤ kMaxAcceptedUnixSeconds.
Definition ntp_moves (c c' : TrustedClock) : Prop :=
  c' = c ∨ ∃ unix now, acceptable unix ∧ accept_ntp_sample unix now c = (true, c').

Lemma acceptable_spec seconds : acceptable_unix_seconds seconds = true ↔ acceptable seconds.
Proof.
  unfold acceptable_unix_seconds, acceptable. rewrite andb_true_iff, Z.geb_leb, !Z.leb_le. lia.
Qed.

Lemma rejected_same unix now c c' : accept_ntp_sample unix now c = (false, c') → c' = c.
Proof. unfold accept_ntp_sample. intros E. repeat case_match; try done; congruence. Qed.

Definition network_result (r : SyncResult.t) : Prop :=
  r = SyncResult.kOk ∨ r = SyncResult.kSyncFailed ∨ r = SyncResult.kRejectedJump ∨
  r = SyncResult.kNetworkUnavailable.

(** What a use of the network leaves behind. *)
Definition networked t (r : SyncResult.t) t' : Prop :=
  network_down t' ∧ same_marks t t' ∧ ntp_moves (clock_ t) (clock_ t') ∧
  (r ≠ SyncResult.kOk → clock_ t' = clock_ t) ∧ network_result r.

Lemma networked_still t r t' : network_down t' → same_rest t t' → network_result r → networked t r t'.
Proof. intros ? [Hc ?] ?. split_and!; try done. by left. Qed.

Lemma connect_spec ssid password t r t' :
  network_down t → connect_and_sync ssid password t = (r, t') → networked t r t'.
Proof.
  intros Hd E. unfold connect_and_sync, esp_or_fail, teardown_and_leave in E.
  exec_service E;
    repeat match goal with
    | E : ensure_network_initialized _ = _ |- _ => apply ensure_network_spec in E as [? ?]; [|done]
    | E : wait_for_ip _ _ _ = _ |- _ => apply wait_rest in E
    | E : teardown_network _ = _ |- _ => apply teardown_spec in E as [? ?]
    end; cbn in *;
    try (apply networked_still; [by auto using negb_true_iff|rests|unfold network_result; by auto]).
  - apply networked_still; [by destruct a; auto|done|unfold network_result; auto].
  - match goal with E : negb ?b = true |- _ => destruct b; [done|] end.
    match goal with E : accept_ntp_sample _ _ _ = _ |- _ => apply rejected_same in E as -> end.
    apply networked_still; [done|rests|unfold network_result; auto].
  - match goal with E : negb ?b = false |- _ => destruct b; [|done] end.
    match goal with E : negb (_ && _) = false |- _ => apply negb_false_iff, andb_true_iff in E as [_ Hu] end.
    apply acceptable_spec in Hu.
    match goal with E : accept_ntp_sample _ _ ?c = _ |- _ => assert (Hc : c = clock_ t) by rests; rewrite Hc in E end.
    split_and!; [done|rests|right; eauto|done|by left].
Qed.
End Correct.

Section Wait.
Context {N : Type} `{EspNetwork N}.
Implicit Types t : TimeService N.

(** One look at the station: connected, with an address that is not zero. *)
Definition address_found : service_op (N:=N) bool := fn (
  ap ← call (esp esp_wifi_sta_get_ap_info);
  if bool_decide (ap = NetOk)
  then addr ← call (on_net esp_netif_get_ip_info);
       mret (match addr with Some a => negb (a =? 0) | None => false end)
  else mret false).

(** [n] looks, a poll interval apart, until one finds it. *)
Fixpoint looks (n : nat) t : bool * TimeService N :=
  match n with
  | O => (false, t)
  | S n =>
    let '(found, t) := address_found t in
    if found then (true, t) else looks n (snd (on_net (vTaskDelay kPollInterval) t))
  end.

(** The state after [i] looks that found nothing. *)
Fixpoint after_looks (i : nat) t : TimeService N :=
  match i with
  | O => t
  | S i => after_looks i (snd (on_net (vTaskDelay kPollInterval) (snd (address_found t))))
  end.

Lemma wait_looks n : ∀ k waited t,
  kWifiConnectTimeout - kPollInterval * Z.of_nat n = waited →
  wait_for_ip (n + k) waited t = looks n t.
Proof.
  induction n as [|n IH]; intros k waited t Hw; cbn [Nat.add looks].
  - assert (Hl : negb (waited <? kWifiConnectTimeout) = true) by (apply negb_true_iff, Z.ltb_ge; lia).
    destruct k; cbn [wait_for_ip]; by rewrite Hl.
  - cbn [wait_for_ip]. unfold kPollInterval in *.
    replace (negb (waited <? kWifiConnectTimeout)) with false
      by (symmetry; apply negb_false_iff, Z.ltb_lt; lia).
    cbn [leave_if]. rewrite fn_bind_ret. unfold address_found.
    destruct (esp esp_wifi_sta_get_ap_info t) as [ap t1] eqn:E1. rewrite !(fn_call _ _ _ _ _ E1).
    unfold fn, mbind, ctl_bind, call. case_bool_decide as Hap.
    + destruct (on_net esp_netif_get_ip_info t1) as [addr t2]. cbn.
      destruct (match addr with Some a => negb (a =? 0) | None => false end); cbn; [done|].
      destruct (on_net (vTaskDelay _) t2) as [u t3]. cbn. rewrite IH by lia. by destruct (looks n t3).
    + cbn. destruct (on_net (vTaskDelay _) t1) as [u t2]. cbn. rewrite IH by lia. by destruct (looks n t2).
Qed.

Lemma looks_found n : ∀ t,
  fst (looks n t) = true ↔ ∃ i, (i < n)%nat ∧ fst (address_found (after_looks i t)) = true.
Proof.
  induction n as [|n IH]; intros t; cbn [looks]; [split; [done|intros (i & ? & _); lia]|].
  destruct (address_found t) as [[] t1] eqn:Ef.
  - split; [|done]. intros _. exists 0%nat. cbn [after_looks]. rewrite Ef. split; [lia|done].
  - rewrite IH. split.
    + intros (i & Hi & Hf). exists (S i). cbn [after_looks]. rewrite Ef. split; [lia|done].
    + intros ([|i] & Hi & Hf); cbn [after_looks] in Hf; rewrite Ef in Hf; [done|].
      exists i. split; [lia|done].
Qed.
End Wait.

(** C40: The wait for an address ends, within its six seconds: however many more
    rounds it is allowed, it looks at the station at most sixty times, a tenth
    of a second apart, stops at the first look that finds a connection with an
    address, and reports that it did exactly when one of the sixty does.  It
    touches neither the clock nor the driver flags. *)
Theorem wait_terminates {N} `{EspNetwork N} k (t : TimeService N) :
  wait_for_ip (wait_fuel + k) 0 t = looks 60 t ∧
  (fst (wait_for_ip wait_fuel 0 t) = true ↔
     ∃ i, (i < 60)%nat ∧ fst (address_found (after_looks i t)) = true) ∧
  only_net t (snd (wait_for_ip wait_fuel 0 t)) ∧ kPollInterval * 60 = kWifiConnectTimeout.
Proof.
  assert (Hw : ∀ k, wait_for_ip (wait_fuel + k) 0 t = looks 60 t) by (intros; by apply wait_looks).
  split; [done|]. split; [|split; [eapply wait_only; apply surjective_pairing|done]].
  rewrite <- looks_found, <- (Hw 0%nat), Nat.add_0_r. done.
Qed.

Section Sync.
Context `{MbedtlsGcm} {P N : Type} `{Persistence P} `{EspNetwork N}.
Abbreviation RS := (Runtime P * TimeService N)%type.
Implicit Types (s : RS).

(** Anchored with the Vault unlocked, at an acceptable time, by the user's host
    or within the bound on network time. *)
Definition clock_moves s s' : Prop :=
  clock_ (snd s') = clock_ (snd s) ∨
  unlocked (fst s') = true ∧ synchronized_ (clock_ (snd s')) = true ∧
  acceptable (base_unix_seconds_ (clock_ (snd s'))) ∧
  (source_ (clock_ (snd s')) = kUsb ∨
   ∃ now, accept_ntp_sample (base_unix_seconds_ (clock_ (snd s'))) now (clock_ (snd s)) =
          (true, clock_ (snd s'))).

Lemma read_wifi_spec s st x s' :
  read_wifi s = ((st, x), s') → snd s' = snd s ∧ (st = kOk → fst s' = fst s ∧ unlocked (fst s) = true).
Proof.
  unfold read_wifi. destruct (with_wifi _ _) as [st0 [r c]] eqn:E. intros [= -> <- <-]. split; [done|].
  intros ->. unfold with_wifi in E. exec_rt E; simplify_eq/=; try done; bools; try congruence.
  - split; [done|]. unfold not_unlocked, unlocked in *. bools.
    repeat match goal with E : _ = true |- _ => rewrite E end.
    match goal with E : state_ _ = _ |- _ => by rewrite E end.
  - exfalso. unfold read_vault in *. repeat case_match; congruence.
Qed.

Lemma sync_once_spec s r s' :
  network_down (snd s) → sync_ntp_once s = (r, s') →
  network_down (snd s') ∧ clock_moves s s' ∧
  (r ≠ SyncResult.kOk → clock_ (snd s') = clock_ (snd s)).
Proof.
  intros Hd E. unfold sync_ntp_once in E. exec_step E. destruct a as [st [ssid password]].
  apply read_wifi_spec in Ef as [Hs Hok]. exec E.
  1-3: unfold clock_moves; rewrite Hs; split_and!; [done|by left|done].
  unfold on_service in E. destruct (connect_and_sync ssid password (snd s0)) as [r0 t] eqn:Ec2.
  apply pair_eq in E as [-> <-]. rewrite Hs in Ec2. apply connect_spec in Ec2 as (? & _ & Hm & Hk & _); [|done].
  cbn. split_and!; [done| |done]. apply negb_false_iff, is_ok_true in Ec1. destruct (Hok Ec1) as [Hf Hu].
  destruct Hm as [?|(unix & now & Ha & Hacc)]; [by left|right]. cbn. rewrite Hf.
  assert (Hx : clock_ t = mkClock true unix now kNtp).
  { unfold accept_ntp_sample in Hacc. repeat case_match; try done; congruence. }
  rewrite Hx in *. cbn. split_and!; eauto.
Qed.

Lemma boot_spec attempts backoff r0 s r s' :
  network_down (snd s) → boot_attempts attempts backoff r0 s = (r, s') →
  network_down (snd s') ∧ clock_moves s s'.
Proof.
  revert backoff r0 s. induction attempts as [|n IH]; intros backoff r0 s Hd E; cbn [boot_attempts] in E.
  { exec E. split; [done|by left]. }
  exec E.
  - by apply sync_once_spec in Ef as (? & ? & _).
  - apply sync_once_spec in Ef as (Hd' & _ & Hk); [|done]. apply IH in E as [? Hm]; [|done]. split; [done|].
    assert (Hc : clock_ (snd s0) = clock_ (snd s)) by (apply Hk; intros ->; done).
    unfold clock_moves in *. by rewrite Hc in Hm.
  - apply sync_once_spec in Ef as (Hd' & _ & Hk); [|done].
    assert (Hc : clock_ (snd s0) = clock_ (snd s)) by (apply Hk; intros ->; done).
    unfold on_service in Ef0. destruct (on_net _ _) as [x t] eqn:Eo. apply pair_eq in Ef0 as [_ <-].
    apply on_net_only in Eo. apply IH in E as [? Hm].
    + split; [done|]. unfold clock_moves in *. cbn in Hm. rewrite Eo in Hm. cbn in Hm. by rewrite Hc in Hm.
    + cbn. rewrite Eo. exact Hd'.
Qed.

Lemma on_service_inv {A} (f : service_op A) s a s' :
  on_service f s = (a, s') → f (snd s) = (a, snd s') ∧ fst s' = fst s.
Proof. unfold on_service. destruct (f (snd s)). by intros [= <- <-]. Qed.

Lemma net_service_inv {A} (f : N → A * N) s a s' :
  on_service (on_net f) s = (a, s') →
  fst s' = fst s ∧ clock_ (snd s') = clock_ (snd s) ∧ (network_down (snd s) → network_down (snd s')).
Proof. intros [E ->]%on_service_inv. apply on_net_only in E. by rewrite E. Qed.

Lemma usb_spec unix s r s' :
  sync_from_usb unix s = (r, s') →
  (network_down (snd s) → network_down (snd s')) ∧ clock_moves s s' ∧
  (r = SyncResult.kOk → unlocked (fst s) = true ∧ acceptable unix ∧
     clock_ (snd s') = mkClock true unix (base_monotonic_us_ (clock_ (snd s'))) kUsb).
Proof.
  intros E. unfold sync_from_usb in E. exec E.
  1-2: split_and!; [done|by left|done].
  all: apply net_service_inv in Ef as (Hf & Hc & Hd).
  - split_and!; [done|by left|done].
  - apply net_service_inv in Ef0 as (Hf' & Hc' & Hd'). cbn.
    apply negb_false_iff, acceptable_spec in Ec. apply negb_false_iff in Ec0.
    split_and!; try done; auto. right. cbn. rewrite Hf', Hf. split_and!; try done. by left.
Qed.

Lemma time_status_spec s x s' :
  on_service time_status s = (x, s') →
  fst s' = fst s ∧ clock_ (snd s') = clock_ (snd s) ∧ (network_down (snd s) → network_down (snd s')).
Proof.
  intros [E ->]%on_service_inv. unfold time_status in E. destruct (esp_timer_get_time _).
  apply pair_eq in E as [_ <-]. done.
Qed.

(** The retry marks are not part of what a move of the clock is about. *)
Lemma moves_from s0 s s1 s' :
  clock_ (snd s0) = clock_ (snd s) → fst s1 = fst s' → clock_ (snd s1) = clock_ (snd s') →
  clock_moves s0 s1 → clock_moves s s'.
Proof. unfold clock_moves. by intros -> -> ->. Qed.

Lemma resync_spec s r s' :
  network_down (snd s) → resync_if_due s = (r, s') → network_down (snd s') ∧ clock_moves s s'.
Proof.
  intros Hd E. unfold resync_if_due in E. exec E.
  all: apply time_status_spec in Ef as (Hf & Hc & Hn); specialize (Hn Hd).
  { split; [done|by left]. }
  all: apply net_service_inv in Ef0 as (Hf' & Hc' & Hn'); specialize (Hn' Hn).
  all: try (split; [done|left; congruence]).
  all: try (apply sync_once_spec in Ef1 as (? & Hm & _); [|done]; split; [done|];
            eapply moves_from; [|done|done|exact Hm]; congruence).
  apply sync_once_spec in E as (? & Hm & _); [|done]. split; [done|].
  eapply moves_from; [|done|done|exact Hm]. cbn. congruence.
Qed.
End Sync.

(** C26: Whatever the network stack answers, an operation that starts with the
    Wi-Fi driver down ends with it down, so no credential outlives it; and the
    clock only moves with the Vault unlocked, to a time between 2020 and 2100,
    asserted by the host or accepted by the clock.  A USB synchronisation that
    succeeds has set exactly the given time. *)
Theorem time_service_safe `{MbedtlsGcm} {P N} `{Persistence P} `{EspNetwork N}
    (s s' : Runtime P * TimeService N) r unix :
  network_down (snd s) →
  (boot_sync s = (r, s') ∨ sync_from_usb unix s = (r, s') ∨ resync_if_due s = (r, s') →
   network_down (snd s') ∧ clock_moves s s') ∧
  (sync_from_usb unix s = (SyncResult.kOk, s') →
   unlocked (fst s) = true ∧ acceptable unix ∧
   clock_ (snd s') = mkClock true unix (base_monotonic_us_ (clock_ (snd s'))) kUsb).
Proof.
  intros Hd. split.
  - intros [E|[E|E]]; [by eapply boot_spec| |by eapply resync_spec].
    apply usb_spec in E as (? & ? & _). split; auto.
  - intros E. apply usb_spec in E as (_ & _ & Hk). auto.
Qed.

(** ** A network that works *)

Module TimeSample.
#[local] Existing Instance checksum_gcm.

(** Its state is the time since boot in microseconds. *)
#[local] Instance good_network : EspNetwork Z := {|
  net _ n := (NetOk, n);
  esp_netif_create_default_wifi_sta n := (true, n);
  esp_netif_destroy_default_wifi n := (tt, n);
  esp_netif_get_ip_info n := (if n <? 2000000 then None else Some 7, n);
  esp_netif_sntp_deinit n := (tt, n);
  vTaskDelay d n := (tt, n + 1000 * d);
  gettimeofday n := (Some (1800000000 + n / 1000000), n);
  settimeofday _ n := (true, n);
  esp_timer_get_time n := (n, n);
|}.

Definition service : TimeService Z := new_time_service 1000000.
Definition usb_synced := sync_from_usb 1800000123 (Sample.opened, service).

Lemma time_service_safe_witness :
  fst usb_synced = SyncResult.kOk ∧ acceptable 1800000123 ∧
  base_unix_seconds_ (clock_ (snd (snd usb_synced))) = 1800000123.
Proof.
  assert (Hr : fst usb_synced = SyncResult.kOk) by (vm_compute; reflexivity).
  split; [exact Hr|].
  destruct (time_service_safe (Sample.opened, service) (snd usb_synced) (fst usb_synced) 1800000123)
    as [_ Hk]; [split; reflexivity|].
  destruct Hk as (_ & Ha & Hc); [rewrite <- Hr; apply surjective_pairing|].
  split; [exact Ha|]. rewrite Hc. reflexivity.
Defined.
End TimeSample.
