(* ===== verification/Base32.v ===== *)
(** * Base32 secrets

    [decode_base32] of [m5auth_totp/totp_core.cpp], with the accumulator kept at
    its 32 bits.  What a text decodes to is given by arithmetic: the letters are
    the digits, in base 32, of the bytes' number shifted by the unused bits,
    which are fewer than eight and zero. *)

From S2P Require Import Prelude Bytes.

(** The value of a character, or -1. *)
Definition base32_value (ch : byte) : Z :=
  if (ch >=? 65) && (ch <=? 90) then ch - 65
  else if (ch >=? 97) && (ch <=? 122) then ch - 97
  else if (ch >=? 50) && (ch <=? 55) then 26 + (ch - 50)
  else -1.

(** ['='] *)
Definition padding : byte := 61.

(** The loop over the characters: [accumulator], [bits] and [*decoded]. *)
Fixpoint base32_loop (encoded : bytes) (accumulator bits : Z) (padding_started : bool) (decoded : bytes)
    : option (Z * Z * bytes) :=
  match encoded with
  | [] => Some (accumulator, bits, decoded)
  | ch :: encoded =>
    if ch =? padding then base32_loop encoded accumulator bits true decoded
    else if padding_started then None
    else
      let value := base32_value ch in
      if value <? 0 then None
      else
        let accumulator := Z.lor (Z.land (Z.shiftl accumulator 5) u32_max) value in
        let bits := bits + 5 in
        if bits >=? 8 then
          let bits := bits - 8 in
          base32_loop encoded accumulator bits padding_started (decoded ++ [byte_at accumulator bits])
        else base32_loop encoded accumulator bits padding_started decoded
  end.

Definition decode_base32 (encoded : bytes) : option bytes :=
  if Nat.eqb (length encoded) 0 then None
  else
    match base32_loop encoded 0 0 false [] with
    | None => None
    | Some (accumulator, bits, decoded) =>
      if Nat.eqb (length decoded) 0 then None
      else if (bits >? 0) && negb (Z.land accumulator (Z.shiftl 1 bits - 1) =? 0) then None
      else Some decoded
    end.

(** ** The number a text denotes *)

Definition is_quintet (d : Z) : Prop := 0 ≤ d < 32.

(** The digits of a text: its letters, then any number of padding characters. *)
Definition denotes (encoded : bytes) (ds : list Z) : Prop :=
  ∃ letters n, encoded = letters ++ replicate n padding ∧ base32_value <$> letters = ds ∧ Forall is_quintet ds.

Definition base32_number (ds : list Z) : Z := foldl (λ acc d, 32 * acc + d) 0 ds.

Definition bits_of (ds : list Z) : Z := 5 * Z.of_nat (length ds).

(** The bytes written so far and the bits not yet written, as one number. *)
Record decoded_so_far (ds : list Z) (accumulator bits : Z) (decoded : bytes) : Prop := {
  so_far_bits : bits = bits_of ds mod 8;
  so_far_length : Z.of_nat (length decoded) = bits_of ds / 8;
  so_far_ok : bytes_ok decoded;
  so_far_accumulator : 0 ≤ accumulator;
  so_far_number : base32_number ds = be_value decoded * 2 ^ bits + accumulator mod 2 ^ bits;
}.

Lemma be_value_snoc bs b : be_value (bs ++ [b]) = 256 * be_value bs + b.
Proof. unfold be_value, le_value. rewrite reverse_snoc. cbn -[Z.mul]. lia. Qed.

Lemma base32_number_snoc ds d : base32_number (ds ++ [d]) = 32 * base32_number ds + d.
Proof. unfold base32_number. by rewrite foldl_app. Qed.

Lemma bits_of_snoc ds d : bits_of (ds ++ [d]) = bits_of ds + 5.
Proof. unfold bits_of. rewrite length_app. cbn. lia. Qed.

Lemma push_quintet acc d : is_quintet d →
  Z.lor (Z.land (Z.shiftl acc 5) u32_max) d = (acc mod 2 ^ 27) * 32 + d.
Proof.
  intros Hd. change u32_max with (Z.ones 32). rewrite Z.land_ones, Z.shiftl_mul_pow2 by done.
  replace (acc * 2 ^ 5 mod 2 ^ 32) with (Z.shiftl (acc mod 2 ^ 27) 5);
    [by apply lor_shiftl_add|].
  rewrite Z.shiftl_mul_pow2 by done. lia.
Qed.

Lemma quintet_value ch : base32_value ch < 0 ∨ is_quintet (base32_value ch) ∧ ch ≠ padding.
Proof.
  unfold base32_value, is_quintet, padding.
  rewrite !Z.geb_leb.
  destruct ((65 <=? ch) && (ch <=? 90)) eqn:E1; [right; lia|].
  destruct ((97 <=? ch) && (ch <=? 122)) eqn:E2; [right; lia|].
  destruct ((50 <=? ch) && (ch <=? 55)) eqn:E3; [right; lia|left; lia].
Qed.

(** One letter keeps the number: the 32-bit accumulator never loses a bit that
    has not been written. *)
Lemma so_far_push ds acc bits decoded d :
  is_quintet d → decoded_so_far ds acc bits decoded →
  let acc' := Z.lor (Z.land (Z.shiftl acc 5) u32_max) d in
  if bits + 5 >=? 8
  then decoded_so_far (ds ++ [d]) acc' (bits + 5 - 8) (decoded ++ [byte_at acc' (bits + 5 - 8)])
  else decoded_so_far (ds ++ [d]) acc' (bits + 5) decoded.
Proof.
  intros Hd [Hb Hl Hok Ha Hn]. cbn zeta. rewrite push_quintet by done. unfold is_quintet in Hd.
  assert (Hr : bits = 0 ∨ bits = 1 ∨ bits = 2 ∨ bits = 3 ∨ bits = 4 ∨ bits = 5 ∨ bits = 6 ∨ bits = 7) by lia.
  destruct (bits + 5 >=? 8) eqn:Hge; rewrite Z.geb_leb in Hge.
  - apply Z.leb_le in Hge. split.
    + rewrite bits_of_snoc. lia.
    + rewrite bits_of_snoc, length_app. cbn. lia.
    + apply Forall_app. split; [done|]. constructor; [apply byte_at_is_byte|done].
    + lia.
    + rewrite base32_number_snoc, be_value_snoc, byte_at_div, Hn by lia. clear -Hr Hge Hd Ha.
      destruct_or!; subst; try lia; cbn -[Z.div Z.modulo Z.mul]; lia.
  - apply Z.leb_gt in Hge. split; [rewrite bits_of_snoc; lia|rewrite bits_of_snoc; lia|done|lia|].
    rewrite base32_number_snoc, Hn. clear -Hr Hge Hd Ha.
    destruct_or!; subst; try lia; cbn -[Z.div Z.modulo Z.mul]; lia.
Qed.

Lemma loop_padding n acc bits started decoded :
  base32_loop (replicate n padding) acc bits started decoded = Some (acc, bits, decoded).
Proof. revert started. induction n as [|n IH]; intros started; [done|]. apply IH. Qed.

Lemma loop_letters letters rest ds acc bits decoded :
  decoded_so_far ds acc bits decoded → Forall is_quintet (base32_value <$> letters) →
  ∃ acc' bits' decoded',
    base32_loop (letters ++ rest) acc bits false decoded = base32_loop rest acc' bits' false decoded' ∧
    decoded_so_far (ds ++ (base32_value <$> letters)) acc' bits' decoded'.
Proof.
  revert ds acc bits decoded. induction letters as [|ch letters IH]; intros ds acc bits decoded Hs Hq.
  { exists acc, bits, decoded. by rewrite app_nil_r. }
  apply Forall_cons in Hq as [Hd Hq]. cbn [app base32_loop fmap list_fmap].
  destruct (quintet_value ch) as [Hneg|[_ Hpad]]; [unfold is_quintet in Hd; lia|].
  rewrite (proj2 (Z.eqb_neq _ _) Hpad), (proj2 (Z.ltb_ge _ 0)) by (unfold is_quintet in Hd; lia).
  pose proof (so_far_push ds acc bits decoded _ Hd Hs) as Hp. cbn zeta in Hp.
  rewrite (cons_middle _ ds), app_assoc.
  case_match; by apply IH.
Qed.

Lemma loop_started encoded acc bits decoded x :
  base32_loop encoded acc bits true decoded = Some x → ∃ n, encoded = replicate n padding.
Proof.
  induction encoded as [|ch encoded IH]; cbn; [by exists 0%nat|].
  destruct (Z.eqb_spec ch padding) as [->|]; [|done]. intros [n ->]%IH. by exists (S n).
Qed.

Lemma loop_denotes encoded acc bits decoded x :
  base32_loop encoded acc bits false decoded = Some x → ∃ ds, denotes encoded ds.
Proof.
  revert acc bits decoded. induction encoded as [|ch encoded IH]; intros acc bits decoded; cbn [base32_loop].
  - intros _. exists [], [], 0%nat. done.
  - destruct (Z.eqb_spec ch padding) as [->|Hne].
    + intros [n ->]%loop_started. by exists [], [], (S n).
    + destruct (Z.ltb_spec (base32_value ch) 0) as [|Hge]; [done|]. cbn zeta.
      assert (Hgo : (∃ ds, denotes encoded ds) → ∃ ds, denotes (ch :: encoded) ds).
      { intros (ds & letters & n & -> & <- & Hq).
        destruct (quintet_value ch) as [|[Hd _]]; [lia|].
        exists (base32_value <$> (ch :: letters)), (ch :: letters), n.
        split_and!; [done..|]. by constructor. }
      case_match; intros E; eapply Hgo, IH, E.
Qed.

Lemma so_far_nothing : decoded_so_far [] 0 0 [].
Proof. by split. Qed.

Lemma loop_exact encoded ds : denotes encoded ds →
  ∃ acc bits decoded, base32_loop encoded 0 0 false [] = Some (acc, bits, decoded) ∧
    decoded_so_far ds acc bits decoded.
Proof.
  intros (letters & n & -> & <- & Hq).
  destruct (loop_letters letters (replicate n padding) [] 0 0 []) as (acc & bits & decoded & E & Hs);
    [exact so_far_nothing|done|].
  exists acc, bits, decoded. by rewrite E, loop_padding.
Qed.

(** The unused bits are zero exactly when the code's mask says so. *)
Lemma trailing_zero acc bits : 0 ≤ bits →
  (bits >? 0) && negb (Z.land acc (Z.shiftl 1 bits - 1) =? 0) = false ↔ acc mod 2 ^ bits = 0.
Proof.
  intros Hb. rewrite Z.shiftl_mul_pow2, Z.mul_1_l, Z.sub_1_r, <- Z.ones_equiv, Z.land_ones by done.
  rewrite andb_false_iff, negb_false_iff, Z.eqb_eq, Z.gtb_ltb, Z.ltb_ge.
  split; [intros [?|?]|by right]; [|done]. replace bits with 0 by lia. apply Z.mod_1_r.
Qed.

(** C37: A Base32 text decodes to [bs] exactly when it is a string of letters of
    the alphabet, of either case, followed by any amount of padding, and the
    number the letters denote is that of the non-empty [bs] followed by fewer
    than eight zero bits: however long the text, the 32-bit accumulator loses
    nothing, and a text decodes to one secret at most. *)
Theorem base32_exact encoded bs :
  decode_base32 encoded = Some bs ↔
  ∃ ds, denotes encoded ds ∧ bs ≠ [] ∧ bytes_ok bs ∧ Z.of_nat (length bs) = bits_of ds / 8 ∧
        base32_number ds = be_value bs * 2 ^ (bits_of ds mod 8).
Proof.
  unfold decode_base32. split.
  - destruct (Nat.eqb _ _); [done|].
    destruct (base32_loop encoded 0 0 false []) as [[[acc bits] out]|] eqn:E; [|done].
    destruct (loop_denotes _ _ _ _ _ E) as [ds Hd]. exists ds.
    destruct (loop_exact _ _ Hd) as (? & ? & ? & E' & [Hb Hl Hok _ Hn]).
    rewrite E in E'. injection E' as <- <- <-.
    destruct (Nat.eqb_spec (length out) 0) as [|Hne]; [done|]. destruct (_ && _) eqn:Ht; [done|].
    apply trailing_zero in Ht; [|lia]. rewrite Ht in Hn. simplify_eq.
    split_and!; [done|by intros ->|done|done|lia].
  - intros (ds & Hd & Hne & Hok & Hl & Hn). destruct (loop_exact _ _ Hd) as (acc & bits & out & -> & [Hb Hl' Hok' _ Hn']).
    assert (H0 : length out = length bs) by lia.
    destruct (Nat.eqb_spec (length encoded) 0) as [He|_].
    { destruct Hd as (letters & n & -> & <- & _). rewrite length_app in He.
      destruct letters; [|done]. change (Z.of_nat (length bs) = 0 / 8) in Hl.
      destruct bs; [done|cbn [length] in Hl; lia]. }
    rewrite H0. destruct (Nat.eqb_spec (length bs) 0) as [He|_]; [by apply nil_length_inv in He|].
    rewrite <- Hb in Hn. assert (Hb0 : 0 ≤ bits) by lia. assert (Hp : 0 < 2 ^ bits) by (apply Z.pow_pos_nonneg; lia).
    assert (Hbound := Z.mod_pos_bound acc (2 ^ bits) Hp).
    destruct (Z.div_mod_unique (2 ^ bits) (be_value out) (be_value bs) (acc mod 2 ^ bits) 0)
      as [Hv Hz]; [lia|lia|rewrite !(Z.mul_comm (2 ^ bits)); lia|]. rewrite (proj2 (trailing_zero acc bits Hb0) Hz). f_equal.
    by rewrite <- (be_bytes_value out), <- (be_bytes_value bs), H0, Hv by done.
Qed.

Module Base32Sample.
(** The secret of RFC 6238 in Base32. *)
Definition rfc_secret : bytes := str "GEZDGNBVGY3TQOJQGEZDGNBVGY3TQOJQ".

Example decode_rfc : decode_base32 rfc_secret = Some (str "12345678901234567890").
Proof. vm_compute. reflexivity. Qed.
Example decode_lower_padded : decode_base32 (str "my======") = Some (str "f").
Proof. vm_compute. reflexivity. Qed.
Example decode_trailing_bits : decode_base32 (str "MZ") = None.
Proof. vm_compute. reflexivity. Qed.
Example decode_after_padding : decode_base32 (str "MY==MY==") = None.
Proof. vm_compute. reflexivity. Qed.
End Base32Sample.
