(* ===== verification/Hmac.v ===== *)
(** * HMAC-SHA-1

    The interface of Mbed TLS that m5auth_totp calls, [mbedtls_md_hmac] with the
    SHA-1 digest, and an instance: SHA-1 (FIPS 180-4) and HMAC (RFC 2104)
    written as functions on bytes, so that theorems about codes can be evaluated
    on the published test vectors. *)

From S2P Require Import Prelude Bytes.

(** [mbedtls_md_info_from_type(MBEDTLS_MD_SHA1)] is not null, and
    [mbedtls_md_hmac], which gives its result and the 20 bytes of the output. *)
Class MbedtlsHmac := {
  mbedtls_md_sha1_available : bool;
  mbedtls_md_hmac : ∀ (key message : bytes), Z * bytes;
}.

(** A successful call fills the 20 bytes. *)
Class HmacLaws `{MbedtlsHmac} : Prop := {
  hmac_output key message digest :
    mbedtls_md_hmac key message = (0, digest) → length digest = 20%nat ∧ bytes_ok digest;
}.

Module Sha1.
Definition add32 (a b : Z) : Z := (a + b) mod 2 ^ 32.
Definition rotl (n a : Z) : Z := Z.lor (Z.shiftl a n mod 2 ^ 32) (Z.shiftr a (32 - n)).
Definition not32 (a : Z) : Z := Z.lxor a u32_max.

(** The five chaining words. *)
Record hash_state := mkHash { h0 : Z; h1 : Z; h2 : Z; h3 : Z; h4 : Z }.
Definition initial_hash : hash_state :=
  mkHash 0x67452301 0xEFCDAB89 0x98BADCFE 0x10325476 0xC3D2E1F0.

(** The function and the constant of round [t]. *)
Definition round_function (t : nat) (b c d : Z) : Z * Z :=
  if Nat.ltb t 20 then (Z.lor (Z.land b c) (Z.land (not32 b) d), 0x5A827999)
  else if Nat.ltb t 40 then (Z.lxor (Z.lxor b c) d, 0x6ED9EBA1)
  else if Nat.ltb t 60 then (Z.lor (Z.lor (Z.land b c) (Z.land b d)) (Z.land c d), 0x8F1BBCDC)
  else (Z.lxor (Z.lxor b c) d, 0xCA62C1D6).

(** The message schedule, the latest word first. *)
Fixpoint extend (n : nat) (schedule : list Z) : list Z :=
  match n with
  | O => schedule
  | S n =>
    let word i := nth i schedule 0 in
    extend n (rotl 1 (Z.lxor (Z.lxor (word 2%nat) (word 7%nat)) (Z.lxor (word 13%nat) (word 15%nat))) :: schedule)
  end.

Definition round (h : hash_state) (tw : nat * Z) : hash_state :=
  let '(f, k) := round_function (fst tw) (h1 h) (h2 h) (h3 h) in
  mkHash (add32 (add32 (add32 (rotl 5 (h0 h)) f) (add32 (h4 h) k)) (snd tw))
    (h0 h) (rotl 30 (h1 h)) (h2 h) (h3 h).

Fixpoint words (fuel : nat) (block : bytes) : list Z :=
  match fuel with O => [] | S fuel => be_value (take 4 block) :: words fuel (drop 4 block) end.

Definition compress (h : hash_state) (block : bytes) : hash_state :=
  let schedule := reverse (extend 64 (reverse (words 16 block))) in
  let g := foldl round h (zip (seq 0 80) schedule) in
  mkHash (add32 (h0 h) (h0 g)) (add32 (h1 h) (h1 g)) (add32 (h2 h) (h2 g)) (add32 (h3 h) (h3 g))
    (add32 (h4 h) (h4 g)).

Definition pad (message : bytes) : bytes :=
  message ++ [0x80] ++ zeros (Z.to_nat ((55 - Z.of_nat (length message)) mod 64))
    ++ be_bytes 8 (8 * Z.of_nat (length message)).

Fixpoint blocks (fuel : nat) (h : hash_state) (message : bytes) : hash_state :=
  match fuel with
  | O => h
  | S fuel => blocks fuel (compress h (take 64 message)) (drop 64 message)
  end.

Definition sha1 (message : bytes) : bytes :=
  let padded := pad message in
  let h := blocks (length padded / 64) initial_hash padded in
  be_bytes 4 (h0 h) ++ be_bytes 4 (h1 h) ++ be_bytes 4 (h2 h) ++ be_bytes 4 (h3 h) ++ be_bytes 4 (h4 h).

Definition hmac (key message : bytes) : bytes :=
  let key := if Nat.ltb 64 (length key) then sha1 key else key in
  let block := key ++ zeros (64 - length key) in
  sha1 ((Z.lxor 0x5c <$> block) ++ sha1 ((Z.lxor 0x36 <$> block) ++ message)).

Lemma sha1_output message : length (sha1 message) = 20%nat ∧ bytes_ok (sha1 message).
Proof.
  unfold sha1. split.
  - by rewrite !length_app, !be_bytes_length.
  - repeat (apply Forall_app; split); apply be_bytes_ok.
Qed.

(** The first examples of FIPS 180 and RFC 2202. *)
Example sha1_abc : be_value (sha1 (str "abc")) = 0xA9993E364706816ABA3E25717850C26C9CD0D89D.
Proof. vm_compute. reflexivity. Qed.
Example hmac_jefe : be_value (hmac (str "Jefe") (str "what do ya want for nothing?"))
  = 0xeffcdf6ae5eb2fa2d27416d5f184df9c259a7c79.
Proof. vm_compute. reflexivity. Qed.

Definition software : MbedtlsHmac := {|
  mbedtls_md_sha1_available := true;
  mbedtls_md_hmac := λ key message, (0, hmac key message);
|}.
Lemma software_laws : @HmacLaws software.
Proof. split. intros key message digest [= <-]. apply sha1_output. Qed.
End Sha1.
