(* ===== verification/Totp.v ===== *)
(** * One-time passwords

    [m5auth_totp/totp_core.cpp] and [totp_mbedtls.cpp]: the core, which turns a
    secret and a time into a code of six digits, and [vault_generator.cpp]:
    [VaultGenerator], which runs it on a credential of the Vault inside the
    runtime's callback.  The generator's references to the runtime and to the
    time service are the two halves of its state. *)

From S2P Require Import Prelude Bytes VaultFormat VaultCrypto Persistence Runtime.
From S2P Require Import TrustedTime TimeService Base32 Hmac.

Definition kPeriodSeconds : Z := 30.
Definition kDigits : Z := 6.
Definition kModulo : Z := 1000000.

Module CoreResult.
Inductive t := kOk | kInvalidSecret | kCryptoError.
#[global] Instance eq_dec : EqDecision t.
Proof. solve_decision. Defined.
End CoreResult.

(** An HMAC provider: whether it succeeded, and the digest. *)
Definition HmacSha1Provider : Type := bytes → bytes → bool * bytes.

(** The message of a counter: its eight bytes, the most significant first. *)
Definition counter_message (counter : Z) : bytes :=
  (λ index, byte_at counter ((7 - index) * 8)) <$> seqZ 0 8.

(** The result, and the code it writes when the result is [kOk]. *)
Definition generate_key_with_provider (key : bytes) (unix_seconds : Z) (provider : HmacSha1Provider)
    : CoreResult.t * option Z :=
  if Nat.eqb (length key) 0 then (CoreResult.kInvalidSecret, None)
  else
    let message := counter_message (unix_seconds / kPeriodSeconds) in
    let '(hmac_ok, digest) := provider key message in
    if negb hmac_ok then (CoreResult.kCryptoError, None)
    else
      let at_ (i : nat) : Z := nth i digest 0 in
      let offset := Z.to_nat (Z.land (at_ (length digest - 1)%nat) 0x0f) in
      if Nat.leb (length digest) (offset + 3) then (CoreResult.kCryptoError, None)
      else
        let binary :=
          Z.lor (Z.lor (Z.lor (Z.shiftl (Z.land (at_ offset) 0x7f) 24)
                              (Z.shiftl (at_ (offset + 1)%nat) 16))
                       (Z.shiftl (at_ (offset + 2)%nat) 8))
                (at_ (offset + 3)%nat) in
        (CoreResult.kOk, Some (binary mod kModulo)).

Definition generate_raw_with_provider (secret : bytes) (unix_seconds : Z) (provider : HmacSha1Provider)
    : CoreResult.t * option Z := generate_key_with_provider secret unix_seconds provider.

Definition generate_with_provider (base32_secret : bytes) (unix_seconds : Z) (provider : HmacSha1Provider)
    : CoreResult.t * option Z :=
  match decode_base32 base32_secret with
  | None => (CoreResult.kInvalidSecret, None)
  | Some key => generate_key_with_provider key unix_seconds provider
  end.

Section Mbedtls.
Context `{MbedtlsHmac}.

Definition hmac_sha1 : HmacSha1Provider := λ key message,
  if negb mbedtls_md_sha1_available then (false, zeros 20)
  else
    let '(result, output) := mbedtls_md_hmac key message in
    (result =? 0, output).

Definition generate_raw (secret : bytes) (unix_seconds : Z) : CoreResult.t * option Z :=
  generate_raw_with_provider secret unix_seconds hmac_sha1.

Definition generate (base32_secret : bytes) (unix_seconds : Z) : CoreResult.t * option Z :=
  generate_with_provider base32_secret unix_seconds hmac_sha1.
End Mbedtls.

(** ** The generator of the Vault *)

Module GenerateResult.
Inductive t :=
  | kOk | kNotSynced | kTimeStale | kAccountNotFound | kInvalidSecret | kCryptoError | kStorageError.
#[global] Instance eq_dec : EqDecision t.
Proof. solve_decision. Defined.
End GenerateResult.

(** What the output parameters hold at the end: [metadata.unix_seconds] is 0
    unless the code is written. *)
Record Generated := mkGenerated { code : option Z; unix_seconds : Z }.
Definition nothing_generated : Generated := mkGenerated None 0.

Section Generator.
Context `{MbedtlsGcm} `{MbedtlsHmac} {P N : Type} `{Persistence P} `{EspNetwork N}.

(** What the callback captures by reference: the time service, [result] and the
    outputs. *)
Definition captured : Type := TimeService N * (GenerateResult.t * Generated).

Definition in_time {A} (f : service_op A) : captured → A * captured := λ s,
  let '(a, t) := f (fst s) in (a, (t, snd s)).
Definition set_result (result : GenerateResult.t) (s : captured) : captured :=
  (fst s, (result, snd (snd s))).

(** A branch of the callback that sets [result] and returns [Status::kOk]. *)
Definition conclude {A} (result : GenerateResult.t) : ctl captured Status A :=
  modify (set_result result);; leave kOk.
Definition conclude_if (b : bool) (result : GenerateResult.t) : ctl captured Status unit :=
  if b then conclude result else mret tt.

Definition generate_callback (credential : CredentialRecord) : captured → Status * captured := fn (
  current_status ← call (in_time time_status);
  conclude_if (bool_decide (readiness current_status = kNotSynced)) GenerateResult.kNotSynced;;
  conclude_if (bool_decide (readiness current_status = kStale)) GenerateResult.kTimeStale;;
  conclude_if (negb (bool_decide (algorithm credential = kSha1)) || negb (digits credential =? kDigits)
               || negb (period_seconds credential =? kPeriodSeconds)
               || Nat.eqb (length (secret credential)) 0) GenerateResult.kInvalidSecret;;
  now ← call (in_time service_unix_seconds);
  match now with
  | None => conclude GenerateResult.kTimeStale
  | Some unix_seconds =>
    let '(core, generated) := generate_raw (secret credential) unix_seconds in
    match core with
    | CoreResult.kOk =>
      modify (λ s, (fst s, (GenerateResult.kOk, mkGenerated generated unix_seconds)));; mret kOk
    | CoreResult.kInvalidSecret => conclude GenerateResult.kInvalidSecret
    | CoreResult.kCryptoError => conclude GenerateResult.kCryptoError
    end
  end).

Abbreviation RS := (Runtime P * TimeService N)%type.

Definition generate_for_credential (credential_id : bytes) : RS → (GenerateResult.t * Generated) * RS := fn (
  before_vault ← call (on_service time_status);
  leave_if (bool_decide (readiness before_vault = kNotSynced)) (GenerateResult.kNotSynced, nothing_generated);;
  leave_if (bool_decide (readiness before_vault = kStale)) (GenerateResult.kTimeStale, nothing_generated);;
  x ← call (λ s : RS,
    let '(status, (r, (t, result))) :=
      with_credential credential_id (Some generate_callback)
        (fst s, (snd s, (GenerateResult.kStorageError, nothing_generated))) in
    ((status, result), (r, t)));
  let '(runtime_status, (result, generated)) := x in
  leave_if (bool_decide (runtime_status = kNotFound)) (GenerateResult.kAccountNotFound, generated);;
  leave_if (negb (is_ok runtime_status)) (GenerateResult.kStorageError, generated);;
  mret (result, generated)).
End Generator.

(** ** The reference *)

(** RFC 4226, section 5.3: dynamic truncation of a digest to six digits. *)
Definition hotp_truncate (digest : bytes) : Z :=
  let offset := Z.to_nat (default 0 (last digest) mod 16) in
  be_value (take 4 (drop offset digest)) mod 2 ^ 31 mod 10 ^ 6.

(** RFC 6238: the counter is the number of periods of 30 seconds. *)
Definition totp_reference `{MbedtlsHmac} (secret : bytes) (unix_seconds : Z) : Z :=
  hotp_truncate (snd (mbedtls_md_hmac secret (be_bytes 8 (unix_seconds / 30)))).

(** ** The core is the reference *)

Lemma counter_message_be counter : counter_message counter = be_bytes 8 counter.
Proof. rewrite <- be_bytes_loop. reflexivity. Qed.

Lemma four_bytes a b c d : is_byte b → is_byte c → is_byte d →
  Z.lor (Z.lor (Z.lor (Z.shiftl a 24) (Z.shiftl b 16)) (Z.shiftl c 8)) d
  = ((a * 256 + b) * 256 + c) * 256 + d.
Proof.
  unfold is_byte. intros.
  replace (Z.shiftl a 24) with (Z.shiftl (Z.shiftl (Z.shiftl a 8) 8) 8) by by rewrite !Z.shiftl_shiftl.
  replace (Z.shiftl b 16) with (Z.shiftl (Z.shiftl b 8) 8) by by rewrite Z.shiftl_shiftl.
  rewrite <- !Z.shiftl_lor, !lor_shiftl_add by lia. lia.
Qed.

Lemma take_four (l : bytes) (i : nat) : (i + 3 < length l)%nat →
  take 4 (drop i l) = [nth i l 0; nth (i + 1) l 0; nth (i + 2) l 0; nth (i + 3) l 0].
Proof.
  revert i. induction l as [|x l IH]; intros i Hi; [cbn in Hi; lia|].
  destruct i as [|i]; [|apply IH; cbn in Hi; lia].
  destruct l as [|y [|z [|w l]]]; cbn in Hi; try lia. done.
Qed.

Lemma nth_byte (l : bytes) (i : nat) : bytes_ok l → is_byte (nth i l 0).
Proof.
  intros Hok. destruct (nth_in_or_default i l 0) as [Hin| ->]; [|done].
  rewrite Forall_forall in Hok. by apply Hok, list_elem_of_In.
Qed.

Lemma last_nth (l : bytes) : nth (length l - 1) l 0 = default 0 (last l).
Proof.
  destruct l as [|x l _] using rev_ind; [done|].
  rewrite last_snoc, length_app, app_nth2 by (cbn; lia). cbn.
  by replace (length l + 1 - 1 - length l)%nat with 0%nat by lia.
Qed.

Lemma core_truncates key unix_seconds provider digest :
  key ≠ [] → provider key (be_bytes 8 (unix_seconds / kPeriodSeconds)) = (true, digest) →
  length digest = 20%nat → bytes_ok digest →
  generate_key_with_provider key unix_seconds provider = (CoreResult.kOk, Some (hotp_truncate digest)).
Proof.
  intros Hk Hp Hl Hok. unfold generate_key_with_provider.
  destruct (Nat.eqb_spec (length key) 0) as [He|_]; [by apply nil_length_inv in He|].
  rewrite counter_message_be, Hp. cbn [negb].
  unfold hotp_truncate. rewrite <- last_nth. change 0x0f with (Z.ones 4).
  rewrite Z.land_ones by done. change (2 ^ 4) with 16.
  set (offset := Z.to_nat (nth (length digest - 1) digest 0 mod 16)).
  assert (Ho : (offset ≤ 15)%nat) by lia.
  destruct (Nat.leb_spec (length digest) (offset + 3)) as [|Hlt]; [lia|].
  rewrite take_four by done. change 0x7f with (Z.ones 7). rewrite Z.land_ones by done.
  rewrite four_bytes by auto using nth_byte.
  assert (H := nth_byte digest offset Hok). assert (H1 := nth_byte digest (offset + 1) Hok).
  assert (H2 := nth_byte digest (offset + 2) Hok). assert (H3 := nth_byte digest (offset + 3) Hok).
  unfold be_value, is_byte, kModulo in *. cbn -[Z.mul Z.modulo Z.div nth Z.pow].
  do 2 f_equal. change (10 ^ 6) with 1000000. f_equal. clear -H H1 H2 H3. change (2 ^ 31) with 2147483648.
  change (2 ^ 7) with 128. lia.
Qed.

Lemma generate_raw_exact `{MbedtlsHmac} {L : HmacLaws} secret t :
  generate_raw secret t =
    if decide (secret = []) then (CoreResult.kInvalidSecret, None)
    else if mbedtls_md_sha1_available && (fst (mbedtls_md_hmac secret (be_bytes 8 (t / 30))) =? 0)
    then (CoreResult.kOk, Some (totp_reference secret t))
    else (CoreResult.kCryptoError, None).
Proof.
  unfold generate_raw, generate_raw_with_provider, totp_reference.
  destruct (decide (secret = [])) as [->|Hne]; [done|].
  destruct (mbedtls_md_hmac secret (be_bytes 8 (t / 30))) as [status digest] eqn:E. cbn [fst snd].
  destruct (mbedtls_md_sha1_available) eqn:Ha; cbn [andb].
  + destruct (Z.eqb_spec status 0) as [->|Hs].
    * destruct (hmac_output _ _ _ E). apply core_truncates; try done. unfold hmac_sha1, kPeriodSeconds.
      by rewrite Ha, E.
    * unfold generate_key_with_provider, hmac_sha1, kPeriodSeconds. rewrite Ha, counter_message_be, E.
      destruct (Nat.eqb_spec (length secret) 0) as [He|_]; [by apply nil_length_inv in He|].
      cbn [negb]. by rewrite (proj2 (Z.eqb_neq _ _) Hs).
  + unfold generate_key_with_provider, hmac_sha1. rewrite Ha.
    destruct (Nat.eqb_spec (length secret) 0) as [He|_]; [by apply nil_length_inv in He|done].
Qed.

(** C27: The code of a secret at a time is that of RFC 6238, on every secret and
    every time: the HMAC of the number of 30-second periods as eight bytes,
    truncated as in RFC 4226, six digits; the secret must not be empty, and
    only a failing HMAC makes it fail.  Two times give the HMAC the same message
    exactly when they are in the same period, over the whole 64-bit range. *)
Theorem totp_exact `{MbedtlsHmac} {L : HmacLaws} secret t :
  generate_raw secret t =
    (if decide (secret = []) then (CoreResult.kInvalidSecret, None)
     else if mbedtls_md_sha1_available && (fst (mbedtls_md_hmac secret (be_bytes 8 (t / 30))) =? 0)
     then (CoreResult.kOk, Some (totp_reference secret t))
     else (CoreResult.kCryptoError, None)) ∧
  0 ≤ totp_reference secret t < 10 ^ kDigits ∧
  ∀ t', is_u64 t → is_u64 t' →
    counter_message (t / kPeriodSeconds) = counter_message (t' / kPeriodSeconds) ↔ t / 30 = t' / 30.
Proof.
  split; [apply generate_raw_exact|split].
  - apply (Z.mod_pos_bound _ (10 ^ 6)). done.
  - unfold is_u64, kPeriodSeconds. intros t' Ht Ht'. change u64_max with 18446744073709551615 in *.
    rewrite !counter_message_be. split; [|by intros ->].
    apply be_bytes_inj; change (256 ^ Z.of_nat 8) with 18446744073709551616; lia.
Qed.
