(* ===== verification/TotpCorrect.v ===== *)
(** * What the generator of the Vault gives out

    [VaultGenerator] writes a code only for the requested credential of an
    unlocked Vault while the clock is ready, and the code is the reference's; it
    changes nothing but the last-used mark.  The published test vectors are
    evaluated on the whole path from the Base32 text to the code. *)

From S2P Require Import Prelude Bytes VaultFormat VaultCrypto Persistence Runtime RuntimeCorrect.
From S2P Require Import TrustedTime TimeService TimeServiceCorrect Base32 Hmac Totp.

(** What this firmware can show. *)
Definition displayable (credential : CredentialRecord) : Prop :=
  algorithm credential = kSha1 ∧ digits credential = kDigits ∧
  period_seconds credential = kPeriodSeconds ∧ secret credential ≠ [].

Section Generator.
Context `{MbedtlsGcm} `{MbedtlsHmac} `{!HmacLaws} {P N : Type} `{Persistence P} `{EspNetwork N}.
Implicit Types (s : captured (N := N)).

Lemma in_time_inv {A} (f : service_op A) s a s' :
  in_time f s = (a, s') → f (fst s) = (a, fst s') ∧ snd s' = snd s.
Proof. unfold in_time. destruct (f (fst s)). by intros [= <- <-]. Qed.

Lemma reading_inv (t : TimeService N) x t' :
  service_unix_seconds t = (x, t') → only_net t t' ∧ ∃ now, x = current_unix_seconds now (clock_ t).
Proof.
  unfold service_unix_seconds. destruct (esp_timer_get_time (net_ t)) as [now n]. intros [= <- <-].
  split; [done|eauto].
Qed.

Lemma status_inv (t : TimeService N) x t' :
  time_status t = (x, t') → only_net t t' ∧ ∃ now, x = clock_snapshot now (clock_ t).
Proof.
  unfold time_status. destruct (esp_timer_get_time (net_ t)) as [now n]. intros [= <- <-].
  split; [done|eauto].
Qed.

Lemma generate_raw_ok (key : bytes) t g :
  generate_raw key t = (CoreResult.kOk, g) → g = Some (totp_reference key t).
Proof. rewrite generate_raw_exact. repeat case_match; by intros [= <-]. Qed.

(** The callback only reads the time, and sets a code of the credential at a
    time of the clock. *)
Lemma callback_spec credential s st s' :
  generate_callback credential s = (st, s') →
  st = kOk ∧ only_net (fst s) (fst s') ∧
  (fst (snd s') ≠ GenerateResult.kOk ∧ snd (snd s') = snd (snd s) ∨
   ∃ unix now, displayable credential ∧ current_unix_seconds now (clock_ (fst s)) = Some unix ∧
     snd s' = (GenerateResult.kOk, mkGenerated (Some (totp_reference (secret credential) unix)) unix)).
Proof.
  intros E. unfold generate_callback, conclude_if, conclude in E. exec E.
  all: apply in_time_inv in Ef as [Ef Hs]; apply status_inv in Ef as [Hn _].
  1-3: split_and!; [done|done|left; split; [done|cbn; by rewrite Hs]].
  all: apply in_time_inv in Ef0 as [Ef0 Hs0]; apply reading_inv in Ef0 as [Hn0 [now Hnow]].
  all: assert (Hn1 : only_net (fst s) (fst s1)) by (by eapply only_net_trans).
  2-4: split_and!; [done|done|left; split; [done|cbn; by rewrite Hs0, Hs]].
  split_and!; [done|done|right]. rewrite Hn in Hnow. apply generate_raw_ok in Em0 as ->.
  exists z, now. split_and!; [|done|done]. unfold displayable.
  rewrite !orb_false_iff, !negb_false_iff, bool_decide_eq_true, !Z.eqb_eq in Eb1.
  destruct Eb1 as [[[? ?] ?] Hl]. split_and!; try done. intros Hx. by rewrite Hx in Hl.
Qed.

(** The code [g] is that of a credential of the unlocked Vault in [r], at a time
    of the clock of [t]. *)
Definition code_of_vault (id : bytes) (r : Runtime P) (t : TimeService N) (g : Generated) : Prop :=
  ∃ v credential now unix,
    unlocked r = true ∧ read_vault r = inl v ∧ credential ∈ credentials v ∧
    credential_id credential = id ∧ displayable credential ∧
    current_unix_seconds now (clock_ t) = Some unix ∧
    g = mkGenerated (Some (totp_reference (secret credential) unix)) unix.

(** What a request to the generator can do. *)
Definition generation (id : bytes) (r r' : Runtime P) (t t' : TimeService N)
    (result : GenerateResult.t) (g : Generated) : Prop :=
  only_net t t' ∧
  r' = r <| persistence_ := persistence_ r' |> <| last_used_ := last_used_ r' |> ∧
  (result = GenerateResult.kOk → code g ≠ None ∧ last_used_ r' = Some id) ∧
  (g = nothing_generated ∨ code_of_vault id r t g).

Lemma generation_nothing id r t t' result : result ≠ GenerateResult.kOk →
  only_net t t' → generation id r r t t' result nothing_generated.
Proof. intros. split_and!; [done|by destruct r|done|by left]. Qed.

Lemma generation_from id r r' t t0 t' result g :
  only_net t t0 → generation id r r' t0 t' result g → generation id r r' t t' result g.
Proof.
  intros Hn (Hn' & ? & ? & Hg). split_and!; [by eapply only_net_trans|done|done|].
  unfold code_of_vault in *. by rewrite Hn in Hg.
Qed.

(** The runtime's callback mechanism, on the generator's callback. *)
Lemma callback_in_vault id r t status r' t' result g :
  reachable r →
  with_credential id (Some generate_callback) (r, (t, (GenerateResult.kStorageError, nothing_generated)))
    = (status, (r', (t', (result, g)))) →
  ∀ final, (final = result ∧ status = kOk ∨ final ≠ GenerateResult.kOk) → generation id r r' t t' final g.
Proof.
  intros Hr E final Hfinal.
  destruct (with_credential_safe _ _ _ _ _ _ _ Hr E) as
    [(Hc & Hst & ->)|(v & credential & st1 & Hu & Hv & Hin & Hid & Hf & Hs & Hok & _)].
  { injection Hc as -> -> ->. apply generation_nothing; [|apply only_net_refl].
    by destruct Hfinal as [[_ ?]|?]. }
  apply callback_spec in Hf as (-> & Hn & Hg). cbn in Hn, Hg. split; [done|split; [done|]].
  destruct Hg as [[Hne ->]|(unix & now & Hd & Hnow & Hg)].
  - split; [intros ->; by destruct Hfinal as [[<- _]|?]|by left].
  - apply pair_eq in Hg as [-> ->]. split.
    + intros ->. split; [done|]. destruct Hfinal as [[_ ->]|?]; [|done]. by apply Hok.
    + right. exists v, credential, now, unix. done.
Qed.
Lemma generate_spec id (s s' : Runtime P * TimeService N) result g :
  reachable (fst s) → generate_for_credential id s = ((result, g), s') →
  generation id (fst s) (fst s') (snd s) (snd s') result g.
Proof.
  intros Hr E. unfold generate_for_credential in E. exec E; simplify_eq.
  all: apply on_service_inv in Ef as [Ef Hf]; apply status_inv in Ef as [Hn _].
  1-2: rewrite Hf; by apply generation_nothing.
  all: destruct (with_credential _ _ _) as [st [r1 [t1 [res0 g0]]]] eqn:Ew in Ef0; simplify_eq.
  all: rewrite Hf in Ew; cbn; apply (generation_from _ _ _ _ _ _ _ _ Hn); eapply callback_in_vault;
    [done|exact Ew|].
  1-2: by right.
  left. by bools.
Qed.

Lemma generate_reachable id (s s' : Runtime P * TimeService N) x :
  reachable (fst s) → generate_for_credential id s = (x, s') → reachable (fst s').
Proof.
  intros Hr E. unfold generate_for_credential in E. exec E; simplify_eq.
  all: apply on_service_inv in Ef as [_ Hf]; rewrite <- Hf in Hr; try done.
  all: destruct (with_credential _ _ _) as [st [r1 [t1 x1]]] eqn:Ew in Ef0; simplify_eq.
  all: eapply reachable_step; [exact Hr|by eapply step_credential].
Qed.

(** ** Exactly what a request gives *)

(** The timer is read up to three times: the [k]th reading. *)
Definition next_reading (n : N) : N := snd (esp_timer_get_time n).
Definition reading (k : nat) (t : TimeService N) : Z := fst (esp_timer_get_time (Nat.iter k next_reading (net_ t))).

#[export] Instance displayable_dec credential : Decision (displayable credential).
Proof. unfold displayable. apply _. Defined.

(** The refusal of a clock that is not ready. *)
Definition clock_refusal (status : TimeSnapshot) : option GenerateResult.t :=
  match readiness status with
  | kNotSynced => Some GenerateResult.kNotSynced
  | kStale => Some GenerateResult.kTimeStale
  | kReady => None
  end.

(** The credential a request is about, or its refusal. *)
Definition asked (id : bytes) (r : Runtime P) (t : TimeService N) : CredentialRecord + GenerateResult.t :=
  match clock_refusal (clock_snapshot (reading 0 t) (clock_ t)) with
  | Some refusal => inr refusal
  | None =>
    if negb (unlocked r) then inr GenerateResult.kStorageError
    else match read_vault r with
         | inr _ => inr GenerateResult.kStorageError
         | inl v => match find_credential id v with
                    | None => inr GenerateResult.kAccountNotFound
                    | Some credential => inl credential
                    end
         end
  end.

(** What the firmware shows of a credential. *)
Definition shown (credential : CredentialRecord) (t : TimeService N) : GenerateResult.t * Generated :=
  match clock_refusal (clock_snapshot (reading 1 t) (clock_ t)) with
  | Some refusal => (refusal, nothing_generated)
  | None =>
    if decide (¬ displayable credential) then (GenerateResult.kInvalidSecret, nothing_generated)
    else match current_unix_seconds (reading 2 t) (clock_ t) with
         | None => (GenerateResult.kTimeStale, nothing_generated)
         | Some unix =>
           if mbedtls_md_sha1_available
              && (fst (mbedtls_md_hmac (secret credential) (be_bytes 8 (unix / 30))) =? 0)
           then (GenerateResult.kOk, mkGenerated (Some (totp_reference (secret credential) unix)) unix)
           else (GenerateResult.kCryptoError, nothing_generated)
         end
  end.

(** The result when the store does not record the credential as last used. *)
Definition not_recorded (status : Status) : GenerateResult.t :=
  if decide (status = kNotFound) then GenerateResult.kAccountNotFound else GenerateResult.kStorageError.

Lemma status_reading (t : TimeService N) :
  time_status t = (clock_snapshot (reading 0 t) (clock_ t), t <| net_ := next_reading (net_ t) |>).
Proof. unfold time_status, reading, next_reading. cbn. by destruct (esp_timer_get_time _). Qed.

Lemma unix_reading (t : TimeService N) :
  service_unix_seconds t = (current_unix_seconds (reading 0 t) (clock_ t), t <| net_ := next_reading (net_ t) |>).
Proof. unfold service_unix_seconds, reading, next_reading. cbn. by destruct (esp_timer_get_time _). Qed.

Lemma displayable_test credential :
  negb (bool_decide (algorithm credential = kSha1)) || negb (digits credential =? kDigits)
  || negb (period_seconds credential =? kPeriodSeconds) || Nat.eqb (length (secret credential)) 0
  = bool_decide (¬ displayable credential).
Proof.
  apply eq_true_iff_eq. rewrite bool_decide_eq_true. unfold displayable.
  rewrite !orb_true_iff, !negb_true_iff, bool_decide_eq_false, !Z.eqb_neq, Nat.eqb_eq.
  assert (Hn : length (secret credential) = 0%nat ↔ secret credential = [])
    by (split; [apply nil_length_inv|by intros ->]).
  rewrite Hn. split; [tauto|]. intros Hd.
  destruct (decide (algorithm credential = kSha1)), (decide (digits credential = kDigits)),
    (decide (period_seconds credential = kPeriodSeconds)), (decide (secret credential = [])); tauto.
Qed.

Lemma callback_exact credential (t t0 : TimeService N) res :
  t0 = t <| net_ := next_reading (net_ t) |> →
  ∃ t', generate_callback credential (t0, (res, nothing_generated)) = (kOk, (t', shown credential t)) ∧ only_net t t'.
Proof.
  intros ->. unfold generate_callback, shown, clock_refusal, conclude_if, conclude.
  set (t0 := t <| net_ := next_reading (net_ t) |>).
  assert (E1 : in_time time_status (t0, (res, nothing_generated)) =
    (clock_snapshot (reading 1 t) (clock_ t), (t0 <| net_ := next_reading (net_ t0) |>, (res, nothing_generated))))
    by (unfold in_time; cbn [fst snd]; by rewrite status_reading).
  rewrite (fn_call _ _ _ _ _ E1), displayable_test.
  destruct (readiness _); [by eexists| |by eexists]. rewrite !(bool_decide_eq_false_2 (kReady = _)) by done.
  rewrite !fn_bind_ret. unfold decide at 1. case_bool_decide as Hd;
    destruct (not_dec _) as [Hd'|Hd']; try done; [by eexists|]. rewrite fn_bind_ret.
  set (t1 := t0 <| net_ := _ |>).
  assert (E2 : in_time service_unix_seconds (t1, (res, nothing_generated)) =
    (current_unix_seconds (reading 2 t) (clock_ t), (t1 <| net_ := next_reading (net_ t1) |>, (res, nothing_generated))))
    by (unfold in_time; cbn [fst snd]; by rewrite unix_reading).
  rewrite (fn_call _ _ _ _ _ E2). destruct (current_unix_seconds _ _) as [unix|]; [|by eexists].
  rewrite generate_raw_exact. destruct (decide (secret credential = [])) as [Hs|_].
  { destruct Hd'. by intros (_ & _ & _ & ?). }
  destruct (_ && _); by eexists.
Qed.

(** What the runtime's callback mechanism gives with the generator's callback. *)
Lemma credential_exact id (r : Runtime P) (t t0 : TimeService N) st r' t' res g :
  reachable r → t0 = t <| net_ := next_reading (net_ t) |> →
  with_credential id (Some generate_callback) (r, (t0, (GenerateResult.kStorageError, nothing_generated)))
    = (st, (r', (t', (res, g)))) →
  only_net t t' ∧
  if negb (unlocked r) then st ≠ kOk ∧ st ≠ kNotFound ∧ g = nothing_generated ∧ r' = r
  else ∃ v, read_vault r = inl v ∧
    match find_credential id v with
    | None => st = kNotFound ∧ g = nothing_generated ∧ r' = r
    | Some credential => (res, g) = shown credential t ∧
        ∃ p, persist_last_used (Some id) (persistence_ r) = (st, p) ∧
          (st = kOk → r' = r <| persistence_ := p |> <| last_used_ := Some id |>) ∧
          (st ≠ kOk → r' = r <| persistence_ := p |>)
    end.
Proof.
  intros Hr Ht E. pose proof Hr as I%invariant_reachable. unfold with_credential in E.
  assert (Hu : unlocked r = initialized_ r && negb (not_unlocked r)).
  { unfold unlocked, not_unlocked. destruct (State.eqb_true (state_ r) State.kUnlocked) as [Hs _].
    destruct (initialized_ r), (State.eqb (state_ r) State.kUnlocked), (vmk_present_ r), (has_vault_ r) eqn:Eh; try done.
    destruct (inv_has_vault _ I) as [_ Hh]; [by rewrite Hs|]. rewrite Hh in Eh; [done|]. right. by apply Hs. }
  assert (Hn : only_net t t0) by by subst t0. rewrite Hu; clear Hu.
  pose proof (λ c, callback_exact c t t0 GenerateResult.kStorageError Ht) as Hcb. clear Ht.
  exec_rt E; simplify_eq.
  1: apply negb_true_iff in Ec; rewrite Ec.
  2-7: apply negb_false_iff in Ec; rewrite Ec, Ec0; cbn [andb negb].
  1-2: by split_and!.
  1: destruct (Hcb c) as (tc & Ecb & Hnc); rewrite Ecb in Ef; by simplify_eq.
  1-2: destruct (Hcb c) as (tc & Ecb & Hnc); rewrite Ecb in Ef; simplify_eq;
    (split; [done|]); exists v; (split; [done|]); rewrite Em0; (split; [done|]).
  - eexists. split; [done|]. bools. split; [congruence|]. cbn. by rewrite Ec.
  - bools. subst. eexists. split; [done|]. cbn. by rewrite Ec.
  - split; [done|]. exists v. by rewrite Em0.
  - exfalso. unfold not_unlocked in Ec0. bools. destruct (read_vault_opens r I) as (v & Hv & _); [done|congruence].
Qed.

Lemma generate_exact id (r : Runtime P) (t : TimeService N) result g r' t' :
  reachable r → generate_for_credential id (r, t) = ((result, g), (r', t')) →
  only_net t t' ∧
  match asked id r t with
  | inr refusal => result = refusal ∧ g = nothing_generated ∧ r' = r
  | inl credential =>
    g = snd (shown credential t) ∧
    ∃ st p, persist_last_used (Some id) (persistence_ r) = (st, p) ∧
      (st = kOk → result = fst (shown credential t) ∧
         r' = r <| persistence_ := p |> <| last_used_ := Some id |>) ∧
      (st ≠ kOk → result = not_recorded st ∧ r' = r <| persistence_ := p |>)
  end.
Proof.
  intros Hr E. unfold generate_for_credential in E.
  assert (Es : on_service time_status (r, t) =
    (clock_snapshot (reading 0 t) (clock_ t), (r, t <| net_ := next_reading (net_ t) |>)))
    by (unfold on_service; cbn [fst snd]; by rewrite status_reading).
  rewrite (fn_call _ _ _ _ _ Es) in E. unfold asked, clock_refusal.
  destruct (readiness _); [by exec E; simplify_eq| |by exec E; simplify_eq].
  rewrite !(bool_decide_eq_false_2 (kReady = _)) in E by done.
  cbn [leave_if] in E. rewrite !fn_bind_ret in E. exec_step E. cbn [fst snd] in Ef.
  destruct (with_credential _ _ _) as [st [r1 [t1 [res0 g0]]]] eqn:Ew in Ef.
  apply (credential_exact _ _ t) in Ew as [Hn Hw]; [|done..].
  exec E; simplify_eq; (split; [done|]); bools; destruct (unlocked r); cbn [negb] in *.
  2, 4, 6: destruct Hw as (Hst & Hnf & -> & ->); by subst.
  all: destruct Hw as (v & -> & Hw); destruct (find_credential id v) as [credential|];
    [|destruct Hw as (-> & -> & ->); by try split_and!].
  all: destruct Hw as [Hx Hw]; destruct (shown credential t) as [res1 g1]; injection Hx as -> ->;
    split; [done|]; destruct Hw as (p & Hp & Hok & Hno); exists s0, p; split; [done|].
  - subst. split; [done|]. intros Hst. unfold not_recorded. rewrite decide_True by done. auto.
  - split; [done|]. intros Hst. unfold not_recorded. rewrite decide_False by done. auto.
  - split; [auto|done].
Qed.

Lemma shown_code credential (t : TimeService N) :
  snd (shown credential t) = nothing_generated ∨ fst (shown credential t) = GenerateResult.kOk.
Proof. unfold shown. repeat case_match; auto. Qed.
End Generator.

(** C11: A request to the generator, completely.  The result, the code and the
    change to the runtime are those of [asked] and [shown]: a request while the
    clock is not ready, while the Vault is locked or for an identifier it does
    not have is refused, with the result that says why, no code, and an
    untouched runtime.  Otherwise the outcome is what the firmware shows of that
    credential (its reference code at the time of the clock, or no code and the
    reason), the credential is recorded as last used, and the result is the
    outcome's unless the store fails to record it: then the result is an error
    although the code may have been written.  So a code that is written is that
    of the requested credential of the unlocked Vault at a time of the clock, and
    comes with a success unless recording it failed.  The time service is only
    asked for the time. *)
Theorem generate_for_credential_exact `{MbedtlsGcm} `{MbedtlsHmac} `{!HmacLaws} {P N} `{Persistence P} `{EspNetwork N}
    id (r : Runtime P) (t : TimeService N) result g r' t' :
  reachable r → generate_for_credential id (r, t) = ((result, g), (r', t')) →
  only_net t t' ∧
  match asked id r t with
  | inr refusal => result = refusal ∧ g = nothing_generated ∧ r' = r
  | inl credential =>
    g = snd (shown credential t) ∧
    ∃ st p, persist_last_used (Some id) (persistence_ r) = (st, p) ∧
      (st = kOk → result = fst (shown credential t) ∧
         r' = r <| persistence_ := p |> <| last_used_ := Some id |>) ∧
      (st ≠ kOk → result = not_recorded st ∧ r' = r <| persistence_ := p |>)
  end ∧
  (g = nothing_generated ∨
   code_of_vault id r t g ∧
   (result = GenerateResult.kOk ∨ fst (persist_last_used (Some id) (persistence_ r)) ≠ kOk)).
Proof.
  intros Hr E. destruct (generate_exact _ _ _ _ _ _ _ Hr E) as [Hn Hx].
  destruct (generate_spec id (r, t) (r', t') result g Hr E) as (_ & _ & _ & Hg). cbn in Hg.
  split_and!; [done|done|]. destruct Hg as [Hg|Hg]; [by left|].
  destruct (asked id r t) as [credential|refusal]; [|left; tauto].
  destruct Hx as (-> & st & p & -> & Hok & _). destruct (shown_code credential t) as [->|Hs]; [by left|].
  right. split; [done|]. cbn. destruct (decide (st = kOk)) as [Hst|]; [|by right].
  left. destruct (Hok Hst) as [-> _]. done.
Qed.

(** ** The test vectors *)

Module TotpSample.
#[local] Existing Instance checksum_gcm.
#[local] Existing Instance TimeSample.good_network.
#[local] Existing Instance Sha1.software.
#[local] Existing Instance Sha1.software_laws.

(** The SHA-1 vectors of RFC 6238, appendix B, at six digits, from the Base32
    text of the secret. *)
Example rfc6238_vectors :
  (generate Base32Sample.rfc_secret <$> [59; 1111111109; 1111111111; 1234567890; 2000000000; 20000000000])
  = (λ c, (CoreResult.kOk, Some c)) <$> [287082; 081804; 050471; 005924; 279037; 353130].
Proof. vm_compute. reflexivity. Qed.

Lemma totp_exact_witness :
  generate_raw (str "12345678901234567890") 59 = (CoreResult.kOk, Some 287082).
Proof.
  destruct (totp_exact (str "12345678901234567890") 59) as [-> _]. vm_compute. reflexivity.
Defined.

(** The second account of the sample Vault, after a synchronisation. *)
Definition asked_for := generate_for_credential (replicate 16 8)
  (fst (snd TimeSample.usb_synced), snd (snd TimeSample.usb_synced)).

Lemma pairs {A B C D} (x : (A * B) * (C * D)) : x = ((fst (fst x), snd (fst x)), (fst (snd x), snd (snd x))).
Proof. by destruct x as [[? ?] [? ?]]. Qed.

Lemma asked_reachable : reachable (fst (snd TimeSample.usb_synced)).
Proof. exact Sample.reachable_opened. Qed.

(** Its account 8. *)
Definition sample_plaintext := Sample.plaintext (Some 7).
Definition bob : CredentialRecord :=
  default (mkCredential [] [] [] [] [] kSha1 0 0 0) (find_credential (replicate 16 8) sample_plaintext).

Lemma generate_for_credential_exact_witness :
  fst (fst asked_for) = GenerateResult.kOk ∧ code (snd (fst asked_for)) = Some 897489 ∧
  last_used_ (fst (snd asked_for)) = Some (replicate 16 8).
Proof.
  destruct (generate_for_credential_exact (replicate 16 8) (fst (snd TimeSample.usb_synced))
    (snd (snd TimeSample.usb_synced)) (fst (fst asked_for)) (snd (fst asked_for)) (fst (snd asked_for))
    (snd (snd asked_for)) asked_reachable (pairs asked_for)) as (_ & Hx & _).
  assert (Ea : asked (replicate 16 8) (fst (snd TimeSample.usb_synced)) (snd (snd TimeSample.usb_synced)) = inl bob)
    by (vm_compute; reflexivity).
  assert (Es : shown bob (snd (snd TimeSample.usb_synced)) =
    (GenerateResult.kOk, mkGenerated (Some 897489) (unix_seconds (snd (fst asked_for))))) by (vm_compute; reflexivity).
  rewrite Ea, Es in Hx. destruct Hx as (Hg & st & p & Hp & Hok & _).
  assert (Hst : st = kOk) by (change (fst (st, p) = kOk); rewrite <- Hp; vm_compute; reflexivity).
  destruct (Hok Hst) as [Hr Hr']. split; [exact Hr|]. split.
  - rewrite Hg. reflexivity.
  - rewrite Hr'. reflexivity.
Defined.
End TotpSample.
