(* ===== verification/LabelScroll.v ===== *)
(** * Scrolling and countdown

    [label_scroll_state.hpp] and [totp_validity.hpp] of m5auth_device_sticks3:
    the position of a label that is too wide for the screen, as a function of
    the time since it appeared, with the saturating 64-bit arithmetic of the
    code, and the period and countdown of a code.  The output pointers are never
    null; an updated value is returned with the result. *)

From S2P Require Import Prelude Bytes.

(** [totp_validity::Snapshot] *)
Record Validity := mkValidity { period_index : Z; seconds_remaining : Z }.
Definition kValidityPeriodSeconds : Z := 30.
Definition from_unix_seconds (unix_seconds : Z) : Validity :=
  mkValidity (unix_seconds / kValidityPeriodSeconds)
    (u8 (kValidityPeriodSeconds - unix_seconds mod kValidityPeriodSeconds)).
Definition same_period (left right : Validity) : bool := period_index left =? period_index right.

(** The scroll's epoch and offset, when the screen became visible or hidden. *)
Definition on_screen_hidden_changed (was_hidden is_hidden : bool) (now_ms : Z) (scroll : Z * Z) : Z * Z :=
  if Bool.eqb was_hidden is_hidden then scroll else (now_ms, 0).

Definition saturating_add (left right : Z) : Z :=
  if left >? u64_max - right then u64_max else left + right.
Definition saturating_multiply (left right : Z) : Z :=
  if (left =? 0) || (right =? 0) then 0
  else if left >? u64_max / right then u64_max else left * right.

Definition cycle_offset_px (screen_hidden : bool)
    (epoch_ms now_ms initial_dwell_ms step_ms step_px max_offset_px end_dwell_ms : Z) : Z :=
  if screen_hidden || (now_ms <? epoch_ms) || (step_ms =? 0) || (step_px <=? 0) || (max_offset_px <=? 0) then 0
  else
    let max_steps := (max_offset_px + step_px - 1) / step_px in
    let scroll_duration_ms := saturating_multiply max_steps step_ms in
    let cycle_duration_ms := saturating_add (saturating_add initial_dwell_ms scroll_duration_ms) end_dwell_ms in
    let elapsed_ms := now_ms - epoch_ms in
    let phase_ms :=
      if (cycle_duration_ms =? 0) || (cycle_duration_ms =? u64_max) then elapsed_ms
      else elapsed_ms mod cycle_duration_ms in
    if phase_ms <? initial_dwell_ms then 0
    else
      let scroll_phase_ms := phase_ms - initial_dwell_ms in
      if scroll_phase_ms >=? scroll_duration_ms then max_offset_px
      else
        let completed_steps := scroll_phase_ms / step_ms in
        Z.min max_offset_px (saturating_multiply completed_steps step_px).

(** Whether the offset changed, and the new offset. *)
Definition update_offset (screen_hidden : bool) (desired_offset_px offset_px : Z) : bool * Z :=
  if screen_hidden || (offset_px =? desired_offset_px) then (false, offset_px)
  else (true, desired_offset_px).

(** ** Properties *)

Lemma saturating_add_min l r : is_u64 l → is_u64 r → saturating_add l r = Z.min u64_max (l + r).
Proof.
  unfold is_u64, saturating_add. intros. rewrite Z.gtb_ltb.
  destruct (Z.ltb_spec (u64_max - r) l); lia.
Qed.

Lemma saturating_multiply_min l r : is_u64 l → is_u64 r → saturating_multiply l r = Z.min u64_max (l * r).
Proof.
  unfold is_u64, saturating_multiply. intros Hl Hr.
  destruct (Z.eqb_spec l 0) as [->|]; cbn [orb]; [lia|].
  destruct (Z.eqb_spec r 0) as [->|]; [lia|]. rewrite Z.gtb_ltb.
  destruct (Z.ltb_spec (u64_max / r) l) as [Hlt|Hge].
  - assert (u64_max < r * l) by (apply Z.div_lt_upper_bound in Hlt || (pose proof (Z.mul_succ_div_gt u64_max r); nia)). lia.
  - assert (r * l ≤ u64_max) by (pose proof (Z.mul_div_le u64_max r); nia). lia.
Qed.

Lemma validity_bounds t : 0 ≤ t →
  1 ≤ seconds_remaining (from_unix_seconds t) ≤ 30 ∧
  kValidityPeriodSeconds * (period_index (from_unix_seconds t) + 1) = t + seconds_remaining (from_unix_seconds t).
Proof.
  unfold from_unix_seconds, kValidityPeriodSeconds, u8. intros. cbn [period_index seconds_remaining].
  rewrite land_ff. lia.
Qed.

(** The motion of a label, with unbounded integers: it rests, takes a step of
    [step_px] every [step_ms] until it shows its end, rests, and starts again. *)
Definition scroll_cycle (initial_dwell_ms step_ms step_px max_offset_px end_dwell_ms : Z) : Z :=
  initial_dwell_ms + (max_offset_px + step_px - 1) / step_px * step_ms + end_dwell_ms.
Definition scroll_position (initial_dwell_ms step_ms step_px max_offset_px end_dwell_ms elapsed_ms : Z) : Z :=
  let phase := elapsed_ms mod scroll_cycle initial_dwell_ms step_ms step_px max_offset_px end_dwell_ms in
  Z.max 0 (Z.min max_offset_px ((phase - initial_dwell_ms) / step_ms * step_px)).

(** The steps of a cycle. *)
Lemma steps_enough max_offset step_px : 0 < step_px → 0 < max_offset →
  let steps := (max_offset + step_px - 1) / step_px in
  1 ≤ steps ∧ max_offset ≤ steps * step_px ∧ (steps - 1) * step_px < max_offset.
Proof.
  intros Hs Hm. cbn zeta. pose proof (Z.mul_div_le (max_offset + step_px - 1) step_px Hs).
  pose proof (Z.mul_succ_div_gt (max_offset + step_px - 1) step_px Hs).
  assert (1 ≤ (max_offset + step_px - 1) / step_px); [|nia].
  apply Z.div_le_lower_bound; lia.
Qed.

(** The position of a phase of the cycle, as the code computes it. *)
Lemma phase_position phase dwell step_ms step_px max_offset :
  let steps := (max_offset + step_px - 1) / step_px in
  0 < step_ms → 0 < step_px → 0 < max_offset → max_offset + step_px ≤ u64_max →
  (if phase <? dwell then 0
   else if phase - dwell >=? steps * step_ms then max_offset
   else Z.min max_offset (saturating_multiply ((phase - dwell) / step_ms) step_px))
  = Z.max 0 (Z.min max_offset ((phase - dwell) / step_ms * step_px)).
Proof.
  cbn zeta. intros Hms Hpx Hmax Hfit.
  destruct (steps_enough max_offset step_px) as (H1 & H2 & H3); [done..|]. cbn zeta in *.
  set (steps := (max_offset + step_px - 1) / step_px) in *.
  destruct (Z.ltb_spec phase dwell) as [Hlt|Hge].
  - assert ((phase - dwell) / step_ms < 0) by (apply Z.div_lt_upper_bound; lia). nia.
  - rewrite Z.geb_leb. destruct (Z.leb_spec (steps * step_ms) (phase - dwell)) as [Hend|Hin].
    + assert (steps ≤ (phase - dwell) / step_ms) by (apply Z.div_le_lower_bound; lia). nia.
    + assert (0 ≤ (phase - dwell) / step_ms) by (apply Z.div_pos; lia).
      assert ((phase - dwell) / step_ms < steps) by (apply Z.div_lt_upper_bound; lia).
      set (completed := (phase - dwell) / step_ms) in *.
      rewrite saturating_multiply_min by (unfold is_u64; nia). nia.
Qed.

(** A label's offset is the position of the periodic motion at the time since
    the label appeared, as long as one cycle fits 64 bits: the saturating
    arithmetic of the code loses nothing.  A hidden screen and a time before the
    epoch show the start of the label. *)
Theorem label_scroll_exact hidden epoch_ms now_ms dwell step_ms step_px max_offset end_dwell :
  is_u64 epoch_ms → is_u64 now_ms → 0 ≤ dwell → 0 < step_ms → 0 < step_px → 0 < max_offset → 0 ≤ end_dwell →
  max_offset + step_px ≤ u64_max → scroll_cycle dwell step_ms step_px max_offset end_dwell < u64_max →
  cycle_offset_px hidden epoch_ms now_ms dwell step_ms step_px max_offset end_dwell =
  if hidden || (now_ms <? epoch_ms) then 0
  else scroll_position dwell step_ms step_px max_offset end_dwell (now_ms - epoch_ms).
Proof.
  intros He Hn Hd Hms Hpx Hmax Hed Hfit Hcycle. unfold cycle_offset_px.
  destruct (hidden || (now_ms <? epoch_ms)) eqn:Hh; [done|].
  rewrite (proj2 (Z.eqb_neq step_ms 0)), (proj2 (Z.leb_gt step_px 0)), (proj2 (Z.leb_gt max_offset 0)) by lia.
  cbn [orb]. unfold scroll_position, scroll_cycle in *.
  destruct (steps_enough max_offset step_px) as (H1 & H2 & H3); [done..|]. cbn zeta in *.
  set (steps := (max_offset + step_px - 1) / step_px) in *.
  assert (0 < steps * step_ms) by nia. assert (steps ≤ steps * step_ms) by nia.
  assert (step_ms ≤ steps * step_ms) by nia.
  rewrite saturating_multiply_min by (unfold is_u64; lia). rewrite Z.min_r by lia.
  rewrite (saturating_add_min dwell) by (unfold is_u64; lia). rewrite Z.min_r by lia.
  rewrite saturating_add_min by (unfold is_u64; lia). rewrite Z.min_r by lia.
  rewrite (proj2 (Z.eqb_neq _ 0)), (proj2 (Z.eqb_neq _ u64_max)) by lia. cbn [orb].
  by apply phase_position.
Qed.

Lemma label_scroll_exact_witness :
  cycle_offset_px false 1000 10000 2000 40 1 100 2000 = scroll_position 2000 40 1 100 2000 9000 ∧
  cycle_offset_px false 1000 10000 2000 40 1 100 2000 = 0 ∧
  cycle_offset_px false 1000 5000 2000 40 1 100 2000 = 50.
Proof.
  split; [|split; vm_compute; reflexivity].
  apply (label_scroll_exact false 1000 10000 2000 40 1 100 2000); vm_compute; split || done; done.
Defined.
