(* ===== verification/Display.v ===== *)
(** * Drawing

    The layout of [ui_layout.hpp] and the drawing functions of
    [canonical_device.cpp] that only depend on their arguments.  The display
    itself, M5Unified's [M5.Display], is the class [M5Display] of its
    measurements, and what the code makes it do is a list of commands: a printed
    text carries the cursor, size and colours set just before it. *)

From S2P Require Import Prelude Bytes Runtime TrustedTime Json.

Definition kReadableTextSize : Z := 2.
Definition kOtpTextSize : Z := 4.
Definition kOtpDigitGapPx : Z := 3.
Definition kColorBlack : Z := 0x0000.
Definition kColorWhite : Z := 0xffff.
Definition kColorGood : Z := 0x07e0.
Definition kColorAttention : Z := 0xffe0.
Definition kColorError : Z := 0xf800.
(** [ui_palette] *)
Definition kTitleBackground : Z := 0x0000.
Definition kTitleText : Z := 0x451f.
Definition kConfirmationAction : Z := 0x07ff.

(** The widths and heights M5Unified reports, and whether the sprite for the
    account label could be allocated. *)
Class M5Display := {
  display_width : Z;
  font_height : Z;
  text_width : ∀ (size : Z) (text : bytes), Z;
  label_sprite_available : bool;
}.

Inductive draw :=
  | DClear
  | DFill (x y width height color : Z)
  | DPrint (size color background x y : Z) (text : bytes)
  (** a sprite pushed at [x], [y], with the text drawn at [offset] inside it *)
  | DSprite (x y offset : Z) (text : bytes).

(** ** The layout *)

Definition kTitlePaddingTopPx : Z := 4.
Definition kTitlePaddingBottomPx : Z := 4.
Definition kTitlePaddingLeftPx : Z := 1.
Definition kHeaderSeparatorHeightPx : Z := 1.
Definition kContentLeftPx : Z := 4.
Definition kLineAdvancePx : Z := 20.
Definition kStatusBandHeightPx : Z := 18.
Definition kAccountLabelHeightPx : Z := 18.
Definition kAccountLabelOffsetPx : Z := 57.
Definition kOtpOffsetPx : Z := 78.
Definition kOtpBandHeightPx : Z := 32.
Definition kHelpFirstOffsetPx : Z := 76.
Definition kHelpSecondOffsetPx : Z := 94.

Record FrameGeometry := mkGeometry {
  title_band_height : Z;
  separator_y : Z;
  content_start_y : Z;
  primary_line_y : Z;
  secondary_line_y : Z;
  tertiary_line_y : Z;
  account_label_y : Z;
  otp_y : Z;
  help_first_y : Z;
  help_second_y : Z;
}.

Definition frame_geometry (title_font_height : Z) : FrameGeometry :=
  let title_band_height := kTitlePaddingTopPx + title_font_height + kTitlePaddingBottomPx in
  let content_start_y := title_band_height + kHeaderSeparatorHeightPx in
  mkGeometry title_band_height title_band_height content_start_y content_start_y
    (content_start_y + kLineAdvancePx) (content_start_y + 2 * kLineAdvancePx)
    (content_start_y + kAccountLabelOffsetPx) (content_start_y + kOtpOffsetPx)
    (content_start_y + kHelpFirstOffsetPx) (content_start_y + kHelpSecondOffsetPx).

Definition content_viewport_width (display_width : Z) : Z :=
  if display_width >? kContentLeftPx then display_width - kContentLeftPx else 0.

(** ** Texts and colours *)

Definition readiness_text (readiness : Readiness) : bytes :=
  match readiness with
  | kNotSynced => str "NOT SYNCED" | kReady => str "READY" | kStale => str "TIME STALE"
  end.
Definition readiness_color (readiness : Readiness) : Z :=
  match readiness with kReady => kColorGood | kNotSynced => kColorAttention | kStale => kColorError end.
Definition runtime_state_text (state : State.t) : bytes :=
  match state with
  | State.kUnprovisioned => str "UNPROVISIONED"
  | State.kReprovisionRequired => str "REPROVISION"
  | State.kLocked => str "LOCKED"
  | State.kUnlocked => str "UNLOCKED"
  | State.kError => str "SECURITY ERROR"
  end.
Definition runtime_state_color (state : State.t) : Z :=
  match state with
  | State.kUnlocked => kColorGood
  | State.kLocked | State.kUnprovisioned => kColorAttention
  | State.kReprovisionRequired | State.kError => kColorError
  end.

(** [snprintf] of ["%06lu"] into seven characters. *)
Definition otp_text (code : Z) : bytes :=
  let text := decimal code in
  take 6 (replicate (6 - length text) 48 ++ text).

Section Draw.
Context `{M5Display}.

Definition display_geometry : FrameGeometry := frame_geometry font_height.

Definition draw_title_band (geometry : FrameGeometry) : list draw :=
  [DFill 0 0 display_width (title_band_height geometry) kTitleBackground;
   DPrint kReadableTextSize kTitleText kTitleBackground kTitlePaddingLeftPx kTitlePaddingTopPx
     (str "M5Authenticator");
   DFill 0 (separator_y geometry) display_width kHeaderSeparatorHeightPx kColorBlack].

Definition draw_line (text : bytes) (y : Z) : list draw :=
  [DPrint kReadableTextSize kColorWhite kColorBlack kContentLeftPx y text].
Definition draw_accent_line (text : bytes) (y color : Z) : list draw :=
  [DPrint kReadableTextSize color kColorBlack kContentLeftPx y text].
(** What [initialize] of release_device.cpp leaves on the screen. *)
Definition start_screen : list draw :=
  DClear :: draw_title_band display_geometry ++ draw_line (str "Starting...") (content_start_y display_geometry).

Definition draw_semantic_line (prefix value : bytes) (value_color y : Z) : list draw :=
  [DPrint kReadableTextSize kColorWhite kColorBlack kContentLeftPx y prefix;
   DPrint kReadableTextSize value_color kColorBlack
     (kContentLeftPx + text_width kReadableTextSize prefix) y value].

(** The positions of the six digits, from [x]. *)
Definition otp_columns (x digit_width group_gap : Z) : list Z :=
  fst (foldl (λ '(columns, x) index,
         (columns ++ [x],
          x + digit_width + (if (index <? 5)%nat then kOtpDigitGapPx else 0)
            + (if (index =? 2)%nat then group_gap else 0)))
       ([], x) (seq 0 6)).

Definition draw_otp (revealed_code otp_y : Z) : list draw :=
  let digit_width := text_width kOtpTextSize (str "0") in
  let group_gap := Z.quot digit_width 2 in
  let total_width := digit_width * 6 + kOtpDigitGapPx * 5 + group_gap in
  let x := Z.max 0 (Z.quot (display_width - total_width) 2) in
  zip_with (λ x digit, DPrint kOtpTextSize kColorWhite kColorBlack x otp_y [digit])
    (otp_columns x digit_width group_gap) (otp_text revealed_code).
End Draw.

(** ** The digits of a code *)

Lemma digits_length fuel n v :
  0 ≤ v < 10 ^ Z.of_nat n → (0 < n)%nat → (length (digits fuel v) ≤ n)%nat.
Proof.
  revert n v. induction fuel as [|fuel IH]; intros n v Hv Hn; [cbn; lia|]. cbn [digits].
  destruct (Z.ltb_spec v 10); [cbn; lia|]. rewrite length_app. cbn [length].
  destruct n as [|[|n]]; [lia|cbn in Hv; lia|].
  rewrite (Nat2Z.inj_succ (S n)), Z.pow_succ_r in Hv by lia.
  enough (length (digits fuel (v / 10)) ≤ S n)%nat by lia.
  apply IH; [|lia]. generalize dependent (10 ^ Z.of_nat (S n)). intros. lia.
Qed.

Lemma digits_value_zeros n text : digits_value 0 (replicate n 48 ++ text) = digits_value 0 text.
Proof. induction n as [|n IH]; [done|]. exact IH. Qed.

(** A code is printed as exactly its six decimal digits. *)
Lemma otp_text_exact code : 0 ≤ code < 10 ^ 6 →
  length (otp_text code) = 6%nat ∧ Forall is_digit (otp_text code) ∧ digits_value 0 (otp_text code) = code.
Proof.
  intros Hc. unfold otp_text.
  assert (Hl : (length (decimal code) ≤ 6)%nat) by (apply digits_length; [exact Hc|lia]).
  destruct (digits_spec 20 code) as ((_ & Hd & _) & Hv & _); [cbn; lia|lia|].
  rewrite take_ge by (rewrite length_app, length_replicate; lia). split_and!.
  - rewrite length_app, length_replicate. lia.
  - apply Forall_app. split; [|done]. by apply Forall_replicate.
  - by rewrite digits_value_zeros.
Qed.

(** The digits of a code stand side by side, in order, and inside the display
    when they are not wider than it. *)
Lemma otp_columns_apart x w g : 0 < w → 0 ≤ g →
  otp_columns x w g =
    [x; x + w + 3; x + 2 * (w + 3); x + 3 * (w + 3) + g; x + 4 * (w + 3) + g; x + 5 * (w + 3) + g].
Proof.
  intros. unfold otp_columns, kOtpDigitGapPx. cbn -[Z.mul Z.add].
  repeat (apply (f_equal2 cons); [lia|]). done.
Qed.
