(* ===== verification/Ui.v ===== *)
(** * The user interface

    [CanonicalUiController] of [canonical_device.cpp]: which accounts the screen
    may show, which one is selected, how long a code stays, and what every pass
    of the loop of the user-interface task draws.  The objects the controller
    refers to (the runtime, the time service and the presence) are the other
    fields of [UiSystem]; [lcd_] is what the display has been told to draw so
    far.  The buttons M5Unified samples at the start of a pass are an argument.

    The controller runs under its own mutex, so each pass is two steps here: the
    presence part, and the part under the mutex.  Other tasks run between them. *)

From S2P Require Import Prelude Bytes Json VaultFormat VaultCrypto Persistence Runtime.
From S2P Require Import DeviceSession UserPresence Attempt TrustedTime TimeService.
From S2P Require Import Hmac Totp LabelScroll Display.

Definition kCredentialRefreshIntervalMs : Z := 1000.
Definition kOtpRevealDurationMs : Z := 10000.
Definition kLabelScrollDelayMs : Z := 2000.
Definition kLabelScrollEndDelayMs : Z := 2000.
Definition kLabelScrollStepMs : Z := 40.
Definition kLabelScrollStepPx : Z := 1.

Record PresenceView := mkView { active : bool; confirmed : bool; view_operation : PresenceOperation }.
Definition presence_view (p : CanonicalPresence) : PresenceView :=
  mkView (gate_active (gate_ p)) (bool_decide (presence_state_ (gate_ p) = kPresenceConfirmed))
    (operation_ (gate_ p)).
Definition same_presence (left right : PresenceView) : bool :=
  Bool.eqb (active left) (active right) && Bool.eqb (confirmed left) (confirmed right)
  && bool_decide (view_operation left = view_operation right).

Record CredentialView := mkCredentialView {
  cv_credential_id : bytes;
  cv_issuer : bytes;
  cv_account : bytes;
  cv_display_name : bytes;
}.

Record CanonicalUiController := mkController {
  credentials_ : list CredentialView;
  selected_index_ : nat;
  visible_generation_ : Z;
  runtime_state_ : State.t;
  vault_visible_ : bool;
  storage_error_ : bool;
  reveal_active_ : bool;
  revealed_code_ : Z;
  reveal_deadline_ms_ : Z;
  revealed_period_index_ : Z;
  validity_seconds_remaining_ : Z;
  last_generate_result_ : GenerateResult.t;
  label_scroll_epoch_ms_ : Z;
  label_scroll_offset_px_ : Z;
  presence_gesture_quarantine_ : PresenceGestureQuarantine;
}.
#[export] Instance eta_controller : Eta CanonicalUiController := λ u,
  mkController (credentials_ u) (selected_index_ u) (visible_generation_ u) (runtime_state_ u)
    (vault_visible_ u) (storage_error_ u) (reveal_active_ u) (revealed_code_ u) (reveal_deadline_ms_ u)
    (revealed_period_index_ u) (validity_seconds_remaining_ u) (last_generate_result_ u)
    (label_scroll_epoch_ms_ u) (label_scroll_offset_px_ u) (presence_gesture_quarantine_ u).

Definition new_controller : CanonicalUiController :=
  mkController [] 0 0 State.kUnprovisioned false false false 0 0 0 0 GenerateResult.kOk 0 0
    (mkQuarantine false false 0 0).

Record UiSystem {P N : Type} := mkUi {
  controller : CanonicalUiController;
  ui_runtime : Runtime P;
  ui_time : TimeService N;
  ui_presence : CanonicalPresence;
  lcd_ : list draw;
}.
Arguments UiSystem : clear implicits.
#[export] Instance eta_ui {P N} : Eta (UiSystem P N) := λ s,
  mkUi P N (controller s) (ui_runtime s) (ui_time s) (ui_presence s) (lcd_ s).

(** [BtnA] as one pass of the loop sees it. *)
Record Button := mkButton {
  isPressed : bool;
  wasPressed : bool;
  wasHold : bool;
  wasDoubleClicked : bool;
  wasSingleClicked : bool;
  wasDecideClickCount : bool;
  getHoldThresh : Z;
}.

Definition display_label (credential : CredentialView) : bytes :=
  let empty (text : bytes) := Nat.eqb (length text) 0 in
  if negb (empty (cv_display_name credential)) then cv_display_name credential
  else if negb (empty (cv_issuer credential)) && negb (empty (cv_account credential))
  then cv_issuer credential ++ str ": " ++ cv_account credential
  else if negb (empty (cv_issuer credential)) then cv_issuer credential
  else if negb (empty (cv_account credential)) then cv_account credential
  else str "Unnamed account".

Definition credential_view (item : CredentialMetadata) : CredentialView :=
  mkCredentialView (cm_credential_id item) (cm_issuer item) (cm_account item) (cm_display_name item).

(** The selected credential, when the index is one of the list. *)
Definition selected (u : CanonicalUiController) : option CredentialView := credentials_ u !! selected_index_ u.
(** [!vault_visible_ || credentials_.empty() || selected_index_ >= credentials_.size()] *)
Definition nothing_selected (u : CanonicalUiController) : bool :=
  negb (vault_visible_ u) || Nat.eqb (length (credentials_ u)) 0
  || Nat.leb (length (credentials_ u)) (selected_index_ u).

Section Ui.
Context `{MbedtlsGcm} `{MbedtlsHmac} `{M5Display} {P N : Type} `{Persistence P} `{EspNetwork N}.
Abbreviation Sys := (UiSystem P N).
Definition ui_op (A : Type) : Type := Sys → A * Sys.

Definition no_change {A} (a : A) : ui_op A := λ s, (a, s).
Definition on_ui (f : CanonicalUiController → CanonicalUiController) (s : Sys) : Sys :=
  s <| controller := f (controller s) |>.
Definition in_vault {A} (f : op A) : ui_op A := λ s,
  let '(a, r) := f (ui_runtime s) in (a, s <| ui_runtime := r |>).
Definition on_clock {A} (f : service_op A) : ui_op A := λ s,
  let '(a, t) := f (ui_time s) in (a, s <| ui_time := t |>).
Definition on_presence {A} (f : CanonicalPresence → A * CanonicalPresence) : ui_op A := λ s,
  let '(a, p) := f (ui_presence s) in (a, s <| ui_presence := p |>).
Definition in_generator {A} (f : Runtime P * TimeService N → A * (Runtime P * TimeService N)) : ui_op A := λ s,
  let '(a, (r, t)) := f (ui_runtime s, ui_time s) in (a, s <| ui_runtime := r |> <| ui_time := t |>).
Definition draws (commands : list draw) : ui_op unit := λ s, (tt, s <| lcd_ := lcd_ s ++ commands |>).

(** The timer of the time service is the one [esp_timer_get_time] reads. *)
Definition monotonic_ms : ui_op Z := fn (
  microseconds ← call (on_clock (on_net esp_timer_get_time));
  mret (if microseconds <=? 0 then 0 else Z.quot microseconds 1000)).

Definition reset_label_scroll (now_ms : Z) : ui_op unit := λ s,
  (tt, on_ui (λ u, u <| label_scroll_epoch_ms_ := now_ms |> <| label_scroll_offset_px_ := 0 |>) s).

(** The label's scroll after [storage_error_] was set from [previous_storage_error]. *)
Definition storage_error_changed (previous_storage_error : bool) : ui_op unit := fn (
  now ← call monotonic_ms;
  modify (on_ui (λ u,
    let '(epoch, offset) := on_screen_hidden_changed previous_storage_error (storage_error_ u) now
                              (label_scroll_epoch_ms_ u, label_scroll_offset_px_ u) in
    u <| label_scroll_epoch_ms_ := epoch |> <| label_scroll_offset_px_ := offset |>));;
  mret tt).

Definition set_offset (screen_hidden : bool) (desired_offset_px : Z) : ui_op bool := λ s,
  let '(changed, offset) := update_offset screen_hidden desired_offset_px
                              (label_scroll_offset_px_ (controller s)) in
  (changed, on_ui (λ u, u <| label_scroll_offset_px_ := offset |>) s).

Definition update_label_scroll (now_ms : Z) : ui_op bool := fn (
  s ← get_state;
  let u := controller s in
  leave_if (storage_error_ u) false;;
  if nothing_selected u then call (set_offset false 0)
  else
    let label := match selected u with Some c => display_label c | None => [] end in
    let label_width := text_width kReadableTextSize label in
    let viewport_width := content_viewport_width display_width in
    if label_width <=? viewport_width then call (set_offset false 0)
    else
      let max_offset := label_width - viewport_width in
      let desired_offset := cycle_offset_px (storage_error_ u) (label_scroll_epoch_ms_ u) now_ms
        kLabelScrollDelayMs kLabelScrollStepMs kLabelScrollStepPx max_offset kLabelScrollEndDelayMs in
      call (set_offset (storage_error_ u) desired_offset)).

Definition hide_reveal : ui_op unit := fn (
  modify (on_ui (λ u, u <| revealed_code_ := 0 |> <| reveal_deadline_ms_ := 0 |>
    <| revealed_period_index_ := 0 |> <| validity_seconds_remaining_ := 0 |>
    <| reveal_active_ := false |>));;
  now ← call monotonic_ms;
  call (reset_label_scroll now)).

Definition clear_private_view : ui_op bool := fn (
  s ← get_state;
  let u := controller s in
  let changed := vault_visible_ u || negb (Nat.eqb (length (credentials_ u)) 0) || reveal_active_ u in
  call hide_reveal;;
  modify (on_ui (λ u, u <| credentials_ := [] |> <| selected_index_ := 0%nat |>
    <| visible_generation_ := 0 |> <| vault_visible_ := false |>));;
  now ← call monotonic_ms;
  call (reset_label_scroll now);;
  mret changed).

(** The index of the credential with the identifier [preferred], else 0. *)
Definition preferred_index (preferred : option bytes) (next : list CredentialView) : nat :=
  match preferred with
  | None => 0%nat
  | Some id => default 0%nat (fst <$> list_find (λ c, cv_credential_id c = id) next)
  end.

(** The runtime's metadata, when reading it succeeds. *)
Definition runtime_metadata (r : Runtime P) : option Metadata :=
  let '(status, metadata) := metadata r in
  if is_ok status then metadata else None.

Definition refresh_credentials (force : bool) : ui_op bool := fn (
  s ← get_state;
  match runtime_metadata (ui_runtime s) with
  | Some m =>
    modify (on_ui (λ u, u <| runtime_state_ := m_state m |>));;
    if negb (State.eqb (m_state m) State.kUnlocked) then
      cleared ← call clear_private_view;
      s ← get_state;
      modify (on_ui (λ u, u <| storage_error_ := false |>));;
      leave (cleared || storage_error_ (controller s))
    else
      s ← get_state;
      let u := controller s in
      if negb force && vault_visible_ u && (visible_generation_ u =? m_generation m) then
        leave_if (negb (storage_error_ u)) false;;
        modify (on_ui (λ u, u <| storage_error_ := false |>));;
        call (storage_error_changed true);;
        leave true
      else
        let preferred :=
          match vault_visible_ u, selected u with
          | true, Some c => Some (cv_credential_id c)
          | _, _ => m_last_used m
          end in
        x ← call (in_vault list_credentials);
        let '(list_status, items) := x in
        if negb (is_ok list_status) then
          cleared ← call clear_private_view;
          s ← get_state;
          modify (on_ui (λ u, u <| storage_error_ := true |>));;
          leave (cleared || negb (storage_error_ (controller s)))
        else
          let next := credential_view <$> items in
          let next_index := preferred_index preferred next in
          call clear_private_view;;
          modify (on_ui (λ u, u <| credentials_ := next |>
            <| selected_index_ := if Nat.eqb (length next) 0 then 0%nat else next_index |>
            <| visible_generation_ := m_generation m |> <| vault_visible_ := true |>
            <| storage_error_ := false |>));;
          now ← call monotonic_ms;
          call (reset_label_scroll now);;
          mret true
  | None =>
    cleared ← call clear_private_view;
    s ← get_state;
    modify (on_ui (λ u, u <| storage_error_ := true |> <| runtime_state_ := State.kError |>));;
    leave (cleared || negb (storage_error_ (controller s)))
  end).

(** ** Selection *)

Definition persist_selection : ui_op bool := fn (
  s ← get_state;
  match nothing_selected (controller s), selected (controller s) with
  | false, Some credential =>
    status ← call (in_vault (set_last_used (cv_credential_id credential)));
    s ← get_state;
    let previous_storage_error := storage_error_ (controller s) in
    modify (on_ui (λ u, u <| storage_error_ := negb (is_ok status) |>));;
    call (storage_error_changed previous_storage_error);;
    mret (is_ok status)
  | _, _ => leave true
  end).

(** The common end of the two selections, with the new index. *)
Definition select (index : nat → nat → nat) : ui_op unit := fn (
  s ← get_state;
  leave_if (Nat.eqb (length (credentials_ (controller s))) 0) tt;;
  call hide_reveal;;
  modify (on_ui (λ u, u <| selected_index_ := index (selected_index_ u) (length (credentials_ u)) |>));;
  now ← call monotonic_ms;
  call (reset_label_scroll now);;
  call persist_selection;;
  mret tt).
Definition select_next : ui_op unit := select (λ index size, ((index + 1) mod size)%nat).
Definition select_previous : ui_op unit :=
  select (λ index size, if (index =? 0)%nat then (size - 1)%nat else (index - 1)%nat).

(** ** Codes *)

Definition set_generate_result (result : GenerateResult.t) : Sys → Sys :=
  on_ui (λ u, u <| last_generate_result_ := result |>).

(** The loop over the attempts; a code that is not shown is wiped. *)
Fixpoint refresh_attempts (attempts : nat) (credential_id : bytes) : ui_op bool :=
  match attempts with
  | O => fn (mret false)
  | S attempts => fn (
      x ← call (in_generator (generate_for_credential credential_id));
      let '(result, generated) := x in
      modify (set_generate_result result);;
      leave_if (negb (bool_decide (result = GenerateResult.kOk))) false;;
      now ← call (on_clock service_unix_seconds);
      match now with
      | None => modify (set_generate_result GenerateResult.kTimeStale);; leave false
      | Some current_unix_seconds =>
        let generated_validity := from_unix_seconds (unix_seconds generated) in
        let current_validity := from_unix_seconds current_unix_seconds in
        if negb (same_period generated_validity current_validity) then
          call (refresh_attempts attempts credential_id)
        else
          modify (on_ui (λ u, u <| revealed_code_ := default 0 (code generated) |>
            <| revealed_period_index_ := period_index current_validity |>
            <| validity_seconds_remaining_ := seconds_remaining current_validity |>));;
          mret true
      end)
  end.

Definition refresh_revealed_totp : ui_op bool := fn (
  s ← get_state;
  match nothing_selected (controller s), selected (controller s) with
  | false, Some credential => call (refresh_attempts 2 (cv_credential_id credential))
  | _, _ => modify (set_generate_result GenerateResult.kAccountNotFound);; leave false
  end).

Definition reveal_selected (now_ms : Z) : ui_op unit := fn (
  call hide_reveal;;
  modify (set_generate_result GenerateResult.kOk);;
  shown ← call refresh_revealed_totp;
  leave_if (negb shown) tt;;
  modify (on_ui (λ u, u <| reveal_active_ := true |>
    <| reveal_deadline_ms_ := deadline kOtpRevealDurationMs now_ms |>));;
  call (reset_label_scroll now_ms)).

(** ** What is drawn *)

Definition account_label_draws (u : CanonicalUiController) : list draw :=
  match storage_error_ u || nothing_selected u, selected u with
  | false, Some credential =>
    let label := display_label credential in
    let y := account_label_y display_geometry in
    if label_sprite_available then [DSprite kContentLeftPx y (- label_scroll_offset_px_ u) label]
    else
      [DFill 0 y display_width kAccountLabelHeightPx kColorBlack;
       DPrint kReadableTextSize kColorWhite kColorBlack (kContentLeftPx - label_scroll_offset_px_ u) y label]
  | _, _ => []
  end.

Definition reveal_validity_draws (u : CanonicalUiController) : list draw :=
  let y := tertiary_line_y display_geometry in
  [DFill 0 y display_width kStatusBandHeightPx kColorBlack;
   DPrint kReadableTextSize kColorWhite kColorBlack kContentLeftPx y
     (str "Valid: " ++ decimal (validity_seconds_remaining_ u) ++ str "s")].

Definition reveal_region_draws (u : CanonicalUiController) : list draw :=
  let y := otp_y display_geometry in
  [DFill 0 y display_width kOtpBandHeightPx kColorBlack] ++ reveal_validity_draws u
    ++ draw_otp (revealed_code_ u) y.

(** The request for a press of the button. *)
Definition request_draws (presence : PresenceView) : list draw :=
  let geometry := display_geometry in
  let reset := bool_decide (view_operation presence = kPresenceFactoryReset) in
  let status_y := tertiary_line_y geometry + (if reset then kLineAdvancePx else 0) in
  draw_line (str "UNLOCK REQUEST") (primary_line_y geometry)
  ++ draw_line (str (presence_operation_text (view_operation presence))) (secondary_line_y geometry)
  ++ (if reset then draw_line (str "ERASE DEVICE DATA") (tertiary_line_y geometry) else [])
  ++ (if confirmed presence then
        draw_line (str "Confirmed") status_y
        ++ draw_line (str "Waiting for browser") (status_y + kLineAdvancePx)
      else
        draw_accent_line (str "Press A to confirm") status_y kConfirmationAction
        ++ draw_line (str "Expires in 30 sec") (status_y + kLineAdvancePx)).

(** [reveal_active_ && time_status.readiness == kReady] *)
Definition code_on_screen (u : CanonicalUiController) (ready : Readiness) : bool :=
  reveal_active_ u && bool_decide (ready = kReady).

(** The accounts of a visible Vault. *)
Definition account_draws (u : CanonicalUiController) (ready : Readiness) : list draw :=
  let geometry := display_geometry in
  let generate_error :=
    negb (bool_decide (last_generate_result_ u = GenerateResult.kOk))
    && negb (bool_decide (last_generate_result_ u = GenerateResult.kNotSynced))
    && negb (bool_decide (last_generate_result_ u = GenerateResult.kTimeStale)) in
  (if code_on_screen u ready then reveal_validity_draws u
   else draw_line
     (if generate_error then str "OTP unavailable"
      else decimal (Z.of_nat (selected_index_ u) + 1) ++ str " / " ++ decimal (Z.of_nat (length (credentials_ u))))
     (tertiary_line_y geometry))
  ++ account_label_draws u
  ++ (if code_on_screen u ready then draw_otp (revealed_code_ u) (otp_y geometry)
      else draw_line (str "click: 1x next") (help_first_y geometry)
           ++ draw_line (str "2x prev / hold OTP") (help_second_y geometry)).

Definition frame (u : CanonicalUiController) (ready : Readiness) (presence : PresenceView) : list draw :=
  let geometry := display_geometry in
  [DClear] ++ draw_title_band geometry ++
  (if active presence then request_draws presence
   else
     draw_semantic_line (str "State: ") (runtime_state_text (runtime_state_ u))
       (runtime_state_color (runtime_state_ u)) (primary_line_y geometry)
     ++ draw_semantic_line (str "Time: ") (readiness_text ready) (readiness_color ready)
          (secondary_line_y geometry)
     ++ (if storage_error_ u then draw_line (str "Vault unavailable") (tertiary_line_y geometry)
         else if negb (vault_visible_ u) then draw_line (str "Open Web app") (tertiary_line_y geometry)
         else if Nat.eqb (length (credentials_ u)) 0 then
           draw_line (str "No accounts") (tertiary_line_y geometry)
         else account_draws u ready)).

Definition render : ui_op unit := fn (
  time_status ← call (on_clock time_status);
  s ← get_state;
  call (draws (frame (controller s) (readiness time_status) (presence_view (ui_presence s))))).

Definition render_account_label : ui_op unit := λ s, draws (account_label_draws (controller s)) s.
Definition render_reveal_validity : ui_op unit := λ s, draws (reveal_validity_draws (controller s)) s.
Definition render_reveal_region : ui_op unit := λ s, draws (reveal_region_draws (controller s)) s.

(** Called by the protocol after an operation that destroys the key. *)
Definition security_boundary_clear : ui_op unit := fn (
  s ← get_state;
  (match runtime_metadata (ui_runtime s) with
   | Some m =>
     modify (on_ui (λ u, u <| runtime_state_ := m_state m |>
       <| storage_error_ := State.eqb (m_state m) State.kError |>))
   | None => modify (on_ui (λ u, u <| runtime_state_ := State.kError |> <| storage_error_ := true |>))
   end);;
  call clear_private_view;;
  modify (set_generate_result GenerateResult.kOk);;
  call render).

(** ** The loop of the task *)

(** The local variables of [run] that live from one pass to the next. *)
Record UiLoop := mkLoop {
  previous_readiness : Readiness;
  previous_presence : PresenceView;
  last_refresh_ms : Z;
}.

(** What a pass has seen and has to draw. *)
Record Pass := mkPass {
  now_ms : Z;
  current_presence : PresenceView;
  presence_changed : bool;
  dirty : bool;
}.

Definition run_start : ui_op UiLoop := fn (
  time_status ← call (on_clock time_status);
  s ← get_state;
  let presence := presence_view (ui_presence s) in
  last_refresh_ms ← call monotonic_ms;
  call (refresh_credentials true);;
  call (reset_label_scroll last_refresh_ms);;
  call render;;
  mret (mkLoop (readiness time_status) presence last_refresh_ms)).

(** The part of a pass before the controller's mutex is taken. *)
Definition presence_pass (button : Button) (loop : UiLoop) : ui_op (Pass * UiLoop) := fn (
  now ← call monotonic_ms;
  expired ← call (on_presence (presence_expire now));
  s ← get_state;
  let current := presence_view (ui_presence s) in
  let changed := negb (same_presence current (previous_presence loop)) in
  let dirty := expired || changed in
  (if active current
   then modify (λ s, s <| ui_presence := observe_button_state (isPressed button) (ui_presence s) |>)
   else mret tt);;
  x ← (if active current && wasPressed button then
         confirmed ← call (on_presence (button_pressed now));
         (if confirmed
          then modify (on_ui (λ u, u <| presence_gesture_quarantine_ :=
                 quarantine_begin now (getHoldThresh button) (presence_gesture_quarantine_ u) |>))
          else mret tt);;
         s ← get_state;
         let after := presence_view (ui_presence s) in
         mret (after, changed || negb (same_presence after current), confirmed || dirty)
       else mret (current, changed, dirty));
  let '(current, changed, dirty) := x in
  modify (on_ui (λ u, u <| presence_gesture_quarantine_ :=
    quarantine_observe (isPressed button) (wasDecideClickCount button) now (presence_gesture_quarantine_ u) |>));;
  mret (mkPass now current changed dirty, mkLoop (previous_readiness loop) current (last_refresh_ms loop))).

(** Whether the clock's readiness changed; the state of the runtime. *)
Definition observe_clock (pass : Pass) (loop : UiLoop) : ui_op (Readiness * bool) := fn (
  time_status ← call (on_clock time_status);
  let ready := readiness time_status in
  leave_if (bool_decide (ready = previous_readiness loop)) (ready, false);;
  call (reset_label_scroll (now_ms pass));;
  mret (ready, true)).

Definition observed_state (r : Runtime P) : State.t :=
  match runtime_metadata r with Some m => m_state m | None => State.kError end.

Definition observe_runtime (pass : Pass) : ui_op (State.t * bool) := fn (
  s ← get_state;
  let observed := observed_state (ui_runtime s) in
  changed ← (if negb (State.eqb observed (runtime_state_ (controller s))) then
               modify (on_ui (λ u, u <| runtime_state_ := observed |>));;
               call (reset_label_scroll (now_ms pass));;
               mret true
             else mret false);
  s ← get_state;
  cleared ← (if negb (State.eqb observed State.kUnlocked) && vault_visible_ (controller s)
             then call clear_private_view else mret false);
  mret (observed, cleared || changed)).

(** The end of a reveal that may not go on. *)
Definition end_reveal (pass : Pass) (ready : Readiness) (observed : State.t) : ui_op bool := fn (
  s ← get_state;
  let u := controller s in
  if reveal_active_ u
     && (negb (bool_decide (ready = kReady)) || (now_ms pass >=? reveal_deadline_ms_ u)
         || negb (State.eqb observed State.kUnlocked))
  then call hide_reveal;; mret true else mret false).

(** The countdown of a reveal: whether everything, the code's bands or only the
    countdown has to be drawn. *)
Definition follow_reveal : ui_op (bool * bool * bool) := fn (
  s ← get_state;
  leave_if (negb (reveal_active_ (controller s))) (false, false, false);;
  now ← call (on_clock service_unix_seconds);
  match now with
  | None =>
    modify (set_generate_result GenerateResult.kTimeStale);;
    call hide_reveal;;
    leave (true, false, false)
  | Some current_unix_seconds =>
    let current_validity := from_unix_seconds current_unix_seconds in
    if negb (period_index current_validity =? revealed_period_index_ (controller s)) then
      shown ← call refresh_revealed_totp;
      leave_if shown (false, true, false);;
      call hide_reveal;;
      leave (true, false, false)
    else if negb (seconds_remaining current_validity =? validity_seconds_remaining_ (controller s)) then
      modify (on_ui (λ u, u <| validity_seconds_remaining_ := seconds_remaining current_validity |>));;
      leave (false, false, true)
    else leave (false, false, false)
  end).

Definition handle_gesture (button : Button) (pass : Pass) : ui_op bool := fn (
  s ← get_state;
  leave_if (active (current_presence pass)
            || quarantine_active_ (presence_gesture_quarantine_ (controller s))) false;;
  if wasHold button then call (reveal_selected (now_ms pass));; mret true
  else if wasDoubleClicked button then call select_previous;; mret true
  else if wasSingleClicked button then
    call (if reveal_active_ (controller s) then hide_reveal else select_next);; mret true
  else mret false).

Definition refresh_if_due (observed : State.t) (pass : Pass) (loop : UiLoop) : ui_op (bool * UiLoop) := fn (
  if State.eqb observed State.kUnlocked && negb (active (current_presence pass))
     && ((now_ms pass - last_refresh_ms loop) mod 2 ^ 64 >=? kCredentialRefreshIntervalMs)
  then
    changed ← call (refresh_credentials false);
    mret (changed, mkLoop (previous_readiness loop) (previous_presence loop) (now_ms pass))
  else mret (false, loop)).

(** The whole screen, or the bands that changed. *)
Definition draw_pass (dirty rollover_changed validity_changed label_scroll_changed : bool) : ui_op unit :=
  if dirty then render
  else if rollover_changed then render_reveal_region
  else if validity_changed then render_reveal_validity
  else if label_scroll_changed then render_account_label
  else no_change tt.

(** The part of a pass under the controller's mutex. *)
Definition view_pass (button : Button) (pass : Pass) (loop : UiLoop) : ui_op UiLoop := fn (
  call (if presence_changed pass then reset_label_scroll (now_ms pass) else no_change tt);;
  x ← call (observe_clock pass loop);
  let '(ready, clock_dirty) := x in
  let loop := mkLoop ready (previous_presence loop) (last_refresh_ms loop) in
  x ← call (observe_runtime pass);
  let '(observed, state_dirty) := x in
  reveal_dirty ← call (end_reveal pass ready observed);
  x ← call follow_reveal;
  let '(follow_dirty, rollover_changed, validity_changed) := x in
  gesture_dirty ← call (handle_gesture button pass);
  x ← call (refresh_if_due observed pass loop);
  let '(refresh_dirty, loop) := x in
  label_scroll_changed ←
    call (if negb (active (current_presence pass)) && State.eqb observed State.kUnlocked
          then update_label_scroll (now_ms pass) else no_change false);
  call (draw_pass
    (dirty pass || clock_dirty || state_dirty || reveal_dirty || follow_dirty || gesture_dirty || refresh_dirty)
    rollover_changed validity_changed label_scroll_changed);;
  mret loop).

(** One pass, when no other task runs in the middle of it. *)
Definition run_pass (button : Button) (loop : UiLoop) : ui_op UiLoop := fn (
  x ← call (presence_pass button loop);
  let '(pass, loop) := x in
  call (view_pass button pass loop)).
End Ui.
