(* ===== verification/UiCorrect.v ===== *)
(** * Correctness of the user interface

    What the screen may show.  The controller's invariant ties the code on the
    screen to the account and the period shown with it; passes and interruptions
    by other tasks keep it.  A pass with the Vault not unlocked, and the security
    boundary, leave nothing private; a code goes at its deadline; and a screen
    that must not show accounts does not depend on them. *)

From S2P Require Import Prelude Bytes Json VaultFormat VaultCrypto Persistence Runtime RuntimeCorrect.
From S2P Require Import DeviceSession UserPresence Attempt TrustedTime TimeService TimeServiceCorrect.
From S2P Require Import Base32 Hmac Totp TotpCorrect LabelScroll Display Ui.

(** The controller with the code hidden, and with nothing private. *)
Definition hidden (u : CanonicalUiController) : CanonicalUiController :=
  u <| revealed_code_ := 0 |> <| reveal_deadline_ms_ := 0 |> <| revealed_period_index_ := 0 |>
    <| validity_seconds_remaining_ := 0 |> <| reveal_active_ := false |>.
Definition cleared (u : CanonicalUiController) : CanonicalUiController :=
  hidden u <| credentials_ := [] |> <| selected_index_ := 0%nat |> <| visible_generation_ := 0 |>
    <| vault_visible_ := false |>.
Definition scrolled (epoch offset : Z) (u : CanonicalUiController) : CanonicalUiController :=
  u <| label_scroll_epoch_ms_ := epoch |> <| label_scroll_offset_px_ := offset |>.

Section Steps.
Context `{MbedtlsGcm} `{MbedtlsHmac} `{M5Display} {P N : Type} `{Persistence P} `{EspNetwork N}.
Implicit Types (s : UiSystem P N).

(** Only the controller and the clocks may differ; only the clocks. *)
Definition same_world s s' : Prop :=
  ui_runtime s' = ui_runtime s ∧ ui_presence s' = ui_presence s ∧ lcd_ s' = lcd_ s ∧
  clock_ (ui_time s') = clock_ (ui_time s).
Definition only_time s s' : Prop := controller s' = controller s ∧ same_world s s'.

Lemma same_world_trans s1 s2 s3 : same_world s1 s2 → same_world s2 s3 → same_world s1 s3.
Proof. unfold same_world. intros (?&?&?&?) (?&?&?&?). split_and!; congruence. Qed.

Lemma clock_op_inv {A} (f : service_op A) s a s' :
  on_clock f s = (a, s') → s' = s <| ui_time := ui_time s' |> ∧ f (ui_time s) = (a, ui_time s').
Proof. unfold on_clock. destruct (f (ui_time s)). by intros [= <- <-]. Qed.

Lemma monotonic_spec s now s' : monotonic_ms s = (now, s') → only_time s s'.
Proof.
  intros E. unfold monotonic_ms in E. exec E. apply clock_op_inv in Ef as [Hs Ef].
  apply on_net_only in Ef. rewrite Hs. split; [done|]. split_and!; try done. cbn. by rewrite Ef.
Qed.

Lemma time_status_ui s x s' :
  on_clock time_status s = (x, s') →
  only_time s s' ∧ ∃ now, x = clock_snapshot now (clock_ (ui_time s)).
Proof.
  intros [Hs E]%clock_op_inv. apply status_inv in E as [Hn Hx]. split; [|done].
  rewrite Hs. split; [done|]. split_and!; try done. cbn. by rewrite Hn.
Qed.

Lemma unix_seconds_ui s x s' :
  on_clock service_unix_seconds s = (x, s') →
  only_time s s' ∧ ∃ now, x = current_unix_seconds now (clock_ (ui_time s)).
Proof.
  intros [Hs E]%clock_op_inv. apply reading_inv in E as [Hn Hx]. split; [|done].
  rewrite Hs. split; [done|]. split_and!; try done. cbn. by rewrite Hn.
Qed.

Lemma hide_spec s x s' : hide_reveal s = (x, s') →
  same_world s s' ∧ ∃ now, controller s' = scrolled now 0 (hidden (controller s)).
Proof.
  intros E. unfold hide_reveal in E. exec E. apply monotonic_spec in Ef as [Hc Hw].
  injection E as <- <-. split; [exact Hw|]. exists a. cbn. by rewrite Hc.
Qed.

Lemma clear_spec s b s' : clear_private_view s = (b, s') →
  same_world s s' ∧ ∃ now, controller s' = scrolled now 0 (cleared (controller s)).
Proof.
  intros E. unfold clear_private_view in E. exec E.
  apply hide_spec in Ef as (Hw & now & Hc). apply monotonic_spec in Ef0 as [Hc1 Hw1].
  injection Ef1 as <- <-. split; [by eapply same_world_trans|]. exists a0. cbn in Hc1 |- *. by rewrite Hc1, Hc.
Qed.

Lemma vault_op_inv {A} (f : op A) s a s' :
  in_vault f s = (a, s') → f (ui_runtime s) = (a, ui_runtime s') ∧ s' = s <| ui_runtime := ui_runtime s' |>.
Proof. unfold in_vault. destruct (f (ui_runtime s)). by intros [= <- <-]. Qed.

(** ** The invariant *)

(** [u] shows accounts of a Vault that a reachable runtime holds unlocked. *)
Definition from_vault (v : VaultPlaintext) : Prop :=
  ∃ r : Runtime P, reachable r ∧ unlocked r = true ∧ read_vault r = inl v.
Definition accounts_of_vault (u : CanonicalUiController) : Prop :=
  ∃ v, from_vault v ∧ credentials_ u ≡ₚ (credential_view ∘ metadata_of <$> credentials v).

(** The code on the screen is that of the selected account for the period on the
    screen, and the countdown is one of its thirty seconds. *)
Definition code_of_selected (u : CanonicalUiController) : Prop :=
  ∃ shown v credential,
    selected u = Some shown ∧ from_vault v ∧ credential ∈ credentials v ∧
    credential_id credential = cv_credential_id shown ∧ displayable credential ∧
    revealed_code_ u = totp_reference (secret credential) (30 * revealed_period_index_ u) ∧
    1 ≤ validity_seconds_remaining_ u ≤ 30.

Record view_ok (u : CanonicalUiController) : Prop := {
  view_invisible : vault_visible_ u = false → credentials_ u = [];
  view_selection : credentials_ u = [] ∨ (selected_index_ u < length (credentials_ u))%nat;
  view_hidden : reveal_active_ u = false → u = hidden u;
  view_accounts : vault_visible_ u = true → accounts_of_vault u;
  view_code : reveal_active_ u = true → vault_visible_ u = true ∧ code_of_selected u;
}.

(** What the invariant is about. *)
Definition same_private (u u' : CanonicalUiController) : Prop :=
  credentials_ u' = credentials_ u ∧ selected_index_ u' = selected_index_ u ∧
  visible_generation_ u' = visible_generation_ u ∧ vault_visible_ u' = vault_visible_ u ∧
  reveal_active_ u' = reveal_active_ u ∧ revealed_code_ u' = revealed_code_ u ∧
  reveal_deadline_ms_ u' = reveal_deadline_ms_ u ∧ revealed_period_index_ u' = revealed_period_index_ u ∧
  validity_seconds_remaining_ u' = validity_seconds_remaining_ u.

Lemma hidden_fields u : u = hidden u ↔
  revealed_code_ u = 0 ∧ reveal_deadline_ms_ u = 0 ∧ revealed_period_index_ u = 0 ∧
  validity_seconds_remaining_ u = 0 ∧ reveal_active_ u = false.
Proof.
  destruct u. cbn. split; [intros E; by inversion E|]. intros (-> & -> & -> & -> & ->). done.
Qed.

Lemma view_same u u' : same_private u u' → view_ok u → view_ok u'.
Proof.
  intros (Hc & Hs & _ & Hv & Ha & Hcode & Hd & Hp & Hr) [I1 I2 I3 I4 I5].
  rewrite hidden_fields in I3. split; rewrite ?hidden_fields, ?Hc, ?Hs, ?Hv, ?Ha, ?Hcode, ?Hd, ?Hp, ?Hr; auto.
  - intros Hx. destruct (I4 Hx) as (v & Hf & Hl). exists v. by rewrite Hc.
  - intros Hx. destruct (I5 Hx) as (? & shown & v & c & Hsel & ?). split; [done|]. exists shown, v, c.
    unfold selected in *. by rewrite Hc, Hs, Hcode, Hp, Hr.
Qed.

Lemma view_cleared u : view_ok (cleared u).
Proof. split; try done. by left. Qed.
Lemma view_hidden_ok u : view_ok u → view_ok (hidden u).
Proof. intros [I1 I2 I3 I4 I5]. by split. Qed.
Lemma private_scrolled e o u : same_private u (scrolled e o u).
Proof. done. Qed.
Lemma private_refl u : same_private u u.
Proof. done. Qed.
Lemma private_trans u1 u2 u3 : same_private u1 u2 → same_private u2 u3 → same_private u1 u3.
Proof. unfold same_private. intros. destruct_and!. split_and!; congruence. Qed.

Definition ui_ok s : Prop := reachable (ui_runtime s) ∧ view_ok (controller s).

Lemma ok_same s s' : ui_runtime s' = ui_runtime s → same_private (controller s) (controller s') → ui_ok s → ui_ok s'.
Proof. intros Hr Hp [Hre Hv]. split; [by rewrite Hr|by eapply view_same]. Qed.

Lemma only_time_ok s s' : only_time s s' → ui_ok s → ui_ok s'.
Proof. intros [Hc (Hr & _)]. apply ok_same; [done|]. by rewrite Hc. Qed.

Lemma hide_ok s x s' : hide_reveal s = (x, s') → ui_ok s → ui_ok s'.
Proof.
  intros ((Hr & _) & now & Hc)%hide_spec [Hre Hv]. split; [by rewrite Hr|].
  rewrite Hc. eapply view_same; [apply private_scrolled|by apply view_hidden_ok].
Qed.

Lemma clear_ok s b s' : clear_private_view s = (b, s') → ui_ok s → ui_ok s'.
Proof.
  intros ((Hr & _) & now & Hc)%clear_spec [Hre Hv]. split; [by rewrite Hr|].
  rewrite Hc. eapply view_same; [apply private_scrolled|apply view_cleared].
Qed.

Lemma storage_changed_spec previous s x s' : storage_error_changed previous s = (x, s') →
  same_world s s' ∧ same_private (controller s) (controller s') ∧
  storage_error_ (controller s') = storage_error_ (controller s).
Proof.
  intros E. unfold storage_error_changed in E. exec E. apply monotonic_spec in Ef as [Hc Hw].
  split; [done|]. cbn. rewrite Hc. by destruct (on_screen_hidden_changed _ _ _ _).
Qed.

(** ** The list of accounts *)

Lemma read_vault_failure (r : Runtime P) st : read_vault r = inr st → st ≠ kOk.
Proof. unfold read_vault. intros E. repeat case_match; simplify_eq; done. Qed.

Lemma list_inv (r : Runtime P) items r' :
  list_credentials r = ((kOk, items), r') →
  r' = r ∧ ∃ v, unlocked r = true ∧ read_vault r = inl v ∧
    items = stable_sort_by cm_manual_order (metadata_of <$> credentials v).
Proof.
  intros E. unfold list_credentials in E. exec E; simplify_eq/=.
  - split; [done|]. exists v. split_and!; [|done|done].
    unfold unlocked, not_unlocked in *. by bools.
  - by apply read_vault_failure in Em.
Qed.

(** The controller with a new list. *)
Definition listing (next : list CredentialView) (preferred : option bytes) (generation : Z)
    (u : CanonicalUiController) : CanonicalUiController :=
  cleared u <| credentials_ := next |> <| selected_index_ := preferred_index preferred next |>
    <| visible_generation_ := generation |> <| vault_visible_ := true |>.

Lemma preferred_in_range preferred next :
  next = [] ∧ preferred_index preferred next = 0%nat ∨ (preferred_index preferred next < length next)%nat.
Proof.
  destruct next as [|c next]; [left; by destruct preferred|right]. unfold preferred_index.
  destruct preferred as [id|]; [|cbn; lia].
  destruct (list_find _ _) as [[i x]|] eqn:E; [|cbn; lia].
  apply list_find_Some in E as (E & _). cbn. by apply lookup_lt_Some in E.
Qed.

(** The credential a refresh wants to stay on. *)
Definition preferred_credential (u : CanonicalUiController) (m : Metadata) : option bytes :=
  match vault_visible_ u, selected u with
  | true, Some c => Some (cv_credential_id c)
  | _, _ => m_last_used m
  end.

Lemma index_of_list preferred next :
  (if Nat.eqb (length next) 0 then 0%nat else preferred_index preferred next) = preferred_index preferred next.
Proof. destruct next; [by destruct preferred|done]. Qed.

(** What a refresh of the list leaves, by cases: nothing private, the view as it
    was, or the accounts of the Vault. *)
Inductive refreshed (force : bool) s s' : Prop :=
  | refreshed_cleared :
      same_private (cleared (controller s)) (controller s') →
      observed_state (ui_runtime s) ≠ State.kUnlocked ∧ ui_runtime s' = ui_runtime s ∨
        observed_state (ui_runtime s) = State.kUnlocked ∧
        (∃ st l, st ≠ kOk ∧ list_credentials (ui_runtime s) = ((st, l), ui_runtime s')) →
      refreshed force s s'
  | refreshed_kept :
      same_private (controller s) (controller s') → ui_runtime s' = ui_runtime s →
      force = false → vault_visible_ (controller s) = true →
      observed_state (ui_runtime s) = State.kUnlocked → refreshed force s s'
  | refreshed_listed m v :
      runtime_metadata (ui_runtime s) = Some m → m_state m = State.kUnlocked →
      ui_runtime s' = ui_runtime s → unlocked (ui_runtime s) = true → read_vault (ui_runtime s) = inl v →
      same_private
        (listing (credential_view <$> stable_sort_by cm_manual_order (metadata_of <$> credentials v))
           (preferred_credential (controller s) m) (m_generation m) (controller s)) (controller s') →
      storage_error_ (controller s') = false →
      refreshed force s s'.

Lemma observed_metadata (r : Runtime P) m : runtime_metadata r = Some m → observed_state r = m_state m.
Proof. unfold observed_state. by intros ->. Qed.

Definition same_outside s s' : Prop :=
  ui_presence s' = ui_presence s ∧ lcd_ s' = lcd_ s ∧ clock_ (ui_time s') = clock_ (ui_time s).

Lemma cleared_again s u u' s' : clear_private_view s = (u, s') → controller s = u' →
  ui_runtime s' = ui_runtime s ∧ same_outside s s' ∧ same_private (cleared u') (controller s').
Proof. by intros ((Hr & Hp & Hl & Hc) & now & Hu)%clear_spec <-; rewrite Hu. Qed.

Lemma refresh_spec force s b s' : refresh_credentials force s = (b, s') →
  refreshed force s s' ∧ same_outside s s'.
Proof.
  intros E. unfold refresh_credentials in E. exec E.
  - destruct (cleared_again _ _ _ _ Ef eq_refl) as (Hr & Ho & Hp).
    split; [|exact Ho]. apply refreshed_cleared; [exact Hp|left; split; [|exact Hr]].
    rewrite (observed_metadata _ m) by done. by bools.
  - bools. split; [|done]. apply refreshed_kept; try done. by rewrite (observed_metadata _ m).
  - bools. destruct (storage_changed_spec _ _ _ _ Ef) as ((Hr & Hp & Hl & Hc) & Hs & _).
    split; [|done]. apply refreshed_kept; try done. by rewrite (observed_metadata _ m).
  - apply vault_op_inv in Ef as [Ef Hs]. bools.
    destruct (cleared_again _ _ _ _ Ef0 eq_refl) as (Hr & Ho & Hp). rewrite Hs in Ho, Hp.
    split; [|exact Ho]. apply refreshed_cleared; [exact Hp|right].
    split; [by rewrite (observed_metadata _ m)|]. cbn. rewrite Hr. eauto.
  - apply vault_op_inv in Ef as [Ef Hs]. bools. subst.
    destruct (cleared_again _ _ _ _ Ef0 eq_refl) as (Hr & Ho & Hp).
    apply monotonic_spec in Ef1 as [Hc1 (Hr1 & Hp1 & Hl1 & Hk1)]. injection Ef2 as <- <-.
    apply list_inv in Ef as (Hrun & v & Hu & Hv & ->). cbn in Hrun, Hu, Hv. rewrite Hrun in Hs.
    set (next := credential_view <$> _) in *. rewrite index_of_list in *.
    destruct Ho as (Hop & Hol & Hoc). rewrite Hs in Hr, Hop, Hol, Hoc, Hp. cbn in Hr, Hop, Hol, Hoc.
    split; [|split_and!; cbn in *; congruence].
    eapply refreshed_listed; [exact Em|exact Eb|cbn in *; congruence|exact Hu|exact Hv| |].
    + cbn in Hc1 |- *. rewrite Hc1. split_and!; try done; by apply Hp.
    + cbn in Hc1 |- *. by rewrite Hc1.
  - destruct (cleared_again _ _ _ _ Ef eq_refl) as (Hr & Ho & Hp).
    split; [|exact Ho]. apply refreshed_cleared; [exact Hp|left; split; [|exact Hr]].
    unfold observed_state. by rewrite Em.
Qed.

Lemma refresh_ok force s b s' : refresh_credentials force s = (b, s') → ui_ok s → ui_ok s'.
Proof.
  intros [Hc _]%refresh_spec [Hre Hv].
  destruct Hc as [Hp Hr|Hp Hr _ _ _|m v _ _ Hr Hu Hrv Hp _].
  - split; [|eapply view_same, view_cleared; exact Hp].
    destruct Hr as [[_ ->]|(_ & st & l & _ & Hx)]; [done|]. eapply reachable_step; [done|by eapply step_list].
  - by eapply ok_same.
  - split; [by rewrite Hr|]. eapply view_same; [exact Hp|]. set (next := credential_view <$> _).
    assert (Hl : accounts_of_vault (listing next (preferred_credential (controller s) m) (m_generation m) (controller s))).
    { exists v. split; [by exists (ui_runtime s)|]. cbn. unfold next.
      by rewrite stable_sort_perm, list_fmap_compose. }
    split; try done. destruct (preferred_in_range (preferred_credential (controller s) m) next) as [[? _]|?];
      [by left|by right].
Qed.

(** ** Selection *)

Lemma nothing_selected_spec u : nothing_selected u = false → vault_visible_ u = true ∧ ∃ c, selected u = Some c.
Proof.
  unfold nothing_selected, selected. rewrite !orb_false_iff, negb_false_iff. intros [[Hv _] Hi].
  split; [done|]. apply Nat.leb_gt, lookup_lt_is_Some in Hi. by destruct Hi as [c ?]; exists c.
Qed.

Lemma persist_spec s b s' : persist_selection s = (b, s') → reachable (ui_runtime s) →
  reachable (ui_runtime s') ∧ same_outside s s' ∧ same_private (controller s) (controller s').
Proof.
  intros E Hre. unfold persist_selection in E. exec E; try done.
  apply vault_op_inv in Ef as [Ef Hs]. apply storage_changed_spec in Ef0 as ((Hr & Hp & Hl & Hc) & Hsp & _).
  rewrite Hs in *. cbn in Hr, Hp, Hl, Hc. split; [|done]. rewrite Hr.
  eapply reachable_step; [done|]. by eapply step_last_used.
Qed.

Lemma select_spec index s x s' : select index s = (x, s') → reachable (ui_runtime s) →
  reachable (ui_runtime s') ∧ same_outside s s' ∧
  (credentials_ (controller s) = [] ∧ s' = s ∨
   credentials_ (controller s) ≠ [] ∧
   same_private (hidden (controller s) <| selected_index_ :=
     index (selected_index_ (controller s)) (length (credentials_ (controller s))) |>) (controller s')).
Proof.
  intros E Hre. unfold select in E. exec E.
  - split_and!; try done. left. split; [|done]. apply Nat.eqb_eq in Ec. by apply nil_length_inv.
  - apply hide_spec in Ef as ((Hr & Hp & Hl & Hc) & now & Hu).
    apply monotonic_spec in Ef0 as [Hu1 (Hr1 & Hp1 & Hl1 & Hc1)]. cbn in *.
    injection Ef1 as _ <-. apply persist_spec in Ef2 as (Hre' & (Hp2 & Hl2 & Hc2) & Hpr); [|cbn; congruence].
    cbn in *. split; [done|]. split; [split_and!; congruence|right].
    split. { intros Hx. by rewrite Hx in Ec. }
    eapply private_trans; [|exact Hpr]. rewrite Hu1, Hu. done.
Qed.

Lemma select_ok index s x s' :
  (∀ i n, (0 < n → i < n → index i n < n)%nat) → select index s = (x, s') → ui_ok s → ui_ok s'.
Proof.
  intros Hi E [Hre Hv]. apply select_spec in E as (Hre' & _ & [[_ ->]|[Hne Hp]]); [done| |done].
  split; [done|]. eapply view_same; [exact Hp|]. destruct Hv as [I1 I2 I3 I4 I5]. split; try done.
  right. cbn. destruct I2 as [|I2]; [done|]. apply Hi; [|done]. by destruct (credentials_ _); [|cbn; lia].
Qed.

(** ** Codes *)

Lemma unix_period unix : period_index (from_unix_seconds unix) = unix / 30.
Proof. done. Qed.

Lemma reference_of_period `{MbedtlsHmac} key unix : totp_reference key unix = totp_reference key (30 * (unix / 30)).
Proof. unfold totp_reference. do 4 f_equal. lia. Qed.

(** The time service's clock gives 64-bit times. *)
Lemma unix_nonnegative c now t : clock_ok c → current_unix_seconds now c = Some t → 0 ≤ t.
Proof.
  unfold current_unix_seconds. intros Hc E. destruct (synchronized_ c); [|done]. cbn in E.
  destruct ((_ <? 0) || _); [done|]. apply project_spec in E; [|done]. unfold clock_ok, is_u64 in Hc. unfold kMicroseconds in *. lia.
Qed.

(** The two runtimes hold the same Vault unlocked, or none. *)
Definition same_vault (r r' : Runtime P) : Prop := unlocked r' = unlocked r ∧ read_vault r' = read_vault r.

Lemma same_vault_refl r : same_vault r r.
Proof. done. Qed.
Lemma same_vault_trans r1 r2 r3 : same_vault r1 r2 → same_vault r2 r3 → same_vault r1 r3.
Proof. intros [] []. split; congruence. Qed.
Lemma same_vault_marks r p l : same_vault r (r <| persistence_ := p |> <| last_used_ := l |>).
Proof. done. Qed.

(** [code] is the code, for the period [period] in which the clock [c] is, of the
    account [id] of the Vault that [r] holds unlocked. *)
Definition current_code (r : Runtime P) (c : TrustedClock) (id : bytes) (code period : Z) : Prop :=
  ∃ v credential now unix,
    unlocked r = true ∧ read_vault r = inl v ∧ credential ∈ credentials v ∧ credential_id credential = id ∧
    displayable credential ∧ current_unix_seconds now c = Some unix ∧ period = unix / 30 ∧
    code = totp_reference (secret credential) (30 * period).

Lemma current_code_same r r' c id code period :
  same_vault r r' → current_code r' c id code period → current_code r c id code period.
Proof. intros [Hu Hv]. unfold current_code. by rewrite Hu, Hv. Qed.
Lemma current_code_vault r c id code period : reachable r → current_code r c id code period →
  ∃ v credential, from_vault v ∧ credential ∈ credentials v ∧ credential_id credential = id ∧
    displayable credential ∧ code = totp_reference (secret credential) (30 * period).
Proof.
  intros Hr (v & credential & now & unix & Hu & Hv & Hin & Hid & Hd & _ & _ & Hcode).
  exists v, credential. split; [by exists r|]. done.
Qed.

(** A code of the account [id], set with its period and countdown. *)
Definition code_set (r : Runtime P) (c : TrustedClock) (id : bytes) (u u' : CanonicalUiController) : Prop :=
  ∃ code period seconds, current_code r c id code period ∧ 1 ≤ seconds ≤ 30 ∧
    same_private (u <| revealed_code_ := code |> <| revealed_period_index_ := period |>
      <| validity_seconds_remaining_ := seconds |>) u'.

Context `{!HmacLaws}.
Lemma attempts_spec n id s b s' : refresh_attempts n id s = (b, s') →
  reachable (ui_runtime s) → clock_ok (clock_ (ui_time s)) →
  reachable (ui_runtime s') ∧ same_vault (ui_runtime s) (ui_runtime s') ∧ same_outside s s' ∧
  if b then code_set (ui_runtime s) (clock_ (ui_time s)) id (controller s) (controller s')
  else same_private (controller s) (controller s').
Proof.
  revert s b s'. induction n as [|n IH]; intros s b s' E Hre Hclk; cbn [refresh_attempts] in E; exec E; [done|..].
  all: unfold in_generator in Ef;
    destruct (generate_for_credential id (ui_runtime s, ui_time s)) as [x1 [r1 t1]] eqn:Eg; injection Ef as -> <-.
  all: assert (Hre' := generate_reachable _ (ui_runtime s, ui_time s) _ _ Hre Eg); cbn in Hre'.
  all: destruct (generate_spec _ (ui_runtime s, ui_time s) _ _ _ Hre Eg) as (Hn & Hmarks & Hok & Hg); cbn in Hn, Hmarks, Hok, Hg.
  all: assert (Hsv : same_vault (ui_runtime s) r1) by (rewrite Hmarks; apply same_vault_marks).
  all: assert (Hck : clock_ t1 = clock_ (ui_time s)) by (by rewrite Hn).
  { split_and!; done. }
  all: apply unix_seconds_ui in Ef0 as ((Hc & Hr & Hp & Hl & Hk) & now & Hnow); cbn in Hc, Hr, Hp, Hl, Hk.
  - apply IH in E as (Hr' & Hsv' & (Hp' & Hl' & Hk') & Hb); [|by rewrite Hr|by rewrite Hk, Hck].
    rewrite Hr in Hsv'. split; [done|]. split; [by eapply same_vault_trans|]. split; [split_and!; congruence|].
    rewrite Hc in Hb. destruct b; [|done]. destruct Hb as (code & period & seconds & Hcode & Hx).
    exists code, period, seconds. split; [|done]. rewrite Hr, Hk, Hck in Hcode. by eapply current_code_same.
  - cbn. rewrite Hr. split; [done|]. split; [done|]. split; [split_and!; cbn; congruence|].
    bools. subst t. destruct (Hok eq_refl) as [Hcode _].
    destruct Hg as [->|(v & credential & now' & unix & Hu & Hv & Hin & Hid & Hd & Hunix & ->)]; [done|].
    assert (Hz : 0 ≤ z).
    { eapply unix_nonnegative; [|symmetry; exact Hnow]. cbn. by rewrite Hck. }
    unfold same_period in *. bools. rewrite !unix_period in *. cbn in *. rewrite Hck in Hnow.
    exists (totp_reference (secret credential) unix), (z / 30), (seconds_remaining (from_unix_seconds z)).
    split; [|split].
    + exists v, credential, now, z. split_and!; try done. rewrite reference_of_period. do 2 f_equal. lia.
    + by split; apply validity_bounds.
    + by rewrite Hc.
  - cbn. rewrite Hr. split; [done|]. split; [done|]. split; [split_and!; cbn; congruence|]. by rewrite Hc.
Qed.

(** [refresh_revealed_totp] leaves the code of the selected account, or fails
    and leaves everything private as it was. *)
Lemma revealed_spec s b s' : refresh_revealed_totp s = (b, s') →
  reachable (ui_runtime s) → clock_ok (clock_ (ui_time s)) →
  reachable (ui_runtime s') ∧ same_vault (ui_runtime s) (ui_runtime s') ∧ same_outside s s' ∧
  if b then vault_visible_ (controller s) = true ∧
            ∃ shown, selected (controller s) = Some shown ∧
              code_set (ui_runtime s) (clock_ (ui_time s)) (cv_credential_id shown) (controller s) (controller s')
  else same_private (controller s) (controller s').
Proof.
  intros E Hre Hclk. unfold refresh_revealed_totp in E. exec E.
  all: try (split_and!; done).
  apply attempts_spec in E as (Hr & Hsv & Ho & Hb); [|done..]. do 3 (split; [done|]).
  destruct b; [|done]. apply nothing_selected_spec in Eb as [Hv _]. split; [done|]. by exists c.
Qed.

(** ** The parts of a pass *)

Definition pass_ok s : Prop := ui_ok s ∧ clock_ok (clock_ (ui_time s)).

(** A code on the screen afterwards was there before, until the same time. *)
Definition keeps_reveal (u u' : CanonicalUiController) : Prop :=
  reveal_active_ u' = true → reveal_active_ u = true ∧ reveal_deadline_ms_ u' = reveal_deadline_ms_ u.
(** It is the same code, too, of the same account. *)
Definition same_code (u u' : CanonicalUiController) : Prop :=
  reveal_active_ u = true ∧ reveal_deadline_ms_ u' = reveal_deadline_ms_ u ∧ revealed_code_ u' = revealed_code_ u ∧
  revealed_period_index_ u' = revealed_period_index_ u ∧ selected u' = selected u.
Definition keeps_code (u u' : CanonicalUiController) : Prop := reveal_active_ u' = true → same_code u u'.

(** The code on the screen is the current one of the selected account. *)
Definition shows_current (r : Runtime P) (c : TrustedClock) (u : CanonicalUiController) : Prop :=
  ∃ shown, selected u = Some shown ∧
    current_code r c (cv_credential_id shown) (revealed_code_ u) (revealed_period_index_ u).

(** What a part of a pass may do, besides. *)
Definition part s s' : Prop :=
  (pass_ok s → pass_ok s') ∧ same_outside s s' ∧
  (vault_visible_ (controller s) = false → vault_visible_ (controller s') = false).

Lemma part_refl s : part s s.
Proof. by split. Qed.
Lemma part_trans s1 s2 s3 : part s1 s2 → part s2 s3 → part s1 s3.
Proof.
  intros (H1' & (?&?&?) & ?) (H2' & (?&?&?) & ?). split; [by auto|]. split; [split_and!; congruence|auto].
Qed.
Lemma keeps_reveal_trans u1 u2 u3 : keeps_reveal u1 u2 → keeps_reveal u2 u3 → keeps_reveal u1 u3.
Proof. unfold keeps_reveal. intros H12 H23 Ha. destruct (H23 Ha) as [Hb ->]. by apply H12. Qed.
Lemma keeps_code_trans u1 u2 u3 : keeps_code u1 u2 → keeps_code u2 u3 → keeps_code u1 u3.
Proof.
  unfold keeps_code, same_code. intros H12 H23 Ha. destruct (H23 Ha) as (Hb & ? & ? & ? & ?).
  destruct (H12 Hb) as (? & ? & ? & ? & ?). split_and!; congruence.
Qed.
Lemma keeps_code_reveal u u' : keeps_code u u' → keeps_reveal u u'.
Proof. intros Hk Ha. by destruct (Hk Ha) as (? & ? & _). Qed.
Lemma code_kept u u' : same_private u u' → keeps_code u u'.
Proof.
  intros (Hc & Hi & _ & _ & Ha & Hcode & Hd & Hp & _) Hx. unfold same_code, selected. split_and!; congruence.
Qed.
Lemma code_gone u u' : reveal_active_ u' = false → keeps_code u u'.
Proof. unfold keeps_code. congruence. Qed.
Lemma keeps_same u u' : same_private u u' → keeps_reveal u u'.
Proof. intros ?%code_kept. by apply keeps_code_reveal. Qed.
Lemma shows_current_kept r r' c u u' :
  same_vault r r' → same_code u u' → shows_current r' c u → shows_current r c u'.
Proof.
  intros Hv (_ & _ & Hcode & Hp & Hs) (shown & Hsel & Hc). exists shown. rewrite Hs, Hcode, Hp.
  split; [done|by eapply current_code_same].
Qed.

(** A part that leaves what is private as it was. *)
Lemma part_same s s' : same_world s s' → same_private (controller s) (controller s') →
  part s s' ∧ keeps_code (controller s) (controller s').
Proof.
  intros (Hr & Hp & Hl & Hc) Hs. split; [|by apply code_kept]. split; [|split; [done|]].
  - intros [Hok Hclk]. split; [by eapply ok_same|by rewrite Hc].
  - destruct Hs as (_ & _ & _ & Hv & _). by rewrite Hv.
Qed.

Lemma reset_part now s x s' : reset_label_scroll now s = (x, s') →
  part s s' ∧ keeps_code (controller s) (controller s').
Proof. intros [= _ <-]. by apply part_same. Qed.

Lemma hide_part s x s' : hide_reveal s = (x, s') → part s s' ∧ reveal_active_ (controller s') = false.
Proof.
  intros E. assert (Hok := hide_ok _ _ _ E). apply hide_spec in E as ((Hr & Hp & Hl & Hc) & now & Hu).
  rewrite Hu. split; [|done]. split; [|split; [done|]].
  - intros [Ho Hclk]. split; [by apply Hok|by rewrite Hc].
  - by rewrite Hu.
Qed.

Lemma clear_part s b s' : clear_private_view s = (b, s') →
  part s s' ∧ reveal_active_ (controller s') = false ∧ vault_visible_ (controller s') = false.
Proof.
  intros E. assert (Hok := clear_ok _ _ _ E). apply clear_spec in E as ((Hr & Hp & Hl & Hc) & now & Hu).
  rewrite Hu. split; [|done]. split; [|split; [done|by rewrite Hu]].
  intros [Ho Hclk]. split; [by apply Hok|by rewrite Hc].
Qed.

Lemma set_result_part result s :
  part s (set_generate_result result s) ∧ keeps_code (controller s) (controller (set_generate_result result s)).
Proof. by apply part_same. Qed.

(** The controller after a new code. *)
Lemma code_set_ok r c u u' shown : reachable r →
  view_ok u → selected u = Some shown → vault_visible_ u = true →
  code_set r c (cv_credential_id shown) u u' →
  view_ok (u' <| reveal_active_ := true |>) ∧ shows_current r c u'.
Proof.
  intros Hr [I1 I2 I3 I4 I5] Hsel Hvis (code & period & seconds & Hcode & Hs & Hp).
  pose proof (current_code_vault _ _ _ _ _ Hr Hcode) as (v & credential & Hf & Hin & Hid & Hd & Heq).
  destruct Hp as (Hc & Hi & _ & Hv & _ & Hcode' & _ & Hper & Hsec). cbn in *. split.
  - split; cbn; rewrite ?Hc, ?Hi, ?Hv, ?Hcode', ?Hper, ?Hsec; try done.
    intros _. split; [done|]. exists shown, v, credential. unfold selected in *. cbn. do 6 (split; [done|]). done.
  - exists shown. unfold selected in *. by rewrite Hc, Hi, Hcode', Hper.
Qed.

Lemma active_eta u : reveal_active_ u = true → u <| reveal_active_ := true |> = u.
Proof. intros Ha. destruct u. cbn in *. by rewrite Ha. Qed.

(** The state after a successful [refresh_revealed_totp]. *)
Lemma revealed_part s b s' : refresh_revealed_totp s = (b, s') → pass_ok s →
  reachable (ui_runtime s') ∧ clock_ok (clock_ (ui_time s')) ∧ same_outside s s' ∧
  vault_visible_ (controller s') = vault_visible_ (controller s) ∧
  reveal_active_ (controller s') = reveal_active_ (controller s) ∧
  reveal_deadline_ms_ (controller s') = reveal_deadline_ms_ (controller s) ∧
  view_ok (if b then controller s' <| reveal_active_ := true |> else controller s') ∧
  same_vault (ui_runtime s) (ui_runtime s') ∧
  if b then shows_current (ui_runtime s) (clock_ (ui_time s)) (controller s')
  else same_private (controller s) (controller s').
Proof.
  intros E [[Hre Hv] Hclk]. destruct (revealed_spec _ _ _ E Hre Hclk) as (Hr & Hsv & Ho & Hb).
  split; [done|]. split; [destruct Ho as (_ & _ & ->); done|]. split; [done|]. destruct b.
  - destruct Hb as (Hvis & shown & Hsel & Hcode).
    destruct (code_set_ok _ _ _ _ _ Hre Hv Hsel Hvis Hcode) as [Hok Hsh].
    destruct Hcode as (code & period & seconds & _ & _ & Hp).
    destruct Hp as (Hc & Hi & _ & Hv' & Ha & _ & Hd & _). done.
  - pose proof Hb as (Hc & Hi & _ & Hv' & Ha & _ & Hd & _). split_and!; try done. by eapply view_same.
Qed.

Lemma view_deadline d u : reveal_active_ u = true → view_ok u → view_ok (u <| reveal_deadline_ms_ := d |>).
Proof.
  intros Ha [I1 I2 I3 I4 I5]. split; cbn; auto. by rewrite Ha.
Qed.

Lemma outside_trans s1 s2 s3 : same_outside s1 s2 → same_outside s2 s3 → same_outside s1 s3.
Proof. intros (?&?&?) (?&?&?). split_and!; congruence. Qed.

Lemma reveal_selected_part now s x s' : reveal_selected now s = (x, s') → pass_ok s →
  part s s' ∧
  (reveal_active_ (controller s') = true →
   reveal_deadline_ms_ (controller s') = deadline kOtpRevealDurationMs now ∧
   shows_current (ui_runtime s) (clock_ (ui_time s)) (controller s')).
Proof.
  intros E Hok. unfold reveal_selected in E. exec E.
  all: pose proof Ef as ((Hrt & _ & _ & Hclk0) & _)%hide_spec.
  all: apply hide_part in Ef as [(Hok1 & Ho1 & Hv1) Ha1]; specialize (Hok1 Hok).
  all: destruct (set_result_part GenerateResult.kOk s0) as [(Hok2 & Ho2 & Hv2) _]; specialize (Hok2 Hok1).
  all: destruct (revealed_part _ _ _ Ef0 Hok2) as (Hr & Hclk & Ho3 & Hv3 & Ha3 & Hd3 & Hvok & _ & Hsh).
  all: assert (Ho := outside_trans _ _ _ Ho1 (outside_trans _ _ _ Ho2 Ho3)); destruct a0; try done.
  - split; [split; [done|]; split; [done|]; rewrite Hv3; auto|]. rewrite Ha3. cbn. by rewrite Ha1.
  - injection E as _ <-. cbn in *. rewrite Hrt, Hclk0 in Hsh.
    split; [split; [intros _; split; [split; [done|]|done]|split; [done|cbn; rewrite Hv3; auto]]|].
    2:{ intros _. split; [done|]. exact Hsh. }
    by eapply (view_same (controller s1 <| reveal_active_ := true |> <| reveal_deadline_ms_ := _ |>)), view_deadline.
Qed.

Lemma end_reveal_part pass ready observed s b s' : end_reveal pass ready observed s = (b, s') →
  part s s' ∧ keeps_code (controller s) (controller s') ∧ ui_runtime s' = ui_runtime s ∧
  (reveal_active_ (controller s') = true → s' = s ∧
     ready = kReady ∧ now_ms pass < reveal_deadline_ms_ (controller s) ∧ observed = State.kUnlocked).
Proof.
  intros E. unfold end_reveal in E. exec E.
  - pose proof Ef as ((Hr & _) & _)%hide_spec. apply hide_part in Ef as [Hp Ha]. split; [done|].
    split; [by apply code_gone|]. split; [done|]. by rewrite Ha.
  - split; [apply part_refl|]. split; [by apply code_kept|]. split; [done|]. intros Ha. split; [done|].
    rewrite Ha, Z.geb_leb, !andb_false_iff, !orb_false_iff, Z.leb_gt in Eb. bools.
    destruct Eb as [|[[? ?] ?]]; [done|]. split_and!; bools; auto.
Qed.

Lemma seconds_set_ok now u : reveal_active_ u = true → 0 ≤ now →
  view_ok u → view_ok (u <| validity_seconds_remaining_ := seconds_remaining (from_unix_seconds now) |>).
Proof.
  intros Ha Hn [I1 I2 I3 I4 I5]. split; cbn; auto; [by rewrite Ha|].
  intros Hx. destruct (I5 Hx) as (Hv & shown & v & c & ? & ? & ? & ? & ? & ? & _). split; [done|].
  exists shown, v, c. split_and!; try done; by apply validity_bounds.
Qed.

Lemma time_part s s' : only_time s s' → part s s' ∧ controller s' = controller s.
Proof. intros [Hc Hw]. split; [|done]. apply part_same; [done|]. by rewrite Hc. Qed.

Lemma keeps_inactive u u' : reveal_active_ u' = false → keeps_reveal u u'.
Proof. unfold keeps_reveal. congruence. Qed.

(** A rollover: the new code, or the reveal goes on as it was. *)
Lemma rollover_part s b s' : refresh_revealed_totp s = (b, s') → pass_ok s →
  reveal_active_ (controller s) = true →
  part s s' ∧ keeps_reveal (controller s) (controller s') ∧ reveal_active_ (controller s') = true.
Proof.
  intros E Hok Ha. destruct (revealed_part _ _ _ E Hok) as (Hr & Hclk & Ho & Hv & Ha' & Hd & Hvok & _).
  rewrite Ha in Ha'. split; [|split; [by unfold keeps_reveal|done]]. split; [|split; [done|by rewrite Hv]].
  intros _. split; [split; [done|]|done]. destruct b; [|done]. by rewrite active_eta in Hvok.
Qed.

Lemma follow_part s d r v s' : follow_reveal s = ((d, r, v), s') → pass_ok s →
  part s s' ∧ keeps_reveal (controller s) (controller s') ∧
  (reveal_active_ (controller s) = false → s' = s ∧ (d, r, v) = (false, false, false)) ∧
  (r = true ∨ v = true → reveal_active_ (controller s') = true).
Proof.
  intros E Hok. unfold follow_reveal in E. exec E; simplify_eq.
  { bools. split; [apply part_refl|]. split; [by apply keeps_same|]. split; [done|by intros [?|?]]. }
  all: bools; apply unix_seconds_ui in Ef as (Ht & now & Hnow); apply time_part in Ht as [Hp Hc];
    (split; [|split; [|split; [congruence|]]]).
  - destruct (rollover_part _ _ _ Ef0) as (? & _); [by apply Hp|congruence|by eapply part_trans].
  - rewrite <- Hc. eapply rollover_part; [done|by apply Hp|congruence].
  - intros _. eapply rollover_part; [done|by apply Hp|congruence].
  - destruct (rollover_part _ _ _ Ef0) as (? & _); [by apply Hp|congruence|].
    apply hide_part in Ef1 as [? _]. do 2 (eapply part_trans; [done|]). done.
  - apply hide_part in Ef1 as [_ ?]. by apply keeps_inactive.
  - by intros [?|?].
  - eapply part_trans; [done|]. split; [|done]. intros [[Hre Hv] Hclk]. split; [split; [done|]|done].
    cbn. apply seconds_set_ok; [congruence| |done]. destruct Hok as [_ Hk]. eapply unix_nonnegative; [exact Hk|symmetry; exact Hnow].
  - unfold keeps_reveal. cbn. by rewrite Hc.
  - intros _. cbn. congruence.
  - done.
  - unfold keeps_reveal. by rewrite Hc.
  - by intros [?|?].
  - apply hide_part in Ef0 as [? _]. eapply part_trans; [done|]. eapply part_trans; [apply set_result_part|done].
  - apply hide_part in Ef0 as [_ ?]. by apply keeps_inactive.
  - by intros [?|?].
Qed.

(** The clock [c] is in the period [period]. *)
Definition in_period (c : TrustedClock) (period : Z) : Prop :=
  ∃ now unix, current_unix_seconds now c = Some unix ∧ period = unix / 30.

(** The code a pass leaves on the screen: the one that was there, while the clock
    is in its period, or a new one, drawn by this pass. *)
Definition left_code s s1 (drawn : bool) : Prop :=
  reveal_active_ (controller s1) = true →
  same_code (controller s) (controller s1) ∧ in_period (clock_ (ui_time s)) (revealed_period_index_ (controller s1)) ∨
  drawn = true ∧ shows_current (ui_runtime s) (clock_ (ui_time s)) (controller s1).

(** A code that is still on the screen after the countdown has been followed is
    one of the current period: the one that was there, or a new one. *)
Lemma follow_code s d r v s' : follow_reveal s = ((d, r, v), s') → pass_ok s →
  same_vault (ui_runtime s) (ui_runtime s') ∧ left_code s s' r.
Proof.
  intros E Hok. unfold left_code. unfold follow_reveal in E. exec E; simplify_eq.
  { bools. split; [done|]. congruence. }
  all: bools; apply unix_seconds_ui in Ef as (Ht & now & Hnow); pose proof Ht as [Hc (Hr & _ & _ & Hk)];
    apply time_part in Ht as [Hp _].
  - destruct (revealed_part _ _ _ Ef0) as (_ & _ & _ & _ & _ & _ & _ & Hsv & Hsh); [by apply Hp|].
    rewrite Hr, Hk in *. split; [done|]. by right.
  - destruct (revealed_part _ _ _ Ef0) as (_ & _ & _ & _ & _ & _ & _ & Hsv & _); [by apply Hp|].
    pose proof Ef1 as ((Hr' & _) & _)%hide_spec. apply hide_part in Ef1 as [_ Ha].
    split; [rewrite <- Hr, Hr'; exact Hsv|]. by rewrite Ha.
  - split; [by rewrite <- Hr|]. intros Ha. left. split; [|cbn; exists now; eexists; split; [symmetry; exact Hnow|]].
    + unfold same_code, selected. cbn. by rewrite Hc.
    + cbn. rewrite Hc. by rewrite unix_period in Eb.
  - split; [by rewrite <- Hr|]. intros Ha. left. split; [|exists now; eexists; split; [symmetry; exact Hnow|]].
    + unfold same_code, selected. rewrite Hc in *. done.
    + rewrite Hc. by rewrite unix_period in Eb.
  - pose proof Ef0 as ((Hr' & _) & _)%hide_spec. apply hide_part in Ef0 as [_ Ha]. cbn in Hr'. split; [by rewrite Hr', Hr|]. by rewrite Ha.
Qed.

Lemma observe_clock_part pass loop s ready b s' : observe_clock pass loop s = ((ready, b), s') →
  part s s' ∧ keeps_code (controller s) (controller s') ∧ ui_runtime s' = ui_runtime s ∧
  ∃ now, ready = readiness (clock_snapshot now (clock_ (ui_time s))).
Proof.
  intros E. unfold observe_clock in E. exec E; simplify_eq.
  all: apply time_status_ui in Ef as (Ht & now & ->); pose proof Ht as [_ (Hr & _)];
    apply time_part in Ht as [Hp Hc].
  - split; [done|]. rewrite Hc. split; [by apply code_kept|]. eauto.
  - pose proof Ef0 as [= _ <-]. apply reset_part in Ef0 as [Hp' Hk]. rewrite Hc in Hk.
    split; [by eapply part_trans|]. eauto.
Qed.

(** Recording the state of the runtime. *)
Lemma recorded_part observed now s x s' :
  reset_label_scroll now (on_ui (λ u, u <| runtime_state_ := observed |>) s) = (x, s') →
  part s s' ∧ keeps_code (controller s) (controller s') ∧ ui_runtime s' = ui_runtime s.
Proof.
  intros [= _ <-]. match goal with |- part s ?s1 ∧ _ => destruct (part_same s s1) as [? ?] end; by split_and!.
Qed.

Lemma invisible_case observed (u : CanonicalUiController) :
  negb (State.eqb observed State.kUnlocked) && vault_visible_ u = false → observed ≠ State.kUnlocked →
  vault_visible_ u = false.
Proof. intros E Hne. bools. by destruct E. Qed.

Lemma observe_runtime_part pass s observed b s' : observe_runtime pass s = ((observed, b), s') →
  part s s' ∧ keeps_code (controller s) (controller s') ∧ observed = observed_state (ui_runtime s) ∧
  ui_runtime s' = ui_runtime s ∧ (observed ≠ State.kUnlocked → vault_visible_ (controller s') = false).
Proof.
  intros E. unfold observe_runtime in E. exec E; simplify_eq.
  - apply recorded_part in Ef as (Hp & Hk & Hr). pose proof Ef0 as ((Hr' & _) & _)%clear_spec.
    apply clear_part in Ef0 as (Hp' & Ha & Hv).
    split; [by eapply part_trans|]. split; [by apply code_gone|]. split_and!; [done|congruence|done].
  - apply recorded_part in Ef as (Hp & Hk & Hr). split_and!; try done. by apply invisible_case.
  - pose proof Ef as ((Hr' & _) & _)%clear_spec. apply clear_part in Ef as (Hp' & Ha & Hv). split; [done|].
    split; [by apply code_gone|done].
  - split; [apply part_refl|]. split; [by apply code_kept|]. split_and!; [done..|]. by apply invisible_case.
Qed.

Lemma next_in_range i n : (0 < n → i < n → (i + 1) mod n < n)%nat.
Proof. intros. apply Nat.mod_upper_bound. lia. Qed.
Lemma previous_in_range i n : (0 < n → i < n → (if (i =? 0)%nat then n - 1 else i - 1) < n)%nat.
Proof. intros. destruct (Nat.eqb_spec i 0); lia. Qed.

Lemma select_part index s x s' :
  (∀ i n, (0 < n → i < n → index i n < n)%nat) → select index s = (x, s') → pass_ok s →
  part s s' ∧ keeps_code (controller s) (controller s').
Proof.
  intros Hi E [Hok Hclk]. assert (Hok' := select_ok _ _ _ _ Hi E Hok).
  apply select_spec in E as (_ & Ho & Hc); [|apply Hok].
  assert (Hv : vault_visible_ (controller s') = vault_visible_ (controller s) ∧
               keeps_code (controller s) (controller s')).
  { destruct Hc as [[_ ->]|[_ (_ & _ & _ & Hv & Ha & _)]]; [split; [done|by apply code_kept]|].
    split; [done|]. by apply code_gone. }
  split; [|apply Hv]. split; [|split; [done|by rewrite (proj1 Hv)]].
  intros _. split; [done|]. by destruct Ho as (_ & _ & ->).
Qed.

Lemma gesture_part button pass s b s' : handle_gesture button pass s = (b, s') → pass_ok s →
  part s s' ∧
  (keeps_code (controller s) (controller s') ∨
   wasHold button = true ∧ b = true ∧ (reveal_active_ (controller s') = true →
     reveal_deadline_ms_ (controller s') = deadline kOtpRevealDurationMs (now_ms pass) ∧
     shows_current (ui_runtime s) (clock_ (ui_time s)) (controller s'))).
Proof.
  intros E Hok. unfold handle_gesture in E. exec E.
  - split; [apply part_refl|]. left. by apply code_kept.
  - destruct (reveal_selected_part _ _ _ _ Ef Hok) as [Hp Hd]. split; [done|by right].
  - destruct (select_part _ _ _ _ previous_in_range Ef Hok). by auto.
  - destruct (reveal_active_ (controller s)).
    + apply hide_part in Ef as [? ?]. split; [done|]. left. by apply code_gone.
    + destruct (select_part _ _ _ _ next_in_range Ef Hok). by auto.
  - split; [apply part_refl|]. left. by apply code_kept.
Qed.

Lemma refresh_due_part observed pass loop s x s' : refresh_if_due observed pass loop s = (x, s') → pass_ok s →
  pass_ok s' ∧ same_outside s s' ∧ keeps_code (controller s) (controller s') ∧
  (observed ≠ State.kUnlocked → s' = s).
Proof.
  intros E [Hok Hclk]. unfold refresh_if_due in E. exec E.
  - assert (Hok' := refresh_ok _ _ _ _ Ef Hok). apply refresh_spec in Ef as [Hc Ho].
    split; [split; [done|by destruct Ho as (_ & _ & ->)]|]. split; [done|].
    split; [|intros; by bools]. destruct Hc as [Hp _|Hp _ _ _ _|m v _ _ _ _ _ Hp _].
    + apply code_gone. by destruct Hp as (_ & _ & _ & _ & ? & _).
    + by apply code_kept.
    + apply code_gone. by destruct Hp as (_ & _ & _ & _ & ? & _).
  - split; [done|]. split; [done|]. split; [by apply code_kept|done].
Qed.

Lemma scroll_part now s b s' : update_label_scroll now s = (b, s') →
  part s s' ∧ keeps_code (controller s) (controller s') ∧ same_private (controller s) (controller s').
Proof.
  intros E. assert (Hs : same_world s s' ∧ same_private (controller s) (controller s')).
  { unfold update_label_scroll in E. exec E; try done.
    all: unfold set_offset in E; destruct (update_offset _ _ _) as [? ?]; injection E as _ <-; done. }
  destruct (part_same s s') as [Hp Hk]; [apply Hs..|]. by split_and!; try apply Hs.
Qed.

(** ** Drawing *)

(** The commands of a pass that found [dirty], [rollover], [validity] and
    [scrolled], with the clock at some reading. *)
Definition pass_draws (dirty rollover validity label_scrolled : bool) s : list draw → Prop := λ commands,
  if dirty then ∃ now, commands =
    frame (controller s) (readiness (clock_snapshot now (clock_ (ui_time s)))) (presence_view (ui_presence s))
  else commands =
    if rollover then reveal_region_draws (controller s)
    else if validity then reveal_validity_draws (controller s)
    else if label_scrolled then account_label_draws (controller s) else [].

(** Drawing changes the display and the clocks, nothing else. *)
Definition drew commands s s' : Prop :=
  lcd_ s' = lcd_ s ++ commands ∧ controller s' = controller s ∧ ui_runtime s' = ui_runtime s ∧
  ui_presence s' = ui_presence s ∧ clock_ (ui_time s') = clock_ (ui_time s).

Lemma render_spec s x s' : render s = (x, s') → ∃ now,
  drew (frame (controller s) (readiness (clock_snapshot now (clock_ (ui_time s)))) (presence_view (ui_presence s))) s s'.
Proof.
  intros E. unfold render in E. exec E. apply time_status_ui in Ef as ([Hc (Hr & Hp & Hl & Hk)] & now & ->).
  injection E as _ <-. exists now. unfold drew. cbn. rewrite Hc, Hp, Hl. done.
Qed.

Lemma draw_spec dirty rollover validity label_scrolled s x s' :
  draw_pass dirty rollover validity label_scrolled s = (x, s') →
  ∃ commands, pass_draws dirty rollover validity label_scrolled s commands ∧ drew commands s s'.
Proof.
  unfold draw_pass, pass_draws. destruct dirty.
  { intros [now Hd]%render_spec. eauto. }
  destruct rollover; [|destruct validity; [|destruct label_scrolled]]; intros [= _ <-]; eexists; (split; [done|]);
    unfold drew; cbn; rewrite ?app_nil_r; done.
Qed.

Lemma drew_ok commands s s' : drew commands s s' → pass_ok s → pass_ok s'.
Proof. unfold drew, pass_ok, ui_ok. by intros (_ & -> & -> & _ & ->). Qed.

(** ** A pass *)

(** What a pass does before it draws. *)
Record passed (button : Button) (pass : Pass) s s1 : Prop := {
  passed_ok : pass_ok s1;
  passed_outside : same_outside s s1;
  passed_reveal : reveal_active_ (controller s1) = true →
    (reveal_active_ (controller s) = true ∧ now_ms pass < reveal_deadline_ms_ (controller s) ∧
     reveal_deadline_ms_ (controller s1) = reveal_deadline_ms_ (controller s)) ∨
    (wasHold button = true ∧
     reveal_deadline_ms_ (controller s1) = deadline kOtpRevealDurationMs (now_ms pass));
  passed_locked : observed_state (ui_runtime s) ≠ State.kUnlocked → vault_visible_ (controller s1) = false;
}.

Lemma invisible_inactive u : view_ok u → vault_visible_ u = false → reveal_active_ u = false.
Proof.
  intros [_ _ _ _ I5] Hv. destruct (reveal_active_ u); [|done]. destruct (I5 eq_refl). congruence.
Qed.

Lemma left_code_chain (s sd se sf sh : UiSystem P N) (rollover gestured : bool) :
  clock_ (ui_time sd) = clock_ (ui_time s) → clock_ (ui_time se) = clock_ (ui_time s) →
  ui_runtime sd = ui_runtime s → same_vault (ui_runtime sd) (ui_runtime se) →
  keeps_code (controller s) (controller sd) →
  left_code sd se rollover →
  (keeps_code (controller se) (controller sf) ∨
   gestured = true ∧
   (reveal_active_ (controller sf) = true → shows_current (ui_runtime se) (clock_ (ui_time se)) (controller sf))) →
  keeps_code (controller sf) (controller sh) →
  left_code s sh (gestured || rollover).
Proof.
  intros Hcd Hce Hr Hsv Hkd Hc4 Hk5 Hkf Ha. unfold left_code in Hc4. rewrite Hr in Hsv.
  pose proof (Hkf Ha) as Hsf. pose proof Hsf as (Hf & _). destruct Hk5 as [Hk5|[-> Hd]].
  2:{ right. split; [done|]. specialize (Hd Hf). rewrite Hce in Hd. by eapply shows_current_kept. }
  assert (Hse : same_code (controller se) (controller sh)) by by eapply keeps_code_trans.
  pose proof Hse as (He & _). rewrite Hcd, Hr in Hc4. destruct (Hc4 He) as [[Hsd Hper]|[-> Hsh]].
  - left. assert (Hsh : keeps_code (controller s) (controller sh)).
    { eapply keeps_code_trans; [exact Hkd|]. eapply keeps_code_trans; [|by intros _; exact Hse]. by intros _. }
    split; [by apply Hsh|]. by destruct Hse as (_ & _ & _ & -> & _).
  - right. split; [by rewrite orb_true_r|]. eapply shows_current_kept; [apply same_vault_refl|done|done].
Qed.

Lemma view_pass_spec button pass loop s loop' s' : view_pass button pass loop s = (loop', s') → pass_ok s →
  ∃ s1 dirty rollover validity label_scrolled commands,
    passed button pass s s1 ∧ pass_draws dirty rollover validity label_scrolled s1 commands ∧ drew commands s1 s' ∧
    (observed_state (ui_runtime s) ≠ State.kUnlocked →
       rollover = false ∧ validity = false ∧ label_scrolled = false) ∧
    left_code s s1 (dirty || rollover).
Proof.
  intros E Hok. unfold view_pass in E. exec E.
  rename s0 into sa, s1 into sb, s2 into sc, s3 into sd, s4 into se, s5 into sf, s6 into sg, s7 into sh.
  apply draw_spec in Ef7 as (commands & Hdraws & Hdrew).
  assert (Hp0 : part s sa ∧ keeps_code (controller s) (controller sa) ∧ ui_runtime sa = ui_runtime s).
  { destruct (presence_changed pass); [|injection Ef as _ <-; split; [apply part_refl|by split; [apply code_kept|]]].
    pose proof Ef as [= _ <-]. by apply reset_part in Ef as [? ?]. }
  destruct Hp0 as (Hp0 & Hk0 & Hr0).
  apply observe_clock_part in Ef0 as (Hp1 & Hk1 & Hr1 & _).
  apply observe_runtime_part in Ef1 as (Hp2 & Hk2 & -> & Hr2 & Hv2). rewrite Hr1, Hr0 in *.
  apply end_reveal_part in Ef2 as (Hp3 & Hk3 & Hr3 & Ha3). rewrite Hr2 in Hr3.
  assert (Hp : part s sd) by eauto using part_trans. assert (Hokd : pass_ok sd) by by apply Hp.
  assert (Hkd : keeps_code (controller s) (controller sd)) by eauto using keeps_code_trans.
  destruct (follow_part _ _ _ _ _ Ef3 Hokd) as (Hp4 & Hk4 & Hin4 & _).
  destruct (follow_code _ _ _ _ _ Ef3 Hokd) as (Hsv4 & Hc4).
  destruct (gesture_part _ _ _ _ _ Ef4) as (Hp5 & Hk5); [by apply Hp4|].
  destruct (refresh_due_part _ _ _ _ _ _ Ef5) as (Hok6 & Ho6 & Hk6 & Hr6); [by apply Hp5, Hp4|].
  assert (Hp7 : part sg sh ∧ keeps_code (controller sg) (controller sh)).
  { destruct (_ && _); [|injection Ef6 as _ <-; split; [apply part_refl|by apply code_kept]].
    by apply scroll_part in Ef6 as (? & ? & _). }
  destruct Hp7 as [Hp7 Hk7]. assert (Hkf : keeps_code (controller sf) (controller sh)) by by eapply keeps_code_trans.
  assert (Hpe : part s se) by eauto using part_trans. assert (Hpf : part s sf) by eauto using part_trans.
  assert (Hvd : observed_state (ui_runtime s) ≠ State.kUnlocked → vault_visible_ (controller sd) = false).
  { intros Hne. by apply Hp3, Hv2. }
  exists sh, (dirty pass || b || b0 || a2 || b2 || a4 || b4), b3, b1, a6, commands.
  split; [|split; [done|split; [done|split]]].
  - destruct Hp4 as (_ & _ & Hv4), Hp5 as (_ & _ & Hv5), Hp7 as (Hok7 & Ho7 & Hv7). split.
    + by apply Hok7.
    + eapply outside_trans; [apply Hpf|]. by eapply outside_trans.
    + intros Ha. destruct (Hkf Ha) as (Hf & -> & _).
      destruct Hk5 as [Hk5|(Hw & _ & Hd)]; [left|right; split; [done|by apply Hd]].
      destruct (Hk5 Hf) as (He & -> & _). destruct (Hk4 He) as [Hd ->].
      destruct (Ha3 Hd) as (-> & _ & Hnow & _).
      destruct (Hkd Hd) as (Hs & Hds & _). rewrite Hds in *. done.
    + intros Hne. apply Hv7. rewrite (Hr6 Hne). by apply Hv5, Hv4, Hvd.
  - intros Hne. assert (Hi := invisible_inactive _ (proj2 (proj1 Hokd)) (Hvd Hne)).
    destruct (Hin4 Hi) as [_ [= -> -> ->]]. split_and!; try done.
    destruct (negb _ && _) eqn:Ec; [by bools|]. by injection Ef6 as <- _.
  - assert (Hcode : left_code s sh (a4 || b3)).
    { eapply (left_code_chain s sd se sf sh); try done; [apply Hp|apply Hpe|].
      destruct Hk5 as [Hk5|(_ & Hg & Hd)]; [by left|right]. split; [done|]. apply Hd. }
    intros Ha. destruct (Hcode Ha) as [?|[Hd ?]]; [by left|right]. split; [|done].
    apply orb_true_iff in Hd as [-> | ->]; by rewrite ?orb_true_r.
Qed.
End Steps.

(** ** The running interface *)

(** The steps of the task of the interface and of the protocol's security
    boundary; between them other tasks change the runtime, the clock and the
    presence, by operations of their own.  [allowed] restricts what the passes
    see of the button. *)
Inductive ui_step `{MbedtlsGcm} `{MbedtlsHmac} `{M5Display} {P N} `{Persistence P} `{EspNetwork N}
    (allowed : Button → Prop) : UiSystem P N → UiSystem P N → Prop :=
  | ui_start s loop s' : run_start s = (loop, s') → ui_step allowed s s'
  | ui_presence_pass button loop s x s' : presence_pass button loop s = (x, s') → ui_step allowed s s'
  | ui_view_pass button pass loop s loop' s' : allowed button → view_pass button pass loop s = (loop', s') → ui_step allowed s s'
  | ui_boundary s x s' : security_boundary_clear s = (x, s') → ui_step allowed s s'
  | ui_others s r t p : reachable r → clock_ok (clock_ t) →
      ui_step allowed s (s <| ui_runtime := r |> <| ui_time := t |> <| ui_presence := p |>).

Inductive ui_reachable `{MbedtlsGcm} `{MbedtlsHmac} `{M5Display} {P N} `{Persistence P} `{EspNetwork N}
    : UiSystem P N → Prop :=
  | ui_initial r t p : reachable r → clock_ok (clock_ t) → ui_reachable (mkUi P N new_controller r t p [])
  | ui_next s s' : ui_reachable s → ui_step (λ _, True) s s' → ui_reachable s'.
