(* ===== verification/UiSafety.v ===== *)
(** * What the user can see

    The theorems about a running interface, at every state that its task, the
    protocol's security boundary and the operations of other tasks lead to: the
    code a pass leaves on the screen is the current one of the selected account,
    nothing private stays once the Vault is not unlocked, a code goes at its
    deadline, and a screen that must not show accounts does not depend on them. *)

From Stdlib Require Import Sorting.Sorted.
From S2P Require Import Prelude Bytes Json VaultFormat VaultCrypto Persistence Runtime RuntimeCorrect.
From S2P Require Import DeviceSession UserPresence Attempt TrustedTime TimeService TimeServiceCorrect.
From S2P Require Import Base32 Hmac Totp TotpCorrect LabelScroll Display Ui UiCorrect.

Section Running.
Context `{MbedtlsGcm} `{MbedtlsHmac} `{M5Display} {P N : Type} `{Persistence P} `{EspNetwork N}.
Implicit Types (s : UiSystem P N).

(** The security boundary leaves nothing private, and the screen is drawn from
    what it leaves. *)
Lemma boundary_spec s x s' : security_boundary_clear s = (x, s') →
  same_private (cleared (controller s)) (controller s') ∧
  ui_runtime s' = ui_runtime s ∧ ui_presence s' = ui_presence s ∧ clock_ (ui_time s') = clock_ (ui_time s) ∧
  ∃ ready, lcd_ s' = lcd_ s ++ frame (controller s') ready (presence_view (ui_presence s)).
Proof.
  intros E. unfold security_boundary_clear in E. exec E.
  all: apply clear_spec in Ef as ((Hr & Hp & Hl & Hk) & now & Hu);
    apply render_spec in E as (reading & Hl' & Hc' & Hr' & Hp' & Hk');
    cbn in *; rewrite Hc'; split_and!; try congruence; try (rewrite Hu; done);
    eexists; rewrite Hl', Hl, Hp; done.
Qed.

Lemma ui_on_presence_inv {A} (f : CanonicalPresence → A * CanonicalPresence) s a s' :
  on_presence f s = (a, s') →
  controller s' = controller s ∧ ui_runtime s' = ui_runtime s ∧ ui_time s' = ui_time s ∧ lcd_ s' = lcd_ s.
Proof. unfold on_presence. destruct (f (ui_presence s)). by intros [= _ <-]. Qed.

Lemma presence_pass_spec button loop s x s' : presence_pass button loop s = (x, s') →
  ui_runtime s' = ui_runtime s ∧ clock_ (ui_time s') = clock_ (ui_time s) ∧
  same_private (controller s) (controller s') ∧ lcd_ s' = lcd_ s.
Proof.
  intros E. unfold presence_pass in E. exec E.
  all: apply monotonic_spec in Ef as [Hc (Hr & _ & Hl & Hk)];
    apply ui_on_presence_inv in Ef0 as (Hc0 & Hr0 & Ht0 & Hl0).
  all: try (apply ui_on_presence_inv in Ef1 as (Hc1 & Hr1 & Ht1 & Hl1)).
  all: cbn in *; split_and!; try congruence; unfold same_private; cbn; split_and!; congruence.
Qed.

Context `{!HmacLaws}.

Lemma run_start_ok s loop s' : run_start s = (loop, s') → pass_ok s → pass_ok s'.
Proof.
  intros E [Hok Hclk]. unfold run_start in E. exec E.
  apply time_status_ui in Ef as [Ht _]. apply time_part in Ht as [Hp _].
  apply monotonic_spec in Ef0. apply time_part in Ef0 as [Hp0 _].
  assert (Hok0 : pass_ok s1) by (by apply Hp0, Hp).
  assert (Hok1 := refresh_ok _ _ _ _ Ef1 (proj1 Hok0)). apply refresh_spec in Ef1 as [_ (_ & _ & Hk)].
  apply reset_part in Ef2 as [Hp2 _]. apply render_spec in Ef3 as (now & Hd).
  eapply drew_ok; [exact Hd|]. apply Hp2. split; [done|]. rewrite Hk. apply Hok0.
Qed.

Lemma ui_reachable_ok s : ui_reachable s → pass_ok s.
Proof.
  induction 1 as [r t p Hr Ht|s s' _ IH Hstep].
  { split; [split; [done|]|done]. split; try done. by left. }
  destruct Hstep as [s loop s' E|button loop s x s' E|button pass loop s loop' s' _ E|s x s' E|s r t p Hr Ht].
  - by eapply run_start_ok.
  - apply presence_pass_spec in E as (Hr & Hk & Hp & _). destruct IH as [Hok Hclk].
    split; [by eapply ok_same|by rewrite Hk].
  - destruct (view_pass_spec _ _ _ _ _ _ E IH) as (s1 & ? & ? & ? & ? & ? & Hpass & _ & Hdrew & _).
    eapply drew_ok; [done|]. apply Hpass.
  - apply boundary_spec in E as (Hp & Hr & _ & Hk & _). destruct IH as [[Hre Hv] Hclk].
    split; [split; [by rewrite Hr|eapply view_same; [done|apply view_cleared]]|by rewrite Hk].
  - destruct IH as [[_ Hv] _]. done.
Qed.
End Running.





(** Nothing of the Vault is in the controller. *)
Definition nothing_private (u : CanonicalUiController) : Prop :=
  vault_visible_ u = false ∧ credentials_ u = [] ∧ u = hidden u.

Lemma invisible_private `{MbedtlsGcm} `{MbedtlsHmac} {P} `{Persistence P} u :
  view_ok (P := P) u → vault_visible_ u = false → nothing_private u.
Proof.
  intros Hv Hvis. assert (Ha := invisible_inactive u Hv Hvis). destruct Hv as [I1 _ I3 _ _]. split_and!; auto.
Qed.

(** C16: A pass of the loop that finds the Vault not unlocked leaves nothing
    private in the controller, and if it draws, it draws the whole screen from
    what it leaves; the security boundary does so in every state. *)
Theorem lock_clears_screen `{MbedtlsGcm} `{MbedtlsHmac} `{!HmacLaws} `{M5Display} {P N} `{Persistence P} `{EspNetwork N}
    (s : UiSystem P N) :
  ui_reachable s →
  (∀ button pass loop, observed_state (ui_runtime s) ≠ State.kUnlocked →
     let s' := snd (view_pass button pass loop s) in
     nothing_private (controller s') ∧
     (lcd_ s' = lcd_ s ∨ ∃ ready presence, lcd_ s' = lcd_ s ++ frame (controller s') ready presence)) ∧
  (let s' := snd (security_boundary_clear s) in
   nothing_private (controller s') ∧
   ∃ ready presence, lcd_ s' = lcd_ s ++ frame (controller s') ready presence).
Proof.
  intros Hs. assert (Hok := ui_reachable_ok s Hs). split.
  - intros button pass loop Hne. destruct (view_pass button pass loop s) as [loop' s'] eqn:E. cbn [snd].
    destruct (view_pass_spec _ _ _ _ _ _ E Hok) as (s1 & dirty & r & v & l & commands & Hp & Hdraws & Hdrew & Hl & _).
    destruct (Hl Hne) as (-> & -> & ->). destruct Hdrew as (Hlcd & Hc & _), Hp as [[[_ Hv] _] (_ & Ho & _) _ Hlock].
    rewrite Hc, Hlcd, Ho. split; [by apply (invisible_private (P := P)); auto|]. unfold pass_draws in Hdraws.
    destruct dirty; [destruct Hdraws as [now ->]; right; eauto|left]. by rewrite Hdraws, app_nil_r.
  - destruct (security_boundary_clear s) as [x s'] eqn:E. cbn [snd]. assert (Hs' : ui_reachable s') by (eapply ui_next; [done|by eapply ui_boundary]).
    apply boundary_spec in E as (Hp & _ & _ & _ & ready & Hl). split; [|eauto].
    apply (invisible_private (P := P)); [by apply ui_reachable_ok|]. by destruct Hp as (_ & _ & _ & -> & _).
Qed.

(** ** The deadline of a code *)

(** Steps in which no pass sees the button held. *)
Definition quiet_steps `{MbedtlsGcm} `{MbedtlsHmac} `{M5Display} {P N} `{Persistence P} `{EspNetwork N}
    : UiSystem P N → UiSystem P N → Prop := rtc (ui_step (λ button, wasHold button = false)).

Section Deadline.
Context `{MbedtlsGcm} `{MbedtlsHmac} `{!HmacLaws} `{M5Display} {P N : Type} `{Persistence P} `{EspNetwork N}.
Implicit Types (s : UiSystem P N).

Lemma start_keeps s loop s' : run_start s = (loop, s') → keeps_reveal (controller s) (controller s').
Proof.
  intros E. unfold run_start in E. exec E.
  apply time_status_ui in Ef as [[Hc _] _]. apply monotonic_spec in Ef0 as [Hc0 _].
  apply refresh_spec in Ef1 as [Hr _]. apply reset_part in Ef2 as [_ Hk2].
  apply render_spec in Ef3 as (now & _ & Hc3 & _). rewrite <- Hc, <- Hc0, Hc3.
  eapply keeps_reveal_trans; [|apply keeps_code_reveal; exact Hk2].
  destruct Hr as [Hp _|Hp _ _ _ _|m v _ _ _ _ _ Hp _].
  - apply keeps_inactive. by destruct Hp as (_ & _ & _ & _ & ? & _).
  - by apply keeps_same.
  - apply keeps_inactive. by destruct Hp as (_ & _ & _ & _ & ? & _).
Qed.

Lemma quiet_keeps s s' : pass_ok s → ui_step (λ button, wasHold button = false) s s' →
  keeps_reveal (controller s) (controller s').
Proof.
  intros Hok Hstep.
  destruct Hstep as [s loop s' E|button loop s x s' E|button pass loop s loop' s' Hh E|s x s' E|s r t p Hr Ht].
  - by eapply start_keeps.
  - apply presence_pass_spec in E as (_ & _ & Hp & _). by apply keeps_same.
  - destruct (view_pass_spec _ _ _ _ _ _ E Hok) as (s1 & ? & ? & ? & ? & ? & [_ _ Hreveal _] & _ & (_ & Hc & _) & _).
    rewrite Hc. intros Ha. destruct (Hreveal Ha) as [(? & _ & ?)|[Hw _]]; [done|congruence].
  - apply boundary_spec in E as (Hp & _). apply keeps_inactive. by destruct Hp as (_ & _ & _ & _ & -> & _).
  - by apply keeps_same.
Qed.

Lemma step_weaken (allowed : Button → Prop) s s' : ui_step allowed s s' → ui_step (λ _, True) s s'.
Proof. destruct 1; by econstructor. Qed.

Lemma quiet_steps_keep s s' : ui_reachable s → quiet_steps s s' →
  ui_reachable s' ∧ keeps_reveal (controller s) (controller s').
Proof.
  intros Hs Hsteps. induction Hsteps as [s|s s1 s' Hstep Hrest IH]; [split; [done|by apply keeps_same]|].
  destruct IH as [? Hk]; [by eapply ui_next, step_weaken|]. split; [done|].
  eapply keeps_reveal_trans; [|done]. apply quiet_keeps; [by apply ui_reachable_ok|done].
Qed.
End Deadline.

(** C17: A code is on the screen after a pass only while the Vault is unlocked, and
    only if it was there before and its deadline has not come, or the button was
    held in this pass, which sets the deadline ten seconds ahead.  Nothing but a
    held button moves the deadline, whatever else happens: a new period does not
    prolong a reveal, and the first pass at or after the deadline ends it. *)
Theorem reveal_never_outlives `{MbedtlsGcm} `{MbedtlsHmac} `{!HmacLaws} `{M5Display} {P N} `{Persistence P} `{EspNetwork N}
    (s : UiSystem P N) :
  ui_reachable s →
  (∀ button pass loop, let s' := snd (view_pass button pass loop s) in
     reveal_active_ (controller s') = true →
     observed_state (ui_runtime s) = State.kUnlocked ∧
     (reveal_active_ (controller s) = true ∧ now_ms pass < reveal_deadline_ms_ (controller s) ∧
        reveal_deadline_ms_ (controller s') = reveal_deadline_ms_ (controller s) ∨
      wasHold button = true ∧
        reveal_deadline_ms_ (controller s') = Z.min u64_max (now_ms pass + kOtpRevealDurationMs))) ∧
  (∀ s1 button pass loop, quiet_steps s s1 → wasHold button = false →
     reveal_deadline_ms_ (controller s) ≤ now_ms pass →
     reveal_active_ (controller (snd (view_pass button pass loop s1))) = false).
Proof.
  intros Hs. split.
  - intros button pass loop. destruct (view_pass button pass loop s) as [loop' s'] eqn:E. cbn [snd]. intros Ha.
    destruct (view_pass_spec _ _ _ _ _ _ E (ui_reachable_ok s Hs))
      as (s1 & ? & ? & ? & ? & ? & [Hok _ Hreveal Hlock] & _ & (_ & Hc & _) & _). rewrite Hc in *.
    split; [|rewrite <- deadline_min; by auto].
    destruct (State.eq_dec (observed_state (ui_runtime s)) State.kUnlocked) as [|Hne]; [done|].
    assert (Hi := invisible_inactive _ (proj2 (proj1 Hok)) (Hlock Hne)). congruence.
  - intros s1 button pass loop Hq Hh Hd.
    destruct (view_pass button pass loop s1) as [loop' s'] eqn:E. cbn [snd]. destruct (quiet_steps_keep _ _ Hs Hq) as [Hs1 Hk].
    destruct (view_pass_spec _ _ _ _ _ _ E (ui_reachable_ok s1 Hs1))
      as (s2 & ? & ? & ? & ? & ? & [_ _ Hreveal _] & _ & (_ & Hc & _) & _). rewrite Hc.
    destruct (reveal_active_ (controller s2)) eqn:Ha; [|done].
    destruct (Hreveal eq_refl) as [(Ha1 & Hn & _)|[Hw _]]; [|congruence].
    destruct (Hk Ha1) as [_ Hd1]. lia.
Qed.

(** ** What a screen depends on *)

(** What anyone may know of a controller. *)
Definition same_public (u u' : CanonicalUiController) : Prop :=
  runtime_state_ u = runtime_state_ u' ∧ storage_error_ u = storage_error_ u' ∧
  vault_visible_ u = vault_visible_ u'.
#[export] Instance same_public_equivalence : Equivalence same_public.
Proof.
  split; [done|intros u u' (?&?&?); by split_and!|].
  intros u1 u2 u3 (?&?&?) (?&?&?). split_and!; by etrans.
Qed.

(** They differ at most in the code and what goes with it. *)
Definition same_but_code (u u' : CanonicalUiController) : Prop := ∃ code deadline period seconds,
  u' = u <| revealed_code_ := code |> <| reveal_deadline_ms_ := deadline |>
         <| revealed_period_index_ := period |> <| validity_seconds_remaining_ := seconds |>.

(** While a request for a press of the button is on the screen, while the
    Vault cannot be read and while it is not visible, the whole screen is the
    same for any two controllers that agree on the state of the runtime and on
    whether the Vault is visible and readable: no account, selection or code can
    be learnt from it.  A screen without a code is the same for any code. *)
Theorem screen_independent `{M5Display} u u' ready presence :
  (same_public u u' → active presence = true ∨ storage_error_ u = true ∨ vault_visible_ u = false →
   frame u ready presence = frame u' ready presence) ∧
  (same_but_code u u' → code_on_screen u ready = false →
   frame u ready presence = frame u' ready presence).
Proof.
  split.
  - intros (Hr & Hs & Hv) Hc. unfold frame. rewrite <- Hr, <- Hs, <- Hv.
    destruct Hc as [Hc|[Hc|Hc]]; rewrite Hc; [done|done|]. by destruct (storage_error_ u).
  - intros (code & deadline & period & seconds & ->) Hc. unfold frame, account_draws, code_on_screen in *. cbn.
    by rewrite Hc.
Qed.

(** ** The list of accounts *)

Lemma unlocked_metadata `{MbedtlsGcm} {P} `{Persistence P} (r : Runtime P) :
  unlocked r = true → ∃ m, runtime_metadata r = Some m ∧ m_state m = State.kUnlocked ∧ m_last_used m = last_used_ r.
Proof.
  unfold unlocked, runtime_metadata, metadata. intros Hu. bools.
  eexists. repeat match goal with E : _ = true |- _ => rewrite E end. split; [done|]. by split.
Qed.

(** The credential a refresh keeps selected: the selected one, or else the one
    last used. *)
Definition wanted {P} (u : CanonicalUiController) (r : Runtime P) : option bytes :=
  match vault_visible_ u, selected u with
  | true, Some c => Some (cv_credential_id c)
  | _, _ => last_used_ r
  end.

Lemma preferred_found id next c : c ∈ next → cv_credential_id c = id →
  ∃ c', next !! preferred_index (Some id) next = Some c' ∧ cv_credential_id c' = id.
Proof.
  intros Hin Hid. unfold preferred_index.
  destruct (list_find_elem_of (λ c, cv_credential_id c = id) next c Hin Hid) as [[i c'] E].
  rewrite E. apply list_find_Some in E as (Hi & Hc & _). by exists c'.
Qed.

(** A forced refresh with the Vault unlocked shows all its accounts, in the
    order the user gave them, hides any code, and stays on the account that was
    selected, or the one last used when none was, whenever that account still
    exists, wherever it has moved. *)
Theorem refresh_follows_vault `{MbedtlsGcm} `{MbedtlsHmac} `{M5Display} {P N} `{Persistence P} `{EspNetwork N}
    (s : UiSystem P N) v :
  reachable (ui_runtime s) → unlocked (ui_runtime s) = true → read_vault (ui_runtime s) = inl v →
  let s' := snd (refresh_credentials true s) in
  let u := controller s' in
  vault_visible_ u = true ∧ storage_error_ u = false ∧ reveal_active_ u = false ∧ ui_runtime s' = ui_runtime s ∧
  (∃ items, credentials_ u = credential_view <$> items ∧ items ≡ₚ (metadata_of <$> credentials v) ∧
     StronglySorted (λ a b, cm_manual_order a ≤ cm_manual_order b) items) ∧
  (∀ id c, wanted (controller s) (ui_runtime s) = Some id → c ∈ credentials_ u → cv_credential_id c = id →
     ∃ c', selected u = Some c' ∧ cv_credential_id c' = id).
Proof.
  intros Hre Hu Hv. destruct (refresh_credentials true s) as [b s'] eqn:E. cbn [snd].
  apply refresh_spec in E as [Hc _]. destruct (unlocked_metadata _ Hu) as (m & Hm & Hms & Hml).
  destruct Hc as [Hp [[Hne _]|(_ & st & l & Hst & Hl)]|? ? [=]|m' v' Hm' _ Hr _ Hv' Hp Hse].
  - by rewrite (observed_metadata _ m) in Hne.
  - destruct (list_credentials_sorted _ v Hre Hu Hv) as (l' & Hl' & _). congruence.
  - rewrite Hm in Hm'. injection Hm' as <-. rewrite Hv in Hv'. injection Hv' as <-.
    destruct Hp as (Hcr & Hi & _ & Hvis & Ha & _). cbn in Hcr, Hi, Hvis, Ha |- *.
    split_and!; try done.
    + eexists. split; [exact Hcr|]. split; [apply stable_sort_perm|apply stable_sort_sorted].
    + intros id c Hw Hin Hid. unfold selected. rewrite Hcr, Hi in *.
      assert (Hpref : preferred_credential (controller s) m = Some id).
      { rewrite <- Hw. unfold preferred_credential, wanted. by rewrite Hml. }
      rewrite Hpref. by eapply preferred_found.
Qed.

(** An account without a display name, but with both other names, is labelled
    with both. *)
Lemma label_joins_issuer c :
  cv_display_name c = [] → cv_issuer c ≠ [] → cv_account c ≠ [] →
  display_label c = cv_issuer c ++ str ": " ++ cv_account c ∧ display_label c ≠ cv_issuer c.
Proof.
  unfold display_label. intros -> Hi Ha. cbn [length Nat.eqb negb].
  destruct (cv_issuer c) eqn:Ei; [done|]. destruct (cv_account c) eqn:Ea; [done|].
  rewrite <- Ei, <- Ea. split; [by rewrite Ei, Ea|].
  rewrite Ei, Ea. cbn [length Nat.eqb negb andb]. intros Heq%(f_equal length). rewrite !length_app in Heq. cbn in Heq. lia.
Qed.

(** A pass without an interruption is two steps. *)
Lemma run_pass_reachable `{MbedtlsGcm} `{MbedtlsHmac} `{M5Display} {P N} `{Persistence P} `{EspNetwork N}
    button loop (s : UiSystem P N) : ui_reachable s → ui_reachable (snd (run_pass button loop s)).
Proof.
  intros Hs. destruct (run_pass button loop s) as [loop' s'] eqn:E. unfold run_pass in E. exec E.
  eapply ui_next; [eapply ui_next; [done|by eapply ui_presence_pass]|by eapply (ui_view_pass _ button)].
Qed.

(** The first screen. *)
Lemma start_reachable `{MbedtlsGcm} `{MbedtlsHmac} `{M5Display} {P N} `{Persistence P} `{EspNetwork N}
    (s : UiSystem P N) : ui_reachable s → ui_reachable (snd (run_start s)).
Proof. intros Hs. eapply ui_next; [done|]. exact (ui_start _ _ _ _ (surjective_pairing (run_start s))). Qed.

(** Other tasks act on the presence; time goes by. *)
Lemma presence_reachable `{MbedtlsGcm} `{MbedtlsHmac} `{!HmacLaws} `{M5Display} {P N} `{Persistence P} `{EspNetwork N}
    (s : UiSystem P N) p : ui_reachable s → ui_reachable (s <| ui_presence := p |>).
Proof.
  intros Hs. destruct (ui_reachable_ok s Hs) as [[Hre _] Hclk].
  assert (E := ui_next _ _ Hs (ui_others _ s (ui_runtime s) (ui_time s) p Hre Hclk)). by destruct s.
Qed.
Lemma runtime_reachable `{MbedtlsGcm} `{MbedtlsHmac} `{!HmacLaws} `{M5Display} {P N} `{Persistence P} `{EspNetwork N}
    (s : UiSystem P N) r : ui_reachable s → reachable r → ui_reachable (s <| ui_runtime := r |>).
Proof.
  intros Hs Hr. destruct (ui_reachable_ok s Hs) as [_ Hclk].
  assert (E := ui_next _ _ Hs (ui_others _ s r (ui_time s) (ui_presence s) Hr Hclk)). by destruct s.
Qed.
Lemma time_reachable `{MbedtlsGcm} `{MbedtlsHmac} `{!HmacLaws} `{M5Display} {P N} `{Persistence P} `{EspNetwork N}
    (s : UiSystem P N) n : ui_reachable s → ui_reachable (s <| ui_time := ui_time s <| net_ := n |> |>).
Proof.
  intros Hs. destruct (ui_reachable_ok s Hs) as [[Hre _] Hclk].
  assert (Hclk' : clock_ok (clock_ (ui_time s <| net_ := n |>))) by done.
  assert (E := ui_next _ _ Hs (ui_others _ s (ui_runtime s) _ (ui_presence s) Hre Hclk')). by destruct s.
Qed.

(** The lines of text a sequence of commands leaves on the display, with their
    heights: a filled band takes away the lines that begin in it. *)
Definition lines_step (lines : list (Z * bytes)) (command : draw) : list (Z * bytes) :=
  match command with
  | DClear => []
  | DFill _ y _ height _ => filter (λ line, ¬ (y ≤ fst line < y + height)) lines
  | DPrint _ _ _ _ y text => lines ++ [(y, text)]
  | DSprite _ y _ text => lines ++ [(y, text)]
  end.
Definition lines_on_screen (commands : list draw) : list (Z * bytes) := foldl lines_step [] commands.

(** ** A session *)

Module UiSample.
#[local] Existing Instance checksum_gcm.
#[local] Existing Instance TimeSample.good_network.
#[local] Existing Instance Sha1.software.
#[local] Existing Instance Sha1.software_laws.

(** 240 pixels wide, six pixels a character at size one. *)
#[local] Instance stick_display : M5Display := {|
  display_width := 240;
  font_height := 16;
  text_width size text := 6 * size * Z.of_nat (length text);
  label_sprite_available := true;
|}.

(** Over the runtime of the sample Vault. *)
Abbreviation Sys := (UiSystem MemoryStore Z).

Definition released : Button := mkButton false false false false false false 500.
Definition held : Button := mkButton true false true false false false 500.

Definition idle_presence : CanonicalPresence := mkPresence 0 idle_gate.
Definition powered : Sys := mkUi _ _ new_controller Sample.opened (snd (snd TimeSample.usb_synced)) idle_presence [].

(** The first screen, then one pass with [button]. *)
Definition first : UiLoop * Sys := run_start powered.
Definition pass_with (button : Button) (x : UiLoop * Sys) : UiLoop * Sys := run_pass button (fst x) (snd x).

(** The button is held: a code. *)
Definition revealed := pass_with held first.

(** The browser asks for a factory reset. *)
Definition asked_presence : CanonicalPresence :=
  snd (begin_presence kPresenceFactoryReset (replicate 16 7) 1000 idle_presence).
Definition asked_reset : UiLoop * Sys :=
  (fst revealed, snd revealed <| ui_presence := asked_presence |>).
Definition requested := pass_with released asked_reset.

(** A second later. *)
Definition later : UiLoop * Sys :=
  (fst requested, snd requested <| ui_time := ui_time (snd requested) <| net_ := 2000000 |> |>).
Definition ticked := pass_with released later.

Lemma powered_reachable : ui_reachable powered.
Proof. apply ui_initial; [exact Sample.reachable_opened|vm_compute; split; discriminate]. Qed.
Lemma first_reachable : ui_reachable (snd first).
Proof. exact (start_reachable powered powered_reachable). Qed.
Lemma revealed_reachable : ui_reachable (snd revealed).
Proof. exact (run_pass_reachable held (fst first) (snd first) first_reachable). Qed.
Lemma requested_reachable : ui_reachable (snd requested).
Proof.
  exact (run_pass_reachable released (fst asked_reset) (snd asked_reset)
    (presence_reachable (snd revealed) asked_presence revealed_reachable)).
Qed.
Lemma ticked_reachable : ui_reachable (snd ticked).
Proof.
  exact (run_pass_reachable released (fst later) (snd later)
    (time_reachable (snd requested) 2000000 requested_reachable)).
Qed.

(** The countdown of a code that was on the screen is drawn over the request of a
    factory reset that has replaced it: the warning that the device's data will
    be erased is on the screen when the request appears, and gone one second
    later, while the request still waits for the press. *)
Theorem reset_warning_overdrawn : ∃ before after : UiSystem MemoryStore Z,
  ui_reachable before ∧ ui_reachable after ∧
  presence_view (ui_presence before) = mkView true false kPresenceFactoryReset ∧
  presence_view (ui_presence after) = mkView true false kPresenceFactoryReset ∧
  (65, str "ERASE DEVICE DATA") ∈ lines_on_screen (lcd_ before) ∧
  str "ERASE DEVICE DATA" ∉ snd <$> lines_on_screen (lcd_ after) ∧
  (65, str "Valid: 26s") ∈ lines_on_screen (lcd_ after) ∧
  (85, str "Press A to confirm") ∈ lines_on_screen (lcd_ after).
Proof.
  exists (snd requested), (snd ticked).
  split; [exact requested_reachable|]. split; [exact ticked_reachable|].
  split; [vm_compute; reflexivity|]. split; [vm_compute; reflexivity|].
  split; [by apply (bool_decide_unpack _); vm_compute|].
  split; [by apply (bool_decide_unpack _); vm_compute|].
  split; by apply (bool_decide_unpack _); vm_compute.
Qed.

(** What the second screen shows. *)
Lemma revealed_shown : reveal_active_ (controller (snd revealed)) = true.
Proof. vm_compute. reflexivity. Qed.



(** The same moment, after the Vault has been locked. *)
Definition locked_runtime := snd (lock (ui_runtime (snd revealed))).
Definition locked : Sys := snd revealed <| ui_runtime := locked_runtime |>.

Lemma locked_reachable : ui_reachable locked.
Proof.
  apply (runtime_reachable (snd revealed) locked_runtime revealed_reachable).
  assert (Hre := proj1 (proj1 (ui_reachable_ok _ revealed_reachable))).
  exact (reachable_step _ _ _ Hre (step_lock _ _ _ (surjective_pairing (lock (ui_runtime (snd revealed)))))).
Qed.

Definition idle_pass : Pass := mkPass 1000 (presence_view idle_presence) false false.

Lemma lock_clears_screen_witness :
  credentials_ (controller locked) ≠ [] ∧ 
  nothing_private (controller (snd (view_pass released idle_pass (fst revealed) locked))).
Proof.
  split; [vm_compute; discriminate|].
  destruct (lock_clears_screen locked locked_reachable) as [Hp _].
  assert (Hne : observed_state (ui_runtime locked) ≠ State.kUnlocked) by (vm_compute; discriminate).
  exact (proj1 (Hp released idle_pass (fst revealed) Hne)).
Defined.

(** A pass at the deadline. *)
Definition last_pass : Pass := mkPass 11000 (presence_view idle_presence) false false.

Lemma reveal_never_outlives_witness :
  reveal_deadline_ms_ (controller (snd revealed)) = 11000 ∧
  reveal_active_ (controller (snd (view_pass released last_pass (fst revealed) (snd revealed)))) = false.
Proof.
  assert (Hd : reveal_deadline_ms_ (controller (snd revealed)) = 11000) by (vm_compute; reflexivity).
  split; [exact Hd|].
  destruct (reveal_never_outlives (snd revealed) revealed_reachable) as [_ Hend].
  assert (Hle : reveal_deadline_ms_ (controller (snd revealed)) ≤ now_ms last_pass) by (rewrite Hd; discriminate).
  exact (Hend (snd revealed) released last_pass (fst revealed) (rtc_refl _ _) eq_refl Hle).
Defined.

(** A request hides the code and the accounts. *)
Lemma screen_independent_witness :
  frame (controller (snd revealed)) kReady (presence_view asked_presence) =
  frame (cleared (controller (snd revealed)) <| vault_visible_ := true |>) kReady (presence_view asked_presence).
Proof.
  apply (proj1 (screen_independent (controller (snd revealed))
    (cleared (controller (snd revealed)) <| vault_visible_ := true |>) kReady (presence_view asked_presence))).
  - unfold same_public. vm_compute. repeat split.
  - left. vm_compute. reflexivity.
Defined.

Lemma refresh_follows_vault_witness :
  (cv_display_name <$> credentials_ (controller (snd (refresh_credentials true powered)))) = [str "B"; str "A"] ∧
  vault_visible_ (controller (snd (refresh_credentials true powered))) = true.
Proof.
  split; [vm_compute; reflexivity|].
  assert (Hu : unlocked (ui_runtime powered) = true) by (vm_compute; reflexivity).
  assert (Hv : read_vault (ui_runtime powered) = inl TotpSample.sample_plaintext) by (vm_compute; reflexivity).
  exact (proj1 (refresh_follows_vault powered TotpSample.sample_plaintext Sample.reachable_opened Hu Hv)).
Defined.
End UiSample.
