(* ===== verification/CanonicalProtocol.v ===== *)
(** * The protocol of the USB port

    [provisioning/canonical_protocol_v2.cpp], with [recovery_reset.hpp] and
    [factory_reset_authorization.hpp]: [CanonicalProtocolV2Handler], which every
    line from the host goes through.  It holds references to the session handler,
    the key sink, the runtime, the registration, the presence and the time
    service; here one state holds each of them once, where it is stored, and the
    lenses below say through which path a call reaches it.

    The random generator is the class [EspRandom] of [Random]; [security_boundary_clear_]
    is a callback into the user interface, of which the model counts the calls. *)

From S2P Require Import Prelude Bytes VaultFormat VaultCrypto Persistence Runtime.
From S2P Require Import Psa DeviceSession UserPresence Base64url Transcript Attempt Binding Json.
From S2P Require Import RegistrationStore VmkSink SessionHandler TrustedTime TimeService Random.

Definition kMaxCanonicalV2MessageBytes : nat := Z.to_nat (96 * 1024).

(** ** Which reset the state of the device calls for *)

Module RecoveryResetDecision.
Inductive t := kNotRequired | kRequired | kUnavailable.
#[global] Instance eq_dec : EqDecision t.
Proof. solve_decision. Defined.
End RecoveryResetDecision.

Definition classify_recovery_reset (runtime : Metadata) (registration_status : RegStatus.t)
    (registration : RegSnapshot) (corrupt_registration_recovery_available : bool)
    : RecoveryResetDecision.t :=
  if State.eqb (m_state runtime) State.kError || State.eqb (m_state runtime) State.kReprovisionRequired then
    if negb (m_recovery_reset_allowed runtime) then RecoveryResetDecision.kUnavailable
    else if bool_decide (registration_status = RegStatus.kIo) then RecoveryResetDecision.kUnavailable
    else if bool_decide (registration_status = RegStatus.kCorrupt)
            && negb corrupt_registration_recovery_available then RecoveryResetDecision.kUnavailable
    else RecoveryResetDecision.kRequired
  else if bool_decide (registration_status = RegStatus.kCorrupt) then
    (if corrupt_registration_recovery_available then RecoveryResetDecision.kRequired
     else RecoveryResetDecision.kUnavailable)
  else if negb (RegStatus.is_ok registration_status) then RecoveryResetDecision.kUnavailable
  else if negb (Bool.eqb (m_has_vault runtime) (reg_present registration)) then RecoveryResetDecision.kRequired
  else if m_has_vault runtime && negb (bool_decide (m_vault_id runtime = reg_vault_id registration))
  then RecoveryResetDecision.kRequired
  else RecoveryResetDecision.kNotRequired.

(** ** The authorisation of a factory reset *)

Module ResetCheck.
Inductive t := kOk | kInactive | kMismatch | kExpired.
#[global] Instance eq_dec : EqDecision t.
Proof. solve_decision. Defined.
End ResetCheck.

Record FactoryResetAuthorization := mkReset {
  reset_attempt_id : bytes;
  reset_deadline_ms : Z;
  reset_active : bool;
}.
Definition no_reset : FactoryResetAuthorization := mkReset (zeros kAttemptIdBytes) 0 false.
Definition reset_begin (attempt_id : bytes) (now_ms : Z) : FactoryResetAuthorization :=
  mkReset attempt_id (deadline kAttemptTtlMs now_ms) true.
Definition reset_check (attempt_id : bytes) (now_ms : Z) (f : FactoryResetAuthorization) : ResetCheck.t :=
  if negb (reset_active f) then ResetCheck.kInactive
  else if negb (same_attempt attempt_id (reset_attempt_id f)) then ResetCheck.kMismatch
  else if now_ms >=? reset_deadline_ms f then ResetCheck.kExpired
  else ResetCheck.kOk.
Definition reset_expired (now_ms : Z) (f : FactoryResetAuthorization) : bool :=
  reset_active f && (now_ms >=? reset_deadline_ms f).

Definition nonzero_attempt_id `{EspRandom Q} (q : Q) : bytes * Q := nonzero_bytes kAttemptIdBytes q.

(** ** Responses and requests *)

Record DeviceMetadata := mkDeviceMetadata {
  device : bytes;
  firmware : bytes;
  protocol : Z;
  storage_schema : Z;
  vault_format : Z;
  build_commit : bytes;
}.

Definition recovery_reset_begin_success (id : Z) (attempt_id : bytes) : json :=
  success_response id [("attempt_id"%string, JString (base64url_encode attempt_id));
                       ("expires_in_ms"%string, number kAttemptTtlMs)].
Definition recovery_reset_status_success (id : Z) (confirmed : bool) : json :=
  success_response id [("state"%string, JString (str (if confirmed then "confirmed" else "awaiting_confirmation")))].

Definition runtime_state_name (state : State.t) : string :=
  match state with
  | State.kUnprovisioned => "unprovisioned"
  | State.kReprovisionRequired => "reprovision_required"
  | State.kLocked => "locked"
  | State.kUnlocked => "unlocked"
  | State.kError => "error"
  end.

Definition text_member (key : string) (value : bytes) : string * json := (key, JString value).
Definition bool_member (key : string) (value : bool) : string * json := (key, JBool value).
Definition number_member (key : string) (value : Z) : string * json := (key, number value).

Definition kCurrentVaultFormatVersion : Z := kVaultFormatVersion2.

Definition hello_success (id : Z) (metadata : DeviceMetadata) (runtime_metadata : Metadata)
    (registration : RegSnapshot) (recovery_reset_required : bool) : json :=
  let persisted_format :=
    if m_has_vault runtime_metadata then m_vault_format_version runtime_metadata else kCurrentVaultFormatVersion in
  success_response id
    ([text_member "device" (device metadata);
      text_member "device_id" (device_id_text (reg_device_id registration));
      text_member "firmware" (firmware metadata);
      number_member "protocol" kProtocolVersion;
      number_member "storage_schema" kTargetStorageSchemaVersion;
      number_member "vault_format" persisted_format;
      number_member "vault_format_version" persisted_format;
      ("supported_vault_formats"%string, JArray [number kVaultFormatVersion1; number kVaultFormatVersion2]);
      text_member "build_commit" (build_commit metadata);
      text_member "state" (str (runtime_state_name (m_state runtime_metadata)));
      bool_member "storage_ready" (m_schema_ready runtime_metadata);
      bool_member "recovery_reset_required" recovery_reset_required;
      bool_member "factory_reset_presence_required" true;
      bool_member "vault_present" (m_has_vault runtime_metadata)]
     ++ (if m_has_vault runtime_metadata
         then [text_member "vault_id" (base64url_encode (m_vault_id runtime_metadata));
               text_member "generation" (decimal (m_generation runtime_metadata))]
         else [("vault_id"%string, JNull); text_member "generation" (str "0")])
     ++ [bool_member "registration_present" (reg_present registration)]
     ++ (if reg_present registration
         then [text_member "registration_id" (base64url_encode (reg_registration_id registration));
               number_member "registration_epoch" (reg_epoch registration);
               text_member "brk_public_key" (base64url_encode (reg_brk registration))]
         else [("registration_id"%string, JNull); number_member "registration_epoch" 0;
               ("brk_public_key"%string, JNull)])).

Definition time_status_success (id : Z) (snapshot : TimeSnapshot) : json :=
  success_response id
    [text_member "readiness" (str (readiness_name (readiness snapshot)));
     text_member "source" (str (source_name (source snapshot)));
     text_member "source_authenticity" (str (source_authenticity_name (source snapshot)));
     text_member "last_sync_unix_seconds" (decimal (last_sync_unix_seconds snapshot));
     number_member "age_seconds" (age_seconds snapshot);
     bool_member "resync_due" (resync_due snapshot)].

Definition read_ciphertext (params : json) : option bytes :=
  match get_item params "ciphertext" with
  | Some (JString encoded) =>
    output ← base64url_decode encoded;
    if Nat.eqb (length output) 0 || Nat.ltb kMaxPersistedCiphertextBytes (length output)
    then None else Some output
  | _ => None
  end.

Definition read_envelope (params : json) : option VaultEnvelope :=
  vault_format ← read_nonnegative_int (get_item params "vault_format_version");
  storage_schema ← read_nonnegative_int (get_item params "storage_schema_version");
  if negb (vault_format =? kVaultFormatVersion1) && negb (vault_format =? kVaultFormatVersion2)
     || negb (storage_schema =? kTargetStorageSchemaVersion) then None
  else
    vault_id ← read_binary kVaultIdBytes params "vault_id";
    generation ← read_u64_decimal (get_item params "generation");
    if generation =? 0 then None
    else
      nonce ← read_binary kVaultNonceBytes params "nonce";
      tag ← read_binary kVaultTagBytes params "tag";
      ciphertext ← read_ciphertext params;
      ciphertext_length ← read_nonnegative_int (get_item params "ciphertext_length");
      if (ciphertext_length <=? 0) || negb (ciphertext_length =? Z.of_nat (length ciphertext)) then None
      else Some (mkEnvelope vault_format storage_schema vault_id generation nonce ciphertext tag).

Definition parse_session_operation (params : json) : option Operation.t :=
  match get_item params "operation" with
  | Some (JString value) => parse_operation (text value)
  | _ => None
  end.

Definition destroys_runtime_vmk (operation : Operation.t) : bool :=
  bool_decide (operation = Operation.kRecovery) || bool_decide (operation = Operation.kBrowserReplacement)
  || bool_decide (operation = Operation.kVmkRekey).

(** ** The handler *)

Record CanonicalProtocolV2Handler {P G R K N Q : Type} := mkProtocol {
  session_handler_ : StagedSessionV2Handler R K (CanonicalVmkSink P G);
  time_service_ : TimeService N;
  healthy_factory_reset_ : FactoryResetAuthorization;
  recovery_reset_attempt_id_ : bytes;
  recovery_reset_deadline_ms_ : Z;
  recovery_reset_active_ : bool;
  boundary_clears_ : nat;
  random_ : Q;
}.
Arguments CanonicalProtocolV2Handler : clear implicits.
#[export] Instance eta_protocol {P G R K N Q} : Eta (CanonicalProtocolV2Handler P G R K N Q) := λ p,
  mkProtocol P G R K N Q (session_handler_ p) (time_service_ p) (healthy_factory_reset_ p)
    (recovery_reset_attempt_id_ p) (recovery_reset_deadline_ms_ p) (recovery_reset_active_ p)
    (boundary_clears_ p) (random_ p).

Definition new_protocol {P G R K N Q} (session : StagedSessionV2Handler R K (CanonicalVmkSink P G))
    (time : TimeService N) (random : Q) : CanonicalProtocolV2Handler P G R K N Q :=
  mkProtocol P G R K N Q session time no_reset (zeros kAttemptIdBytes) 0 false 0 random.

Section Protocol.
Context `{MbedtlsGcm} {P G R K N Q : Type} `{Persistence P} `{RegistrationStore G} `{PresenceBinding R}
  `{Psa K} `{EspNetwork N} `{EspRandom Q}.
Context (cJSON_ParseWithLength : bytes → option json) (metadata_ : DeviceMetadata).
Abbreviation Protocol := (CanonicalProtocolV2Handler P G R K N Q).
Definition protocol_op (A : Type) : Type := Protocol → A * Protocol.

(** *** What the references reach *)

Definition protocol_sink (p : Protocol) : CanonicalVmkSink P G := device_ (session_handler_ p).
Definition protocol_runtime (p : Protocol) : Runtime P := runtime_ (protocol_sink p).
Definition protocol_registration (p : Protocol) : G := registration_ (protocol_sink p).
Definition reset_presence_ (p : Protocol) : R := presence_ (coordinator_ (session_handler_ p)).

Definition in_session {A} (f : handler_op A) : protocol_op A := λ p,
  let '(a, h) := f (session_handler_ p) in (a, p <| session_handler_ := h |>).
Definition in_sink {A} (f : sink_op A) : protocol_op A := in_session (on_device f).
Definition in_presence {A} (f : R → A * R) : protocol_op A := in_session (on_coordinator (on_presence f)).
Definition in_time {A} (f : service_op A) : protocol_op A := λ p,
  let '(a, t) := f (time_service_ p) in (a, p <| time_service_ := t |>).
(** The time service next to the runtime it refers to. *)
Definition in_sync {A} (f : sync_op A) : protocol_op A := λ p,
  let '(a, (r, t)) := f (protocol_runtime p, time_service_ p) in
  (a, p <| session_handler_ := session_handler_ p <| device_ := protocol_sink p <| runtime_ := r |> |> |>
        <| time_service_ := t |>).
Definition in_random {A} (f : Q → A * Q) : protocol_op A := λ p,
  let '(a, q) := f (random_ p) in (a, p <| random_ := q |>).
Definition sink_cancel_pending : protocol_op unit := in_sink (λ s, (tt, cancel_pending s)).

(** *** Boundaries and housekeeping *)

Definition notify_security_boundary (p : Protocol) : Protocol :=
  p <| boundary_clears_ := S (boundary_clears_ p) |>.

Definition cancel_healthy_factory_reset : protocol_op unit := fn (
  p ← get_state;
  (if reset_active (healthy_factory_reset_ p) then (call (in_presence cancel_presence);; mret tt) else mret tt);;
  modify (λ p, p <| healthy_factory_reset_ := no_reset |>);;
  mret tt).

Definition clear_recovery_reset (p : Protocol) : Protocol :=
  p <| recovery_reset_attempt_id_ := zeros kAttemptIdBytes |> <| recovery_reset_deadline_ms_ := 0 |>
    <| recovery_reset_active_ := false |>.
Definition cancel_recovery_reset : protocol_op unit := fn (
  p ← get_state;
  (if recovery_reset_active_ p then (call (in_presence cancel_presence);; mret tt) else mret tt);;
  modify clear_recovery_reset;;
  mret tt).

(** [TimeService::with_secret_boundary]: what runs inside starts with the
    network driver gone. *)
Definition with_secret_boundary {A} (f : protocol_op A) : protocol_op A := fn (
  call (in_time teardown_network);;
  call f).

Definition disconnect : protocol_op unit := fn (
  call (in_session handler_disconnect);;
  call sink_cancel_pending;;
  call cancel_healthy_factory_reset;;
  call cancel_recovery_reset).

Definition lock_security_boundary : protocol_op Status := fn (
  call (in_session handler_disconnect);;
  call sink_cancel_pending;;
  call cancel_healthy_factory_reset;;
  call cancel_recovery_reset;;
  call (with_secret_boundary (fn (
    result ← call (in_sink (in_runtime lock));
    (if is_ok result then modify notify_security_boundary else mret tt);;
    mret result)))).

Definition housekeeping (now_ms : Z) : protocol_op unit := fn (
  call (in_session (handler_expire now_ms));;
  call (in_sink (expire_pending now_ms));;
  p ← get_state;
  (if reset_expired now_ms (healthy_factory_reset_ p) then call cancel_healthy_factory_reset else mret tt);;
  p ← get_state;
  (if recovery_reset_active_ p && (now_ms >=? recovery_reset_deadline_ms_ p)
   then call cancel_recovery_reset else mret tt);;
  p ← get_state;
  (if automatic_lock_due now_ms (protocol_runtime p)
   then (call lock_security_boundary;; mret tt) else mret tt);;
  mret tt).

(** The decision, and the metadata and registration it was made on. *)
Definition recovery_reset_decision (p : Protocol)
    : RecoveryResetDecision.t * option Metadata * RegStatus.t * RegSnapshot :=
  match metadata (protocol_runtime p) with
  | (kOk, Some m) =>
    let '(status, registration) := registration_snapshot (protocol_registration p) in
    (classify_recovery_reset m status registration (recovery_reset_available (protocol_registration p)),
     Some m, status, registration)
  | _ => (RecoveryResetDecision.kUnavailable, None, RegStatus.kIo, empty_reg_snapshot)
  end.

(** What [factory_reset.begin] and the confirmed reset require. *)
Definition healthy_unlocked (p : Protocol) : bool :=
  match recovery_reset_decision p with
  | (RecoveryResetDecision.kNotRequired, Some m, _, _) => State.eqb (m_state m) State.kUnlocked
  | _ => false
  end.

(** *** Session messages *)

(** What follows a [session.begin] that went well. *)
Definition prepare_session (operation : Operation.t) : protocol_op bool := fn (
  let boundary := empty_context <| context_operation := operation |> in
  if destroys_runtime_vmk operation then
    call (with_secret_boundary (fn (
      result ← call (in_sink (prepare_attempt boundary));
      modify notify_security_boundary;;
      mret result)))
  else call (in_sink (prepare_attempt boundary))).

Definition handle_session (line : bytes) (id : Z) (op : string) (params : json) (now_ms clock_ms : Z)
    : protocol_op json := fn (
  call cancel_healthy_factory_reset;;
  call cancel_recovery_reset;;
  if Nat.ltb kMaxSessionV2MessageBytes (length line) then
    call disconnect;;
    leave (error_response 0 "message_too_large")
  else
    let session_operation := parse_session_operation params in
    let begin := String.eqb op "session.begin" in
    if begin && negb (bool_decide (is_Some session_operation)) then
      call disconnect;;
      leave (error_response id "invalid_request")
    else
      response ← call (in_session (session_handle_line cJSON_ParseWithLength line now_ms clock_ms));
      if begin && response_ok response then
        prepared ← call (prepare_session (default Operation.kTrustedBrowserUnlock session_operation));
        if negb prepared then
          call (in_session handler_disconnect);;
          call sink_cancel_pending;;
          leave (error_response id "invalid_state")
        else mret response
      else if String.eqb op "session.complete" && response_ok response then
        call (in_sink (λ s, (tt, arm_pending_deadline now_ms s)));;
        mret response
      else if String.eqb op "session.cancel" then
        call sink_cancel_pending;;
        mret response
      else mret response).

(** *** Resets *)

Definition handle_hello (id : Z) : protocol_op json := fn (
  p ← get_state;
  match recovery_reset_decision p with
  | (RecoveryResetDecision.kUnavailable, _, _, _) | (_, None, _, _) => leave (error_response id "invalid_state")
  | (decision, Some m, _, registration) =>
    mret (hello_success id metadata_ m registration
            (bool_decide (decision = RecoveryResetDecision.kRequired)))
  end).

Definition handle_reset_begin (id : Z) (now_ms : Z) : protocol_op json := fn (
  p ← get_state;
  leave_if (negb (healthy_unlocked p)) (error_response id "invalid_state");;
  call (in_session handler_disconnect);;
  call sink_cancel_pending;;
  call cancel_healthy_factory_reset;;
  call cancel_recovery_reset;;
  attempt_id ← call (in_random nonzero_attempt_id);
  begun ← call (in_presence (begin_presence kPresenceFactoryReset attempt_id now_ms));
  leave_if (negb begun) (error_response id "invalid_state");;
  modify (λ p, p <| healthy_factory_reset_ := reset_begin attempt_id now_ms |>);;
  mret (recovery_reset_begin_success id attempt_id)).

(** The check with which status, cancel and commit start: it returns the
    attempt, or has responded. *)
Definition check_healthy_reset (id : Z) (params : json) (now_ms : Z) : ctl Protocol json bytes :=
  match read_binary kAttemptIdBytes params "attempt_id" with
  | None => leave (error_response id "invalid_request")
  | Some attempt_id =>
    p ← get_state;
    match reset_check attempt_id now_ms (healthy_factory_reset_ p) with
    | ResetCheck.kExpired =>
      call cancel_healthy_factory_reset;;
      leave (error_response id "expired")
    | ResetCheck.kOk => mret attempt_id
    | _ => leave (error_response id "invalid_state")
    end
  end.

Definition handle_reset_status (id : Z) (params : json) (now_ms : Z) : protocol_op json := fn (
  attempt_id ← check_healthy_reset id params now_ms;
  p ← get_state;
  mret (recovery_reset_status_success id (presence_confirmed (reset_presence_ p)))).

Definition handle_reset_cancel (id : Z) (params : json) (now_ms : Z) : protocol_op json := fn (
  attempt_id ← check_healthy_reset id params now_ms;
  call cancel_healthy_factory_reset;;
  mret (empty_success id)).

(** The Vault goes first, then the registration. *)
Definition erase_vault_then_registration : protocol_op bool := fn (
  vault_status ← call (in_sink (in_runtime factory_reset));
  clear_status ← (if is_ok vault_status then call (in_sink (in_registration clear_registration))
                  else mret RegStatus.kIo);
  let erased := is_ok vault_status && RegStatus.is_ok clear_status in
  (if erased then modify notify_security_boundary else mret tt);;
  mret erased).

Definition handle_reset_commit (id : Z) (params : json) (now_ms : Z) : protocol_op json := fn (
  attempt_id ← check_healthy_reset id params now_ms;
  consumed ← call (in_presence (consume_presence attempt_id now_ms));
  leave_if (negb consumed) (error_response id "presence_required");;
  modify (λ p, p <| healthy_factory_reset_ := no_reset |>);;
  p ← get_state;
  leave_if (negb (healthy_unlocked p)) (error_response id "invalid_state");;
  call (in_session handler_disconnect);;
  call sink_cancel_pending;;
  call cancel_recovery_reset;;
  erased ← call (with_secret_boundary erase_vault_then_registration);
  mret (if erased : bool then empty_success id else error_response id "reset_failed")).

Definition recovery_required (p : Protocol) : bool :=
  let '(decision, _, _, _) := recovery_reset_decision p in
  bool_decide (decision = RecoveryResetDecision.kRequired).

(** The state and the permission are those of the decision, taken before. *)
Definition enter_recovery (m : Metadata) : protocol_op Status := fn (
  result ← (if State.eqb (m_state m) State.kError
            then mret (if m_recovery_reset_allowed m then kOk else kInvalidState)
            else call (in_sink (in_runtime enter_recovery_boundary)));
  (if is_ok result then modify notify_security_boundary else mret tt);;
  mret result).

Definition handle_recovery_begin (id : Z) (now_ms : Z) : protocol_op json := fn (
  p ← get_state;
  match recovery_reset_decision p with
  | (RecoveryResetDecision.kRequired, Some m, _, _) =>
    call (in_session handler_disconnect);;
    call sink_cancel_pending;;
    call cancel_healthy_factory_reset;;
    call cancel_recovery_reset;;
    boundary_status ← call (with_secret_boundary (enter_recovery m));
    leave_if (negb (is_ok boundary_status)) (error_response id "invalid_state");;
    attempt_id ← call (in_random nonzero_attempt_id);
    modify (λ p, p <| recovery_reset_attempt_id_ := attempt_id |>
                   <| recovery_reset_deadline_ms_ := deadline kAttemptTtlMs now_ms |>);;
    begun ← call (in_presence (begin_presence kPresenceFactoryReset attempt_id now_ms));
    modify (λ p, p <| recovery_reset_active_ := begun |>);;
    if negb begun then
      call cancel_recovery_reset;;
      leave (error_response id "invalid_state")
    else mret (recovery_reset_begin_success id attempt_id)
  | _ => leave (error_response id "invalid_state")
  end).

Definition check_recovery_reset (id : Z) (params : json) (now_ms : Z) : ctl Protocol json bytes :=
  match read_binary kAttemptIdBytes params "attempt_id" with
  | None => leave (error_response id "invalid_request")
  | Some attempt_id =>
    p ← get_state;
    if negb (recovery_reset_active_ p) || negb (same_attempt attempt_id (recovery_reset_attempt_id_ p))
    then leave (error_response id "invalid_state")
    else if now_ms >=? recovery_reset_deadline_ms_ p then
      call cancel_recovery_reset;;
      leave (error_response id "expired")
    else mret attempt_id
  end.

Definition handle_recovery_status (id : Z) (params : json) (now_ms : Z) : protocol_op json := fn (
  attempt_id ← check_recovery_reset id params now_ms;
  p ← get_state;
  mret (recovery_reset_status_success id (presence_confirmed (reset_presence_ p)))).

(** The registration goes first, then the Vault. *)
Definition erase_registration_then_vault (registration_status : RegStatus.t) : protocol_op bool := fn (
  clear_status ← call (in_sink (in_registration
    (if bool_decide (registration_status = RegStatus.kCorrupt)
     then clear_corrupt_registration_for_recovery else clear_registration)));
  vault_status ← (if RegStatus.is_ok clear_status then call (in_sink (in_runtime factory_reset))
                  else mret kIo);
  let erased := is_ok vault_status && RegStatus.is_ok clear_status in
  (if erased then modify notify_security_boundary else mret tt);;
  mret erased).

Definition handle_recovery_complete (id : Z) (params : json) (now_ms : Z) : protocol_op json := fn (
  attempt_id ← check_recovery_reset id params now_ms;
  consumed ← call (in_presence (consume_presence attempt_id now_ms));
  leave_if (negb consumed) (error_response id "presence_required");;
  modify clear_recovery_reset;;
  p ← get_state;
  leave_if (negb (recovery_required p)) (error_response id "invalid_state");;
  let '(_, _, registration_status, _) := recovery_reset_decision p in
  erased ← call (with_secret_boundary (erase_registration_then_vault registration_status));
  mret (if erased : bool then empty_success id else error_response id "reset_failed")).

(** Without an attempt, the reset is only announced. *)
Definition handle_plain_reset (id : Z) : protocol_op json := fn (
  p ← get_state;
  mret (if healthy_unlocked p then error_response id "presence_required"
        else error_response id "invalid_state")).

(** *** The Vault, the time, the lock *)

Definition status_response (id : Z) (status : Status) : json :=
  if is_ok status then empty_success id else error_response id (status_code status).

Definition handle_install (id : Z) (params : json) (now_ms : Z) : protocol_op json := fn (
  match read_envelope params with
  | None =>
    call sink_cancel_pending;;
    leave (error_response id "invalid_request")
  | Some envelope =>
    p ← get_state;
    leave_if (negb (pending_ (protocol_sink p))) (error_response id "invalid_state");;
    installed ← (match context_operation (pending_context_ (protocol_sink p)) with
      | Operation.kInitialProvisioning => call (in_sink (install_initial_vault envelope now_ms))
      | Operation.kRecovery => call (in_sink (install_recovered_vault envelope now_ms))
      | _ => call sink_cancel_pending;; mret false
      end);
    mret (if installed : bool then empty_success id else error_response id "invalid_state")
  end).

Definition handle_update (id : Z) (params : json) (now_ms : Z) : protocol_op json := fn (
  match read_envelope params, read_u64_decimal (get_item params "expected_generation") with
  | Some envelope, Some expected_generation =>
    x ← call (in_sink (in_runtime (update_encrypted_vault expected_generation envelope now_ms)));
    let '(status, automatic_lock_due_after_commit) := x in
    status ← (if is_ok status && automatic_lock_due_after_commit
              then call lock_security_boundary else mret status);
    mret (status_response id status)
  | _, _ => leave (error_response id "invalid_request")
  end).

Definition handle_rekey (id : Z) (params : json) (now_ms : Z) : protocol_op json := fn (
  match read_envelope params, read_u64_decimal (get_item params "expected_generation") with
  | Some envelope, Some expected_generation =>
    installed ← call (in_sink (install_rekeyed_vault expected_generation envelope now_ms));
    leave_if (negb installed) (error_response id "invalid_state");;
    p ← get_state;
    lock_status ← (if automatic_lock_due now_ms (protocol_runtime p)
                   then call lock_security_boundary else mret kOk);
    mret (status_response id lock_status)
  | _, _ =>
    call sink_cancel_pending;;
    leave (error_response id "invalid_request")
  end).

Definition handle_time_status (id : Z) : protocol_op json := fn (
  snapshot ← call (in_time time_status);
  mret (time_status_success id snapshot)).

Definition handle_time_sync (id : Z) (params : json) : protocol_op json := fn (
  match read_u64_decimal (get_item params "unix_seconds") with
  | None => leave (error_response id "invalid_request")
  | Some unix_seconds =>
    status ← call (in_sync (sync_from_usb unix_seconds));
    mret (if bool_decide (status = SyncResult.kOk) then empty_success id
          else error_response id (sync_result_code status))
  end).

Definition handle_lock (id : Z) : protocol_op json := fn (
  status ← call lock_security_boundary;
  mret (status_response id status)).

(** *** The whole line *)

Definition route (line : bytes) (id : Z) (op : string) (params : json) (now_ms clock_ms : Z)
    : protocol_op json :=
  if String.prefix "session." op then handle_session line id op params now_ms clock_ms
  else if String.eqb op "hello" then handle_hello id
  else if String.eqb op "factory_reset.begin" then handle_reset_begin id now_ms
  else if String.eqb op "factory_reset.status" then handle_reset_status id params now_ms
  else if String.eqb op "factory_reset.cancel" then handle_reset_cancel id params now_ms
  else if String.eqb op "factory_reset.commit" then handle_reset_commit id params now_ms
  else if String.eqb op "factory_reset.recovery_begin" then handle_recovery_begin id now_ms
  else if String.eqb op "factory_reset.recovery_status" then handle_recovery_status id params now_ms
  else if String.eqb op "factory_reset.recovery_complete" then handle_recovery_complete id params now_ms
  else if String.eqb op "vault.install" then handle_install id params now_ms
  else if String.eqb op "vault.update" then handle_update id params now_ms
  else if String.eqb op "vault.rekey" then handle_rekey id params now_ms
  else if String.eqb op "time.status" then handle_time_status id
  else if String.eqb op "time.sync" then handle_time_sync id params
  else if String.eqb op "device.lock" then handle_lock id
  else if String.eqb op "factory_reset" then handle_plain_reset id
  else fn (mret (error_response id "unsupported_op")).

Definition disconnect_with (response : json) : protocol_op json := fn (
  call disconnect;;
  mret response).

Definition handle_line (line : bytes) (now_ms clock_ms : Z) : protocol_op json := fn (
  call (housekeeping now_ms);;
  if Nat.eqb (length line) 0 then leave (error_response 0 "invalid_request")
  else if Nat.ltb kMaxCanonicalV2MessageBytes (length line) then
    call (disconnect_with (error_response 0 "message_too_large"))
  else
    match cJSON_ParseWithLength line with
    | Some (JObject members) =>
      match request_header (JObject members) with
      | inl (id, code) => call (disconnect_with (error_response id code))
      | inr (id, op, params) => call (route line id (text op) params now_ms clock_ms)
      end
    | _ => call (disconnect_with (error_response 0 "invalid_json"))
    end).
End Protocol.
