(* ===== verification/CanonicalProtocolCorrect.v ===== *)
(** * Correctness of the protocol

    What a line from the host can and cannot do to the device: the Vault goes
    only after a confirmation on the device for that very reset; a line that is
    not a request ends everything under way; the automatic lock is enforced
    before anything else is done. *)

From S2P Require Import Prelude Bytes VaultFormat VaultCrypto Persistence Runtime RuntimeCorrect.
From S2P Require Import Psa DeviceSession UserPresence Base64url Transcript Attempt AttemptCorrect Binding Json.
From S2P Require Import RegistrationStore VmkSink VmkSinkCorrect SessionHandler SessionHandlerCorrect.
From S2P Require Import TrustedTime TimeService TimeServiceCorrect Random CanonicalProtocol.

(** Executes a protocol operation down to the operations of the components. *)
Ltac split_call E x :=
  destruct x eqn:?; apply pair_eq in E; destruct E; subst.
Ltac exec_protocol H :=
  repeat (exec_step H;
    repeat match goal with
    | E : sink_cancel_pending _ = _ |- _ => unfold sink_cancel_pending in E
    | E : in_sink _ _ = _ |- _ => unfold in_sink in E
    | E : in_presence _ _ = _ |- _ => unfold in_presence in E
    | E : in_session ?f ?s = _ |- _ => unfold in_session in E; split_call E (f (session_handler_ s))
    | E : on_device ?f ?s = _ |- _ => unfold on_device in E; split_call E (f (device_ s))
    | E : on_coordinator ?f ?s = _ |- _ => unfold on_coordinator in E; split_call E (f (coordinator_ s))
    | E : on_presence ?f ?s = _ |- _ => unfold on_presence in E; split_call E (f (presence_ s))
    | E : in_runtime ?f ?s = _ |- _ => unfold in_runtime in E; split_call E (f (runtime_ s))
    | E : in_registration ?f ?s = _ |- _ => unfold in_registration in E; split_call E (f (registration_ s))
    | E : in_time ?f ?s = _ |- _ => unfold in_time in E; split_call E (f (time_service_ s))
    | E : in_random ?f ?s = _ |- _ => unfold in_random in E; split_call E (f (random_ s))
    | E : (tt, _) = (_, _) |- _ => apply pair_eq in E; destruct E; subst
    end).

Section RuntimeVault.
Context `{MbedtlsGcm} {P : Type} `{Persistence P}.
Implicit Types (r : Runtime P).

(** Whether there is a Vault is decided by installing and resetting alone. *)
Definition same_vault r r' : Prop := has_vault_ r' = has_vault_ r.

Lemma unlock_same_vault k now r st r' : unlock k now r = (st, r') → same_vault r r'.
Proof. intros E. unfold unlock in E. by exec E. Qed.
Lemma recovery_same_vault r st r' : enter_recovery_boundary r = (st, r') → same_vault r r'.
Proof. intros E. unfold enter_recovery_boundary in E. by exec E. Qed.
Lemma lock_same_vault r st r' : lock r = (st, r') → same_vault r r'.
Proof. apply recovery_same_vault. Qed.
Lemma boundary_same_vault r st r' : enter_vmk_rekey_boundary r = (st, r') → same_vault r r'.
Proof. intros E. unfold enter_vmk_rekey_boundary in E. by exec E. Qed.
Lemma fatal_same_vault r st r' : fatal_security_error r = (st, r') → same_vault r r'.
Proof. intros E. unfold fatal_security_error in E. by exec E. Qed.
Lemma update_same_vault g e now r st r' : update_encrypted_vault g e now r = (st, r') → same_vault r r'.
Proof.
  intros E. unfold update_encrypted_vault in E. exec_rt E; try done.
  all: try (apply fatal_same_vault in Ef1; exact Ef1).
  unfold same_vault. cbn. bools. congruence.
Qed.
Lemma rekey_same_vault g e k now r st r' : rekey_encrypted_vault g e k now r = (st, r') → same_vault r r'.
Proof.
  intros E. unfold rekey_encrypted_vault in E. exec_rt E; try done.
  unfold same_vault. cbn. bools. congruence.
Qed.
End RuntimeVault.

Section SinkVault.
Context `{MbedtlsGcm} {P G : Type} `{Persistence P} `{RegistrationStore G}.
Implicit Types (s : CanonicalVmkSink P G).

Definition installs (operation : Operation.t) : Prop :=
  operation = Operation.kInitialProvisioning ∨ operation = Operation.kRecovery.
(** A key that waits for a first envelope waits on a device without a Vault. *)
Definition tidy s : Prop :=
  pending_ s = true → installs (context_operation (pending_context_ s)) → has_vault_ (runtime_ s) = false.
Definition keeps s s' : Prop :=
  (has_vault_ (runtime_ s) = true → has_vault_ (runtime_ s') = true) ∧ tidy s'.

Lemma same_keeps s s' :
  tidy s → same_vault (runtime_ s) (runtime_ s') → pending_ s' = false ∨
    pending_ s' = pending_ s ∧ pending_context_ s' = pending_context_ s → keeps s s'.
Proof.
  unfold same_vault, tidy. intros Ht Hv Hp. split; [congruence|]. unfold tidy. intros Hp' Hi.
  destruct Hp as [Hp|[Hp Hc]]; [congruence|]. rewrite Hv. apply Ht; congruence.
Qed.

Lemma prepare_keeps context s b s' : tidy s → prepare_attempt context s = (b, s') → keeps s s'.
Proof.
  intros Ht E. unfold prepare_attempt in E. exec_sink E; apply same_keeps; auto; try done.
  all: cbn in *; eauto using recovery_same_vault, boundary_same_vault.
Qed.

Lemma unlock_and_replace_vault context vmk now s b s' :
  unlock_and_replace context vmk now s = (b, s') →
  same_vault (runtime_ s) (runtime_ s') ∧ pending_ s' = pending_ s.
Proof.
  intros E. unfold unlock_and_replace in E. exec_sink E; cbn in *; (split; [|done]); unfold same_vault in *.
  - done.
  - by apply unlock_same_vault in Heqp.
  - apply lock_same_vault in Heqp1. apply unlock_same_vault in Heqp. unfold same_vault in *. congruence.
  - by apply unlock_same_vault in Heqp.
Qed.

Lemma install_vmk_keeps context vmk now s b s' :
  tidy s → (context_operation context = Operation.kInitialProvisioning → has_vault_ (runtime_ s) = false) →
  install_vmk context vmk now s = (b, s') → keeps s s'.
Proof.
  intros Ht Hi E. unfold install_vmk in E. exec_sink E.
  all: try (apply same_keeps; [done|done|by left]).
  - apply same_keeps; [done|by eapply unlock_same_vault|by left].
  - split; [done|]. intros _ _. cbn. auto.
  - split; [done|]. intros _ _. unfold metadata in Em0. case_match; [done|]. injection Em0 as <-.
    cbn in *. by apply negb_true_iff in Eb.
  - apply unlock_and_replace_vault in E as [? Hp]. apply same_keeps; auto.
  - apply unlock_and_replace_vault in E as [? Hp]. apply same_keeps; auto.
  - split; [done|]. intros _ [? | ?]; cbn in *; congruence.
Qed.

Lemma install_and_register_ends envelope now s b s' :
  install_and_register envelope now s = (b, s') → pending_ s' = false.
Proof. intros E. unfold install_and_register in E. by exec_sink E. Qed.

Lemma valid_same operation now s b s' :
  pending_valid operation now s = (b, s') →
  runtime_ s' = runtime_ s ∧
  (b = true → pending_ s = true ∧ context_operation (pending_context_ s) = operation).
Proof.
  intros E. apply pending_valid_cases in E as [Hs Hb]. split; [by destruct Hs as [-> | ->]|].
  intros Hx. by destruct (Hb Hx) as (_ & ? & _ & _ & ?).
Qed.

Lemma install_initial_keeps envelope now s b s' :
  tidy s → install_initial_vault envelope now s = (b, s') → keeps s s'.
Proof.
  intros Ht E. unfold install_initial_vault in E. exec_step E.
  apply valid_same in Ef as [Hr Hv]. exec E.
  - apply same_keeps; [done|by unfold same_vault; cbn; rewrite Hr|by left].
  - destruct a; [|done]. destruct (Hv eq_refl) as [Hp Ho].
    apply install_and_register_ends in E. split; [|by intros ?; congruence].
    intros Hh. rewrite Ht in Hh; [done|done|by left].
Qed.
Lemma install_recovered_keeps envelope now s b s' :
  tidy s → install_recovered_vault envelope now s = (b, s') → keeps s s'.
Proof.
  intros Ht E. unfold install_recovered_vault in E. exec_step E.
  apply valid_same in Ef as [Hr Hv]. exec E.
  - apply same_keeps; [done|by unfold same_vault; cbn; rewrite Hr|by left].
  - destruct a; [|done]. destruct (Hv eq_refl) as [Hp Ho].
    apply install_and_register_ends in E. split; [|by intros ?; congruence].
    intros Hh. rewrite Ht in Hh; [done|done|by right].
Qed.

Lemma install_rekeyed_keeps n envelope now s b s' :
  tidy s → install_rekeyed_vault n envelope now s = (b, s') → keeps s s'.
Proof.
  intros Ht E. unfold install_rekeyed_vault in E. exec_sink E; apply valid_same in Ef as [Hr _].
  - apply same_keeps; [done|by unfold same_vault; cbn; rewrite Hr|by left].
  - apply same_keeps; [done| |by left]. apply rekey_same_vault in Heqp. unfold same_vault in *. cbn in *.
    congruence.
Qed.

Lemma expire_keeps now s b s' : tidy s → expire_pending now s = (b, s') → keeps s s'.
Proof.
  intros Ht E. unfold expire_pending in E. destruct (_ || _); apply pair_eq in E as [_ <-];
    (apply same_keeps; [done|done|]); [by right|by left].
Qed.
Lemma cancel_keeps s : tidy s → keeps s (cancel_pending s).
Proof. intros Ht. apply same_keeps; [done|done|by left]. Qed.
Lemma arm_keeps now s : tidy s → keeps s (arm_pending_deadline now s).
Proof.
  intros Ht. unfold arm_pending_deadline. destruct (negb (pending_ s)); (apply same_keeps; [done|done|by right]).
Qed.
Lemma keeps_refl s : tidy s → keeps s s.
Proof. by split. Qed.
Lemma keeps_trans s1 s2 s3 : keeps s1 s2 → keeps s2 s3 → keeps s1 s3.
Proof. intros [? ?] [? ?]. split; auto. Qed.
Lemma runtime_keeps s r : tidy s → same_vault (runtime_ s) r → keeps s (s <| runtime_ := r |>).
Proof. intros Ht Hr. apply same_keeps; [done|done|by right]. Qed.

(** A device a first Vault is delivered to has none. *)
Lemma binding_clean s snapshot context :
  binding_snapshot (runtime_ s) (registration_ s) = Some snapshot →
  session_v2_begin_matches_snapshot context snapshot = true →
  context_operation context = Operation.kInitialProvisioning → has_vault_ (runtime_ s) = false.
Proof.
  intros Hb Hm Ho. unfold session_v2_begin_matches_snapshot in Hm. case_match; [done|]. rewrite Ho in Hm.
  apply andb_true_iff in Hm as [Hm _]. repeat (apply andb_true_iff in Hm as [Hm _]).
  unfold clean_unprovisioned_snapshot in Hm. repeat (apply andb_true_iff in Hm as [Hm _]).
  apply negb_true_iff in Hm. unfold binding_snapshot, metadata in Hb.
  repeat case_match; simplify_eq/=; congruence.
Qed.
End SinkVault.

Lemma sync_usb_runtime `{MbedtlsGcm} {P N} `{Persistence P} `{EspNetwork N} unix
    (s s' : Runtime P * TimeService N) r : sync_from_usb unix s = (r, s') → fst s' = fst s.
Proof.
  intros E. unfold sync_from_usb in E. exec E; try done.
  - by apply net_service_inv in Ef as (? & _).
  - apply net_service_inv in Ef as (? & _). apply net_service_inv in Ef0 as (? & _). cbn. congruence.
Qed.

Section Kept.
Context `{GcmLaws} {P G R K N Q : Type} `{Persistence P} `{RegistrationStore G} `{PresenceBindingLaws R}
  `{PsaLaws K} `{EspNetwork N} `{EspRandom Q}.
Context (cJSON_ParseWithLength : bytes → option json) (metadata_ : DeviceMetadata).
Abbreviation Protocol := (CanonicalProtocolV2Handler P G R K N Q).
Implicit Types (p : Protocol).

Definition protocol_ok p : Prop := handler_ok (session_handler_ p) ∧ tidy (protocol_sink p).

(** Since [p0], the Vault has not gone. *)
Definition kept p0 p : Prop := handler_ok (session_handler_ p) ∧ keeps (protocol_sink p0) (protocol_sink p).

Lemma kept_refl p : protocol_ok p → kept p p.
Proof. intros [? ?]. split; [done|by apply keeps_refl]. Qed.
Lemma kept_ok p0 p : kept p0 p → protocol_ok p.
Proof. intros [? [? ?]]. by split. Qed.

Section From.
Context (p0 : Protocol).

Lemma kept_session {A} (f : handler_op A) p a p' :
  kept p0 p → in_session f p = (a, p') →
  (∀ h', handler_ok (session_handler_ p) → f (session_handler_ p) = (a, h') →
     handler_ok h' ∧ keeps (device_ (session_handler_ p)) (device_ h')) →
  kept p0 p'.
Proof.
  intros [Hh Hk] E Hf. unfold in_session in E. destruct (f (session_handler_ p)) as [b h] eqn:Ef.
  apply pair_eq in E as [<- <-]. destruct (Hf h Hh eq_refl) as [Hh' Hk'].
  split; [done|]. by eapply keeps_trans.
Qed.

Lemma kept_sink {A} (f : sink_op A) p a p' :
  kept p0 p → (∀ s b s', tidy s → f s = (b, s') → keeps s s') → in_sink f p = (a, p') → kept p0 p'.
Proof.
  intros Hp Hf E. eapply kept_session; [done|exact E|]. intros h' Hh Eh. unfold on_device in Eh.
  destruct (f (device_ (session_handler_ p))) as [b s] eqn:Es. apply pair_eq in Eh as [_ <-].
  split; [by destruct Hh|]. eapply Hf; [|exact Es]. apply Hp.
Qed.

Lemma kept_runtime {A} (f : Runtime P → A * Runtime P) p a p' :
  kept p0 p → (∀ r b r', f r = (b, r') → same_vault r r') → in_sink (in_runtime f) p = (a, p') → kept p0 p'.
Proof.
  intros Hp Hf E. eapply kept_sink; [done| |exact E]. intros s b s' Ht Es. unfold in_runtime in Es.
  destruct (f (runtime_ s)) as [c r] eqn:Er. apply pair_eq in Es as [_ <-]. apply runtime_keeps; eauto.
Qed.

Lemma kept_presence {A} (f : R → A * R) p a p' : kept p0 p → in_presence f p = (a, p') → kept p0 p'.
Proof.
  intros Hp E. eapply kept_session; [done|exact E|]. intros h' Hh Eh. unfold on_coordinator, on_presence in Eh.
  destruct (f (presence_ (coordinator_ (session_handler_ p)))) as [b pr] eqn:Es.
  cbn in Eh. apply pair_eq in Eh as [_ <-]. split; [by apply going_ok|]. apply keeps_refl, Hp.
Qed.

Lemma kept_time {A} (f : service_op A) p a p' : kept p0 p → in_time f p = (a, p') → kept p0 p'.
Proof.
  intros Hp E. unfold in_time in E. destruct (f (time_service_ p)). by apply pair_eq in E as [_ <-].
Qed.
Lemma kept_random {A} (f : Q → A * Q) p a p' : kept p0 p → in_random f p = (a, p') → kept p0 p'.
Proof.
  intros Hp E. unfold in_random in E. destruct (f (random_ p)). by apply pair_eq in E as [_ <-].
Qed.

Lemma kept_disconnect p a p' : kept p0 p → in_session handler_disconnect p = (a, p') → kept p0 p'.
Proof.
  intros Hp E. eapply kept_session; [done|exact E|]. intros h' Hh Eh.
  pose proof (disconnect_handled _ _ _ Eh) as [Hn _]. split; [by apply no_attempt_ok|].
  unfold handler_disconnect in Eh. exec_handler Eh. apply keeps_refl, Hp.
Qed.

Lemma kept_expire now_ms p a p' : kept p0 p → in_session (handler_expire now_ms) p = (a, p') → kept p0 p'.
Proof.
  intros Hp E. eapply kept_session; [done|exact E|]. intros h' Hh Eh.
  pose proof (handler_expire_handled _ _ _ _ Hh Eh) as [Hn _]. split; [done|].
  unfold handler_expire in Eh. exec_handler Eh; apply keeps_refl, Hp.
Qed.

Lemma kept_line line now_ms clock_ms p a p' :
  kept p0 p → in_session (session_handle_line cJSON_ParseWithLength line now_ms clock_ms) p = (a, p') →
  kept p0 p'.
Proof.
  intros Hp E. eapply kept_session; [done|exact E|]. intros h' Hh Eh.
  apply session_line_handled in Eh as (Hn & _ & _ & Hd); [|done]. split; [done|].
  destruct Hd as [-> | (snapshot & nonce & ct & tag & vmk & c1 & b & _ & Hs & Hm & _ & Hi)].
  - apply keeps_refl, Hp.
  - cbn in Hs, Hi. eapply install_vmk_keeps; [apply Hp| |exact Hi]. intros Ho. by eapply binding_clean.
Qed.

Lemma kept_cancel p a p' : kept p0 p → sink_cancel_pending p = (a, p') → kept p0 p'.
Proof.
  intros Hp E. eapply kept_sink; [done| |exact E]. intros s b s' Ht Es.
  apply pair_eq in Es as [_ <-]. by apply cancel_keeps.
Qed.

Lemma kept_arm now_ms p a p' :
  kept p0 p → in_sink (λ s, (tt, arm_pending_deadline now_ms s)) p = (a, p') → kept p0 p'.
Proof.
  intros Hp E. eapply kept_sink; [done| |exact E]. intros s b s' Ht Es.
  apply pair_eq in Es as [_ <-]. by apply arm_keeps.
Qed.

(** *** The composite operations *)

#[local] Ltac kept_hyp := match goal with Hk : kept _ _ |- _ => exact Hk end.
#[local] Ltac kept_call E :=
  first [ eapply kept_presence; [|exact E]; kept_hyp
        | eapply kept_time; [|exact E]; kept_hyp
        | eapply kept_random; [|exact E]; kept_hyp
        | eapply kept_disconnect; [|exact E]; kept_hyp
        | eapply kept_expire; [|exact E]; kept_hyp
        | eapply kept_line; [|exact E]; kept_hyp
        | eapply kept_cancel; [|exact E]; kept_hyp
        | eapply kept_arm; [|exact E]; kept_hyp
        | eapply kept_runtime; [| |exact E]; [kept_hyp|]; intros;
            eauto using unlock_same_vault, lock_same_vault, recovery_same_vault, update_same_vault
        | eapply kept_sink; [| |exact E]; [kept_hyp|]; intros;
            eauto using prepare_keeps, install_initial_keeps, install_recovered_keeps,
              install_rekeyed_keeps, expire_keeps ].
#[local] Ltac keep_with tac :=
  repeat match goal with
  | E : ?f ?p = (_, ?q) |- _ =>
      lazymatch type of q with CanonicalProtocolV2Handler _ _ _ _ _ _ => idtac end;
      let Kq := fresh "K" in assert (Kq : kept p0 q) by (first [kept_call E | tac E]); clear E
  end; try kept_hyp.
#[local] Ltac nothing E := fail.

Lemma kept_cancel_healthy p a p' : kept p0 p → cancel_healthy_factory_reset p = (a, p') → kept p0 p'.
Proof. intros Hp E. unfold cancel_healthy_factory_reset in E. exec E; keep_with nothing. Qed.
Lemma kept_cancel_recovery p a p' : kept p0 p → cancel_recovery_reset p = (a, p') → kept p0 p'.
Proof. intros Hp E. unfold cancel_recovery_reset in E. exec E; keep_with nothing. Qed.
#[local] Ltac resets E :=
  first [ eapply kept_cancel_healthy; [|exact E]; kept_hyp | eapply kept_cancel_recovery; [|exact E]; kept_hyp ].

Lemma kept_protocol_disconnect p a p' : kept p0 p → disconnect p = (a, p') → kept p0 p'.
Proof. intros Hp E. unfold disconnect in E. exec E; keep_with resets. Qed.

Lemma kept_lock p a p' : kept p0 p → lock_security_boundary p = (a, p') → kept p0 p'.
Proof. intros Hp E. unfold lock_security_boundary, with_secret_boundary in E. exec E; keep_with resets. Qed.
#[local] Ltac boundaries E :=
  first [ resets E | eapply kept_lock; [|exact E]; kept_hyp | eapply kept_protocol_disconnect; [|exact E]; kept_hyp ].

Lemma kept_housekeeping now_ms p a p' : kept p0 p → housekeeping now_ms p = (a, p') → kept p0 p'.
Proof. intros Hp E. unfold housekeeping in E. exec E; keep_with boundaries. Qed.

Lemma kept_prepare operation p a p' : kept p0 p → prepare_session operation p = (a, p') → kept p0 p'.
Proof. intros Hp E. unfold prepare_session, with_secret_boundary in E. exec E; keep_with boundaries. Qed.
#[local] Ltac sessions E := first [ boundaries E | eapply kept_prepare; [|exact E]; kept_hyp ].

Lemma kept_handle_session line id op params now_ms clock_ms p a p' :
  kept p0 p → handle_session cJSON_ParseWithLength line id op params now_ms clock_ms p = (a, p') → kept p0 p'.
Proof. intros Hp E. unfold handle_session in E. exec E; keep_with sessions. Qed.

Lemma kept_reset_begin id now_ms p a p' : kept p0 p → handle_reset_begin id now_ms p = (a, p') → kept p0 p'.
Proof. intros Hp E. unfold handle_reset_begin in E. exec E; keep_with boundaries. Qed.
Lemma kept_reset_status id params now_ms p a p' :
  kept p0 p → handle_reset_status id params now_ms p = (a, p') → kept p0 p'.
Proof. intros Hp E. unfold handle_reset_status, check_healthy_reset in E. exec E; keep_with boundaries. Qed.
Lemma kept_reset_cancel id params now_ms p a p' :
  kept p0 p → handle_reset_cancel id params now_ms p = (a, p') → kept p0 p'.
Proof. intros Hp E. unfold handle_reset_cancel, check_healthy_reset in E. exec E; keep_with boundaries. Qed.

Lemma kept_enter m p a p' : kept p0 p → with_secret_boundary (enter_recovery m) p = (a, p') → kept p0 p'.
Proof. intros Hp E. unfold with_secret_boundary, enter_recovery in E. exec E; keep_with boundaries. Qed.
#[local] Ltac recoveries E := first [ boundaries E | eapply kept_enter; [|exact E]; kept_hyp ].

Lemma kept_recovery_begin id now_ms p a p' : kept p0 p → handle_recovery_begin id now_ms p = (a, p') → kept p0 p'.
Proof. intros Hp E. unfold handle_recovery_begin in E. exec E; keep_with recoveries. Qed.
Lemma kept_recovery_status id params now_ms p a p' :
  kept p0 p → handle_recovery_status id params now_ms p = (a, p') → kept p0 p'.
Proof. intros Hp E. unfold handle_recovery_status, check_recovery_reset in E. exec E; keep_with boundaries. Qed.

Lemma kept_install id params now_ms p a p' : kept p0 p → handle_install id params now_ms p = (a, p') → kept p0 p'.
Proof. intros Hp E. unfold handle_install in E. exec E; keep_with boundaries. Qed.
Lemma kept_update id params now_ms p a p' : kept p0 p → handle_update id params now_ms p = (a, p') → kept p0 p'.
Proof. intros Hp E. unfold handle_update in E. exec E; keep_with boundaries. Qed.
Lemma kept_rekey id params now_ms p a p' : kept p0 p → handle_rekey id params now_ms p = (a, p') → kept p0 p'.
Proof. intros Hp E. unfold handle_rekey in E. exec E; keep_with boundaries. Qed.
Lemma kept_handle_lock id p a p' : kept p0 p → handle_lock id p = (a, p') → kept p0 p'.
Proof. intros Hp E. unfold handle_lock in E. exec E; keep_with boundaries. Qed.

Lemma kept_time_sync id params p a p' : kept p0 p → handle_time_sync id params p = (a, p') → kept p0 p'.
Proof.
  intros Hp E. unfold handle_time_sync in E. exec E; [|kept_hyp]. unfold in_sync in Ef.
  destruct (sync_from_usb z _) as [b [r t]] eqn:Es. apply pair_eq in Ef as [_ <-].
  apply sync_usb_runtime in Es. cbn in Es. destruct Hp as [Hh Hk]. split; [by destruct Hh|].
  eapply keeps_trans; [exact Hk|]. apply runtime_keeps; [apply Hk|]. unfold same_vault. by rewrite Es.
Qed.
End From.

(** What it takes to have consumed a confirmation of a reset: the user has
    confirmed the attempt, which is the one under way and has not expired. *)
Definition reset_confirmed (now_ms : Z) p : Prop :=
  ∃ attempt, presence_given (reset_presence_ p) attempt ∧
    (reset_active (healthy_factory_reset_ p) = true ∧
       same_attempt attempt (reset_attempt_id (healthy_factory_reset_ p)) = true ∧
       now_ms < reset_deadline_ms (healthy_factory_reset_ p) ∨
     recovery_reset_active_ p = true ∧ same_attempt attempt (recovery_reset_attempt_id_ p) = true ∧
       now_ms < recovery_reset_deadline_ms_ p).

Lemma reset_tidy (s : CanonicalVmkSink P G) a s' : tidy s → in_runtime factory_reset s = (a, s') → tidy s'.
Proof.
  intros Ht E. unfold in_runtime in E. destruct (factory_reset (runtime_ s)) as [b r] eqn:Er.
  apply pair_eq in E as [_ <-]. unfold tidy in *. cbn. intros Hp Hi.
  unfold factory_reset in Er. exec_rt Er; cbn; auto.
Qed.

Lemma consumed_given attempt now_ms p b p' :
  in_presence (consume_presence attempt now_ms) p = (b, p') → b = true →
  presence_given (reset_presence_ p) attempt.
Proof.
  intros E ->. unfold in_presence, in_session, on_coordinator, on_presence in E.
  destruct (consume_presence _ _ _) as [b pr] eqn:Ec. apply pair_eq in E as [-> _].
  by apply consume_presence_law in Ec as [? _].
Qed.

Lemma ok_sink {A} (f : sink_op A) p a p' :
  protocol_ok p → (∀ s b s', tidy s → f s = (b, s') → tidy s') → in_sink f p = (a, p') → protocol_ok p'.
Proof.
  intros [Hh Ht] Hf E. unfold in_sink, in_session, on_device in E.
  destruct (f (device_ (session_handler_ p))) as [b s] eqn:Es. apply pair_eq in E as [_ <-].
  split; [by destruct Hh|]. by eapply Hf.
Qed.

Lemma registration_tidy {A} (f : G → A * G) (s : CanonicalVmkSink P G) a s' :
  tidy s → in_registration f s = (a, s') → tidy s'.
Proof.
  intros Ht E. unfold in_registration in E. destruct (f (registration_ s)). by apply pair_eq in E as [_ <-].
Qed.

#[local] Ltac okay_hyp := match goal with Hk : protocol_ok _ |- _ => exact Hk end.
#[local] Ltac okay :=
  repeat match goal with
  | E : in_time _ _ = (_, ?q) |- _ =>
      assert (protocol_ok q) by (eapply kept_ok, kept_time; [apply kept_refl; okay_hyp|exact E]); clear E
  | E : in_sink _ _ = (_, ?q) |- _ =>
      assert (protocol_ok q) by
        (eapply ok_sink; [okay_hyp| |exact E]; intros; eauto using reset_tidy, registration_tidy); clear E
  end; okay_hyp.

Lemma erase_vault_first_ok p a p' :
  protocol_ok p → with_secret_boundary erase_vault_then_registration p = (a, p') → protocol_ok p'.
Proof.
  intros Hp E. unfold with_secret_boundary, erase_vault_then_registration in E. exec E.
  all: okay.
Qed.

Lemma erase_registration_first_ok status p a p' :
  protocol_ok p → with_secret_boundary (erase_registration_then_vault status) p = (a, p') → protocol_ok p'.
Proof.
  intros Hp E. unfold with_secret_boundary, erase_registration_then_vault in E. exec E.
  all: okay.
Qed.

(** What the two completing messages may do. *)
Definition reset_outcome (now_ms : Z) p p' : Prop := protocol_ok p' ∧ (kept p p' ∨ reset_confirmed now_ms p).
Lemma outcome_kept now_ms p p' : kept p p' → reset_outcome now_ms p p'.
Proof. intros Hk. split; [by eapply kept_ok|by left]. Qed.

Lemma commit_outcome id params now_ms p a p' :
  protocol_ok p → handle_reset_commit id params now_ms p = (a, p') → reset_outcome now_ms p p'.
Proof.
  intros Hp E. pose proof (kept_refl p Hp) as Hk. unfold handle_reset_commit, check_healthy_reset in E. exec E.
  all: try (apply outcome_kept; first [exact Hk | by eapply kept_presence | by eapply kept_cancel_healthy]).
  all: assert (Hs : kept p s) by (by eapply kept_presence).
  - apply outcome_kept. exact Hs.
  - split.
    + eapply erase_vault_first_ok; [|exact Ef3].
      eapply kept_ok, kept_cancel_recovery; [|exact Ef2].
      eapply kept_cancel; [|exact Ef1]. eapply kept_disconnect; [|exact Ef0]. exact Hs.
    + right. exists l. split; [eapply consumed_given; [exact Ef|by apply negb_false_iff]|left].
      unfold reset_check in Em0. repeat (case_match; try done).
      rewrite Z.geb_leb in *. split_and!; [by apply negb_false_iff|by apply negb_false_iff|by apply Z.leb_gt].
Qed.

Lemma complete_outcome id params now_ms p a p' :
  protocol_ok p → handle_recovery_complete id params now_ms p = (a, p') → reset_outcome now_ms p p'.
Proof.
  intros Hp E. pose proof (kept_refl p Hp) as Hk. unfold handle_recovery_complete, check_recovery_reset in E.
  exec E.
  all: try (apply outcome_kept; first [exact Hk | by eapply kept_presence | by eapply kept_cancel_recovery]).
  all: assert (Hs : kept p s) by (by eapply kept_presence).
  - apply outcome_kept. exact Hs.
  - split; [eapply erase_registration_first_ok; [|exact Ef0]; eapply kept_ok; exact Hs|].
    right. exists l. split; [eapply consumed_given; [exact Ef|by apply negb_false_iff]|right].
    apply orb_false_iff in Eb as [Ha Hsame]. rewrite Z.geb_leb in *.
    split_and!; [by apply negb_false_iff|by apply negb_false_iff|by apply Z.leb_gt].
Qed.

Lemma route_outcome line id op params now_ms clock_ms p a p' :
  protocol_ok p → route cJSON_ParseWithLength metadata_ line id op params now_ms clock_ms p = (a, p') →
  reset_outcome now_ms p p'.
Proof.
  intros Hp E. pose proof (kept_refl p Hp) as Hk. unfold route in E.
  repeat match type of E with (if ?b then _ else _) _ = _ => destruct b end.
  - apply outcome_kept. by eapply kept_handle_session.
  - apply outcome_kept. unfold handle_hello in E. exec E; exact Hk.
  - apply outcome_kept. by eapply kept_reset_begin.
  - apply outcome_kept. by eapply kept_reset_status.
  - apply outcome_kept. by eapply kept_reset_cancel.
  - by eapply commit_outcome.
  - apply outcome_kept. by eapply kept_recovery_begin.
  - apply outcome_kept. by eapply kept_recovery_status.
  - by eapply complete_outcome.
  - apply outcome_kept. by eapply kept_install.
  - apply outcome_kept. by eapply kept_update.
  - apply outcome_kept. by eapply kept_rekey.
  - apply outcome_kept. unfold handle_time_status in E. exec E. by eapply kept_time.
  - apply outcome_kept. by eapply kept_time_sync.
  - apply outcome_kept. by eapply kept_handle_lock.
  - apply outcome_kept. unfold handle_plain_reset in E. exec E; exact Hk.
  - apply outcome_kept. exec E. exact Hk.
Qed.

(** *** Reachable states *)

(** Lines, the housekeeping task and disconnections; in between, the button acts
    on the presence, the user interface and the time task on the runtime (which
    never install or erase a Vault), and the clock on the time service. *)
Inductive protocol_step : Protocol → Protocol → Prop :=
  | protocol_line line now_ms clock_ms p response p' :
      handle_line cJSON_ParseWithLength metadata_ line now_ms clock_ms p = (response, p') → protocol_step p p'
  | protocol_housekeeping now_ms p x p' : housekeeping now_ms p = (x, p') → protocol_step p p'
  | protocol_disconnect p x p' : disconnect p = (x, p') → protocol_step p p'
  | protocol_presence (f : R → unit * R) p x p' : in_presence f p = (x, p') → protocol_step p p'
  | protocol_runtime_step (f : Runtime P → unit * Runtime P) p x p' :
      (∀ r b r', f r = (b, r') → same_vault r r') → in_sink (in_runtime f) p = (x, p') → protocol_step p p'
  | protocol_time t p : protocol_step p (p <| time_service_ := t |>).

Inductive protocol_reachable : Protocol → Prop :=
  | protocol_reachable_new pr k r g t q :
      protocol_reachable (new_protocol (new_handler (new_coordinator pr k) (new_sink r g)) t q)
  | protocol_reachable_step p p' : protocol_reachable p → protocol_step p p' → protocol_reachable p'.

Lemma line_outcome line now_ms clock_ms p response p' :
  protocol_ok p → handle_line cJSON_ParseWithLength metadata_ line now_ms clock_ms p = (response, p') →
  ∃ p1, housekeeping now_ms p = (tt, p1) ∧ kept p p1 ∧ reset_outcome now_ms p1 p'.
Proof.
  intros Hp E. pose proof (kept_refl p Hp) as Hk. unfold handle_line in E. exec_step E.
  destruct a. exists s. split; [done|]. pose proof (kept_housekeeping p _ _ _ _ Hk Ef) as Hs.
  split; [done|]. apply kept_ok in Hs. pose proof (kept_refl s Hs) as Hks.
  unfold disconnect_with in E. exec E; try (apply outcome_kept; exact Hks).
  all: try (apply outcome_kept; by eapply kept_protocol_disconnect).
  by eapply route_outcome.
Qed.

Lemma new_ok pr k r g t q :
  protocol_ok (new_protocol (new_handler (new_coordinator pr k) (new_sink r g)) t q).
Proof.
  split; [|done]. split; [done|done|]. intros _. unfold wiped_context. cbn.
  split_and!; done || apply all_zero_zeros.
Qed.

Lemma reachable_protocol_ok p : protocol_reachable p → protocol_ok p.
Proof.
  induction 1 as [|p p' _ IH Hs]; [apply new_ok|]. pose proof (kept_refl p IH) as Hk.
  destruct Hs as [? ? ? ? ? ? E|? ? ? ? E|? ? ? E|? ? ? ? E|? ? ? ? Hf E|t p].
  - apply line_outcome in E as (p1 & _ & _ & [? _]); done.
  - eapply kept_ok, kept_housekeeping; [exact Hk|exact E].
  - eapply kept_ok, kept_protocol_disconnect; [exact Hk|exact E].
  - eapply kept_ok, kept_presence; [exact Hk|exact E].
  - eapply kept_ok, kept_runtime; [exact Hk|exact Hf|exact E].
  - exact IH.
Qed.

(** *** Ending everything *)

(** No attempt, no key that waits, no reset. *)
Definition quiet p : Prop :=
  no_attempt (session_handler_ p) ∧ pending_ (protocol_sink p) = false ∧
  reset_active (healthy_factory_reset_ p) = false ∧ recovery_reset_active_ p = false.

Lemma cancel_healthy_spec p x p' :
  cancel_healthy_factory_reset p = (x, p') →
  reset_active (healthy_factory_reset_ p') = false ∧ recovery_reset_active_ p' = recovery_reset_active_ p ∧
  protocol_sink p' = protocol_sink p ∧ (no_attempt (session_handler_ p) → no_attempt (session_handler_ p')).
Proof. intros E. unfold cancel_healthy_factory_reset in E. by exec_protocol E. Qed.
Lemma cancel_recovery_spec p x p' :
  cancel_recovery_reset p = (x, p') →
  recovery_reset_active_ p' = false ∧ healthy_factory_reset_ p' = healthy_factory_reset_ p ∧
  protocol_sink p' = protocol_sink p ∧ (no_attempt (session_handler_ p) → no_attempt (session_handler_ p')).
Proof. intros E. unfold cancel_recovery_reset in E. by exec_protocol E. Qed.
Lemma session_disconnect_spec p x p' :
  in_session handler_disconnect p = (x, p') →
  no_attempt (session_handler_ p') ∧ protocol_sink p' = protocol_sink p.
Proof.
  intros E. unfold in_session in E. destruct (handler_disconnect _) as [b h] eqn:Eh.
  apply pair_eq in E as [_ <-]. pose proof (disconnect_handled _ _ _ Eh) as [? _]. split; [done|].
  unfold handler_disconnect in Eh. by exec_handler Eh.
Qed.

Lemma quiet_sequence p x0 s0 x1 s1 x2 s2 x3 s3 :
  in_session handler_disconnect p = (x0, s0) → sink_cancel_pending s0 = (x1, s1) →
  cancel_healthy_factory_reset s1 = (x2, s2) → cancel_recovery_reset s2 = (x3, s3) →
  quiet s3 ∧ protocol_runtime s3 = protocol_runtime p ∧ protocol_registration s3 = protocol_registration p.
Proof.
  intros [Hn Hs]%session_disconnect_spec E (Hh & _ & Hs1 & Hn1)%cancel_healthy_spec
    (Hr & Hh' & Hs2 & Hn2)%cancel_recovery_spec.
  unfold sink_cancel_pending, in_sink, in_session, on_device in E. apply pair_eq in E as [_ <-].
  unfold protocol_runtime, protocol_registration. rewrite Hs2, Hs1. cbn. rewrite <- Hs.
  split; [|done]. split_and!; [by auto|by rewrite Hs2, Hs1|by rewrite Hh'|done].
Qed.

Lemma disconnect_quiet p x p' :
  disconnect p = (x, p') →
  quiet p' ∧ protocol_runtime p' = protocol_runtime p ∧ protocol_registration p' = protocol_registration p.
Proof. intros E. unfold disconnect in E. exec E. by eapply quiet_sequence. Qed.

Lemma locked_inside p x s st p' :
  quiet p → in_time teardown_network p = (x, s) → in_sink (in_runtime lock) s = (st, p') →
  quiet p' ∧ unlocked (protocol_runtime p') = false ∧ network_down (time_service_ p').
Proof.
  intros Hq Et El. unfold in_time in Et. split_call Et (teardown_network (time_service_ p)).
  apply teardown_spec in Heqp0 as [Hd _].
  unfold in_sink, in_session, on_device, in_runtime in El.
  destruct (lock _) as [b r] eqn:Er. cbn in El. apply pair_eq in El as [_ <-].
  apply lock_closed in Er. destruct Hq as (? & ? & ? & ?). by split_and!.
Qed.

Lemma lock_quiet p st p' :
  lock_security_boundary p = (st, p') →
  quiet p' ∧ unlocked (protocol_runtime p') = false ∧ network_down (time_service_ p').
Proof.
  intros E. unfold lock_security_boundary, with_secret_boundary in E. exec E.
  all: pose proof (quiet_sequence _ _ _ _ _ _ _ _ _ Ef Ef0 Ef1 Ef2) as (Hq & _ & _).
  all: by pose proof (locked_inside _ _ _ _ _ Hq Ef3 Ef4).
Qed.

Lemma healthy_runtime p x p' :
  cancel_healthy_factory_reset p = (x, p') → protocol_runtime p' = protocol_runtime p.
Proof. intros (_ & _ & Hs & _)%cancel_healthy_spec. unfold protocol_runtime. by rewrite Hs. Qed.
Lemma recovery_runtime p x p' : cancel_recovery_reset p = (x, p') → protocol_runtime p' = protocol_runtime p.
Proof. intros (_ & _ & Hs & _)%cancel_recovery_spec. unfold protocol_runtime. by rewrite Hs. Qed.
Lemma expiry_runtime now_ms p a s b p' :
  in_session (handler_expire now_ms) p = (a, s) → in_sink (expire_pending now_ms) s = (b, p') →
  protocol_runtime p' = protocol_runtime p.
Proof.
  intros E1 E2. unfold in_sink, in_session, on_device, handler_expire in E1, E2.
  destruct (fn _ _) as [c h] eqn:Eh in E1. apply pair_eq in E1 as [_ <-].
  destruct (expire_pending _ _) as [d sk] eqn:Es in E2. apply pair_eq in E2 as [_ <-].
  assert (Hd : device_ h = protocol_sink p) by (by exec_handler Eh).
  unfold expire_pending in Es. cbn in Es. unfold protocol_runtime, protocol_sink in *. rewrite <- Hd. cbn.
  destruct (_ || _); by apply pair_eq in Es as [_ <-].
Qed.

Lemma housekeeping_spec now_ms p x p' :
  housekeeping now_ms p = (x, p') →
  if automatic_lock_due now_ms (protocol_runtime p)
  then quiet p' ∧ unlocked (protocol_runtime p') = false ∧ network_down (time_service_ p')
  else protocol_runtime p' = protocol_runtime p.
Proof.
  intros E. unfold housekeeping in E. do 2 exec_step E.
  rewrite <- (expiry_runtime _ _ _ _ _ _ Ef Ef0). clear Ef Ef0. exec E.
  all: repeat match goal with
    | E : cancel_healthy_factory_reset _ = _ |- _ => apply healthy_runtime in E; rewrite <- E in *; clear E
    | E : cancel_recovery_reset _ = _ |- _ => apply recovery_runtime in E; rewrite <- E in *; clear E
    end.
  all: try match goal with Eb : automatic_lock_due _ _ = _ |- _ => rewrite Eb end.
  all: try done; by eapply lock_quiet.
Qed.

Lemma locked_not_due now_ms (r : Runtime P) : unlocked r = false → automatic_lock_due now_ms r = false.
Proof. intros Hu. unfold automatic_lock_due. destruct (auto_lock_days_ r); [|done]. by rewrite Hu. Qed.
End Kept.

Section Properties.
Context `{GcmLaws} {P G R K N Q : Type} `{Persistence P} `{RegistrationStore G} `{PresenceBindingLaws R}
  `{PsaLaws K} `{EspNetwork N} `{EspRandom Q}.
Context (cJSON_ParseWithLength : bytes → option json) (metadata_ : DeviceMetadata).
Abbreviation Protocol := (CanonicalProtocolV2Handler P G R K N Q).
Implicit Types (p : Protocol).

(** In every state the device can reach, a line from the host makes the Vault
    go only by completing a reset whose attempt - the one under way, before its
    deadline - the user has confirmed on the device.  No first Vault can be
    installed over an existing one either: a key that waits for a first envelope
    waits on a device without a Vault. *)
Theorem vault_erased_only_confirmed line now_ms clock_ms p response p' :
  protocol_reachable cJSON_ParseWithLength metadata_ p →
  handle_line cJSON_ParseWithLength metadata_ line now_ms clock_ms p = (response, p') →
  tidy (protocol_sink p) ∧ tidy (protocol_sink p') ∧
  (has_vault_ (protocol_runtime p) = true → has_vault_ (protocol_runtime p') = false →
   ∃ p1, housekeeping now_ms p = (tt, p1) ∧ reset_confirmed now_ms p1).
Proof.
  intros Hr%reachable_protocol_ok E. split; [apply Hr|]. split.
  { apply line_outcome in E as (p1 & _ & _ & [[_ Ht] _]); done. }
  intros Hv Hv'. apply line_outcome in E as (p1 & Hh & [_ [Hk _]] & _ & [[_ [Hk' _]] | Hc]); [|eauto|done].
  exfalso. apply Hk, Hk' in Hv. unfold protocol_runtime in Hv'. congruence.
Qed.

(** C21: The automatic lock is enforced before anything else: after housekeeping it
    is never due, and where it was due the Vault is locked, no attempt, no
    waiting key and no reset is left, and the network driver is down. *)
Theorem housekeeping_enforces_lock now_ms p x p' :
  housekeeping now_ms p = (x, p') →
  automatic_lock_due now_ms (protocol_runtime p') = false ∧
  (automatic_lock_due now_ms (protocol_runtime p) = true →
     unlocked (protocol_runtime p') = false ∧ quiet p' ∧ network_down (time_service_ p')).
Proof.
  intros E%housekeeping_spec. destruct (automatic_lock_due now_ms (protocol_runtime p)) eqn:Ed.
  - destruct E as (? & ? & ?). split; [by apply locked_not_due|done].
  - split; [by rewrite E|done].
Qed.

(** What is not a request: too long, not a JSON object, or without a proper
    identifier, version, operation and parameters. *)
Definition not_a_request (line : bytes) : Prop :=
  (kMaxCanonicalV2MessageBytes < length line)%nat ∨
  line ≠ [] ∧
  match cJSON_ParseWithLength line with
  | Some (JObject members) => ∃ id code, request_header (JObject members) = inl (id, code)
  | _ => True
  end.

(** A line that is not a request is answered with an error and ends everything
    under way - attempt, waiting key and resets - without touching the Vault or
    the registration. *)
Theorem junk_ends_everything line now_ms clock_ms p response p' :
  not_a_request line →
  handle_line cJSON_ParseWithLength metadata_ line now_ms clock_ms p = (response, p') →
  ∃ p1, housekeeping now_ms p = (tt, p1) ∧ response_ok response = false ∧ quiet p' ∧
    protocol_runtime p' = protocol_runtime p1 ∧ protocol_registration p' = protocol_registration p1.
Proof.
  intros Hn E. unfold handle_line in E. exec_step E. destruct a. exists s. split; [done|].
  assert (Hd : ∀ r, disconnect_with r s = (response, p') → response_ok r = false →
    response_ok response = false ∧ quiet p' ∧ protocol_runtime p' = protocol_runtime s ∧
    protocol_registration p' = protocol_registration s).
  { intros r Er Hr. unfold disconnect_with in Er. exec Er. split; [done|]. by eapply disconnect_quiet. }
  destruct (Nat.eqb_spec (length line) 0) as [Hl|Hl].
  { exfalso. destruct Hn as [Hn|[Hn _]]; [|by destruct line]. lia. }
  destruct (Nat.ltb_spec kMaxCanonicalV2MessageBytes (length line)) as [Hlong|Hlong].
  { rewrite fn_call_tail in E. by eapply Hd. }
  destruct Hn as [Hn|[_ Hn]]; [lia|].
  destruct (cJSON_ParseWithLength line) as [[| | | | |members]|];
    try (rewrite fn_call_tail in E; by eapply Hd).
  destruct Hn as (id & code & Hh). rewrite Hh in E. rewrite fn_call_tail in E. by eapply Hd.
Qed.
End Properties.

(** ** A factory reset, from the host's request to the erased Vault *)

Module ProtocolSample.
#[local] Existing Instance checksum_gcm.
#[local] Existing Instance checksum_gcm_laws.
#[local] Existing Instance TimeSample.good_network.

Definition registered : RegSnapshot :=
  registered_as (seqZ 1 16) sample_vault_id (seqZ 30 16) 1 HandlerSample.browser_key.
Definition stick : DeviceMetadata := mkDeviceMetadata (str "M5StickS3") (str "1.0.1") 2 2 1 (str "abc").
Definition reset_attempt : bytes := replicate 16 1.

Definition parse (line : bytes) : option json :=
  match line with
  | [1] => Some (HandlerSample.request "factory_reset.begin" [])
  | [2] => Some (HandlerSample.request "factory_reset.commit" [HandlerSample.binary "attempt_id" reset_attempt])
  | [3] => Some (JString (str "hello"))
  | _ => None
  end.

Abbreviation Protocol :=
  (CanonicalProtocolV2Handler MemoryStore MemoryRegistration CanonicalPresence ToyKeys Z Z).
Definition p0 : Protocol :=
  new_protocol (new_handler HandlerSample.idle_coordinator (new_sink Sample.opened registered))
    TimeSample.service 4.
Definition send (line : bytes) (now_ms : Z) (p : Protocol) : json * Protocol :=
  handle_line parse stick line now_ms now_ms p.
Definition p1 : Protocol := snd (send [1] 1000 p0).
Definition press (pr : CanonicalPresence) : unit * CanonicalPresence := (tt, AttemptSample.press pr).
Definition p2 : Protocol := snd (in_presence press p1).

Lemma protocol_send_pair line now_ms p :
  handle_line parse stick line now_ms now_ms p = (fst (send line now_ms p), snd (send line now_ms p)).
Proof. unfold send. apply surjective_pairing. Qed.
Lemma reachable_p0 : protocol_reachable parse stick p0.
Proof. apply protocol_reachable_new. Qed.
Lemma reachable_p1 : protocol_reachable parse stick p1.
Proof.
  exact (protocol_reachable_step _ _ _ _ reachable_p0
    (protocol_line parse stick [1] 1000 1000 p0 _ _ (protocol_send_pair [1] 1000 p0))).
Qed.
Lemma reachable_p2 : protocol_reachable parse stick p2.
Proof.
  exact (protocol_reachable_step _ _ _ _ reachable_p1
    (protocol_presence parse stick press p1 _ _ (surjective_pairing (in_presence press p1)))).
Qed.

Lemma vault_erased_only_confirmed_witness :
  has_vault_ (protocol_runtime p2) = true ∧ has_vault_ (protocol_runtime (snd (send [2] 4000 p2))) = false ∧
  ∃ q, housekeeping 4000 p2 = (tt, q) ∧ reset_confirmed 4000 q.
Proof.
  assert (Hv : has_vault_ (protocol_runtime p2) = true) by (vm_compute; reflexivity).
  assert (Hv' : has_vault_ (protocol_runtime (snd (send [2] 4000 p2))) = false) by (vm_compute; reflexivity).
  split; [exact Hv|split; [exact Hv'|]].
  exact (proj2 (proj2 (vault_erased_only_confirmed parse stick [2] 4000 4000 p2 (fst (send [2] 4000 p2))
    (snd (send [2] 4000 p2)) reachable_p2 (protocol_send_pair [2] 4000 p2))) Hv Hv').
Defined.

Lemma housekeeping_enforces_lock_witness :
  automatic_lock_due 700000000 (protocol_runtime p1) = true ∧
  unlocked (protocol_runtime (snd (housekeeping 700000000 p1))) = false.
Proof.
  assert (Hd : automatic_lock_due 700000000 (protocol_runtime p1) = true) by (vm_compute; reflexivity).
  split; [exact Hd|].
  exact (proj1 (proj2 (housekeeping_enforces_lock 700000000 p1 (fst (housekeeping 700000000 p1))
    (snd (housekeeping 700000000 p1)) (surjective_pairing _)) Hd)).
Defined.

Lemma junk_ends_everything_witness :
  reset_active (healthy_factory_reset_ p1) = true ∧ quiet (snd (send [3] 2000 p1)).
Proof.
  split; [vm_compute; reflexivity|].
  assert (Hn : not_a_request parse [3]) by (right; split; [discriminate|exact I]).
  destruct (junk_ends_everything parse stick [3] 2000 2000 p1 (fst (send [3] 2000 p1)) (snd (send [3] 2000 p1))
    Hn (protocol_send_pair [3] 2000 p1)) as (q & _ & _ & Hq & _). exact Hq.
Defined.
End ProtocolSample.
