(* ===== verification/Transport.v ===== *)
(** * The USB transport

    [UsbProtocolTransport] of main/usb_protocol_transport.cpp: the serial port
    and the phase the session on it is in.  ESP-IDF's USB Serial/JTAG driver is
    the class [UsbDriver]; what the host has received so far is the view its laws
    speak of. *)

From S2P Require Import Prelude Bytes Nvs.

Definition kUsbProtocolRxBufferBytes : Z := 1024.
Definition kUsbProtocolTxBufferBytes : Z := 1024.
Definition kUsbProtocolReadTimeoutMs : Z := 20.
Definition kUsbProtocolWriteTimeoutMs : Z := 250.
Definition kUsbProtocolWriteChunkBytes : nat := 512.
(** 0x103 *)
Definition ESP_ERR_INVALID_STATE : esp_err_t := ESP_ERR_OTHER 259.

Inductive SessionPhase := kPreHandshake | kStrictPostHandshake | kFaulted.
#[export] Instance session_phase_eq_dec : EqDecision SessionPhase.
Proof. solve_decision. Defined.

(** Reading gives the number of bytes, negative on an error, and the bytes. *)
Class UsbDriver (D : Type) := {
  pdMS_TO_TICKS : Z → Z;
  usb_serial_jtag_is_driver_installed : D → bool * D;
  usb_serial_jtag_driver_install : ∀ (rx_buffer_size tx_buffer_size : Z), D → esp_err_t * D;
  usb_serial_jtag_is_connected : D → bool * D;
  usb_serial_jtag_read_bytes : ∀ (length ticks : Z), D → (Z * bytes) * D;
  usb_serial_jtag_write_bytes : ∀ (data : bytes) (ticks : Z), D → Z * D;
  usb_serial_jtag_wait_tx_done : ∀ ticks : Z, D → esp_err_t * D;
}.

(** A read returns at most the bytes asked for.  A write hands some first part
    of its bytes to the host and says how many; nothing else does. *)
Class UsbDriverLaws (D : Type) `{UsbDriver D} := {
  sent : D → bytes;
  read_law capacity ticks d n data d' : usb_serial_jtag_read_bytes capacity ticks d = ((n, data), d') →
    sent d' = sent d ∧ Z.of_nat (length data) ≤ Z.max 0 capacity ∧ (0 ≤ n → Z.of_nat (length data) = n);
  write_law data ticks d n d' : usb_serial_jtag_write_bytes data ticks d = (n, d') →
    sent d' = sent d ++ take (Z.to_nat n) data ∧ n ≤ Z.of_nat (length data);
  wait_law ticks d e d' : usb_serial_jtag_wait_tx_done ticks d = (e, d') → sent d' = sent d;
  connected_law d b d' : usb_serial_jtag_is_connected d = (b, d') → sent d' = sent d;
}.

Record UsbProtocolTransport {D : Type} := mkTransport {
  installed_ : bool;
  phase_ : SessionPhase;
  driver_ : D;
}.
Arguments UsbProtocolTransport : clear implicits.
#[export] Instance eta_transport {D} : Eta (UsbProtocolTransport D) := λ t,
  mkTransport D (installed_ t) (phase_ t) (driver_ t).
Definition new_transport {D} (driver : D) : UsbProtocolTransport D := mkTransport D false kPreHandshake driver.

Definition strict_post_handshake {D} (t : UsbProtocolTransport D) : bool :=
  bool_decide (phase_ t = kStrictPostHandshake).
Definition faulted {D} (t : UsbProtocolTransport D) : bool := bool_decide (phase_ t = kFaulted).
Definition establish_handshake {D} (t : UsbProtocolTransport D) : UsbProtocolTransport D :=
  t <| phase_ := kStrictPostHandshake |>.
Definition fail_session {D} (t : UsbProtocolTransport D) : UsbProtocolTransport D := t <| phase_ := kFaulted |>.
Definition reset_pre_handshake {D} (t : UsbProtocolTransport D) : UsbProtocolTransport D :=
  t <| phase_ := kPreHandshake |>.

Section Transport.
Context {D : Type} `{UsbDriver D}.
Abbreviation Transport := (UsbProtocolTransport D).
Definition transport_op (A : Type) : Type := Transport → A * Transport.

Definition on_driver {A} (f : D → A * D) : transport_op A := λ t,
  let '(a, d) := f (driver_ t) in (a, t <| driver_ := d |>).

Definition timeout_ticks (milliseconds : Z) : Z :=
  let ticks := pdMS_TO_TICKS (D := D) milliseconds in
  if ticks =? 0 then 1 else ticks.

Definition transport_install : transport_op esp_err_t := fn (
  t ← get_state;
  leave_if (installed_ t) ESP_OK;;
  elsewhere ← call (on_driver usb_serial_jtag_is_driver_installed);
  leave_if elsewhere ESP_ERR_INVALID_STATE;;
  status ← call (on_driver
    (usb_serial_jtag_driver_install kUsbProtocolRxBufferBytes kUsbProtocolTxBufferBytes));
  (if bool_decide (status = ESP_OK) then modify (λ t, t <| installed_ := true |>) else mret tt);;
  mret status).

(** The number of bytes read, and what was written to the buffer. *)
Definition transport_read (capacity : Z) : transport_op (Z * bytes) := fn (
  t ← get_state;
  leave_if (negb (installed_ t) || (capacity =? 0)) (-1, []);;
  let bounded := Z.min capacity u32_max in
  call (on_driver (usb_serial_jtag_read_bytes bounded (timeout_ticks kUsbProtocolReadTimeoutMs)))).

(** The loop over the chunks of what is left of the frame. *)
Fixpoint write_chunks (fuel : nat) (frame : bytes) : transport_op bool :=
  match frame, fuel with
  | [], _ => λ t, (true, t)
  | _, O => λ t, (false, t)
  | _, S fuel => fn (
      let chunk := take kUsbProtocolWriteChunkBytes frame in
      written ← call (on_driver (usb_serial_jtag_write_bytes chunk (timeout_ticks kUsbProtocolWriteTimeoutMs)));
      leave_if ((written <=? 0) || negb (written =? Z.of_nat (length chunk))) false;;
      call (write_chunks fuel (drop kUsbProtocolWriteChunkBytes frame)))
  end.

(** A chunk is never empty: as many rounds as the frame has bytes are enough. *)
Definition write_frame (response : bytes) : transport_op bool := fn (
  t ← get_state;
  leave_if (negb (installed_ t)) false;;
  let frame := response ++ [10] in
  all_sent ← call (write_chunks (length frame) frame);
  leave_if (negb all_sent) false;;
  status ← call (on_driver (usb_serial_jtag_wait_tx_done (timeout_ticks kUsbProtocolWriteTimeoutMs)));
  mret (bool_decide (status = ESP_OK))).

Definition transport_connected : transport_op bool := fn (
  t ← get_state;
  leave_if (negb (installed_ t)) false;;
  call (on_driver usb_serial_jtag_is_connected)).

(** ** Writing a frame *)

Implicit Types (t : Transport).

(** Operations that only use the driver. *)
Definition same_session t t' : Prop := installed_ t' = installed_ t ∧ phase_ t' = phase_ t.

Lemma same_session_trans t1 t2 t3 : same_session t1 t2 → same_session t2 t3 → same_session t1 t3.
Proof. unfold same_session. intuition congruence. Qed.

Lemma on_driver_spec {A} (f : D → A * D) t a t' :
  on_driver f t = (a, t') → same_session t t' ∧ f (driver_ t) = (a, driver_ t').
Proof. unfold on_driver. destruct (f (driver_ t)) as [b d] eqn:E. intros [= -> <-]. done. Qed.

Lemma install_spec t status t' : transport_install t = (status, t') →
  phase_ t' = phase_ t ∧ (status = ESP_OK → installed_ t' = true).
Proof.
  intros E. unfold transport_install in E. exec E; try apply on_driver_spec in Ef as [[Hi Hp] _].
  - done.
  - done.
  - apply on_driver_spec in Ef0 as [[Hi' Hp'] _]. cbn. split; congruence.
  - apply on_driver_spec in Ef0 as [[Hi' Hp'] _]. apply bool_decide_eq_false in Eb. split; congruence.
Qed.

Lemma write_chunks_fuel fuel frame : (length frame ≤ fuel)%nat →
  write_chunks fuel frame = write_chunks (length frame) frame.
Proof.
  enough (G : ∀ n m frame, (length frame ≤ n)%nat → (length frame ≤ m)%nat →
    write_chunks n frame = write_chunks m frame) by (intros; apply G; lia).
  intros n. induction n as [|n IH]; intros m f Hn Hm.
  { destruct f; [by destruct m|cbn in Hn; lia]. }
  destruct f as [|b f]; [by destruct m|]. destruct m as [|m]; [cbn in Hm; lia|]. cbn [write_chunks].
  rewrite (IH m); [done|..]; rewrite length_drop; unfold kUsbProtocolWriteChunkBytes; cbn in *; lia.
Qed.

Context `{!UsbDriverLaws D}.

Lemma transport_read_spec capacity t n data t' :
  0 ≤ capacity → transport_read capacity t = ((n, data), t') →
  same_session t t' ∧ sent (driver_ t') = sent (driver_ t) ∧ Z.of_nat (length data) ≤ capacity ∧
  (0 ≤ n → Z.of_nat (length data) = n).
Proof.
  intros Hc E. unfold transport_read in E. exec E.
  - simplify_eq. split_and!; done || cbn; lia.
  - apply on_driver_spec in E as [Hs (Hsent & Hl & Hn)%read_law]. split_and!; try done. lia.
Qed.

Lemma transport_connected_spec t b t' :
  transport_connected t = (b, t') → same_session t t' ∧ sent (driver_ t') = sent (driver_ t).
Proof. intros E. unfold transport_connected in E. exec E; [done|]. by apply on_driver_spec in E as [? ?%connected_law]. Qed.


Lemma write_chunks_spec fuel frame t b t' : write_chunks fuel frame t = (b, t') →
  same_session t t' ∧
  ∃ k, sent (driver_ t') = sent (driver_ t) ++ take k frame ∧ (b = true → length frame ≤ k)%nat.
Proof.
  revert frame t. induction fuel as [|fuel IH]; intros [|c frame] t E; cbn [write_chunks] in E.
  1, 3: injection E as <- <-; split; [done|]; exists 0%nat; by rewrite app_nil_r.
  { injection E as <- <-. split; [done|]. exists 0%nat. cbn [take]. by rewrite app_nil_r. }
  set (whole := c :: frame) in *. exec E.
  all: apply on_driver_spec in Ef as [Hs (Hsent & Hn)%write_law].
  - split; [done|]. eexists. rewrite Hsent, take_take. done.
  - apply orb_false_iff in Ec as [_ Ec%negb_false_iff%Z.eqb_eq]. apply IH in E as [Hs' (k & Hk & Hb)]. split; [by eapply same_session_trans|].
    exists (length (take kUsbProtocolWriteChunkBytes whole) + k)%nat.
    rewrite Hk, Hsent, <- app_assoc. split.
    + f_equal. rewrite firstn_all2 by lia. rewrite <- take_app_add.
      by rewrite take_drop.
    + intros Hb'. specialize (Hb Hb'). rewrite length_drop in Hb. rewrite length_take. lia.
Qed.

(** A response goes out as it is, followed by a line feed, in chunks that fit
    the driver's buffer: a success means that the host has received all of it,
    a failure that it has received a first part, and the driver alone has been
    used. *)
Theorem write_frame_exact response t b t' : write_frame response t = (b, t') →
  same_session t t' ∧
  ∃ k, sent (driver_ t') = sent (driver_ t) ++ take k (response ++ [10]) ∧
       (b = true → installed_ t = true ∧ sent (driver_ t') = sent (driver_ t) ++ response ++ [10]).
Proof.
  intros E. unfold write_frame in E. exec E.
  - split; [done|]. exists 0%nat. cbn [take]. by rewrite app_nil_r.
  - apply write_chunks_spec in Ef as [Hs (k & Hk & _)]. split; [done|]. by exists k.
  - apply write_chunks_spec in Ef as [Hs (k & Hk & Hb)]. apply on_driver_spec in Ef0 as [Hs' Hw%wait_law].
    split; [by eapply same_session_trans|]. exists k. rewrite Hw. split; [done|]. intros _.
    apply negb_false_iff in Ec, Ec0. split; [done|].
    rewrite Hk. f_equal. by rewrite take_ge by auto.
Qed.
End Transport.
