(* ===== verification/AppMain.v ===== *)
(** * The application

    main/app_main.cpp: starting the device, and the loop that cuts the bytes from
    the USB port into lines, gives the lines to the protocol according to the
    phase of the session, and writes the responses.  The build is the one
    released: timing diagnostics and screen snapshots, both off by default, are
    left out.  cJSON's two parsers (the second one accepts nothing after the
    value) and its printer are arguments. *)

From S2P Require Import Prelude Bytes VaultFormat VaultCrypto Persistence Runtime Nvs.
From S2P Require Import Psa DeviceSession UserPresence Transcript Attempt Binding Json.
From S2P Require Import RegistrationStore Registration VmkSink SessionHandler TrustedTime TimeService Random.
From S2P Require Import CanonicalProtocol Transport.

Definition kLineFeed : Z := 10.
Definition kCarriageReturn : Z := 13.
(** The size of the buffer: a longest message, a carriage return and a line feed. *)
Definition input_capacity : nat := kMaxCanonicalV2MessageBytes + 2.

Record ProtocolFrameInfo := mkFrameInfo { frame_valid : bool; frame_hello : bool; frame_id : Z }.
Definition no_frame : ProtocolFrameInfo := mkFrameInfo false false 0.

Definition read_nonnegative_transport_int : option json → option Z := read_integer int_max.

(** [version] and [id] stay 0 when they are not read. *)
Definition is_version (item : option json) : bool :=
  match read_nonnegative_transport_int item with Some version => version =? kProtocolVersion | None => false end.

Section Frames.
Context (cJSON_ParseWithLengthOpts : bytes → option json).

Definition classify_protocol_frame (line : bytes) : ProtocolFrameInfo :=
  match cJSON_ParseWithLengthOpts line with
  | Some (JObject members) =>
    let root := JObject members in
    let id := if is_version (get_item root "v") then read_nonnegative_transport_int (get_item root "id") else None in
    match id, get_item root "op", get_item root "params" with
    | Some id, Some (JString op), Some (JObject _) => mkFrameInfo true (String.eqb (text op) "hello") id
    | _, _, _ => mkFrameInfo false false (default 0 id)
    end
  | _ => no_frame
  end.

Definition successful_protocol_response_for_id (response : bytes) (id : Z) : bool :=
  match cJSON_ParseWithLengthOpts response with
  | Some (JObject members) =>
    let root := JObject members in
    is_version (get_item root "v")
    && match read_nonnegative_transport_int (get_item root "id") with
       | Some response_id => response_id =? id
       | None => false
       end
    && match get_item root "ok" with Some (JBool true) => true | _ => false end
  | _ => false
  end.
End Frames.

Definition canonical_v2_message_too_large_response : json := error_response 0 "message_too_large".

Definition ignored_before_handshake {D} (t : UsbProtocolTransport D) (info : ProtocolFrameInfo) : bool :=
  bool_decide (phase_ t = kPreHandshake) && negb (frame_valid info && frame_hello info).

(** ** The input buffer *)

(** Dropping the first [consumed] of the buffered bytes: the rest of them moves
    to the front, everything behind it is wiped. *)
Definition consume_input_prefix (input : bytes) (buffered_input consumed : nat) : bytes * nat :=
  if (buffered_input <? consumed)%nat then (input, buffered_input)
  else
    let remaining := (buffered_input - consumed)%nat in
    (take remaining (drop consumed input) ++ zeros (length input - remaining), remaining).

(** What the driver wrote into the buffer at [offset]. *)
Definition write_input (offset : nat) (data input : bytes) : bytes :=
  take offset input ++ data ++ drop (offset + length data) input.

(** The first line feed among the buffered bytes. *)
Definition find_newline (input : bytes) (buffered_input : nat) : option nat :=
  fst <$> list_find (λ c, c = kLineFeed) (take buffered_input input).

(** [while (length > 0 && input[length - 1] == '\r') --length;] *)
Fixpoint trimmed_length (input : bytes) (length : nat) : nat :=
  match length with
  | O => O
  | S length' => if nth length' input 0 =? kCarriageReturn then trimmed_length input length' else length
  end.

(** ** The state of the loop *)

Record App {P G R K N Q D : Type} := mkApp {
  app_protocol : CanonicalProtocolV2Handler P G R K N Q;
  app_transport : UsbProtocolTransport D;
  input_ : bytes;
  buffered_input_ : nat;
  discard_oversized_input_ : bool;
}.
Arguments App : clear implicits.
#[export] Instance eta_app {P G R K N Q D} : Eta (App P G R K N Q D) := λ a,
  mkApp P G R K N Q D (app_protocol a) (app_transport a) (input_ a) (buffered_input_ a)
    (discard_oversized_input_ a).

(** What a pass of the loop did. *)
Inductive pass_event :=
  | PassDisconnected
  | PassFaulted
  | PassReadError
  | PassRead (data : bytes)
  | PassTooLong
  | PassIgnored (line : bytes)
  | PassLine (line : bytes).

Section Loop.
Context `{MbedtlsGcm} {P G R K N Q D : Type} `{Persistence P} `{RegistrationStore G} `{PresenceBinding R}
  `{Psa K} `{EspNetwork N} `{EspRandom Q} `{UsbDriver D}.
Context (cJSON_ParseWithLength cJSON_ParseWithLengthOpts : bytes → option json)
  (cJSON_PrintUnformatted : json → bytes) (metadata : DeviceMetadata).
Abbreviation TheApp := (App P G R K N Q D).
Definition app_op (A : Type) : Type := TheApp → A * TheApp.

Definition in_protocol {A} (f : protocol_op A) : app_op A := λ a,
  let '(x, p) := f (app_protocol a) in (x, a <| app_protocol := p |>).
Definition in_transport {A} (f : transport_op A) : app_op A := λ a,
  let '(x, t) := f (app_transport a) in (x, a <| app_transport := t |>).
Definition on_transport (f : UsbProtocolTransport D → UsbProtocolTransport D) (a : TheApp) : TheApp :=
  a <| app_transport := f (app_transport a) |>.

Definition monotonic_ms : app_op Z := fn (
  microseconds ← call (in_protocol (in_time (on_net esp_timer_get_time)));
  mret (if microseconds <=? 0 then 0 else Z.quot microseconds 1000)).
Definition poll_delay : app_op unit := in_protocol (in_time (on_net (vTaskDelay 20))).

Definition teardown_transport_session : app_op unit := in_protocol disconnect.
Definition fail_transport_session : app_op unit := fn (
  call teardown_transport_session;;
  modify (on_transport fail_session);;
  mret tt).

(** [secure_zero] of the whole buffer; with [buffered_input = 0]. *)
Definition wipe_input (a : TheApp) : TheApp := a <| input_ := zeros (length (input_ a)) |>.
Definition drop_input (a : TheApp) : TheApp := wipe_input a <| buffered_input_ := 0%nat |>.
Definition consume (consumed : nat) (a : TheApp) : TheApp :=
  let '(input, buffered_input) := consume_input_prefix (input_ a) (buffered_input_ a) consumed in
  a <| input_ := input |> <| buffered_input_ := buffered_input |>.

Definition write_response (response : json) : app_op bool :=
  in_transport (write_frame (cJSON_PrintUnformatted response)).

(** The response to a line that is too long, to a session that was strict or not. *)
Definition answer_too_long (strict : bool) : app_op unit := fn (
  written ← call (write_response canonical_v2_message_too_large_response);
  if negb written then call fail_transport_session
  else
    (if strict then modify (on_transport fail_session) else mret tt);;
    mret tt).

(** Reading while an oversized line is skipped: up to its end, if that has come. *)
Definition discard_pass : app_op pass_event := fn (
  a ← get_state;
  x ← call (in_transport (transport_read (Z.of_nat (length (input_ a)))));
  let '(bytes_read, data) := x in
  modify (λ a, a <| input_ := write_input 0 data (input_ a) |>);;
  if bytes_read <? 0 then
    call fail_transport_session;;
    modify wipe_input;;
    call poll_delay;;
    leave PassReadError
  else
    leave_if (bytes_read =? 0) (PassRead data);;
    let received := Z.to_nat bytes_read in
    a ← get_state;
    match find_newline (input_ a) received with
    | None =>
      modify wipe_input;;
      leave (PassRead data)
    | Some newline =>
      modify (λ a, consume (S newline) (a <| buffered_input_ := received |>)
                     <| discard_oversized_input_ := false |>);;
      leave (PassRead data)
    end).

(** No line feed is buffered: the buffer is full, or more is read. *)
Definition fill_pass : app_op pass_event := fn (
  a ← get_state;
  if (length (input_ a) <=? buffered_input_ a)%nat then
    let strict := strict_post_handshake (app_transport a) in
    call teardown_transport_session;;
    call (answer_too_long strict);;
    modify drop_input;;
    modify (λ a, a <| discard_oversized_input_ := true |>);;
    leave PassTooLong
  else
    x ← call (in_transport (transport_read (Z.of_nat (length (input_ a) - buffered_input_ a))));
    let '(bytes_read, data) := x in
    modify (λ a, a <| input_ := write_input (buffered_input_ a) data (input_ a) |>);;
    if bytes_read <? 0 then
      call fail_transport_session;;
      modify drop_input;;
      leave PassReadError
    else
      modify (λ a, a <| buffered_input_ := (buffered_input_ a + Z.to_nat bytes_read)%nat |>);;
      leave (PassRead data)).

(** A line that the protocol handles. *)
Definition handle_pass (info : ProtocolFrameInfo) (request : bytes) (consumed : nat) (clock_ms : Z)
    : app_op pass_event := fn (
  a ← get_state;
  let strict_before := strict_post_handshake (app_transport a) in
  now ← call monotonic_ms;
  response ← call (in_protocol (handle_line cJSON_ParseWithLength metadata request now clock_ms));
  let establishes_handshake := frame_valid info && frame_hello info
    && successful_protocol_response_for_id cJSON_ParseWithLengthOpts (cJSON_PrintUnformatted response)
         (frame_id info) in
  modify (consume consumed);;
  written ← call (write_response response);
  if negb written then
    call fail_transport_session;;
    leave (PassLine request)
  else if establishes_handshake then
    modify (on_transport establish_handshake);;
    leave (PassLine request)
  else
    (if strict_before && negb (frame_valid info) then modify (on_transport fail_session) else mret tt);;
    leave (PassLine request)).

(** The line that ends at [newline]. *)
Definition line_pass (newline : nat) (clock_ms : Z) : app_op pass_event := fn (
  a ← get_state;
  let length := trimmed_length (input_ a) newline in
  let consumed := S newline in
  if (kMaxCanonicalV2MessageBytes <? length)%nat then
    let strict := strict_post_handshake (app_transport a) in
    call teardown_transport_session;;
    modify (consume consumed);;
    call (answer_too_long strict);;
    leave PassTooLong
  else
    let request := take length (input_ a) in
    let frame_info := classify_protocol_frame cJSON_ParseWithLengthOpts request in
    if ignored_before_handshake (app_transport a) frame_info then
      modify (consume consumed);;
      leave (PassIgnored request)
    else call (handle_pass frame_info request consumed clock_ms)).

(** One pass; [clock_ms] is what the clock shows when a session message
    installs a key. *)
Definition serial_pass (clock_ms : Z) : app_op pass_event := fn (
  now ← call monotonic_ms;
  call (in_protocol (housekeeping now));;
  connected ← call (in_transport transport_connected);
  a ← get_state;
  if negb connected then
    call teardown_transport_session;;
    modify (on_transport reset_pre_handshake);;
    modify (λ a, drop_input a <| discard_oversized_input_ := false |>);;
    call poll_delay;;
    leave PassDisconnected
  else if faulted (app_transport a) then
    modify (λ a, drop_input a <| discard_oversized_input_ := false |>);;
    call poll_delay;;
    leave PassFaulted
  else if discard_oversized_input_ a then call discard_pass
  else
    match find_newline (input_ a) (buffered_input_ a) with
    | None => call fill_pass
    | Some newline => call (line_pass newline clock_ms)
    end).
End Loop.

(** ** Starting the device

    The objects [app_main] creates, over what outlives it: the driver, the two
    stores, the network stack, the presence, the key store and the random
    generator.  The statuses of the initialisations are ignored. *)

Section Start.
Context `{MbedtlsGcm} {P R K N Q D : Type} {V KV QV : Type} `{Persistence P} `{PresenceBinding R}
  `{Psa K} `{EspNetwork N} `{EspRandom Q} `{UsbDriver D}.
Context `{Nvs V} `{NvsEraseAll V} `{Psa KV} `{EspRandom QV}.

Definition app_main_start (driver : D) (store : Store V KV QV) (persistence : P) (net : N) (presence : R)
    (keys : K) (random : Q) : option (App P (Store V KV QV) R K N Q D) :=
  let '(status, transport) := transport_install (new_transport driver) in
  if negb (bool_decide (status = ESP_OK)) then None
  else
    let registration := snd (Registration.initialize store) in
    let runtime := snd (Runtime.initialize (new_runtime persistence)) in
    let '(runtime, time) := snd (boot_sync (runtime, new_time_service net)) in
    Some (mkApp _ _ _ _ _ _ _
      (new_protocol (new_handler (new_coordinator presence keys) (new_sink runtime registration)) time random)
      transport (zeros input_capacity) 0 false).
End Start.
