(* ===== verification/AppMainCorrect.v ===== *)
(** * Correctness of the application's loop

    Cutting the bytes of the USB port into lines, whatever pieces they arrive in;
    the phases of a session; and what the host can do to the device in each. *)

From S2P Require Import Prelude Bytes VaultFormat VaultCrypto Persistence Runtime RuntimeCorrect Nvs.
From S2P Require Import Psa DeviceSession UserPresence Base64url Transcript Attempt AttemptCorrect Binding Json.
From S2P Require Import RegistrationStore Registration VmkSink VmkSinkCorrect SessionHandler SessionHandlerCorrect.
From S2P Require Import TrustedTime TimeService TimeServiceCorrect Random.
From S2P Require Import CanonicalProtocol CanonicalProtocolCorrect Transport AppMain.

(** ** The lines of a stream *)

(** A frame of the stream: a line without its end, or one that is too long. *)
Inductive frame := TooLong | Line (line : bytes).

(** A line without the carriage returns at its end. *)
Fixpoint strip_cr (line : bytes) : bytes :=
  match line with
  | [] => []
  | c :: line =>
    match strip_cr line with
    | [] => if c =? kCarriageReturn then [] else [c]
    | stripped => c :: stripped
    end
  end.
Definition finished (line : bytes) : frame :=
  if (kMaxCanonicalV2MessageBytes <? length (strip_cr line))%nat then TooLong else Line (strip_cr line).

(** The frames of a stream, byte by byte, after the start of a line, or while
    the rest of a line that is too long is skipped ([None]). *)
Fixpoint scan (open : option bytes) (stream : bytes) : list frame :=
  match stream with
  | [] => []
  | c :: stream =>
    match open with
    | None => scan (if c =? kLineFeed then Some [] else None) stream
    | Some line =>
      if c =? kLineFeed then finished line :: scan (Some []) stream
      else if (S (length line) =? input_capacity)%nat then TooLong :: scan None stream
      else scan (Some (line ++ [c])) stream
    end
  end.

Lemma scan_skip bs more : kLineFeed ∉ bs → scan None (bs ++ more) = scan None more.
Proof.
  induction bs as [|c bs IH]; [done|]. intros [Hc Hn]%not_elem_of_cons. cbn.
  destruct (Z.eqb_spec c kLineFeed); [congruence|auto].
Qed.
Lemma scan_skipped bs more : kLineFeed ∉ bs → scan None (bs ++ kLineFeed :: more) = scan (Some []) more.
Proof. intros Hn. by rewrite scan_skip. Qed.

Lemma scan_open line bs more : kLineFeed ∉ bs → (length line + length bs < input_capacity)%nat →
  scan (Some line) (bs ++ more) = scan (Some (line ++ bs)) more.
Proof.
  revert line. induction bs as [|c bs IH]; intros line; [by rewrite app_nil_r|].
  intros [Hc Hn]%not_elem_of_cons Hl. cbn [length] in Hl. cbn [app scan].
  rewrite (proj2 (Z.eqb_neq c kLineFeed)) by congruence.
  rewrite (proj2 (Nat.eqb_neq _ _)) by lia. rewrite IH; [by rewrite <- app_assoc|done|].
  rewrite length_app. cbn [length]. lia.
Qed.
Lemma scan_line line more : kLineFeed ∉ line → (length line < input_capacity)%nat →
  scan (Some []) (line ++ kLineFeed :: more) = finished line :: scan (Some []) more.
Proof. intros Hn Hl. by rewrite scan_open. Qed.
Lemma scan_full bs more : kLineFeed ∉ bs → length bs = input_capacity →
  scan (Some []) (bs ++ more) = TooLong :: scan None more.
Proof.
  intros Hn Hl. destruct bs as [|c bs _] using rev_ind; [done|].
  apply not_elem_of_app in Hn as [Hn Hc]. apply not_elem_of_cons in Hc as [Hc _].
  rewrite length_app in Hl. cbn [length] in Hl. rewrite <- app_assoc, scan_open by (done || cbn [length]; lia).
  cbn [app scan]. rewrite (proj2 (Z.eqb_neq c kLineFeed)) by congruence.
  by rewrite (proj2 (Nat.eqb_eq _ _)) by lia.
Qed.

(** ** The buffer *)

#[local] Arguments write_input : simpl never.
#[local] Arguments consume_input_prefix : simpl never.

Lemma strip_cr_snoc line c : strip_cr (line ++ [c]) = if c =? kCarriageReturn then strip_cr line else line ++ [c].
Proof.
  induction line as [|d line IH]; cbn [app strip_cr].
  - done.
  - rewrite IH. destruct (c =? kCarriageReturn); [done|]. by destruct line.
Qed.

Lemma trimmed_line input n : (n ≤ length input)%nat →
  take (trimmed_length input n) input = strip_cr (take n input).
Proof.
  induction n as [|n IH]; intros Hn; [done|]. cbn [trimmed_length].
  destruct (lookup_lt_is_Some_2 input n) as [c Hc]; [lia|].
  rewrite (nth_lookup_Some _ _ _ _ Hc), (take_S_r _ _ _ Hc), strip_cr_snoc, <- (take_S_r _ _ _ Hc).
  destruct (c =? kCarriageReturn); [apply IH; lia|done].
Qed.
Lemma trimmed_length_strip input n : (n ≤ length input)%nat →
  trimmed_length input n = length (strip_cr (take n input)).
Proof.
  intros Hn. rewrite <- trimmed_line by done. rewrite length_take.
  enough (trimmed_length input n ≤ n)%nat by lia.
  clear. induction n as [|n IH]; [done|]. cbn. case_match; lia.
Qed.

Lemma find_newline_some input n i : find_newline input n = Some i →
  ∃ rest, take n input = take i input ++ kLineFeed :: rest ∧ kLineFeed ∉ take i input ∧
    (i < n)%nat ∧ (i < length input)%nat ∧ rest = take (n - S i) (drop (S i) input).
Proof.
  unfold find_newline. intros ([j c] & E & Hj)%fmap_Some. cbn in Hj. subst j.
  apply list_find_Some in E as (Hc & -> & Hn). apply lookup_take_Some in Hc as [Hc Hi].
  assert (Hl := lookup_lt_Some _ _ _ Hc).
  exists (take (n - S i) (drop (S i) input)). split_and!; try done.
  - rewrite <- (take_drop_middle _ _ _ Hc) at 1.
    rewrite take_app, length_take_le by lia. rewrite (take_ge (take i input)) by (rewrite length_take; lia).
    f_equal. destruct (n - i)%nat as [|m] eqn:Em; [lia|]. cbn [take]. do 2 f_equal. lia.
  - intros (k & Hk)%list_elem_of_lookup. apply lookup_take_Some in Hk as [Hk Hki].
    eapply Hn; [|exact Hki|done]. apply lookup_take_Some. split; [exact Hk|lia].
Qed.
Lemma find_newline_none input n : find_newline input n = None → kLineFeed ∉ take n input.
Proof.
  unfold find_newline. intros E%fmap_None%list_find_None Hin.
  rewrite Forall_forall in E. by eapply E.
Qed.

(** What is buffered, and where in the stream of frames it starts. *)
Definition buffered_bytes {P G R K N Q D} (a : App P G R K N Q D) : bytes := take (buffered_input_ a) (input_ a).
Definition line_start {P G R K N Q D} (a : App P G R K N Q D) : option bytes :=
  if discard_oversized_input_ a then None else Some [].

(** Behind the buffered bytes there is nothing of any earlier line. *)
Record wiped_behind {P G R K N Q D} (a : App P G R K N Q D) : Prop := {
  input_length : length (input_ a) = input_capacity;
  buffered_fits : (buffered_input_ a ≤ input_capacity)%nat;
  rest_wiped : drop (buffered_input_ a) (input_ a) = zeros (input_capacity - buffered_input_ a);
}.
(** While a line is skipped nothing is buffered. *)
Definition buffer_ok {P G R K N Q D} (a : App P G R K N Q D) : Prop :=
  wiped_behind a ∧ (discard_oversized_input_ a = true → buffered_input_ a = 0%nat).

Section Buffer.
Context {P G R K N Q D : Type}.
Implicit Types (a : App P G R K N Q D).

(** An empty buffer. *)
Lemma emptied_ok a : input_ a = zeros input_capacity → buffered_input_ a = 0%nat →
  buffer_ok a ∧ buffered_bytes a = [].
Proof.
  intros Hi Hb. split; [|unfold buffered_bytes; by rewrite Hb]. split; [|done].
  split; rewrite ?Hi, ?Hb, ?zeros_length, ?Nat.sub_0_r; done || lia.
Qed.

(** Consuming the first bytes leaves exactly the others, and wipes the rest. *)
Lemma consume_spec a n : wiped_behind a → (n ≤ buffered_input_ a)%nat →
  wiped_behind (consume n a) ∧ buffered_bytes (consume n a) = drop n (buffered_bytes a).
Proof.
  intros [Hl Hb _] Hn. unfold consume, consume_input_prefix, buffered_bytes.
  rewrite (proj2 (Nat.ltb_ge _ _)) by lia.
  set (m := (buffered_input_ a - n)%nat).
  assert (Hm : length (take m (drop n (input_ a))) = m) by (rewrite length_take, length_drop; lia).
  split; [split|]; cbn.
  - rewrite length_app, zeros_length, Hm. lia.
  - lia.
  - rewrite drop_app_length' by done. by rewrite Hl.
  - rewrite take_app_length' by done. unfold m. by rewrite skipn_firstn_comm.
Qed.

Lemma consume_rest a n :
  discard_oversized_input_ (consume n a) = discard_oversized_input_ a ∧
  app_protocol (consume n a) = app_protocol a ∧ app_transport (consume n a) = app_transport a.
Proof. unfold consume. by destruct (consume_input_prefix _ _ _). Qed.

(** Bytes the driver has read behind the buffered ones. *)
Lemma write_input_length a data : wiped_behind a → (buffered_input_ a + length data ≤ input_capacity)%nat →
  length (write_input (buffered_input_ a) data (input_ a)) = input_capacity.
Proof.
  intros [Hl Hb Hw] Hd. unfold write_input. rewrite !length_app, length_take, length_drop. lia.
Qed.

Lemma filled_spec a0 a data : wiped_behind a0 → (buffered_input_ a0 + length data ≤ input_capacity)%nat →
  input_ a = write_input (buffered_input_ a0) data (input_ a0) →
  buffered_input_ a = (buffered_input_ a0 + length data)%nat →
  wiped_behind a ∧ buffered_bytes a = buffered_bytes a0 ++ data.
Proof.
  intros Hok Hd Hi Hbuf. pose proof (write_input_length _ _ Hok Hd) as Hlen. destruct Hok as [Hl Hb Hw].
  assert (Ht : length (take (buffered_input_ a0) (input_ a0)) = buffered_input_ a0) by (rewrite length_take; lia).
  unfold buffered_bytes. split; [split|]; rewrite ?Hi, ?Hbuf; try done; unfold write_input.
  - rewrite app_assoc, drop_app_length' by (rewrite length_app; lia).
    rewrite <- drop_drop, Hw. unfold zeros. rewrite drop_replicate. f_equal. lia.
  - rewrite app_assoc, take_app_length' by (rewrite length_app; lia). done.
Qed.
(** A line feed in the buffer: the line before it, and what is left of it. *)
Lemma newline_split a n : wiped_behind a → find_newline (input_ a) (buffered_input_ a) = Some n →
  ∃ line, buffered_bytes a = line ++ kLineFeed :: buffered_bytes (consume (S n) a) ∧
    kLineFeed ∉ line ∧ line = take n (input_ a) ∧ (n < buffered_input_ a)%nat ∧ length line = n ∧
    wiped_behind (consume (S n) a).
Proof.
  intros Hok (rest & Ht & Hnl & Hlt & Hlen & _)%find_newline_some.
  destruct (consume_spec a (S n) Hok) as [Ha' Hb']; [lia|].
  exists (take n (input_ a)). rewrite Hb'. unfold buffered_bytes. rewrite Ht.
  assert (Hl : length (take n (input_ a)) = n) by (rewrite length_take; lia).
  split_and!; try done. do 2 f_equal. by rewrite cons_middle, app_assoc, drop_app_length'
    by (rewrite length_app; cbn [length]; lia).
Qed.
End Buffer.

(** ** What a pass does *)

Section Passes.
Context `{MbedtlsGcm} {P G R K N Q D : Type} `{Persistence P} `{RegistrationStore G} `{PresenceBinding R}
  `{Psa K} `{EspNetwork N} `{EspRandom Q} `{UsbDriver D} `{!UsbDriverLaws D}.
Context (cJSON_ParseWithLength cJSON_ParseWithLengthOpts : bytes → option json)
  (cJSON_PrintUnformatted : json → bytes) (metadata : DeviceMetadata).
Abbreviation TheApp := (App P G R K N Q D).
Implicit Types (a : TheApp).

Lemma in_protocol_inv {A} (f : protocol_op A) a x a' :
  in_protocol f a = (x, a') → ∃ p, f (app_protocol a) = (x, p) ∧ a' = a <| app_protocol := p |>.
Proof. unfold in_protocol. destruct (f (app_protocol a)) as [y p]. intros [= -> <-]. eauto. Qed.
Lemma in_transport_inv {A} (f : transport_op A) a x a' :
  in_transport f a = (x, a') → ∃ t, f (app_transport a) = (x, t) ∧ a' = a <| app_transport := t |>.
Proof. unfold in_transport. destruct (f (app_transport a)) as [y t]. intros [= -> <-]. eauto. Qed.

Lemma protocol_time_inv {A} (f : service_op A) (p p' : CanonicalProtocolV2Handler P G R K N Q) x :
  in_time f p = (x, p') → ∃ t, p' = p <| time_service_ := t |>.
Proof. unfold in_time. destruct (f (time_service_ p)). intros [= _ <-]. eauto. Qed.

(** The clock and the delay use the network stack's state alone. *)
Lemma monotonic_inv a now a' : monotonic_ms a = (now, a') →
  ∃ t, a' = a <| app_protocol := app_protocol a <| time_service_ := t |> |>.
Proof.
  intros E. unfold monotonic_ms in E. exec E. apply in_protocol_inv in Ef as (p & Hp & ->).
  apply protocol_time_inv in Hp as (t & ->). eauto.
Qed.
Lemma poll_delay_inv a x a' : poll_delay a = (x, a') →
  ∃ t, a' = a <| app_protocol := app_protocol a <| time_service_ := t |> |>.
Proof.
  intros E. unfold poll_delay in E. apply in_protocol_inv in E as (p & Hp & ->).
  apply protocol_time_inv in Hp as (t & ->). eauto.
Qed.
Lemma teardown_inv a x a' : teardown_transport_session a = (x, a') →
  ∃ p, disconnect (app_protocol a) = (x, p) ∧ a' = a <| app_protocol := p |>.
Proof. apply in_protocol_inv. Qed.
Lemma fail_inv a x a' : fail_transport_session a = (x, a') →
  ∃ y p, disconnect (app_protocol a) = (y, p) ∧
    a' = a <| app_protocol := p |> <| app_transport := fail_session (app_transport a) |>.
Proof. intros E. unfold fail_transport_session in E. exec E. apply teardown_inv in Ef as (p & Hp & ->). eauto. Qed.
Lemma write_response_inv response a b a' : write_response cJSON_PrintUnformatted response a = (b, a') →
  ∃ t, write_frame (cJSON_PrintUnformatted response) (app_transport a) = (b, t) ∧
    a' = a <| app_transport := t |>.
Proof. apply in_transport_inv. Qed.

Lemma answer_too_long_inv strict a x a' : answer_too_long cJSON_PrintUnformatted strict a = (x, a') →
  ∃ b t, write_frame (cJSON_PrintUnformatted canonical_v2_message_too_large_response) (app_transport a) = (b, t) ∧
  ∃ y p, (if b then p = app_protocol a else disconnect (app_protocol a) = (y, p)) ∧
    a' = a <| app_protocol := p |> <| app_transport := if negb b || strict then fail_session t else t |>.
Proof.
  intros E. unfold answer_too_long in E. exec_step E. apply write_response_inv in Ef as (t & Hw & ->).
  exists a0, t. split; [done|]. exec E; bools; subst.
  - apply fail_inv in E as (y & p & Hp & ->). by exists y, p.
  - exists tt, (app_protocol a). by destruct a.
  - exists tt, (app_protocol a). by destruct a.
Qed.
End Passes.

(** Executes a part of a pass down to the operations of the protocol and of the
    transport. *)
Ltac exec_app E :=
  repeat (exec_step E;
    repeat match goal with
    | E : monotonic_ms _ = _ |- _ => apply monotonic_inv in E as (? & ->)
    | E : poll_delay _ = _ |- _ => apply poll_delay_inv in E as (? & ->)
    | E : teardown_transport_session _ = _ |- _ => apply teardown_inv in E as (? & ? & ->)
    | E : fail_transport_session _ = _ |- _ => apply fail_inv in E as (? & ? & ? & ->)
    | E : answer_too_long _ _ _ = _ |- _ => apply answer_too_long_inv in E as (? & ? & ? & ? & ? & ? & ->)
    | E : write_response _ _ _ = _ |- _ => apply write_response_inv in E as (? & ? & ->)
    | E : in_transport _ _ = _ |- _ => apply in_transport_inv in E as (? & ? & ->)
    | E : in_protocol _ _ = _ |- _ => apply in_protocol_inv in E as (? & ? & ->)
    end).

Section Framing.
Context `{MbedtlsGcm} {P G R K N Q D : Type} `{Persistence P} `{RegistrationStore G} `{PresenceBinding R}
  `{Psa K} `{EspNetwork N} `{EspRandom Q} `{UsbDriver D} `{!UsbDriverLaws D}.
Context (cJSON_ParseWithLength cJSON_ParseWithLengthOpts : bytes → option json)
  (cJSON_PrintUnformatted : json → bytes) (metadata : DeviceMetadata).
Abbreviation TheApp := (App P G R K N Q D).
Implicit Types (a : TheApp).

(** The part of the state the framing depends on. *)
Definition same_buffer a a' : Prop :=
  input_ a' = input_ a ∧ buffered_input_ a' = buffered_input_ a ∧
  discard_oversized_input_ a' = discard_oversized_input_ a.

Lemma same_buffer_ok a a' : same_buffer a a' → buffer_ok a → buffer_ok a'.
Proof. intros (Hi & Hb & Hd) [[] ?]. by split; [split|]; rewrite ?Hi, ?Hb, ?Hd. Qed.
Lemma same_buffer_bytes a a' : same_buffer a a' →
  buffered_bytes a' = buffered_bytes a ∧ line_start a' = line_start a.
Proof. intros (Hi & Hb & Hd). unfold buffered_bytes, line_start. by rewrite Hi, Hb, Hd. Qed.

Definition read_data (event : pass_event) : bytes := match event with PassRead data => data | _ => [] end.
Definition handled (event : pass_event) : list frame :=
  match event with PassTooLong => [TooLong] | PassIgnored line | PassLine line => [Line line] | _ => [] end.
(** The session has not ended. *)
Definition goes_on (event : pass_event) : Prop :=
  match event with PassDisconnected | PassFaulted | PassReadError => False | _ => True end.

(** A pass reads some bytes of the stream, or takes one frame off its front. *)
Definition follows a (event : pass_event) a' : Prop :=
  buffer_ok a' ∧
  (goes_on event → ∀ more,
     scan (line_start a) (buffered_bytes a ++ read_data event ++ more) =
     handled event ++ scan (line_start a') (buffered_bytes a' ++ more)).

Lemma follows_emptied a event a' :
  input_ a' = zeros input_capacity → buffered_input_ a' = 0%nat → ¬ goes_on event → follows a event a'.
Proof. intros Hi Hb Hg. split; [by apply emptied_ok|done]. Qed.

Lemma follows_same a a1 event a' : same_buffer a a1 → follows a1 event a' → follows a event a'.
Proof. intros [Hb Hs]%same_buffer_bytes. unfold follows. by rewrite Hb, Hs. Qed.

Lemma discard_pass_follows a event a' :
  buffer_ok a → discard_oversized_input_ a = true → discard_pass a = (event, a') → follows a event a'.
Proof.
  intros [Hok Hz] Hd E. specialize (Hz Hd).
  assert (Hstart : line_start a = None) by (unfold line_start; by rewrite Hd).
  assert (Hbuf : buffered_bytes a = []) by (unfold buffered_bytes; by rewrite Hz).
  unfold discard_pass in E. exec_app E.
  all: match goal with E : transport_read _ _ = _ |- _ => apply transport_read_spec in E as (_ & _ & Hlen & Hn); [|lia] end.
  all: assert (Hfit : (buffered_input_ a + length l ≤ input_capacity)%nat) by (destruct Hok; lia).
  all: pose proof (write_input_length a l Hok Hfit) as Hlength; rewrite Hz in Hlength.
  - apply follows_emptied; [cbn; by rewrite Hlength|done|by intros []].
  - apply Z.eqb_eq in Ec as ->. specialize (Hn ltac:(lia)). destruct l; [|cbn in Hn; lia].
    split; [by apply (same_buffer_ok a)|done].
  - apply Z.ltb_ge in Eb. specialize (Hn Eb).
    set (a1 := a <| app_transport := x |> <| input_ := write_input 0 l (input_ a) |>
                 <| buffered_input_ := Z.to_nat z |>) in *.
    destruct (filled_spec a a1 l Hok Hfit) as [Ha1 Hb1]; [cbn; by rewrite Hz|cbn; lia|].
    rewrite Hbuf in Hb1. cbn [app] in Hb1.
    match goal with E : find_newline _ _ = Some _ |- _ => rename E into Em end.
    change (find_newline (input_ a1) (buffered_input_ a1) = Some n) in Em.
    destruct (newline_split a1 n Ha1 Em) as (line & Hl & Hnl & _ & _ & _ & Ha').
    split; [split; [destruct Ha'; by split|done]|]. intros _ more.
    assert (Hscan : scan None (l ++ more) = scan (Some []) (buffered_bytes (consume (S n) a1) ++ more)).
    { rewrite <- Hb1, Hl, <- app_assoc. by apply scan_skipped. }
    rewrite Hstart, Hbuf. exact Hscan.
  - apply Z.ltb_ge in Eb. specialize (Hn Eb).
    match goal with E : find_newline _ _ = None |- _ => apply find_newline_none in E as Hnl end.
    assert (Hl : l = take (Z.to_nat z) (write_input 0 l (input_ a))).
    { unfold write_input. symmetry. apply (take_app_length' l). lia. }
    cbn in Hnl. rewrite <- Hl in Hnl. split.
    + apply emptied_ok; [cbn; by rewrite Hlength|done].
    + intros _ more. rewrite Hstart, Hbuf. cbn [read_data handled app].
      rewrite scan_skip by done. unfold line_start, buffered_bytes. cbn. by rewrite Hd, Hz.
Qed.

Lemma fill_pass_follows a event a' :
  buffer_ok a → discard_oversized_input_ a = false → find_newline (input_ a) (buffered_input_ a) = None →
  fill_pass cJSON_PrintUnformatted a = (event, a') → follows a event a'.
Proof.
  intros [Hok Hz] Hd Hnl%find_newline_none E. fold (buffered_bytes a) in Hnl.
  assert (Hstart : line_start a = Some []) by (unfold line_start; by rewrite Hd).
  pose proof (input_length _ Hok) as Hcap. pose proof (buffered_fits _ Hok) as Hfits.
  unfold fill_pass in E. exec_app E.
  { apply Nat.leb_le in Eb. cbn in Hnl. split; [apply emptied_ok; [cbn; by rewrite Hcap|done]|]. intros _ more.
    rewrite Hstart. cbn [read_data handled app]. apply scan_full; [done|]. unfold buffered_bytes. rewrite length_take. lia. }
  all: apply Nat.leb_gt in Eb.
  all: match goal with E : transport_read _ _ = _ |- _ => apply transport_read_spec in E as (_ & _ & Hlen & Hn); [|lia] end.
  all: assert (Hfit : (buffered_input_ a + length l ≤ input_capacity)%nat) by lia.
  - apply follows_emptied; [|done|by intros []]. cbn. by rewrite (write_input_length a l Hok Hfit).
  - match goal with E : (_ <? _) = false |- _ => apply Z.ltb_ge in E; specialize (Hn E) end.
    match goal with |- follows _ _ ?a2 =>
      destruct (filled_spec a a2 l Hok Hfit) as [Ha' Hb']; [reflexivity|cbn; lia|] end.
    split; [split; [exact Ha'|]|].
    + cbn. congruence.
    + intros _ more. rewrite Hb', <- app_assoc. unfold line_start. by cbn.
Qed.

Lemma line_pass_follows newline clock_ms a event a' :
  buffer_ok a → discard_oversized_input_ a = false → find_newline (input_ a) (buffered_input_ a) = Some newline →
  line_pass cJSON_ParseWithLength cJSON_ParseWithLengthOpts cJSON_PrintUnformatted metadata newline clock_ms a =
    (event, a') → follows a event a'.
Proof.
  intros [Hok Hz] Hd Hn E.
  destruct (newline_split a newline Hok Hn) as (line & Hl & Hnl & Htake & Hlt & Hlen & Hok').
  pose proof (buffered_fits _ Hok) as Hfits. pose proof (input_length _ Hok) as Hcap.
  destruct (consume_rest a (S newline)) as (Hdc & _ & _).
  assert (Hstep : ∀ a', same_buffer (consume (S newline) a) a' →
    handled event = [finished line] → read_data event = [] → follows a event a').
  { intros a2 Hs Hh Hr. pose proof (same_buffer_bytes _ _ Hs) as [Hb2 Hs2]. split.
    - eapply same_buffer_ok; [exact Hs|]. split; [done|]. rewrite Hdc. congruence.
    - intros _ more. rewrite Hb2, Hs2, Hh, Hr. unfold line_start. rewrite Hdc, Hd.
      cbn [app]. rewrite Hl at 1. rewrite <- app_assoc. apply scan_line; [done|lia]. }
  assert (Htrim := trimmed_line (input_ a) newline ltac:(lia)).
  assert (Hlong := trimmed_length_strip (input_ a) newline ltac:(lia)).
  rewrite <- Htake in Htrim, Hlong.
  unfold line_pass, handle_pass in E. exec_app E.
  all: apply Hstep; [unfold same_buffer, consume; cbn; by destruct (consume_input_prefix _ _ _)| |done].
  all: unfold finished; rewrite <- Hlong, Eb; cbn [handled]; by rewrite ?Htrim.
Qed.

Lemma serial_pass_follows clock_ms a event a' :
  buffer_ok a →
  serial_pass cJSON_ParseWithLength cJSON_ParseWithLengthOpts cJSON_PrintUnformatted metadata clock_ms a =
    (event, a') → follows a event a'.
Proof.
  intros Hok E. pose proof (input_length _ (proj1 Hok)) as Hcap.
  unfold serial_pass in E. exec_app E.
  1, 2: apply follows_emptied; [cbn; by rewrite Hcap|done|by intros []].
  all: match type of E with _ ?a1 = _ => assert (Hs : same_buffer a a1) by done end.
  all: eapply follows_same; [exact Hs|]; apply (same_buffer_ok _ _ Hs) in Hok.
  - by eapply discard_pass_follows.
  - by eapply line_pass_follows.
  - by eapply fill_pass_follows.
Qed.

(** Passes of the loop, with what they did; between two of them other tasks change
    what they share with the protocol, and the host sends bytes. *)
Inductive app_run : TheApp → list pass_event → TheApp → Prop :=
  | run_end a : app_run a [] a
  | run_pass clock_ms a event a1 events a' :
      serial_pass cJSON_ParseWithLength cJSON_ParseWithLengthOpts cJSON_PrintUnformatted metadata clock_ms a =
        (event, a1) →
      app_run a1 events a' → app_run a (event :: events) a'
  | run_others p d a events a' :
      app_run (a <| app_protocol := p |> <| app_transport := app_transport a <| driver_ := d |> |>) events a' →
      app_run a events a'.

(** C8: The frames the loop takes are those of the byte stream, whatever pieces the
    bytes arrive in, and whatever happens in between: over any passes that do not
    end the session, the frames of what was buffered and all bytes read are the
    frames taken, each once and in order, followed by those of what is buffered
    at the end.  Nothing of an earlier line is left behind the buffered bytes. *)
Theorem framing_exact a events a' :
  buffer_ok a → app_run a events a' →
  buffer_ok a' ∧
  (Forall goes_on events →
   scan (line_start a) (buffered_bytes a ++ concat (read_data <$> events)) =
   concat (handled <$> events) ++ scan (line_start a') (buffered_bytes a')).
Proof.
  intros Hok Hr. induction Hr as [a|clock_ms a event a1 events a' E Hr IH|p d a events a' Hr IH].
  - split; [done|]. intros _. cbn. by rewrite app_nil_r.
  - destruct (serial_pass_follows _ _ _ _ Hok E) as [Hok1 Hf]. destruct (IH Hok1) as [Hok' IH'].
    split; [done|]. intros [Hg Hgs]%Forall_cons. cbn [fmap list_fmap concat].
    by rewrite (Hf Hg), (IH' Hgs), app_assoc.
  - assert (Hs : same_buffer a (a <| app_protocol := p |> <| app_transport := app_transport a <| driver_ := d |> |>)) by done.
    exact (IH (same_buffer_ok _ _ Hs Hok)).
Qed.
End Framing.

(** ** The phases of a session *)

Section Phases.
Context `{GcmLaws} {P G R K N Q D : Type} `{Persistence P} `{RegistrationStore G} `{PresenceBindingLaws R}
  `{PsaLaws K} `{EspNetwork N} `{EspRandom Q} `{UsbDriver D} `{!UsbDriverLaws D}.
Context (cJSON_ParseWithLength cJSON_ParseWithLengthOpts : bytes → option json)
  (cJSON_PrintUnformatted : json → bytes) (metadata : DeviceMetadata).
Abbreviation TheApp := (App P G R K N Q D).
Implicit Types (a : TheApp).

Definition phase a : SessionPhase := phase_ (app_transport a).
Definition host_bytes a : bytes := sent (driver_ (app_transport a)).

Definition is_request (line : bytes) : Prop :=
  frame_valid (classify_protocol_frame cJSON_ParseWithLengthOpts line) = true.
Definition is_hello (line : bytes) : Prop :=
  is_request line ∧ frame_hello (classify_protocol_frame cJSON_ParseWithLengthOpts line) = true.

(** The host has received [response] and the end of the line. *)
Definition answered a (response : json) a' : Prop :=
  host_bytes a' = host_bytes a ++ cJSON_PrintUnformatted response ++ [10].
Definition says_success (line : bytes) (response : json) : Prop :=
  successful_protocol_response_for_id cJSON_ParseWithLengthOpts (cJSON_PrintUnformatted response)
    (frame_id (classify_protocol_frame cJSON_ParseWithLengthOpts line)) = true.

(** What each kind of pass requires of the phase, and does to it. *)
Definition phase_outcome a (event : pass_event) a' : Prop :=
  match event with
  | PassDisconnected => phase a' = kPreHandshake ∧ quiet (app_protocol a') ∧ host_bytes a' = host_bytes a
  | PassFaulted => phase a = kFaulted ∧ phase a' = kFaulted ∧ host_bytes a' = host_bytes a
  | PassReadError => phase a ≠ kFaulted ∧ phase a' = kFaulted ∧ quiet (app_protocol a')
  | PassRead _ => phase a ≠ kFaulted ∧ phase a' = phase a ∧ host_bytes a' = host_bytes a
  | PassTooLong => phase a ≠ kFaulted ∧ quiet (app_protocol a') ∧
      (phase a' = kFaulted ∨ phase a = kPreHandshake ∧ phase a' = kPreHandshake ∧
                             answered a canonical_v2_message_too_large_response a')
  | PassIgnored line =>
      phase a = kPreHandshake ∧ phase a' = kPreHandshake ∧ ¬ is_hello line ∧ host_bytes a' = host_bytes a
  | PassLine line => phase a ≠ kFaulted ∧ (phase a = kPreHandshake → is_hello line) ∧
      ∃ response,
        phase a' = kFaulted ∧ (quiet (app_protocol a') ∨ answered a response a' ∧ ¬ is_request line) ∨
        answered a response a' ∧ phase a' = phase a ∧ is_request line ∨
        answered a response a' ∧ phase a' = kStrictPostHandshake ∧ is_hello line ∧ says_success line response
  end.

Lemma answered_write a response b t :
  write_frame (cJSON_PrintUnformatted response) (app_transport a) = (b, t) →
  phase_ t = phase a ∧ (b = true → sent (driver_ t) = host_bytes a ++ cJSON_PrintUnformatted response ++ [10]).
Proof. intros [[_ Hs] (k & _ & Hb)]%write_frame_exact. split; [done|]. intros Ht. by apply Hb. Qed.

Lemma phase_cases a : phase a ≠ kFaulted →
  phase a = kPreHandshake ∧ strict_post_handshake (app_transport a) = false ∨
  phase a = kStrictPostHandshake ∧ strict_post_handshake (app_transport a) = true.
Proof. unfold phase, strict_post_handshake. destruct (phase_ _); [by left|by right|done]. Qed.

Lemma too_long_phase a p t b y p' a' :
  phase a ≠ kFaulted → quiet p →
  write_frame (cJSON_PrintUnformatted canonical_v2_message_too_large_response) (app_transport a) = (b, t) →
  (if b then p' = p else disconnect p = (y, p')) →
  app_protocol a' = p' → app_transport a' = (if negb b || strict_post_handshake (app_transport a)
                                            then fail_session t else t) →
  phase_outcome a PassTooLong a'.
Proof.
  intros Hf Hq [Hp Hw]%answered_write Hd Hp' Ht'. cbn. rewrite Hp'. unfold phase at 2 4, answered, host_bytes at 1. rewrite Ht'.
  destruct b; [subst p'|apply disconnect_quiet in Hd as [? _]; split_and!; [done..|by left]].
  split_and!; [done..|]. destruct (phase_cases a Hf) as [[Hph Hs]|[Hph Hs]]; rewrite Hs; cbn.
  - right. split_and!; [done|congruence|by apply Hw].
  - by left.
Qed.

Lemma discard_pass_phase a event a' :
  phase a ≠ kFaulted → discard_pass a = (event, a') → phase_outcome a event a'.
Proof.
  intros Hf E. unfold discard_pass in E. exec_app E.
  all: match goal with E : transport_read _ _ = _ |- _ =>
    apply transport_read_spec in E as ([_ Hp] & Hsent & _); [|lia] end.
  all: try match goal with E : disconnect _ = _ |- _ => apply disconnect_quiet in E as [Hq _] end.
  all: try match goal with |- context [consume ?n ?a2] => destruct (consume_rest a2 n) as (_ & _ & Ht) end.
  all: unfold phase_outcome, phase, host_bytes in *; cbn in *; rewrite ?Ht; cbn; by split_and!.
Qed.

Lemma fill_pass_phase a event a' :
  phase a ≠ kFaulted → fill_pass cJSON_PrintUnformatted a = (event, a') → phase_outcome a event a'.
Proof.
  intros Hf E. unfold fill_pass in E. exec_app E.
  { match goal with E : disconnect _ = _ |- _ => apply disconnect_quiet in E as [Hq _] end.
    by eapply too_long_phase. }
  all: match goal with E : transport_read _ _ = _ |- _ =>
    apply transport_read_spec in E as ([_ Hp] & Hsent & _); [|lia] end.
  all: try match goal with E : disconnect _ = _ |- _ => apply disconnect_quiet in E as [Hq _] end.
  all: unfold phase_outcome, phase, host_bytes in *; cbn in *; by split_and!.
Qed.

Lemma consume_transport a n : app_transport (consume n a) = app_transport a.
Proof. apply consume_rest. Qed.
Lemma consume_protocol a n : app_protocol (consume n a) = app_protocol a.
Proof. apply consume_rest. Qed.

Lemma handle_pass_phase request consumed clock_ms a event a' :
  phase a ≠ kFaulted → (phase a = kPreHandshake → is_hello request) →
  handle_pass cJSON_ParseWithLength cJSON_ParseWithLengthOpts cJSON_PrintUnformatted metadata
    (classify_protocol_frame cJSON_ParseWithLengthOpts request) request consumed clock_ms a = (event, a') →
  phase_outcome a event a'.
Proof.
  intros Hf Hpre E. unfold handle_pass in E. exec_app E.
  all: rewrite ?consume_transport, ?consume_protocol in *; cbn in *.
  all: match goal with E : write_frame _ _ = _ |- _ => apply answered_write in E as [Hp Hw] end.
  all: split; [done|split; [done|]]; exists a1; unfold phase, answered, host_bytes in *; cbn.
  - left. split; [done|]. left. by match goal with E : disconnect _ = _ |- _ => apply disconnect_quiet in E as [Hq _] end.
  - right. right. split; [by apply Hw, negb_false_iff|]. bools. by split_and!.
  - left. split; [done|]. right. split; [by apply Hw, negb_false_iff|]. unfold is_request. bools. congruence.
  - right. left. split; [by apply Hw, negb_false_iff|]. split; [done|].
    destruct (phase_cases a Hf) as [[Hph Hs]|[Hph Hs]]; [by apply Hpre|].
    match goal with E : strict_post_handshake _ && _ = false |- _ => rewrite Hs in E; cbn in E; by apply negb_false_iff in E end.
Qed.

Lemma line_pass_phase newline clock_ms a event a' :
  phase a ≠ kFaulted →
  line_pass cJSON_ParseWithLength cJSON_ParseWithLengthOpts cJSON_PrintUnformatted metadata newline clock_ms a =
    (event, a') → phase_outcome a event a'.
Proof.
  intros Hf E. unfold line_pass in E. exec_app E; unfold ignored_before_handshake in *.
  - match goal with E : disconnect _ = _ |- _ => apply disconnect_quiet in E as [Hq _] end.
    rewrite consume_transport in *. rewrite consume_protocol in *. by eapply too_long_phase.
  - apply andb_true_iff in Eb0 as [Hp%bool_decide_eq_true Hn%negb_true_iff].
    cbn. unfold phase, host_bytes. rewrite consume_transport. split_and!; try done.
    intros [Hr Hh]. unfold is_request in Hr. by rewrite Hr, Hh in Hn.
  - eapply handle_pass_phase; [done| |exact E]. intros Hp. rewrite bool_decide_true in Eb0 by done.
    cbn in Eb0. apply negb_false_iff, andb_true_iff in Eb0. done.
Qed.

Lemma phase_outcome_same a a1 event a' :
  phase a1 = phase a → host_bytes a1 = host_bytes a → phase_outcome a1 event a' → phase_outcome a event a'.
Proof. intros Hp Hs. unfold phase_outcome, answered. by rewrite Hp, Hs. Qed.

(** Every pass, by its kind. *)
Lemma pass_phase clock_ms a event a' :
  serial_pass cJSON_ParseWithLength cJSON_ParseWithLengthOpts cJSON_PrintUnformatted metadata clock_ms a =
    (event, a') → phase_outcome a event a'.
Proof.
  intros E. unfold serial_pass in E. exec_app E.
  all: match goal with E : transport_connected _ = _ |- _ => apply transport_connected_spec in E as [[_ Hp] Hsent] end.
  all: cbn in *.
  - match goal with E : disconnect _ = _ |- _ => apply disconnect_quiet in E as [Hq _] end. by split_and!.
  - unfold faulted in *. bools. unfold phase, host_bytes. cbn. split_and!; congruence.
  - unfold faulted in *. bools. eapply phase_outcome_same, discard_pass_phase; [..|exact E]; done.
  - unfold faulted in *. bools. eapply phase_outcome_same, line_pass_phase; [..|exact E]; done.
  - unfold faulted in *. bools. eapply phase_outcome_same, fill_pass_phase; [..|exact E]; done.
Qed.

Lemma line_phase clock_ms a line a' :
  serial_pass cJSON_ParseWithLength cJSON_ParseWithLengthOpts cJSON_PrintUnformatted metadata clock_ms a =
    (PassLine line, a') → phase a ≠ kFaulted ∧ (phase a = kPreHandshake → is_hello line).
Proof. by intros (? & ? & _)%pass_phase. Qed.

(** The phases of a session, pass by pass.  A session that has failed is over:
    until the host disconnects nothing is read, handled or answered, and a
    disconnection ends everything under way and starts afresh.  Before the
    handshake only a well-formed hello of this version is handled, and only a
    success, received by the host, makes the session strict.  In a strict session
    anything malformed - an oversized line, a line that is not a request, an
    incomplete answer, a failed read - ends the session. *)
Theorem session_phases clock_ms a :
  phase_outcome a
    (fst (serial_pass cJSON_ParseWithLength cJSON_ParseWithLengthOpts cJSON_PrintUnformatted metadata clock_ms a))
    (snd (serial_pass cJSON_ParseWithLength cJSON_ParseWithLengthOpts cJSON_PrintUnformatted metadata clock_ms a)).
Proof. eapply pass_phase, surjective_pairing. Qed.
End Phases.

(** ** Outside a session *)

Section Durable.
Context `{GcmLaws} {P G R K N Q : Type} `{Persistence P} `{RegistrationStore G} `{PresenceBindingLaws R}
  `{PsaLaws K} `{EspNetwork N} `{EspRandom Q}.
Context (cJSON_ParseWithLength cJSON_ParseWithLengthOpts : bytes → option json) (metadata : DeviceMetadata).
Abbreviation Protocol := (CanonicalProtocolV2Handler P G R K N Q).
Implicit Types (p : Protocol).

(** What is stored on the device is the same, and no Vault has been opened. *)
Definition same_stored p p' : Prop :=
  protocol_registration p' = protocol_registration p ∧
  persistence_ (protocol_runtime p') = persistence_ (protocol_runtime p) ∧
  has_vault_ (protocol_runtime p') = has_vault_ (protocol_runtime p) ∧
  (unlocked (protocol_runtime p') = true → unlocked (protocol_runtime p) = true).
#[export] Instance same_stored_preorder : PreOrder same_stored.
Proof. split; [done|]. intros p1 p2 p3 (?&?&?&?) (?&?&?&?). split_and!; try congruence. auto. Qed.

Lemma same_sink_stored p p' : protocol_sink p' = protocol_sink p → same_stored p p'.
Proof. intros Hs. unfold same_stored, protocol_runtime, protocol_registration. rewrite Hs. by split_and!. Qed.
Lemma same_runtime_stored p p' :
  protocol_runtime p' = protocol_runtime p → protocol_registration p' = protocol_registration p → same_stored p p'.
Proof. intros Hr Hg. unfold same_stored. rewrite Hr, Hg. by split_and!. Qed.

Lemma lock_stored (r : Runtime P) st r' : lock r = (st, r') →
  persistence_ r' = persistence_ r ∧ has_vault_ r' = has_vault_ r.
Proof. intros E. unfold lock, enter_recovery_boundary in E. by exec E. Qed.

Lemma in_runtime_inv {A} (f : op A) p x p' : in_sink (in_runtime f) p = (x, p') →
  f (protocol_runtime p) = (x, protocol_runtime p') ∧ protocol_registration p' = protocol_registration p.
Proof.
  intros E. unfold in_sink, in_session, on_device, in_runtime in E. cbn in E.
  destruct (f _) as [y r] eqn:Ef. injection E as -> <-. by split.
Qed.

Lemma locked_inside_stored p x s st p' :
  in_time teardown_network p = (x, s) → in_sink (in_runtime lock) s = (st, p') → same_stored p p'.
Proof.
  intros Et [El Hg]%in_runtime_inv. unfold in_time in Et. split_call Et (teardown_network (time_service_ p)).
  pose proof (lock_closed _ _ _ El) as Hu. apply lock_stored in El as [Hp Hv].
  split_and!; [exact Hg|exact Hp|exact Hv|congruence].
Qed.

Lemma lock_boundary_stored p st p' : lock_security_boundary p = (st, p') → same_stored p p'.
Proof.
  intros E. unfold lock_security_boundary, with_secret_boundary in E. exec E.
  all: destruct (quiet_sequence _ _ _ _ _ _ _ _ _ Ef Ef0 Ef1 Ef2) as (_ & Hr & Hg).
  all: apply (locked_inside_stored _ _ _ _ _ Ef3) in Ef4; etransitivity; [by apply same_runtime_stored|exact Ef4].
Qed.

Lemma expiry_stored now_ms p a s b p' :
  in_session (handler_expire now_ms) p = (a, s) → in_sink (expire_pending now_ms) s = (b, p') → same_stored p p'.
Proof.
  intros E1 E2. apply same_runtime_stored; [by eapply expiry_runtime|].
  unfold in_sink, in_session, on_device, handler_expire in E1, E2.
  destruct (fn _ _) as [c h] eqn:Eh in E1. apply pair_eq in E1 as [_ <-].
  destruct (expire_pending _ _) as [d sk] eqn:Es in E2. apply pair_eq in E2 as [_ <-].
  assert (Hd : device_ h = protocol_sink p) by (by exec_handler Eh).
  unfold expire_pending in Es. cbn in Es. unfold protocol_registration, protocol_sink in *. rewrite <- Hd. cbn.
  destruct (_ || _); by apply pair_eq in Es as [_ <-].
Qed.

(** Housekeeping can only close the Vault. *)
Lemma housekeeping_stored now_ms p x p' : housekeeping now_ms p = (x, p') → same_stored p p'.
Proof.
  intros E. unfold housekeeping in E. exec_step E. exec_step E.
  transitivity s0; [by eapply expiry_stored|]. clear Ef Ef0 p. exec E.
  all: repeat match goal with
    | E : cancel_healthy_factory_reset ?p = (_, ?p') |- _ =>
        apply cancel_healthy_spec in E as (_ & _ & E & _); apply same_sink_stored in E
    | E : cancel_recovery_reset ?p = (_, ?p') |- _ =>
        apply cancel_recovery_spec in E as (_ & _ & E & _); apply same_sink_stored in E
    | E : lock_security_boundary _ = _ |- _ => apply lock_boundary_stored in E
    end.
  all: repeat (etransitivity; [eassumption|]); done.
Qed.

Lemma disconnect_stored p x p' : disconnect p = (x, p') → same_stored p p'.
Proof. intros (_ & Hr & Hg)%disconnect_quiet. by apply same_runtime_stored. Qed.

(** The transport and the protocol read the header of a request alike. *)
Lemma classify_request line :
  frame_valid (classify_protocol_frame cJSON_ParseWithLengthOpts line) = true →
  ∃ members id op params, cJSON_ParseWithLengthOpts line = Some (JObject members) ∧
    request_header (JObject members) = inr (id, op, params) ∧
    frame_id (classify_protocol_frame cJSON_ParseWithLengthOpts line) = id ∧
    frame_hello (classify_protocol_frame cJSON_ParseWithLengthOpts line) = String.eqb (text op) "hello".
Proof.
  unfold classify_protocol_frame. destruct (cJSON_ParseWithLengthOpts line) as [[| | | | |members]|]; try done.
  intros Hv. exists members. revert Hv. unfold request_header, is_version.
  change read_nonnegative_transport_int with (read_integer int_max). unfold read_nonnegative_int.
  destruct (read_integer int_max (get_item (JObject members) "v")) as [v|]; [|done].
  destruct (v =? kProtocolVersion); [|by destruct (get_item (JObject members) "op") as [[]|]].
  destruct (read_integer int_max (get_item (JObject members) "id")) as [id|]; [|done].
  destruct (get_item (JObject members) "op") as [[| | |op| |]|]; try done.
  destruct (get_item (JObject members) "params") as [[| | | | |ps]|]; try done.
  intros _. by exists id, op, (JObject ps).
Qed.

Lemma hello_unchanged id p response p' : handle_hello metadata id p = (response, p') → p' = p.
Proof. intros E. unfold handle_hello in E. by exec E. Qed.

(** cJSON's strict parser accepts less than the other one. *)
Context (Hstrict : ∀ line value, cJSON_ParseWithLengthOpts line = Some value → cJSON_ParseWithLength line = Some value).

Lemma hello_stored line now_ms clock_ms p response p' :
  is_hello cJSON_ParseWithLengthOpts line →
  handle_line cJSON_ParseWithLength metadata line now_ms clock_ms p = (response, p') → same_stored p p'.
Proof.
  intros [(members & id & op & params & Hp & Hh & _ & Hhello)%classify_request Ht] E.
  rewrite Ht in Hhello. symmetry in Hhello. apply String.eqb_eq in Hhello.
  unfold handle_line in E. exec_step E. apply housekeeping_stored in Ef. rewrite (Hstrict _ _ Hp), Hh in E.
  unfold route, disconnect_with in E. rewrite Hhello in E. exec E; try exact Ef.
  - transitivity s; [done|]. by eapply disconnect_stored.
  - by apply hello_unchanged in E as ->.
Qed.
End Durable.

(** ** What a pass does to the protocol *)

Section Steps.
Context `{GcmLaws} {P G R K N Q D : Type} `{Persistence P} `{RegistrationStore G} `{PresenceBindingLaws R}
  `{PsaLaws K} `{EspNetwork N} `{EspRandom Q} `{UsbDriver D} `{!UsbDriverLaws D}.
Context (cJSON_ParseWithLength cJSON_ParseWithLengthOpts : bytes → option json)
  (cJSON_PrintUnformatted : json → bytes) (metadata : DeviceMetadata).
Abbreviation TheApp := (App P G R K N Q D).
Abbreviation Protocol := (CanonicalProtocolV2Handler P G R K N Q).
Implicit Types (a : TheApp) (p : Protocol).

(** Housekeeping, disconnecting, reading the clock, or handling the line [event]
    speaks of. *)
Inductive loop_step (event : pass_event) : Protocol → Protocol → Prop :=
  | loop_housekeeping now_ms p x p' : housekeeping now_ms p = (x, p') → loop_step event p p'
  | loop_disconnect p x p' : disconnect p = (x, p') → loop_step event p p'
  | loop_time p t : loop_step event p (p <| time_service_ := t |>)
  | loop_line line now_ms clock_ms p response p' : event = PassLine line →
      handle_line cJSON_ParseWithLength metadata line now_ms clock_ms p = (response, p') → loop_step event p p'.

Ltac back_step :=
  cbn; rewrite ?consume_protocol; cbn; first
    [ done
    | match goal with |- rtc _ _ (mkProtocol _ _ _ _ _ _ (session_handler_ ?p) ?t _ _ _ _ _ _) =>
        apply rtc_r with p; [|exact (loop_time _ p t)] end
    | match goal with
      | E : housekeeping _ _ = (_, ?p) |- rtc _ _ ?p => eapply rtc_r; [|by eapply loop_housekeeping]
      | E : disconnect _ = (_, ?p) |- rtc _ _ ?p => eapply rtc_r; [|by eapply loop_disconnect]
      | E : handle_line _ _ _ _ _ _ = (_, ?p) |- rtc _ _ ?p => eapply rtc_r; [|by eapply loop_line]
      end ].

Lemma pass_steps clock_ms a event a' :
  serial_pass cJSON_ParseWithLength cJSON_ParseWithLengthOpts cJSON_PrintUnformatted metadata clock_ms a =
    (event, a') → rtc (loop_step event) (app_protocol a) (app_protocol a').
Proof.
  intros E. unfold serial_pass, discard_pass, fill_pass, line_pass, handle_pass in E. exec_app E.
  all: repeat match goal with E : (if ?b then _ = _ else _) |- _ => destruct b; [subst|] end.
  all: rewrite ?consume_protocol in *.
  all: cbn in *; rewrite ?consume_protocol; try clear E.
  all: repeat back_step.
Qed.

(** cJSON's strict parser accepts nothing the other one reads differently. *)
Definition strict_parser : Prop := ∀ line value,
  cJSON_ParseWithLengthOpts line = Some value → cJSON_ParseWithLength line = Some value.

(** Every step keeps what is stored, unless a line other than a hello is handled. *)
Lemma loop_step_stored event p p' : strict_parser →
  (∀ line, event = PassLine line → is_hello cJSON_ParseWithLengthOpts line) →
  loop_step event p p' → same_stored p p'.
Proof.
  intros Hstrict Hh [now_ms p0 x p1 E|p0 x p1 E|p0 t|line now_ms clock_ms p0 response p1 Hl E].
  - by eapply housekeeping_stored.
  - by eapply disconnect_stored.
  - by apply same_sink_stored.
  - eapply (hello_stored cJSON_ParseWithLength cJSON_ParseWithLengthOpts); [exact Hstrict|by apply Hh|exact E].
Qed.

Lemma stored_steps S p p' : (∀ q q', S q q' → same_stored q q') → rtc S p p' → same_stored p p'.
Proof. intros HS. induction 1 as [|p1 p2 p3 H12 _ IH]; [done|]. by etransitivity; [apply HS|]. Qed.

Lemma outside_session_steps clock_ms a event a' : strict_parser → phase a ≠ kStrictPostHandshake →
  serial_pass cJSON_ParseWithLength cJSON_ParseWithLengthOpts cJSON_PrintUnformatted metadata clock_ms a =
    (event, a') → same_stored (app_protocol a) (app_protocol a').
Proof.
  intros Hstrict Hp E. eapply stored_steps, pass_steps; [|exact E].
  intros q q'. apply loop_step_stored; [done|]. intros line ->.
  apply line_phase in E as [Hf Hh]. apply Hh. by destruct (phase a).
Qed.

(** C9: Before the handshake, and after a session has failed, no bytes from the host
    change what the device stores or open its Vault: a pass leaves the Vault and
    the registration in the store as they are, and a locked Vault locked. *)
Theorem outside_session_stored clock_ms a : strict_parser →
  phase a ≠ kStrictPostHandshake →
  same_stored (app_protocol a) (app_protocol (snd
    (serial_pass cJSON_ParseWithLength cJSON_ParseWithLengthOpts cJSON_PrintUnformatted metadata clock_ms a))).
Proof.
  intros Hstrict Hp. destruct (serial_pass _ _ _ _ _ _) as [event a'] eqn:E.
  by eapply outside_session_steps.
Qed.

(** The protocol of a running loop is one the protocol's theorems speak of. *)
Lemma loop_step_protocol event p p' : loop_step event p p' → protocol_step cJSON_ParseWithLength metadata p p'.
Proof.
  intros [now_ms p0 x p1 E|p0 x p1 E|p0 t|line now_ms clock_ms p0 response p1 Hl E].
  - by eapply protocol_housekeeping.
  - by eapply protocol_disconnect.
  - apply protocol_time.
  - by eapply protocol_line.
Qed.

Lemma steps_reachable S p p' : (∀ q q', S q q' → protocol_step cJSON_ParseWithLength metadata q q') →
  rtc S p p' → protocol_reachable cJSON_ParseWithLength metadata p →
  protocol_reachable cJSON_ParseWithLength metadata p'.
Proof.
  intros HS. induction 1 as [|p1 p2 p3 H12 _ IH]; [done|]. intros Hr. apply IH.
  eapply protocol_reachable_step; [exact Hr|by apply HS].
Qed.

(** From the start of the device: passes of the loop, and steps of other tasks. *)
Inductive app_reachable : TheApp → Prop :=
  | app_started pr k r g t q transport :
      app_reachable (mkApp _ _ _ _ _ _ _
        (new_protocol (new_handler (new_coordinator pr k) (new_sink r g)) t q) transport (zeros input_capacity) 0 false)
  | app_passed clock_ms a event a' : app_reachable a →
      serial_pass cJSON_ParseWithLength cJSON_ParseWithLengthOpts cJSON_PrintUnformatted metadata clock_ms a =
        (event, a') → app_reachable a'
  | app_others p d a : app_reachable a → protocol_step cJSON_ParseWithLength metadata (app_protocol a) p →
      app_reachable (a <| app_protocol := p |> <| app_transport := app_transport a <| driver_ := d |> |>).

Lemma app_reachable_ok a : app_reachable a →
  buffer_ok a ∧ protocol_reachable cJSON_ParseWithLength metadata (app_protocol a).
Proof.
  induction 1 as [pr k r g t q transport|clock_ms a event a' _ [Hb Hr] E|p d a _ [Hb Hr] Hs].
  - split; [|constructor]. match goal with |- buffer_ok ?a => exact (proj1 (emptied_ok a eq_refl eq_refl)) end.
  - split; [by eapply serial_pass_follows|]. eapply steps_reachable, Hr; [apply loop_step_protocol|].
    by eapply pass_steps.
  - split; [by eapply same_buffer_ok; [|exact Hb]|]. by eapply protocol_reachable_step.
Qed.

(** A line whose handling completes a reset confirmed on the device. *)
Definition completes_reset (line : bytes) p : Prop := ∃ now_ms clock_ms p1 response p',
  housekeeping now_ms p = (tt, p1) ∧ reset_confirmed now_ms p1 ∧
  handle_line cJSON_ParseWithLength metadata line now_ms clock_ms p = (response, p').

Lemma step_keeps_vault event p p' :
  protocol_reachable cJSON_ParseWithLength metadata p → loop_step event p p' →
  has_vault_ (protocol_runtime p) = true → has_vault_ (protocol_runtime p') = false →
  ∃ line, event = PassLine line ∧ completes_reset line p.
Proof.
  intros Hr Hs Hv Hv'. destruct Hs as [now_ms p0 x p1 E|p0 x p1 E|p0 t|line now_ms clock_ms p0 response p1 Hl E].
  - apply housekeeping_stored in E as (_ & _ & E & _). congruence.
  - apply disconnect_stored in E as (_ & _ & E & _). congruence.
  - cbn in Hv'. unfold protocol_runtime, protocol_sink in *. cbn in *. congruence.
  - exists line. split; [done|]. exists now_ms, clock_ms. pose proof E as Eline.
    apply line_outcome in E as (q & Hh & [_ [Hk _]] & _ & [[_ [Hk' _]] | Hc]); [|eauto 10|by eapply reachable_protocol_ok].
    exfalso. apply Hk, Hk' in Hv. unfold protocol_runtime in Hv'. congruence.
Qed.

Lemma steps_keep_vault event p p' : rtc (loop_step event) p p' →
  protocol_reachable cJSON_ParseWithLength metadata p →
  has_vault_ (protocol_runtime p) = true → has_vault_ (protocol_runtime p') = false →
  ∃ line q, event = PassLine line ∧ rtc (loop_step event) p q ∧ completes_reset line q.
Proof.
  induction 1 as [|p1 p2 p3 H12 H23 IH]; [congruence|]. intros Hr Hv Hv'.
  destruct (has_vault_ (protocol_runtime p2)) eqn:E2.
  - destruct IH as (line & q & Hl & Hs & Hc); [|done..|].
    + eapply protocol_reachable_step; [exact Hr|by eapply loop_step_protocol].
    + exists line, q. split; [done|]. split; [by eapply rtc_l|done].
  - destruct (step_keeps_vault _ _ _ Hr H12 Hv E2) as (line & Hl & Hc). exists line, p1. by split_and!.
Qed.

(** C1: From the start of the device, through any passes of the loop and any steps of
    other tasks, whatever the driver delivers: a pass makes the Vault go only in a
    strict session, by handling a line that completes a reset whose attempt the
    user has confirmed on the device. *)
Theorem device_erased_only_confirmed clock_ms a : strict_parser → app_reachable a →
  has_vault_ (protocol_runtime (app_protocol a)) = true →
  has_vault_ (protocol_runtime (app_protocol (snd
    (serial_pass cJSON_ParseWithLength cJSON_ParseWithLengthOpts cJSON_PrintUnformatted metadata clock_ms a)))) = false →
  phase a = kStrictPostHandshake ∧
  ∃ line p,
    fst (serial_pass cJSON_ParseWithLength cJSON_ParseWithLengthOpts cJSON_PrintUnformatted metadata clock_ms a) = PassLine line ∧
    rtc (loop_step (PassLine line)) (app_protocol a) p ∧ completes_reset line p.
Proof.
  intros Hstrict [_ Hr]%app_reachable_ok. destruct (serial_pass _ _ _ _ _ _) as [event a'] eqn:E. cbn. intros Hv Hv'.
  split.
  - destruct (decide (phase a = kStrictPostHandshake)) as [|Hp]; [done|]. exfalso.
    apply outside_session_steps in E as (_ & _ & Hs & _); [congruence|done..].
  - apply pass_steps in E. destruct (steps_keep_vault _ _ _ E Hr Hv Hv') as (line & p & -> & Hs & Hc).
    by exists line, p.
Qed.
End Steps.

(** ** Power on *)

Section PowerOn.
Context `{GcmLaws} {P R K N Q D : Type} {V KV QV : Type} `{Persistence P} `{PresenceBinding R}
  `{Psa K} `{EspNetwork N} `{EspRandom Q} `{UsbDriver D}.
Context `{Nvs V} `{NvsEraseAll V} `{Psa KV} `{EspRandom QV}.

Lemma initialize_locked (p : P) st r : Runtime.initialize (new_runtime p) = (st, r) →
  initialized_ r = true ∧ vmk_present_ r = false ∧ all_zero (vmk_ r) = true ∧
  (has_vault_ r = true → state_ r = State.kLocked).
Proof. intros E. unfold Runtime.initialize in E. exec_rt E; cbn; split_and!; done || apply all_zero_zeros. Qed.

Lemma boot_sync_locked (r : Runtime P) (t : TimeService N) :
  initialized_ r = true → vmk_present_ r = false → boot_sync (r, t) = (SyncResult.kLocked, (r, t)).
Proof.
  intros Hi Hv. assert (Hn : not_unlocked r = true) by (unfold not_unlocked; rewrite Hv; cbn; by rewrite orb_true_r).
  assert (Hw : sync_ntp_once (r, t) = (SyncResult.kLocked, (r, t))).
  { unfold sync_ntp_once, read_wifi, with_wifi, fn, mbind, ctl_bind, call, get_state, leave_if, leave. cbn.
    by rewrite Hi, Hn. }
  unfold boot_sync, boot_attempts. cbn. unfold fn at 1, mbind, ctl_bind, call. by rewrite Hw.
Qed.

(** C18: After power on the device is locked whatever is stored on it: no key is in
    memory, no attempt, waiting key or reset exists, the trusted clock is not
    synchronised, the network driver has not been touched for want of the
    credentials in the Vault, the session waits for its handshake and the input is
    empty. *)
Theorem power_on_locked (driver : D) (store : Store V KV QV) (persistence : P) (net : N) (presence : R)
    (keys : K) (random : Q) a :
  app_main_start driver store persistence net presence keys random = Some a →
  let p := app_protocol a in
  unlocked (protocol_runtime p) = false ∧ all_zero (vmk_ (protocol_runtime p)) = true ∧
  (has_vault_ (protocol_runtime p) = true → state_ (protocol_runtime p) = State.kLocked) ∧
  quiet p ∧ time_service_ p = new_time_service net ∧
  phase a = kPreHandshake ∧ installed_ (app_transport a) = true ∧ buffered_bytes a = [].
Proof.
  unfold app_main_start. destruct (transport_install _) as [status transport] eqn:Et.
  destruct (bool_decide (status = ESP_OK)) eqn:Es; [|done]. cbn [negb].
  destruct (Runtime.initialize (new_runtime persistence)) as [st r] eqn:Er. cbn [snd].
  destruct (initialize_locked _ _ _ Er) as (Hi & Hv & Hz & Hl). rewrite boot_sync_locked by done. cbn [snd].
  apply install_spec in Et as [Hp Hinst]. intros [= <-]. unfold phase. cbn [app_transport app_protocol].
  apply bool_decide_eq_true in Es.
  assert (Hu : unlocked r = false) by (unfold unlocked; rewrite Hv; by rewrite ?andb_false_r, ?andb_false_l).
  split_and!; try done; by auto.
Qed.
End PowerOn.
