(* ===== verification/RegistrationCorrect.v ===== *)
(** * Correctness of the registration

    The store in memory obeys the contract its clients rely on
    ([RegistrationLaws]), whatever the storage answers.  With storage that
    behaves as documented, what a start finds is what was stored, and every
    change of the registration is one write: power lost at any call leaves the
    old registration or the new one, under the same device identifier. *)

From S2P Require Import Prelude Bytes Nvs NvsAtomic VaultFormat VaultCrypto Psa DeviceSession RegistrationStore.
From S2P Require Import Persistence Runtime CanonicalProtocol Random Registration.

#[export] Hint Rewrite negb_true_iff negb_false_iff orb_true_iff orb_false_iff
  andb_true_iff andb_false_iff bool_decide_eq_true bool_decide_eq_false
  Z.eqb_eq Z.eqb_neq Nat.eqb_eq Nat.eqb_neq : reg_bools.
Ltac reg_bools := unfold RegStatus.is_ok, esp_ok in *; autorewrite with reg_bools in *; destruct_and?.

Lemma reg_map_error_ok e : map_error e = RegStatus.kOk ↔ e = ESP_OK.
Proof. by destruct e. Qed.

(** ** In memory *)

Section Memory.
Context {N K Q : Type} `{Nvs N} `{NvsEraseAll N} `{Psa K} `{EspRandom Q}.
Implicit Types (s : Store N K Q).

(** What the members other than the storage, the keys and the generator hold. *)
Definition flags s := (ready_ s, recovery_reset_available_ s, device_id_recovery_required_ s).
Definition same_ram s s' : Prop := flags s' = flags s ∧ snapshot_ s' = snapshot_ s.
Definition device_of s : bytes := reg_device_id (snapshot_ s).

Lemma same_ram_trans s1 s2 s3 : same_ram s1 s2 → same_ram s2 s3 → same_ram s1 s3.
Proof. intros [] []. split; congruence. Qed.

Lemma on_nvs_ram {A} (f : N → A * N) s a s' : on_nvs f s = (a, s') → same_ram s s'.
Proof. unfold on_nvs. destruct (f _). by intros [_ <-]%pair_eq. Qed.
Lemma open_ram mode s x s' : open_namespace mode s = (x, s') → same_ram s s'.
Proof.
  unfold open_namespace. destruct (on_nvs _ s) as [[e h] s1] eqn:E. intros [_ <-]%pair_eq.
  by eapply on_nvs_ram.
Qed.
Lemma valid_key_ram key s b s' : valid_public_key key s = (b, s') → same_ram s s'.
Proof. unfold valid_public_key. destruct (valid_p256_public_key _ _). by intros [_ <-]%pair_eq. Qed.
Lemma commit_ram h e s x s' : commit_and_close h e s = (x, s') → same_ram s s'.
Proof.
  intros E. unfold commit_and_close in E.
  exec E; repeat match goal with E : on_nvs _ _ = _ |- _ => apply on_nvs_ram in E end;
    eauto using same_ram_trans.
Qed.
Lemma erase_key_ram h s x s' : erase_registration_key h s = (x, s') → same_ram s s'.
Proof.
  unfold erase_registration_key. destruct (on_nvs _ s) as [e s1] eqn:E. intros [_ <-]%pair_eq.
  by eapply on_nvs_ram.
Qed.

#[local] Ltac ram :=
  repeat match goal with
  | E : on_nvs _ _ = _ |- _ => apply on_nvs_ram in E
  | E : open_namespace _ _ = _ |- _ => apply open_ram in E
  | E : valid_public_key _ _ = _ |- _ => apply valid_key_ram in E
  | E : commit_and_close _ _ _ = _ |- _ => apply commit_ram in E
  | E : erase_registration_key _ _ = _ |- _ => apply erase_key_ram in E
  end.
#[local] Ltac exec_ram E :=
  unfold close_and_leave in E;
  repeat (exec_step E; cbn [fst snd] in *;
    repeat match goal with p : (_ * _)%type |- _ => destruct p; cbn [fst snd] in * end); ram.

(** What a call leaves in memory when it ends with [status]. *)
Definition after s s' (status : RegStatus.t) (present : RegSnapshot → Prop) (otherwise : RegSnapshot) : Prop :=
  flags s' = flags s ∧ (status = RegStatus.kOk → present (snapshot_ s')) ∧
  (status ≠ RegStatus.kOk → snapshot_ s' = otherwise).

Lemma shl32_range b n : 0 ≤ shl32 b n ≤ u32_max.
Proof.
  unfold shl32. assert (Hu : u32_max = Z.ones 32) by done. rewrite Hu, (Z.land_ones (Z.shiftl _ _)) by lia.
  rewrite <- Hu. unfold u32_max. pose proof (Z.mod_pos_bound (Z.shiftl (Z.land b (2 ^ 32 - 1)) n) (2 ^ 32)). lia.
Qed.
Lemma lor_range a b : 0 ≤ a ≤ u32_max → 0 ≤ b ≤ u32_max → 0 ≤ Z.lor a b ≤ u32_max.
Proof.
  intros Ha Hb. assert (0 ≤ Z.lor a b) by (apply Z.lor_nonneg; lia).
  split; [done|]. unfold u32_max in *. apply Z.lt_le_pred. destruct (decide (Z.lor a b = 0)) as [->|]; [lia|].
  apply Z.log2_lt_pow2; [lia|]. rewrite Z.log2_lor by lia.
  assert (∀ c, 0 ≤ c ≤ 2 ^ 32 - 1 → Z.log2 c < 32).
  { intros c Hc. destruct (decide (c = 0)) as [->|]; [done|]. apply Z.log2_lt_pow2; lia. }
  apply Z.max_lub_lt; auto.
Qed.
Lemma read_u32_range input : 0 ≤ read_u32 input ≤ u32_max.
Proof. unfold read_u32. repeat apply lor_range; apply shl32_range. Qed.
Lemma decode_epoch_range encoded v r e k : decode_registration encoded = (v, r, e, k) → 0 ≤ e ≤ u32_max.
Proof. intros [= _ _ <- _]. apply read_u32_range. Qed.

Lemma load_ram s st s' :
  load_registration s = (st, s') →
  after s s' st (λ snap, ∃ v r e k, snap = registered_as (device_of s) v r e k ∧ 1 ≤ e ≤ u32_max)
    (unregistered (device_of s)).
Proof.
  intros E. unfold load_registration in E. exec_ram E.
  all: unfold after, same_ram, flags, device_of in *; cbn in *; destruct_and?;
    (split; [congruence|split; [|try (intros _; congruence)]]); reg_bools; try done.
  1-2: rewrite reg_map_error_ok; congruence.
  intros _. apply decode_epoch_range in Em. eexists _, _, _, _. split; [done|]. lia.
Qed.

Lemma persist_ram v r e k s st s' :
  persist_registration v r e k s = (st, s') →
  after s s' st (λ snap, snap = registered_as (device_of s) v r e k) (snapshot_ s).
Proof.
  intros E. unfold persist_registration in E. exec_ram E.
  all: unfold after, same_ram, flags, device_of in *; cbn in *; destruct_and?;
    (split; [congruence|split; [|try (intros _; congruence)]]); reg_bools; try done;
    rewrite ?reg_map_error_ok; congruence.
Qed.

(** What the snapshot in memory may be. *)
Definition snapshot_shape (snap : RegSnapshot) : Prop :=
  if reg_present snap then 1 ≤ reg_epoch snap ≤ u32_max else snap = unregistered (reg_device_id snap).
Definition store_ok s : Prop := snapshot_shape (snapshot_ s).

Lemma shape_unregistered device : snapshot_shape (unregistered device).
Proof. done. Qed.
Lemma shape_registered device v r e k : 1 ≤ e ≤ u32_max → snapshot_shape (registered_as device v r e k).
Proof. done. Qed.

(** Loading and then, in some cases, persisting. *)
Lemma load_shape s st s' : load_registration s = (st, s') → store_ok s' ∧ device_of s' = device_of s.
Proof.
  intros (_ & Hok & Hno)%load_ram. unfold store_ok, device_of.
  destruct (decide (st = RegStatus.kOk)) as [He|He].
  - by destruct (Hok He) as (? & ? & ? & ? & -> & ?).
  - by rewrite (Hno He).
Qed.

Lemma install_ram v r e k s st s' :
  store_ok s → store_install_initial v r e k s = (st, s') →
  flags s' = flags s ∧ store_ok s' ∧
  (st = RegStatus.kOk → e = 1 ∧ ready_ s = true ∧ snapshot_ s' = registered_as (device_of s) v r e k).
Proof.
  intros Hs E. unfold store_install_initial in E. exec E; reg_bools; subst; try done.
  all: pose proof Ef as [Hl Hd]%load_shape; apply load_ram in Ef as (Hf & _ & _).
  - split_and!; try done. by destruct (bool_decide (a = RegStatus.kOk)) eqn:?; intros; reg_bools; subst.
  - by split_and!.
  - apply persist_ram in E as (Hf' & Hok & Hno). unfold store_ok. rewrite Hf', Hf. rewrite Hd in Hok.
    split; [done|]. destruct (decide (st = RegStatus.kOk)) as [He|He].
    + rewrite (Hok He). split; [by apply shape_registered|]. intros _. by split_and!.
    + by rewrite (Hno He).
Qed.

Lemma replace_ram v x r e k s st s' :
  store_ok s → store_replace v x r e k s = (st, s') →
  flags s' = flags s ∧ store_ok s' ∧
  (st = RegStatus.kOk → e = x + 1 ∧ 0 < x ∧ ready_ s = true ∧
     snapshot_ s' = registered_as (device_of s) v r e k).
Proof.
  intros Hs E. unfold store_replace in E. exec_step E. exec_step E; [done|]. exec_step E.
  pose proof Ef as [Hl Hd]%load_shape. pose proof Ef as (Hf & Hload & _)%load_ram.
  exec_step E; [by reg_bools|]. exec_step E. exec_step E; [done|]. exec E.
  apply persist_ram in E as (Hf' & Hok & Hno). unfold store_ok in *. rewrite Hf', Hf. rewrite Hd in Hok.
  reg_bools. subst a. destruct (Hload eq_refl) as (? & ? & e0 & ? & Hsnap & He0).
  rewrite Hsnap in *. cbn in *. subst. split; [done|].
  destruct (decide (st = RegStatus.kOk)) as [He|He].
  - rewrite (Hok He). split; [apply shape_registered; lia|]. intros _. split_and!; try done. lia.
  - by rewrite (Hno He).
Qed.

Lemma clear_ram s st s' :
  store_ok s → store_clear s = (st, s') →
  ready_ s' = ready_ s ∧ store_ok s' ∧
  (st = RegStatus.kOk → ready_ s = true ∧ snapshot_ s' = unregistered (device_of s)).
Proof.
  intros Hs E. unfold store_clear in E. exec_ram E; unfold store_ok, same_ram, flags, device_of in *; cbn;
    destruct_and?; reg_bools; simplify_eq; rewrite ?reg_map_error_ok.
  all: split; [congruence|split; [congruence || done|]]; intros; try congruence || done.
  split; congruence.
Qed.

Lemma clear_corrupt_ram s st s' :
  store_ok s → store_clear_corrupt s = (st, s') →
  store_ok s' ∧ (st = RegStatus.kOk → ready_ s' = true ∧ snapshot_ s' = unregistered (device_of s)).
Proof.
  intros Hs E. unfold store_clear_corrupt in E. exec_step E. exec_step E.
  { rewrite fn_call_tail in E. apply clear_ram in E as (Hr & Hs' & Hok); [|done]. split; [done|].
    rewrite Hr. by intros [? ?]%Hok. }
  exec_ram E; unfold store_ok, same_ram, flags, device_of in *; cbn;
    destruct_and?; reg_bools; simplify_eq; rewrite ?reg_map_error_ok.
  all: split; [congruence || done|]; intros; try congruence || done.
Qed.

(** The store obeys the contract of a registration, whatever the storage, the
    key store and the generator answer. *)
#[export] Instance nvs_registration_laws : RegistrationLaws (Store N K Q).
Proof.
  refine {| registration_ok := store_ok |}; cbn [registration_snapshot install_initial replace_registration
    clear_registration clear_corrupt_registration_for_recovery nvs_registration]; unfold store_snapshot.
  - intros s snap Hs E. destruct (ready_ s); cbn in E; [|by destruct (recovery_reset_available_ s)].
    injection E as <-. done.
  - intros v r e k s st s' Hs E. apply install_ram in E as (Hf & Hs' & Hok); [|done]. split; [done|].
    intros [-> [Hr Hsnap]]%Hok. split; [done|]. injection Hf as Hr' _ _. rewrite Hr', Hr, Hsnap. cbn. eauto.
  - intros v x r e k s st s' Hs E. apply replace_ram in E as (Hf & Hs' & Hok); [|done]. split; [done|].
    intros (He & Hx & Hr & Hsnap)%Hok. injection Hf as Hr' _ _. rewrite Hr', Hr, Hsnap. cbn. eauto.
  - intros s st s' Hs E. apply clear_ram in E as (Hr' & Hs' & Hok); [|done]. split; [done|].
    intros [Hr Hsnap]%Hok. rewrite Hr', Hr, Hsnap. cbn. eauto.
  - intros s st s' Hs E. apply clear_corrupt_ram in E as (Hs' & Hok); [|done]. split; [done|].
    intros [Hr Hsnap]%Hok. rewrite Hr, Hsnap. cbn. eauto.
Defined.


(** A read that fails in the course of a replacement leaves the store ready but
    its snapshot empty: the device shows itself unregistered, and with a Vault
    the protocol then asks for a recovery reset, although nothing stored has
    changed. *)
Lemma read_failure_hides_registration v x r k s err h n' :
  ready_ s = true → 0 < x < u32_max →
  nvs_open_from_partition kDefaultPartition kNamespace NVS_READONLY (store_nvs_ s) = ((err, h), n') →
  map_error err = RegStatus.kIo →
  ∃ s', store_replace v x r (x + 1) k s = (RegStatus.kIo, s') ∧
    store_snapshot s' = (RegStatus.kOk, unregistered (device_of s)) ∧
    ∀ m available, m_has_vault m = true → m_state m = State.kLocked ∨ m_state m = State.kUnlocked →
      classify_recovery_reset m RegStatus.kOk (unregistered (device_of s)) available = RecoveryResetDecision.kRequired.
Proof.
  intros Hr Hx Ho He. destruct (store_replace v x r (x + 1) k s) as [st s'] eqn:E.
  unfold store_replace in E. rewrite fn_get, Hr in E.
  rewrite (proj2 (Z.eqb_neq x 0)), (proj2 (Z.eqb_neq x u32_max)), Z.eqb_refl in E by lia. cbn [negb orb] in E.
  exec_step E; [done|]. destruct (load_registration s) as [a s1] eqn:El in E.
  rewrite (fn_call _ _ _ _ _ El) in E.
  unfold load_registration in El. rewrite fn_get, fn_modify in El.
  unfold open_namespace, on_nvs in El. unfold fn, mbind, ctl_bind, call in El. cbn in El. rewrite Ho in El.
  cbn in El. rewrite He in El. cbn in El. apply pair_eq in El as [<- El].
  exec_step E; [|done]. eexists. split; [done|]. split.
  - unfold store_snapshot. cbn. by rewrite Hr.
  - intros m available Hm Hs. unfold classify_recovery_reset. rewrite Hm. by destruct Hs as [-> | ->].
Qed.
End Memory.

(** ** What is stored *)

Definition reg_key (m : entries) (key : string) : option bytes := m !! (kNamespace, key) ≫= as_blob.

(** The identifier of the device, if there is a valid one. *)
Definition stored_device (m : entries) : option bytes :=
  match reg_key m kDeviceIdKey with
  | Some d => if Nat.eqb (length d) kDeviceIdBytes && negb (all_zero d) then Some d else None
  | None => None
  end.

(** A record, with the size and the magic it must have. *)
Definition record_fields (encoded : bytes) : option (bytes * bytes * Z * bytes) :=
  if Nat.eqb (length encoded) kEncodedRegistrationBytes
     && bool_decide (take (length kRegistrationMagic) encoded = kRegistrationMagic)
  then let '(v, r, e, k) := decode_registration encoded in
       if all_zero v || all_zero r || (e =? 0) then None else Some (v, r, e, k)
  else None.

Definition stored_registration (m : entries) (device : bytes) : option RegSnapshot :=
  match reg_key m kRegistrationKey with
  | None => Some (unregistered device)
  | Some encoded => (λ '(v, r, e, k), registered_as device v r e k) <$> record_fields encoded
  end.

(** The snapshot the stored values describe. *)
Definition stored (m : entries) : option RegSnapshot := stored_device m ≫= stored_registration m.

Lemma reg_key_cases (o : option nvs_value) b : o ≫= as_blob = Some b ↔ o = Some (VBlob b).
Proof. destruct o as [[]|]; cbn; split; congruence. Qed.

Section Stored.
Context {N K Q : Type} `{NvsNotFoundLaws N} `{NvsEraseAll N} `{PsaLaws K} `{EspRandomLaws Q}.
Implicit Types (s : Store N K Q).

Definition values s : NvsView := view (store_nvs_ s).
Definition open_handle s h : Prop := handles (values s) !! h = Some kNamespace.

Lemma on_nvs_inv {A} (f : N → A * N) s a s' : on_nvs f s = (a, s') → f (store_nvs_ s) = (a, store_nvs_ s').
Proof. unfold on_nvs. destruct (f _). by intros [-> <-]%pair_eq. Qed.

Lemma open_stored mode s st h s' :
  open_namespace mode s = ((st, h), s') →
  same_values (values s) (values s') ∧ (st = RegStatus.kOk → open_handle s' h) ∧
  (st = RegStatus.kNotFound → ∀ key, reg_key (visible (values s)) key = None).
Proof.
  unfold open_namespace. destruct (on_nvs _ s) as [[e h'] s1] eqn:E. intros [= <- <- <-].
  apply on_nvs_inv in E. pose proof E as [Hs Hh]%nvs_open_law. apply nvs_open_not_found in E as [Hn Ha].
  split_and!; [done|intros He%reg_map_error_ok; exact (Hh He)|]. intros Hst key. unfold reg_key.
  rewrite Ha; [done|]. destruct e; cbn in *; congruence.
Qed.

Lemma handle_kept s s' h : same_view (values s) (values s') → open_handle s h → open_handle s' h.
Proof. intros (_ & Hh & _). unfold open_handle. by rewrite Hh. Qed.

Lemma size_stored h k s e x s' :
  open_handle s h → on_nvs (nvs_get_blob_size h k) s = ((e, x), s') →
  same_values (values s) (values s') ∧ open_handle s' h ∧ e ≠ ESP_ERR_NOT_FOUND ∧
  (e = ESP_OK → ∃ b, reg_key (visible (values s)) k = Some b ∧ Z.of_nat (length b) = x) ∧
  (e = ESP_ERR_NVS_NOT_FOUND → reg_key (visible (values s)) k = None).
Proof.
  intros Hh E%on_nvs_inv. pose proof E as Hn%nvs_get_blob_size_not_found.
  apply nvs_get_blob_size_law in E as (Hs & Hok & Hno).
  split_and!; [apply Hs|by eapply handle_kept|done|..]; intros He; unfold reg_key.
  - destruct (Hok He _ Hh) as [Hf _]. destruct (Hf He) as (v & Hv & b & -> & ?). exists b. unfold values. by rewrite Hv.
  - destruct (Hno He _ Hh) as [_ Hf]. specialize (Hf He). unfold values.
    destruct (visible (view (store_nvs_ s)) !! (kNamespace, k)) as [[v|v|v]|] eqn:Ev; try done.
    destruct Hf. eauto.
Qed.

Lemma blob_stored h k s e x s' :
  open_handle s h → on_nvs (nvs_get_blob h k) s = ((e, x), s') →
  same_values (values s) (values s') ∧ e ≠ ESP_ERR_NOT_FOUND ∧
  (e = ESP_OK → reg_key (visible (values s)) k = Some x) ∧
  (e = ESP_ERR_NVS_NOT_FOUND → reg_key (visible (values s)) k = None).
Proof.
  intros Hh E%on_nvs_inv. pose proof E as Hn%nvs_get_blob_not_found.
  apply nvs_get_blob_law in E as (Hs & Hok & Hno).
  split_and!; [apply Hs|done|..]; intros He; unfold reg_key.
  - destruct (Hok He _ Hh) as [Hf _]. destruct (Hf He) as (v & Hv & ->). unfold values. by rewrite Hv.
  - destruct (Hno He _ Hh) as [_ Hf]. specialize (Hf He). unfold values.
    destruct (visible (view (store_nvs_ s)) !! (kNamespace, k)) as [[v|v|v]|] eqn:Ev; try done.
    destruct Hf. eauto.
Qed.

Lemma close_stored h s u s' : on_nvs (nvs_close h) s = (u, s') → same_values (values s) (values s').
Proof. intros E%on_nvs_inv. by eapply nvs_close_law. Qed.
Lemma key_stored key s b s' : valid_public_key key s = (b, s') → same_values (values s) (values s').
Proof. unfold valid_public_key. destruct (valid_p256_public_key _ _). by intros [_ <-]%pair_eq. Qed.

(** The calls of a function as facts about the values. *)
#[local] Ltac store_call :=
  match goal with
  | E : open_namespace _ _ = _ |- _ => apply open_stored in E; destruct E as (? & ? & ?)
  | E : ?st = RegStatus.kOk → open_handle _ _, E' : negb (RegStatus.is_ok ?st) = false |- _ =>
      specialize (E ltac:(by apply negb_false_iff, bool_decide_eq_true in E'))
  | Hh : open_handle ?s ?h, E : on_nvs (nvs_get_blob_size ?h _) ?s = _ |- _ =>
      apply (size_stored _ _ _ _ _ _ Hh) in E; destruct E as (? & ? & ? & ? & ?)
  | Hh : open_handle ?s ?h, E : on_nvs (nvs_get_blob ?h _) ?s = _ |- _ =>
      apply (blob_stored _ _ _ _ _ _ Hh) in E; destruct E as (? & ? & ? & ?)
  | E : on_nvs (nvs_close _) _ = _ |- _ => apply close_stored in E
  | E : valid_public_key _ _ = _ |- _ => apply key_stored in E
  end.
#[local] Ltac exec_store E :=
  unfold close_and_leave in E;
  repeat (exec_step E; cbn [fst snd] in *;
    repeat match goal with p : (_ * _)%type |- _ => destruct p; cbn [fst snd] in * end;
    repeat store_call).
#[local] Ltac chain := repeat (eapply same_values_trans; [eassumption|]); first [eassumption|done].
#[local] Ltac settle :=
  repeat match goal with
  | H : same_values (values ?a) (values ?b) |- _ => progress rewrite (visible_same _ _ H) in *
  end.
Lemma not_found_cases e : map_error e = RegStatus.kNotFound → e = ESP_ERR_NVS_NOT_FOUND ∨ e = ESP_ERR_NOT_FOUND.
Proof. destruct e; cbn; auto; congruence. Qed.

Lemma load_stored s st s' :
  load_registration s = (st, s') →
  same_values (values s) (values s') ∧
  (st = RegStatus.kOk ∨ st = RegStatus.kNotFound →
   stored_registration (visible (values s)) (device_of s) = Some (snapshot_ s')).
Proof.
  intros E. pose proof E as (_ & _ & Hno)%load_ram. fold (device_of s) in *.
  unfold load_registration in E. exec_store E.
  all: split; [chain|intros [Hst|Hst]; reg_bools; rewrite ?reg_map_error_ok in Hst; try done].
  all: change (values (s <| snapshot_ := unregistered (reg_device_id (snapshot_ s)) |>)) with (values s) in *;
    settle; unfold stored_registration.
  - rewrite Hno by congruence.
    by match goal with H : _ → ∀ key, _ = None |- _ => rewrite (H Hst) end.
  - rewrite Hno by done.
    by match goal with H : _ = ESP_ERR_NVS_NOT_FOUND → _ = None |- _ => rewrite H end.
  - by apply not_found_cases in Hst as [?|?].
  - exfalso. apply not_found_cases in Hst as [Hst|?]; [|done].
    match goal with H : e0 = ESP_ERR_NVS_NOT_FOUND → _ = None |- _ => specialize (H Hst) end.
    match goal with H : e = ESP_OK → _ |- _ => destruct (H ltac:(done)) as (b & Hb & _) end. congruence.
  - match goal with H : e0 = ESP_OK → _ |- _ => rewrite (H ltac:(done)) end. unfold record_fields.
    rewrite (proj2 (Nat.eqb_eq _ _)), bool_decide_eq_true_2, Em by done. cbn.
    assert (Hz : all_zero l1 || all_zero l2 || (z1 =? 0) = false) by (rewrite !orb_false_iff, Z.eqb_neq; done).
    by rewrite Hz.
Qed.

Lemma generate_stored s u s' :
  generate_device_id_candidate s = (u, s') →
  same_values (values s) (values s') ∧ store_nvs_ s' = store_nvs_ s ∧
  length (device_of s') = kDeviceIdBytes ∧ all_zero (device_of s') = false.
Proof.
  unfold generate_device_id_candidate. destruct (nonzero_bytes _ _) as [d q] eqn:E. intros [= _ <-].
  apply nonzero_bytes_spec in E as [Hl Hz]; [|unfold kDeviceIdBytes; lia]. done.
Qed.

Definition device_write (d : bytes) : write := ((kNamespace, kDeviceIdKey), Some (VBlob d)).

Lemma stored_device_write m d :
  length d = kDeviceIdBytes → all_zero d = false → stored_device (apply_write m (device_write d)) = Some d.
Proof.
  intros Hl Hz. unfold stored_device, reg_key. cbn. rewrite lookup_insert_eq. cbn.
  by rewrite Hl, Nat.eqb_refl, Hz.
Qed.

Lemma committed_visible v m : committed v = m → pending v = [] → visible v = m.
Proof. intros Hc Hp. unfold visible. by rewrite Hp. Qed.
Lemma writes_visible v v' w : writes v v' ESP_OK w → visible v' = apply_write (visible v) w.
Proof. intros (Hc & _ & _ & [Hp|[? _]]); [by apply visible_snoc|done]. Qed.

Lemma commit_stored h e0 s s' :
  commit_and_close h e0 s = (ESP_OK, s') →
  e0 = ESP_OK ∧ visible (values s') = visible (values s) ∧ pending (values s') = [].
Proof.
  intros E. unfold commit_and_close in E. exec E; [|done].
  apply on_nvs_inv in Ef. apply nvs_commit_law in Ef as (_ & _ & [[Hc Hp]|[? _]]); [|done].
  apply close_stored in Ef0 as [Hc' Hp']. reg_bools. split; [done|]. unfold values in *.
  rewrite Hp', Hp. split; [|done]. apply committed_visible; congruence.
Qed.

Lemma set_stored h key b s e s' :
  open_handle s h → on_nvs (nvs_set_blob h key b) s = (e, s') →
  writes (values s) (values s') e ((kNamespace, key), Some (VBlob b)).
Proof. intros Hh E%on_nvs_inv. by eapply nvs_set_blob_law. Qed.

Lemma device_stored s st s' :
  load_or_create_device_id s = (st, s') → st = RegStatus.kOk →
  stored_device (visible (values s')) = Some (device_of s') ∧
  (is_Some (stored_device (visible (values s))) → same_values (values s) (values s')).
Proof.
  intros E Hst. unfold load_or_create_device_id in E. exec_store E; reg_bools; try done.
  all: rewrite ?reg_map_error_ok in Hst; try done.
  - change (values (set_device_id l s3)) with (values s3). settle. split; [|intros _; chain].
    unfold stored_device.
    match goal with H : e0 = ESP_OK → reg_key _ _ = _ |- _ => rewrite (H ltac:(done)) end.
    by rewrite (proj2 (Nat.eqb_eq _ _)), H20 by done.
  - subst. apply generate_stored in Ef as (Hs & Hn & Hl & Hz).
    assert (Hh : open_handle s2 z) by (unfold open_handle, values; rewrite Hn; done).
    pose proof Ef0 as [_ Hr0]%on_nvs_ram. pose proof Ef1 as [_ Hr1]%commit_ram.
    apply (set_stored _ _ _ _ _ _ Hh) in Ef0. apply commit_stored in Ef1 as (-> & Hv & _).
    apply writes_visible in Ef0. split.
    + rewrite Hv, Ef0. unfold device_of. rewrite Hr1, Hr0. by apply stored_device_write.
    + settle. intros [d Hd]. unfold stored_device in Hd.
      by match goal with H : _ = _ → reg_key _ _ = None |- _ => rewrite H in Hd end.
Qed.

(** A start that succeeds shows exactly what is stored: the identifier of the
    device and its registration, or its absence; and where an identifier was
    stored the start writes nothing. *)
Lemma initialize_stored s s' :
  initialize s = (RegStatus.kOk, s') →
  ready_ s' = true ∧ stored (visible (values s')) = Some (snapshot_ s') ∧
  (is_Some (stored_device (visible (values s))) → same_values (values s) (values s')).
Proof.
  intros E. unfold initialize in E. exec_step E. exec_step E. exec_step E; [by destruct a|]. exec_step E.
  apply on_nvs_inv, nvs_init_law in Ef. change (same_values (values s) (values s0)) in Ef.
  exec E; reg_bools; try done.
  subst. apply device_stored in Ef0 as [Hd Hsame]; [|done]. pose proof Ef1 as [_ Hdev]%load_shape.
  apply load_stored in Ef1 as [Hl Hreg]. change (values (s2 <| ready_ := true |>)) with (values s2).
  rewrite <- (visible_same _ _ Ef). split_and!; [done| |].
  - rewrite (visible_same _ _ Hl). unfold stored. rewrite Hd. cbn. by apply Hreg.
  - intros Hd0. specialize (Hsame Hd0). chain.
Qed.
End Stored.

(** ** A start on storage that can be read *)

(** The keys of the registration hold values of their type, if any. *)
Definition registration_typed (m : entries) : Prop :=
  ∀ x, m !! (kNamespace, kRegistrationKey) = Some x → ∃ b, x = VBlob b.

Section Readable.
Context {N K Q : Type} `{NvsNotFoundLaws N} `{!NvsReadable N} `{NvsEraseAll N} `{PsaLaws K} `{!PsaReliable K}.
Context `{EspRandomLaws Q}.
Implicit Types (s : Store N K Q).

(** What the values hold is a registration the device accepts, or none. *)
Definition registered (m : entries) (snap : RegSnapshot) : Prop :=
  stored m = Some snap ∧ registration_typed m ∧ (reg_present snap = true → device_takes (K:=K) (reg_brk snap)).

(** A key holds [x], if anything. *)
Definition blob_at s (k : string) (x : option bytes) : Prop :=
  visible (values s) !! (kNamespace, k) = VBlob <$> x.

Lemma blob_at_same s s' k x : same_values (values s) (values s') → blob_at s k x → blob_at s' k x.
Proof. intros Hs. unfold blob_at. by rewrite (visible_same _ _ Hs). Qed.

Lemma open_reads mode s k b st h s' :
  blob_at s k (Some b) → open_namespace mode s = ((st, h), s') →
  st = RegStatus.kOk ∧ open_handle s' h ∧ same_values (values s) (values s').
Proof.
  intros Hb E. pose proof E as (Hs & Hh & _)%open_stored. assert (Hst : st = RegStatus.kOk); [|by auto].
  unfold open_namespace in E. destruct (on_nvs _ s) as [[e h'] s1] eqn:E1. injection E as <- <- <-.
  apply on_nvs_inv in E1. unfold blob_at, values in Hb.
  pose proof (readable_open kDefaultPartition kNamespace mode (store_nvs_ s) k) as Ho.
  rewrite E1, Hb in Ho. cbn in Ho. rewrite Ho; [done|by eexists].
Qed.

Lemma size_reads s h k x e z s' :
  open_handle s h → blob_at s k x → on_nvs (nvs_get_blob_size h k) s = ((e, z), s') →
  open_handle s' h ∧ same_values (values s) (values s') ∧
  match x with Some b => e = ESP_OK ∧ z = Z.of_nat (length b) | None => e = ESP_ERR_NVS_NOT_FOUND end.
Proof.
  intros Hh Hx E. pose proof (size_stored _ _ _ _ _ _ Hh E) as (Hs & Hh' & _ & Hok & _). split_and!; [done..|].
  apply on_nvs_inv in E. pose proof (readable_blob_size h k (store_nvs_ s) _ Hh) as Hr.
  unfold blob_at, values in Hx. unfold values in *. rewrite Hx, E in Hr. destruct x as [b|]; cbn in Hr; [|done].
  subst e. split; [done|]. destruct (Hok eq_refl) as (b' & Hb & <-). unfold reg_key in Hb. rewrite Hx in Hb.
  by injection Hb as <-.
Qed.

Lemma blob_reads s h k b e x s' :
  open_handle s h → blob_at s k (Some b) → on_nvs (nvs_get_blob h k) s = ((e, x), s') →
  same_values (values s) (values s') ∧ e = ESP_OK ∧ x = b.
Proof.
  intros Hh Hx E. pose proof (blob_stored _ _ _ _ _ _ Hh E) as (Hs & _ & Hok & _).
  apply on_nvs_inv in E. pose proof (readable_blob h k (store_nvs_ s) _ Hh) as Hr.
  unfold blob_at, values in Hx. unfold values in *. rewrite Hx, E in Hr. cbn in Hr. subst e.
  split_and!; [done..|]. specialize (Hok eq_refl). unfold reg_key in Hok. rewrite Hx in Hok. cbn in Hok. congruence.
Qed.

#[local] Ltac reads :=
  repeat match goal with p : (_ * _)%type |- _ => destruct p; cbn [fst snd] in * end;
  match goal with
  | Hx : blob_at ?s _ (Some _), E : open_namespace _ ?s = _ |- _ =>
      apply (open_reads _ _ _ _ _ _ _ Hx) in E; destruct E as (-> & ? & E); pose proof (blob_at_same _ _ _ _ E Hx)
  | Hh : open_handle ?s ?h, Hx : blob_at ?s ?k _, E : on_nvs (nvs_get_blob_size ?h ?k) ?s = _ |- _ =>
      let Hsame := fresh in
      apply (size_reads _ _ _ _ _ _ _ Hh Hx) in E; destruct E as (? & Hsame & E);
      pose proof (blob_at_same _ _ _ _ Hsame Hx)
  | Hh : open_handle ?s ?h, Hx : blob_at ?s ?k _, E : on_nvs (nvs_get_blob ?h ?k) ?s = _ |- _ =>
      apply (blob_reads _ _ _ _ _ _ _ Hh Hx) in E; destruct E as (? & -> & ->)
  end.

Lemma device_reads s d st s' :
  stored_device (visible (values s)) = Some d → load_or_create_device_id s = (st, s') → st = RegStatus.kOk.
Proof.
  intros Hd E. unfold stored_device in Hd.
  destruct (reg_key _ kDeviceIdKey) as [b|] eqn:Eb; [|done]. destruct (_ && _) eqn:Ec; [|done].
  injection Hd as ->. apply andb_true_iff in Ec as [Hl Hz]. apply Nat.eqb_eq in Hl. apply negb_true_iff in Hz.
  assert (Hb : blob_at s kDeviceIdKey (Some d)) by by apply reg_key_cases in Eb.
  unfold load_or_create_device_id in E. exec_step E. reads. exec_step E; [done|]. exec_step E. reads.
  destruct Ef0 as [-> ->]. exec_step E; [|done]. exec_step E; [by rewrite Hl in Eb1|]. exec_step E. reads.
  exec_step E. exec E; try done. by rewrite Hl, Hz in Eb3.
Qed.

Lemma registration_reads s snap st s' :
  stored_registration (visible (values s)) (device_of s) = Some snap → registration_typed (visible (values s)) →
  (reg_present snap = true → device_takes (K:=K) (reg_brk snap)) → stored_device (visible (values s)) ≠ None →
  load_registration s = (st, s') → st = RegStatus.kOk ∨ st = RegStatus.kNotFound.
Proof.
  intros Hreg Ht Hkey Hd E. unfold load_registration in E. exec_step E. exec_step E.
  set (s1 := s <| snapshot_ := _ |>) in E.
  assert (Hdev : ∃ d, blob_at s1 kDeviceIdKey (Some d)).
  { unfold stored_device in Hd. destruct (reg_key _ kDeviceIdKey) as [b|] eqn:Eb; [|done].
    exists b. by apply reg_key_cases in Eb. }
  assert (Hx : blob_at s1 kRegistrationKey (reg_key (visible (values s)) kRegistrationKey)).
  { unfold blob_at, reg_key. change (values s1) with (values s). specialize (Ht).
    unfold registration_typed in Ht. destruct (visible (values s) !! _) as [x|]; [|done].
    by destruct (Ht x eq_refl) as [b ->]. }
  destruct Hdev as [d Hdev]. exec_step E. destruct a as [st0 h].
  destruct (open_reads _ _ _ _ _ _ _ Hdev Ef) as (-> & Hh & Hs1). pose proof (blob_at_same _ _ _ _ Hs1 Hx) as Hx1.
  exec_step E; [done|]. exec_step E. destruct a as [e z].
  destruct (size_reads _ _ _ _ _ _ _ Hh Hx1 Ef0) as (Hh1 & Hs2 & Hsize). pose proof (blob_at_same _ _ _ _ Hs2 Hx1) as Hx2.
  unfold stored_registration in Hreg. destruct (reg_key _ kRegistrationKey) as [b|].
  2:{ subst e. unfold close_and_leave in E. exec E; auto; done. }
  destruct Hsize as [-> ->]. apply fmap_Some in Hreg as ([[[v r] ep] k] & Hf & ->). cbn in Hkey. specialize (Hkey eq_refl).
  unfold record_fields in Hf. destruct (_ && _) eqn:Ec'; [|done]. apply andb_true_iff in Ec' as [Hl Hm].
  apply Nat.eqb_eq in Hl. destruct (decode_registration b) as [[[v' r'] ep'] k'] eqn:Ed. destruct (_ || _) eqn:Ez; [done|].
  injection Hf as -> -> -> ->.
  exec_step E; [done|]. exec_step E; [done|]. exec_step E; [by rewrite Hl, Z.eqb_refl in Eb1|].
  exec_step E. destruct a as [e x]. destruct (blob_reads _ _ _ _ _ _ _ Hh1 Hx2 Ef1) as (_ & -> & ->).
  exec_step E. exec_step E; [done|]. exec_step E; [by rewrite Hl in Ec1|]. exec_step E; [by rewrite Hm in Ec2|].
  rewrite Ed in E. cbn iota in E. rewrite Ez in E. exec_step E.
  assert (Hv : ∀ s, fst (valid_public_key k s) = true).
  { intros s'0. unfold valid_public_key. pose proof (valid_p256_accepts k (store_keys_ s'0) Hkey) as Hv.
    by destruct (valid_p256_public_key _ _). }
  match goal with Ek : valid_public_key k ?x = _ |- _ => specialize (Hv x); rewrite Ek in Hv end.
  cbn in Hv. subst. exec E; auto; done.
Qed.

(** A device started on values that hold a registration, or none, comes up and
    shows it. *)
Lemma initialize_reads s snap :
  registered (visible (values s)) snap →
  ∃ s', initialize s = (RegStatus.kOk, s') ∧ ready_ s' = true ∧ snapshot_ s' = snap.
Proof.
  intros (Hst & Ht & Hkey). destruct (initialize s) as [st s'] eqn:E.
  assert (st = RegStatus.kOk) as ->.
  2:{ exists s'. apply initialize_stored in E as (Hr & Hs & Hsame). split_and!; [done..|].
      unfold stored in Hst. apply bind_Some in Hst as Hst'. destruct Hst' as (d & Hd & _).
      rewrite (visible_same (values s) (values s')) in Hs by (apply Hsame; by eexists).
      unfold stored in Hs. congruence. }
  unfold initialize in E. exec_step E. exec_step E. pose proof Ef as Hs0%on_nvs_inv%nvs_init_law.
  set (s1 := s <| ready_ := _ |> <| recovery_reset_available_ := _ |> <| device_id_recovery_required_ := _ |>
    <| snapshot_ := _ |>) in *.
  change (same_values (values s) (values s0)) in Hs0.
  assert (Ha : a = ESP_OK).
  { apply on_nvs_inv in Ef. pose proof (readable_init kDefaultPartition (store_nvs_ s1)) as Hi. by rewrite Ef in Hi. }
  subst a. exec_step E; [done|]. exec_step E.
  rewrite <- (visible_same _ _ Hs0) in *. unfold stored in Hst. apply bind_Some in Hst as (d & Hd & Hreg).
  pose proof (device_reads _ _ _ _ Hd Ef0) as ->. apply device_stored in Ef0 as [Hd' Hsame]; [|done].
  specialize (Hsame ltac:(by eexists)). rewrite <- (visible_same _ _ Hsame) in *.
  exec_step E; [done|]. exec_step E; [done|]. exec_step E. exec_step E.
  destruct (registration_reads s2 snap _ _ ltac:(congruence) Ht Hkey ltac:(congruence) Ef0) as [-> | ->]; by exec E.
Qed.
End Readable.

(** ** Power loss *)

(** The three changes of the registration, each with the record it writes. *)
Inductive change :=
  | Install (v r : bytes) (e : Z) (k : bytes)
  | Replace (v : bytes) (x : Z) (r : bytes) (e : Z) (k : bytes)
  | Clear.
Definition change_record (c : change) : option (bytes * bytes * Z * bytes) :=
  match c with Install v r e k | Replace v _ r e k => Some (v, r, e, k) | Clear => None end.
Definition encoded_change (c : change) : option bytes :=
  (λ '(v, r, e, k), encode_registration v r e k) <$> change_record c.
(** The registration after the change. *)
Definition changed (c : change) (device : bytes) : RegSnapshot :=
  match change_record c with
  | Some (v, r, e, k) => registered_as device v r e k
  | None => unregistered device
  end.


Section Crash.
Context {N K Q : Type} `{NvsNotFoundLaws N} `{NvsEraseAll (N * list N)} `{PsaLaws K} `{EspRandomLaws Q}.
Implicit Types (s : Store (N * list N) K Q).

(** Every state recorded between [s] and [s'] is part of the write [w]. *)
Definition during (w : write) s s' : Prop :=
  grows (written (values s) w) (store_nvs_ s) (store_nvs_ s') ∧ written (values s) w (values s').

Lemma quiet_during w s s1 s2 :
  quiet (store_nvs_ s) (store_nvs_ s1) → during w s1 s2 → during w s s2.
Proof.
  intros [Hs HG] [HG' Hw]. pose proof Hs as [Hc Hp].
  assert (Heq : ∀ v, written (values s1) w v → written (values s) w v).
  { intros v Hv. unfold written in *. unfold values in *. by rewrite (visible_same _ _ Hs), Hc, Hp in Hv. }
  split; [|by apply Heq]. eapply grows_trans; [|eapply grows_weaken; [exact Heq|done]].
  eapply grows_weaken; [|exact HG]. intros v [Hcv Hpv]. left. auto.
Qed.
Lemma during_quiet w s s1 s2 :
  during w s s1 → quiet (store_nvs_ s1) (store_nvs_ s2) → during w s s2.
Proof. intros [HG Hw] Hq. eapply grows_quiet; eauto using written_same. Qed.
Lemma during_refl w s : during w s s.
Proof. split; [apply grows_refl|]. left. auto. Qed.
Lemma only_quiet w s s' : quiet (store_nvs_ s) (store_nvs_ s') → during w s s'.
Proof. intros Hq. eapply quiet_during; [done|apply during_refl]. Qed.

Lemma reg_open_quiet mode s x s' : open_namespace mode s = (x, s') → quiet (store_nvs_ s) (store_nvs_ s').
Proof.
  unfold open_namespace. destruct (on_nvs _ s) as [[e h'] s1] eqn:E. intros [_ <-]%pair_eq.
  apply on_nvs_inv in E. eapply (quiet_call (nvs_open_from_partition kDefaultPartition kNamespace mode)); [done|].
  by apply nvs_open_law in E as [? _].
Qed.
Lemma reg_key_quiet key s b s' : valid_public_key key s = (b, s') → store_nvs_ s' = store_nvs_ s.
Proof. unfold valid_public_key. destruct (valid_p256_public_key _ _). by intros [_ <-]%pair_eq. Qed.

#[local] Ltac quiets :=
  repeat match goal with
  | E : open_namespace _ _ = _ |- _ => apply reg_open_quiet in E
  | E : valid_public_key _ _ = _ |- _ => apply reg_key_quiet in E
  | E : on_nvs (nvs_close _) _ = _ |- _ => apply on_nvs_inv, close_quiet in E
  | E : on_nvs (nvs_get_blob_size _ _) _ = _ |- _ => apply on_nvs_inv, get_blob_size_quiet in E
  | E : on_nvs (nvs_get_blob _ _) _ = _ |- _ => apply on_nvs_inv, get_blob_quiet in E
  | H : store_nvs_ _ = store_nvs_ _ |- _ => progress rewrite H in *
  end.

Lemma load_quiet s st s' : load_registration s = (st, s') → quiet (store_nvs_ s) (store_nvs_ s').
Proof.
  intros E. unfold load_registration, close_and_leave in E.
  exec E; repeat match goal with p : (_ * _)%type |- _ => destruct p; cbn [fst snd] in * end; quiets.
  all: match goal with
    | H : quiet (store_nvs_ (_ <| snapshot_ := _ |>)) ?x |- _ => change (quiet (store_nvs_ s) x) in H
    end; try quiet_chain.
  change (quiet (store_nvs_ s) (store_nvs_ s4)). rewrite Ef3. quiet_chain.
Qed.

(** A commit after one write, or after none where the write changes nothing. *)
Lemma commit_during h w v0 e0 s e s' :
  committed (values s) = committed v0 →
  (pending (values s) = pending v0 ++ [w] ∨
   pending (values s) = pending v0 ∧ (e0 = ESP_OK → apply_write (visible v0) w = visible v0)) →
  commit_and_close h e0 s = (e, s') →
  grows (written v0 w) (store_nvs_ s) (store_nvs_ s') ∧ written v0 w (values s') ∧
  (e = ESP_OK → visible (values s') = apply_write (visible v0) w ∧ pending (values s') = []).
Proof.
  intros Hc Hp E. assert (Hw : written v0 w (values s)).
  { left. split; [done|]. destruct Hp as [Hp|[Hp _]]; auto. }
  unfold commit_and_close in E. exec E; quiets; reg_bools.
  - subst. assert (Hv : visible (values s) = apply_write (visible v0) w).
    { destruct Hp as [Hp|[Hp He]]; [by apply visible_snoc|]. rewrite He by done. unfold visible. by rewrite Hc, Hp. }
    apply on_nvs_inv in Ef. pose proof Ef as (_ & _ & Hx)%nvs_commit_law.
    assert (Hw' : written v0 w (values s0)).
    { destruct Hx as [[Hc1 Hp1]|(_ & Hc1 & Hp1)]; [right; unfold values in *; split; congruence|].
      left. unfold values in *. rewrite Hc1, Hp1. split; [done|]. destruct Hp as [Hp|[Hp _]]; auto. }
    assert (HG : grows (written v0 w) (store_nvs_ s) (store_nvs_ s0)) by by eapply (grows_call (nvs_commit h)).
    edestruct grows_quiet as [HG' Hw'']; [apply written_same|exact HG|exact Hw'|exact Ef0|].
    split_and!; [done|done|]. intros ->. destruct Hx as [[Hc1 Hp1]|[? _]]; [|done].
    destruct Ef0 as [[Hc2 Hp2] _]. unfold values in *. rewrite Hp2, Hp1. split; [|done].
    apply committed_visible; congruence.
  - edestruct grows_quiet as [HG' Hw'']; [apply written_same|apply grows_refl|exact Hw|exact Ef|].
    by split_and!.
Qed.

(** The call that writes, its commit and the close. *)
Lemma write_during {A} h w (f : N → A * N) e1 a s s1 e s' :
  on_nvs (logged f) s = (a, s1) → committed (values s1) = committed (values s) →
  (pending (values s1) = pending (values s) ++ [w] ∨
   pending (values s1) = pending (values s) ∧ (e1 = ESP_OK → apply_write (visible (values s)) w = visible (values s))) →
  commit_and_close h e1 s1 = (e, s') →
  during w s s' ∧
  (e = ESP_OK → visible (values s') = apply_write (visible (values s)) w ∧ pending (values s') = []).
Proof.
  intros E%on_nvs_inv Hc Hp Ec. destruct (commit_during _ _ _ _ _ _ _ Hc Hp Ec) as (HG & Hw & Hok).
  split; [split; [|done]|done]. eapply grows_trans; [|done]. eapply (grows_call f); [done|].
  left. split; [done|]. destruct Hp as [Hp|[Hp _]]; auto.
Qed.

Definition reg_write (encoded : option bytes) : write := ((kNamespace, kRegistrationKey), VBlob <$> encoded).

(** A change whose condition is [P]: it is refused without a write, or it is
    accepted and does the write [w] and nothing else; a success has done it. *)
Definition attempts (P : Prop) w s (st : RegStatus.t) s' : Prop :=
  st ≠ RegStatus.kOk ∧ quiet (store_nvs_ s) (store_nvs_ s') ∨
  P ∧ during w s s' ∧
  (st = RegStatus.kOk → visible (values s') = apply_write (visible (values s)) w ∧ pending (values s') = []).

Lemma quiet_attempts P w s s1 st s' :
  quiet (store_nvs_ s) (store_nvs_ s1) → attempts P w s1 st s' → attempts P w s st s'.
Proof.
  intros Hq [[Hst Hq']|(HP & Hd & Hok)]; [left; split; [done|by eapply quiet_trans]|right].
  split_and!; [done|by eapply quiet_during|]. destruct Hq as [Hs _].
  by rewrite <- (visible_same (values s) (values s1) Hs).
Qed.
Lemma refused P w s st s' : st ≠ RegStatus.kOk → quiet (store_nvs_ s) (store_nvs_ s') → attempts P w s st s'.
Proof. by left. Qed.
#[local] Hint Resolve refused quiet_refl : core.

(** The fields a registration may have. *)
Definition acceptable (v r : bytes) (e : Z) (k : bytes) : Prop :=
  all_zero v = false ∧ all_zero r = false ∧ e ≠ 0 ∧ device_takes (K:=K) k.

Lemma persist_during v r e k s st s' :
  persist_registration v r e k s = (st, s') →
  attempts (acceptable v r e k) (reg_write (Some (encode_registration v r e k))) s st s'.
Proof.
  intros E. set (w := reg_write _). unfold persist_registration in E. exec_step E.
  { exec E; auto; done. }
  exec_step E. pose proof (reg_key_quiet _ _ _ _ Ef) as Hk.
  assert (Hq0 : quiet (store_nvs_ s) (store_nvs_ s0)) by (rewrite Hk; apply quiet_refl).
  exec_step E; [by auto|]. exec_step E. destruct a0 as [st0 h].
  pose proof Ef0 as (Hs & Hh & _)%open_stored. apply reg_open_quiet in Ef0.
  assert (Hq1 : quiet (store_nvs_ s) (store_nvs_ s1)) by quiet_chain.
  exec_step E. { apply refused; [by intros ->|done]. }
  reg_bools. subst. specialize (Hh eq_refl). apply (quiet_attempts _ _ _ _ _ _ Hq1).
  exec_step E. pose proof (set_stored _ _ _ _ _ _ Hh Ef1) as (Hc & _ & _ & Hp).
  exec_step E. edestruct (write_during h w (nvs_set_blob h kRegistrationKey (encode_registration v r e k)) a a s1 s2)
    as [Hdur Hok]; [exact Ef1|exact Hc| |exact Ef2|].
  { destruct Hp as [Hp|[Hne Hp]]; [by left|right; by split]. }
  assert (HP : acceptable v r e k).
  { unfold valid_public_key in Ef. destruct (valid_p256_public_key _ _) as [b k'] eqn:Ev.
    injection Ef as -> _. apply valid_p256_spec in Ev as [_ Hv]. split_and!; try done. by apply Hv. }
  right. split; [done|]. exec E; (split; [done|]); [|by intros _; apply Hok; reg_bools].
  intros Hst%reg_map_error_ok. by apply Hok.
Qed.

Lemma clear_during s st s' : store_clear s = (st, s') → attempts True (reg_write None) s st s'.
Proof.
  intros E. set (w := reg_write None). unfold store_clear in E. exec_step E. exec_step E; [by auto|].
  exec_step E. destruct a as [st0 h]. pose proof Ef as (Hs & Hh & _)%open_stored. apply reg_open_quiet in Ef.
  exec_step E. { apply refused; [by intros ->|done]. }
  reg_bools. subst. specialize (Hh eq_refl). apply (quiet_attempts _ _ _ _ _ _ Ef).
  exec_step E. unfold erase_registration_key in Ef0.
  destruct (on_nvs _ s0) as [e0 s2] eqn:E0 in Ef0. apply pair_eq in Ef0 as [Ha <-].
  pose proof E0 as Hx%on_nvs_inv. eapply nvs_erase_key_law in Hx as [(Hc & _ & _ & Hp) Hno]; [|exact Hh].
  exec_step E. edestruct (write_during h w (nvs_erase_key h kRegistrationKey) a e0 s0 s2)
    as [Hdur Hok]; [exact E0|exact Hc| |exact Ef0|].
  { destruct Hp as [Hp|[Hne Hp]]; [by left|]. right. split; [done|]. intros Ha'. case_bool_decide; [|congruence].
    destruct (Hno ltac:(done)) as [_ Hv]. by apply delete_id. }
  right. split; [done|]. exec E; (split; [done|]); [|by intros _; apply Hok; reg_bools].
  intros Hst%reg_map_error_ok. by apply Hok.
Qed.

Definition perform (c : change) : Store (N * list N) K Q → RegStatus.t * Store (N * list N) K Q :=
  match c with
  | Install v r e k => store_install_initial v r e k
  | Replace v x r e k => store_replace v x r e k
  | Clear => store_clear
  end.
Definition change_acceptable (c : change) : Prop :=
  match change_record c with Some (v, r, e, k) => acceptable v r e k | None => True end.

Lemma perform_during c s st s' :
  perform c s = (st, s') → attempts (change_acceptable c) (reg_write (encoded_change c)) s st s'.
Proof.
  intros E. destruct c as [v r e k|v x r e k|]; cbn in E.
  - unfold store_install_initial in E. exec E; auto; apply load_quiet in Ef; try by auto.
    + apply refused; [|done]. destruct (RegStatus.is_ok a) eqn:?; by reg_bools.
    + eapply quiet_attempts; [done|]. by apply persist_during.
  - unfold store_replace in E. exec E; auto; apply load_quiet in Ef; try by auto.
    + apply refused; [|done]. by reg_bools.
    + eapply quiet_attempts; [done|]. by apply persist_during.
  - by apply clear_during.
Qed.
End Crash.

(** ** The record *)

Lemma shl32_byte b n : is_byte b → 0 ≤ n ≤ 24 → shl32 b n = Z.shiftl b n.
Proof.
  unfold is_byte. intros Hb Hn. unfold shl32. replace u32_max with (Z.ones 32) by done.
  rewrite (Z.land_ones b) by lia. rewrite (Z.mod_small b) by lia.
  rewrite Z.land_ones by lia. rewrite Z.shiftl_mul_pow2 by lia. apply Z.mod_small.
  assert (2 ^ n ≤ 2 ^ 24) by (apply Z.pow_le_mono_r; lia). nia.
Qed.

Lemma read_write_u32 e rest : is_u32 e → read_u32 (write_u32 e ++ rest) = e.
Proof.
  unfold is_u32, u32_max. intros He. unfold read_u32, write_u32. cbn [app nth].
  rewrite !shl32_byte by (apply byte_at_is_byte || lia).
  rewrite <- !Z.lor_assoc, Z.shiftl_0_r.
  pose proof (byte_at_is_byte e 0). pose proof (byte_at_is_byte e 8). pose proof (byte_at_is_byte e 16).
  unfold is_byte in *. rewrite (lor_shiftl_add _ _ 8), (lor_shiftl_add _ _ 16), (lor_shiftl_add _ _ 24) by lia.
  rewrite !byte_at_div by lia. lia.
Qed.

(** The sizes of the fields of a record. *)
Definition record_wf (v r : bytes) (e : Z) (k : bytes) : Prop :=
  length v = kVaultIdBytes ∧ length r = kRegRegistrationIdBytes ∧ is_u32 e ∧ length k = kP256PublicKeyBytes.

Lemma take_drop_field {A} n (a b : list A) : length a = n → take n (a ++ b) = a ∧ drop n (a ++ b) = b.
Proof. intros <-. by rewrite take_app_length, drop_app_length. Qed.

Lemma decode_encode_registration v r e k :
  record_wf v r e k → decode_registration (encode_registration v r e k) = (v, r, e, k).
Proof.
  intros (Hv & Hr & He & Hk). unfold decode_registration, encode_registration.
  destruct (take_drop_field _ kRegistrationMagic (v ++ r ++ write_u32 e ++ k) eq_refl) as [_ ->].
  destruct (take_drop_field _ v (r ++ write_u32 e ++ k) Hv) as [-> ->].
  destruct (take_drop_field _ r (write_u32 e ++ k) Hr) as [-> ->].
  rewrite read_write_u32 by done. destruct (take_drop_field 4 (write_u32 e) k eq_refl) as [_ ->].
  by rewrite (take_ge k) by lia.
Qed.

(** The record determines its fields. *)
Lemma record_roundtrip v r e k :
  record_wf v r e k → all_zero v = false → all_zero r = false → e ≠ 0 →
  record_fields (encode_registration v r e k) = Some (v, r, e, k).
Proof.
  intros Hwf Hv Hr He. unfold record_fields. rewrite decode_encode_registration by done.
  destruct Hwf as (Hlv & Hlr & _ & Hk).
  assert (Hl : length (encode_registration v r e k) = kEncodedRegistrationBytes).
  { unfold encode_registration, kEncodedRegistrationBytes. rewrite !length_app. cbn [length write_u32]. lia. }
  rewrite Hl, Nat.eqb_refl, bool_decide_eq_true_2.
  - by rewrite Hv, Hr, (proj2 (Z.eqb_neq _ _) He).
  - unfold encode_registration. by rewrite take_app_length.
Qed.

Definition change_wf (c : change) : Prop :=
  match change_record c with Some (v, r, e, k) => record_wf v r e k | None => True end.

Lemma stored_device_reg_write m x : stored_device (apply_write m (reg_write x)) = stored_device m.
Proof.
  unfold stored_device, reg_key, apply_write, reg_write. destruct x; cbn [fst snd fmap option_fmap option_map];
    by rewrite ?lookup_insert_ne, ?lookup_delete_ne by done.
Qed.

Section PowerLoss.
Context {N N2 K K2 Q Q2 : Type} `{NvsNotFoundLaws N} `{NvsEraseAll (N * list N)} `{PsaLaws K} `{EspRandomLaws Q}.
Context `{NvsNotFoundLaws N2} `{!NvsReadable N2} `{NvsEraseAll N2} `{!PsaReliable K} `{EspRandomLaws Q2}.
Implicit Types (s : Store (N * list N) K Q) (t : Store N2 K Q2).

(** The values [m] hold the registration [snap], and a device started on them finds
    it: whatever NVS the device then has, as long as it can be read, the start
    succeeds and shows [snap]. *)
Definition comes_up (m : entries) (snap : RegSnapshot) : Prop :=
  registered (K:=K) m snap ∧
  ∀ t, visible (values t) = m →
    ∃ t', initialize t = (RegStatus.kOk, t') ∧ ready_ t' = true ∧ snapshot_ t' = snap.

Lemma registered_comes_up m snap : registered (K:=K) m snap → comes_up m snap.
Proof. intros Hm. split; [done|]. intros t <-. by apply initialize_reads. Qed.

Lemma registered_changed c m old :
  change_wf c → change_acceptable (K:=K) c → registered (K:=K) m old →
  registered (K:=K) (apply_write m (reg_write (encoded_change c))) (changed c (reg_device_id old)).
Proof.
  intros Hwf Hc (Ho & _ & _). unfold registered, stored in *. apply bind_Some in Ho as (d & Hd & Ho).
  rewrite stored_device_reg_write, Hd. cbn [mbind option_bind].
  assert (Hdev : reg_device_id old = d).
  { unfold stored_registration in Ho. destruct (reg_key m kRegistrationKey) as [b|]; [|by injection Ho as <-].
    apply fmap_Some in Ho as ([[[? ?] ?] ?] & _ & ->). done. }
  rewrite Hdev. unfold stored_registration, registration_typed, reg_key, apply_write, reg_write, encoded_change,
    changed, change_wf, change_acceptable in *.
  destruct (change_record c) as [[[[v r] e] k]|]; cbn [fst snd fmap option_fmap option_map].
  - rewrite lookup_insert_eq. cbn [mbind option_bind as_blob]. destruct Hc as (Hv & Hr & He & Hk).
    rewrite record_roundtrip by done. split_and!; [done| |done]. intros x [= <-]. by eexists.
  - by rewrite lookup_delete_eq.
Qed.

(** C7: The registration changes atomically: power may be lost at any NVS call of
    an installation, a replacement or a removal, and the next start, on a flash
    that can be read, succeeds and shows the old registration or the new one,
    whole, under the same device identifier; after a success it shows the new
    one. *)
Theorem registration_survives_power_loss c s st s' old :
  pending (values s) = [] → registered (K:=K) (visible (values s)) old → change_wf c →
  perform c s = (st, s') →
  (∃ ls, snd (store_nvs_ s') = snd (store_nvs_ s) ++ ls ∧
     Forall (λ n, ∀ m, survives (view n) m →
       comes_up m old ∨ comes_up m (changed c (reg_device_id old))) ls) ∧
  (st = RegStatus.kOk → ∀ m, survives (values s') m → comes_up m (changed c (reg_device_id old))).
Proof.
  intros Hp Ho Hwf [[Hst [Hs (ls & Els & HF)]]|(Hc & [(ls & Els & HF) _] & Hok)]%perform_during.
  - split; [|done]. exists ls. split; [done|]. eapply Forall_impl; [exact HF|]. intros n Hn m Hm. left.
    apply (survives_same _ _ _ Hn), survives_committed in Hm as ->; [|done].
    apply registered_comes_up. unfold visible in Ho. unfold values in *. by rewrite Hp in Ho.
  - pose proof (registered_changed _ _ _ Hwf Hc Ho) as Hnew. split.
    + exists ls. split; [done|]. eapply Forall_impl; [exact HF|]. intros n Hw m Hm.
      destruct (written_survives _ _ _ _ Hp Hw Hm) as [->| ->]; auto using registered_comes_up.
    + intros Hst m Hm. destruct (Hok Hst) as [Hv Hp']. apply survives_committed in Hm as ->; [|done].
      apply registered_comes_up. by rewrite <- (committed_visible _ _ eq_refl Hp'), Hv.
Qed.
End PowerLoss.

(** ** Erasing a namespace *)

#[export] Instance memory_erase_all : NvsEraseAll MemoryNvs := {|
  nvs_erase_all h v :=
    match handles v !! h with
    | None => (ESP_ERR_OTHER 1, v)
    | Some ns =>
      (ESP_OK, v <| pending := pending v ++ map (λ k, ((ns, k), None))
        (omap (λ x, if bool_decide (fst (fst x) = ns) then Some (snd (fst x)) else None)
           (map_to_list (visible v))) |>)
    end;
|}.
#[export] Instance logged_erase_all `{NvsEraseAll N} : NvsEraseAll (N * list N) := {|
  nvs_erase_all h := logged (nvs_erase_all h);
|}.

Lemma erased_lookup (ns : string) (ks : list string) (m : entries) (k : string) :
  apply_writes m (map (λ k, ((ns, k), None)) ks) !! (ns, k) = if bool_decide (k ∈ ks) then None else m !! (ns, k).
Proof.
  revert m. induction ks as [|k' ks IH]; intros m; [done|]. cbn. rewrite IH. unfold apply_write. cbn.
  destruct (decide (k = k')) as [->|Hk].
  - rewrite lookup_delete_eq. rewrite (bool_decide_eq_true_2 (k' ∈ k' :: ks)) by set_solver. by case_bool_decide.
  - rewrite lookup_delete_ne by congruence. do 2 case_bool_decide; set_solver.
Qed.

#[export] Instance memory_erase_all_laws : NvsEraseAllLaws MemoryNvs.
Proof.
  constructor. intros h n e n' ns E Hh. cbn in E, Hh. rewrite Hh in E. injection E as <- <-. cbn.
  split_and!; [done|done|by eexists|]. intros _ k. unfold visible. cbn. unfold apply_writes.
  rewrite foldl_app. fold apply_writes. fold (visible n). rewrite erased_lookup.
  case_bool_decide as Hk; [done|]. destruct (visible n !! (ns, k)) as [x|] eqn:Ex; [|done]. destruct Hk.
  apply list_elem_of_omap. exists ((ns, k), x). split; [by apply elem_of_map_to_list|].
  cbn. by rewrite bool_decide_eq_true_2.
Qed.

(** ** A run in memory *)

Module RegistrationSample.
#[local] Existing Instance checksum_gcm.
Abbreviation Logged := (Store (MemoryNvs * list MemoryNvs) ToyKeys Z).

Definition vault : bytes := seqZ 1 16.
Definition browser : bytes := seqZ 40 16.
Definition browser_key : bytes := toy_point 9.
Definition first_change : change := Install vault browser 1 browser_key.

(** The first start makes an identifier; then a browser registers. *)
Definition started : Logged := snd (initialize (new_store (fresh_nvs, []) fresh_keys 5)).
Definition installed : Logged := snd (perform first_change started).
(** A second start on what is stored then. *)
Definition restart (m : entries) : Store MemoryNvs ToyKeys Z :=
  new_store (mkView m [] ∅ ∅) fresh_keys 77.

Example starts : fst (initialize (new_store (fresh_nvs, []) fresh_keys 5)) = RegStatus.kOk.
Proof. by vm_compute. Qed.
Example replaces_only_next :
  fst (perform (Replace vault 3 browser 4 browser_key) installed) = RegStatus.kConflict ∧
  fst (perform (Replace vault 1 browser 2 browser_key) installed) = RegStatus.kOk.
Proof. by vm_compute. Qed.

Lemma started_pending : pending (values started) = [].
Proof. by vm_compute. Qed.
Lemma started_stored : stored (visible (values started)) = Some (unregistered (device_of started)).
Proof. by vm_compute. Qed.
Lemma first_change_wf : change_wf first_change.
Proof. split_and!; [by vm_compute..|unfold is_u32, u32_max; lia|by vm_compute]. Qed.
Lemma first_change_ok : fst (perform first_change started) = RegStatus.kOk.
Proof. by vm_compute. Qed.

Lemma started_registered : registered (K:=ToyKeys) (visible (values started)) (unregistered (device_of started)).
Proof.
  split_and!; [exact started_stored| |done]. intros x Hx. vm_compute in Hx. discriminate Hx.
Qed.

(** Installed, every start shows the browser, [restart] for one; and so does a
    start after power was lost at the commit, or nothing has changed. *)
Lemma registration_survives_power_loss_witness :
  let new := registered_as (device_of started) vault browser 1 browser_key in
  comes_up (N2:=MemoryNvs) (K:=ToyKeys) (Q2:=Z) (visible (values installed)) new ∧
  snapshot_ (snd (initialize (restart (visible (values installed))))) = new ∧
  Forall (λ n : MemoryNvs, comes_up (N2:=MemoryNvs) (K:=ToyKeys) (Q2:=Z) (visible (view n)) (unregistered (device_of started)) ∨
    comes_up (N2:=MemoryNvs) (K:=ToyKeys) (Q2:=Z) (visible (view n)) new) (drop (length (snd (store_nvs_ started))) (snd (store_nvs_ installed))).
Proof.
  intros new.
  assert (E : perform first_change started = (fst (perform first_change started), installed)) by apply surjective_pairing.
  destruct (registration_survives_power_loss (N2:=MemoryNvs) (Q2:=Z) first_change started
    (fst (perform first_change started)) installed
    (unregistered (device_of started)) started_pending started_registered first_change_wf E) as [(ls & Els & HF) Hdone].
  split; [|split].
  - exact (Hdone first_change_ok _ (visible_survives (values installed))).
  - vm_compute. reflexivity.
  - rewrite Els, drop_app_length. eapply Forall_impl; [exact HF|]. intros n Hn.
    exact (Hn _ (visible_survives (view n))).
Defined.
End RegistrationSample.
