(* ===== verification/AppSample.v ===== *)
(** * A run of the application

    A device with a Vault, a driver that delivers chosen pieces of bytes, and a
    browser that says hello and asks for a factory reset: the theorems about the
    loop applied to it, and what becomes of a request with bytes behind it. *)

From S2P Require Import Prelude Bytes VaultFormat VaultCrypto Persistence Runtime RuntimeCorrect Nvs.
From S2P Require Import Psa DeviceSession UserPresence Transcript Attempt AttemptCorrect Binding Json.
From S2P Require Import RegistrationStore Registration RegistrationCorrect VmkSink SessionHandler SessionHandlerCorrect.
From S2P Require Import TrustedTime TimeService TimeServiceCorrect Random.
From S2P Require Import CanonicalProtocol CanonicalProtocolCorrect Transport AppMain AppMainCorrect.

(** A port that is always connected: the pieces still to come, and what the host
    has received. *)
Record ToyUsb := mkUsb { pieces : list bytes; received : bytes }.
#[export] Instance toy_usb : UsbDriver ToyUsb := {|
  pdMS_TO_TICKS ms := ms / 10;
  usb_serial_jtag_is_driver_installed d := (false, d);
  usb_serial_jtag_driver_install _ _ d := (ESP_OK, d);
  usb_serial_jtag_is_connected d := (true, d);
  usb_serial_jtag_read_bytes capacity _ d :=
    match pieces d with
    | [] => ((0, []), d)
    | piece :: rest =>
      let data := take (Z.to_nat capacity) piece in ((Z.of_nat (length data), data), mkUsb rest (received d))
    end;
  usb_serial_jtag_write_bytes data _ d := (Z.of_nat (length data), mkUsb (pieces d) (received d ++ data));
  usb_serial_jtag_wait_tx_done _ d := (ESP_OK, d);
|}.
#[export] Instance toy_usb_laws : UsbDriverLaws ToyUsb.
Proof.
  refine {| sent := received |}; cbn.
  - intros capacity _ [[|piece rest] out] n data d' E; cbn in E; injection E as <- <- <-; cbn;
      rewrite ?length_take; split_and!; done || lia.
  - intros data _ d n d' [= <- <-]. cbn. rewrite Nat2Z.id, take_ge by lia. done.
  - by intros _ d e d' [= _ <-].
  - by intros d b d' [= _ <-].
Defined.

Module AppSample.
#[local] Existing Instance checksum_gcm.
#[local] Existing Instance checksum_gcm_laws.
#[local] Existing Instance TimeSample.good_network.

(** Four lines a browser may send, and what the parsers make of them; [33] stands
    for bytes behind a request. *)
Definition strict (line : bytes) : option json :=
  match line with
  | [1] => Some (HandlerSample.request "factory_reset.begin" [])
  | [2] => Some (HandlerSample.request "factory_reset.commit"
                   [HandlerSample.binary "attempt_id" ProtocolSample.reset_attempt])
  | [4] => Some (HandlerSample.request "hello" [])
  | [200] => Some (empty_success 1)
  | _ => None
  end.
Definition lenient (line : bytes) : option json :=
  match line with
  | [c; 33] => strict [c]
  | _ => strict line
  end.
Definition print (response : json) : bytes := if response_ok response then [200] else [201].

Lemma strict_lenient : strict_parser lenient strict.
Proof. intros [|a [|b [|c line]]] v; unfold lenient, strict; try done; repeat (case_match; try done). Qed.

Abbreviation Device := (App MemoryStore MemoryRegistration CanonicalPresence ToyKeys Z Z ToyUsb).
Abbreviation pass a := (serial_pass lenient strict print ProtocolSample.stick 4000 (a : Device)).
Fixpoint passes (n : nat) (a : Device) : list pass_event * Device :=
  match n with
  | O => ([], a)
  | S n => let '(event, a) := pass a in let '(events, a) := passes n a in (event :: events, a)
  end.

Lemma passes_run n a : app_run lenient strict print ProtocolSample.stick a (fst (passes n a)) (snd (passes n a)).
Proof.
  revert a. induction n as [|n IH]; intros a; [constructor|]. cbn [passes].
  destruct (pass a) as [event a1] eqn:E. specialize (IH a1). destruct (passes n a1) as [events a2].
  exact (run_pass _ _ _ _ 4000 a event a1 events a2 E IH).
Qed.

Abbreviation reached := (app_reachable lenient strict print ProtocolSample.stick).
Lemma pass_reached a : reached a → reached (snd (pass a)).
Proof. intros Hr. eapply app_passed; [exact Hr|]. exact (surjective_pairing (pass a)). Qed.
Lemma passes_reached n a : reached a → reached (snd (passes n a)).
Proof.
  revert a. induction n as [|n IH]; intros a Hr; [done|]. cbn [passes]. pose proof (pass_reached a Hr) as Hr1.
  destruct (pass a) as [event a1]. specialize (IH a1 Hr1). by destruct (passes n a1).
Qed.

(** The device at power on, with the host's bytes still to come. *)
Definition device (input : list bytes) : Device :=
  mkApp _ _ _ _ _ _ _ ProtocolSample.p0 (mkTransport _ true kPreHandshake (mkUsb input [])) (zeros input_capacity) 0 false.
Lemma device_reached input : reached (device input).
Proof.
  exact (app_started lenient strict print ProtocolSample.stick (mkPresence 7 idle_gate) fresh_keys Sample.opened
    ProtocolSample.registered TimeSample.service 4 (mkTransport _ true kPreHandshake (mkUsb input []))).
Qed.

(** The user presses the button; the host sends. *)
Definition pressed (input : list bytes) (a : Device) : Device :=
  a <| app_protocol := snd (in_presence ProtocolSample.press (app_protocol a)) |>
    <| app_transport := app_transport a <| driver_ := mkUsb input [] |> |>.
Lemma pressed_reached input a : reached a → reached (pressed input a).
Proof.
  intros Hr. apply (app_others _ _ _ _ _ (mkUsb input []) _ Hr).
  exact (protocol_presence lenient ProtocolSample.stick ProtocolSample.press (app_protocol a) _ _
    (surjective_pairing (in_presence ProtocolSample.press (app_protocol a)))).
Qed.

(** A hello and a request, in three pieces. *)
Definition greeting : list bytes := [[4]; [10; 1]; [13; 10]].
Definition asked : Device := snd (passes 5 (device greeting)).

Lemma greeting_events :
  fst (passes 5 (device greeting)) = [PassRead [4]; PassRead [10; 1]; PassLine [4]; PassRead [13; 10]; PassLine [1]].
Proof. vm_compute. reflexivity. Qed.
Lemma device_ok input : buffer_ok (device input).
Proof. exact (proj1 (emptied_ok (device input) eq_refl eq_refl)). Qed.

(** Both lines come out, whole and once, though neither arrived in one piece. *)
Lemma framing_exact_witness :
  concat (handled <$> fst (passes 5 (device greeting))) = [Line [4]; Line [1]] ∧
  scan (line_start (device greeting))
    (buffered_bytes (device greeting) ++ concat (read_data <$> fst (passes 5 (device greeting)))) =
  concat (handled <$> fst (passes 5 (device greeting))) ++ scan (line_start asked) (buffered_bytes asked).
Proof.
  assert (Hg : Forall goes_on (fst (passes 5 (device greeting)))) by (rewrite greeting_events; repeat constructor).
  split; [rewrite greeting_events; reflexivity|].
  exact (proj2 (framing_exact lenient strict print ProtocolSample.stick (device greeting) _ asked
    (device_ok greeting) (passes_run 5 (device greeting))) Hg).
Defined.

(** The host hears two responses. *)
Lemma session_phases_witness :
  phase (device greeting) = kPreHandshake ∧ phase asked = kStrictPostHandshake ∧
  host_bytes asked = [200; 10; 200; 10] ∧ phase_outcome strict print asked (fst (pass asked)) (snd (pass asked)).
Proof.
  split; [reflexivity|]. split; [vm_compute; reflexivity|]. split; [vm_compute; reflexivity|].
  exact (session_phases lenient strict print ProtocolSample.stick 4000 asked).
Defined.

(** A request before the handshake is ignored. *)
Lemma outside_session_stored_witness :
  phase (device [[1; 10]]) ≠ kStrictPostHandshake ∧
  fst (passes 2 (device [[1; 10]])) = [PassRead [1; 10]; PassIgnored [1]] ∧
  same_stored (app_protocol (device [[1; 10]])) (app_protocol (snd (pass (device [[1; 10]])))).
Proof.
  assert (Hp : phase (device [[1; 10]]) ≠ kStrictPostHandshake) by discriminate.
  split; [exact Hp|]. split; [vm_compute; reflexivity|].
  exact (outside_session_stored lenient strict print ProtocolSample.stick 4000 (device [[1; 10]]) strict_lenient Hp).
Defined.

(** The user confirms; the browser completes the reset. *)
Definition confirmed_device (input : list bytes) : Device := pressed input asked.
Definition committed (input : list bytes) : Device := snd (passes 1 (confirmed_device input)).
Lemma committed_reached input : reached (committed input).
Proof.
  exact (passes_reached 1 _ (pressed_reached input asked (passes_reached 5 _ (device_reached greeting)))).
Qed.

Lemma device_erased_only_confirmed_witness :
  has_vault_ (protocol_runtime (app_protocol (committed [[2; 10]]))) = true ∧
  has_vault_ (protocol_runtime (app_protocol (snd (pass (committed [[2; 10]]))))) = false ∧
  phase (committed [[2; 10]]) = kStrictPostHandshake.
Proof.
  assert (Hv : has_vault_ (protocol_runtime (app_protocol (committed [[2; 10]]))) = true) by (vm_compute; reflexivity).
  assert (Hv' : has_vault_ (protocol_runtime (app_protocol (snd (pass (committed [[2; 10]]))))) = false)
    by (vm_compute; reflexivity).
  split; [exact Hv|split; [exact Hv'|]].
  exact (proj1 (device_erased_only_confirmed lenient strict print ProtocolSample.stick 4000 (committed [[2; 10]])
    strict_lenient (committed_reached [[2; 10]]) Hv Hv')).
Defined.

(** A request with bytes behind it is not a well-formed frame, and ends the session;
    but only after it has been carried out: here, after the Vault has been
    erased. *)
Theorem trailing_bytes_executed : ∃ a : Device,
  reached a ∧ phase a = kStrictPostHandshake ∧
  fst (pass a) = PassLine [2; 33] ∧ ¬ is_request strict [2; 33] ∧
  has_vault_ (protocol_runtime (app_protocol a)) = true ∧
  has_vault_ (protocol_runtime (app_protocol (snd (pass a)))) = false ∧ phase (snd (pass a)) = kFaulted.
Proof.
  exists (committed [[2; 33; 10]]). split; [exact (committed_reached [[2; 33; 10]])|].
  split; [vm_compute; reflexivity|]. split; [vm_compute; reflexivity|]. split; [discriminate|].
  split; [vm_compute; reflexivity|]. split; vm_compute; reflexivity.
Qed.

(** ** Power on *)

Abbreviation Booted := (App MemoryStore RegistrationSample.Logged CanonicalPresence ToyKeys Z Z ToyUsb).
Abbreviation booted :=
  (app_main_start (mkUsb greeting []) (new_store (fresh_nvs, []) fresh_keys 5 : RegistrationSample.Logged)
    (persistence_ Sample.opened) 1000000 (mkPresence 7 idle_gate) fresh_keys 4 : option Booted).

Lemma power_on_locked_witness :
  match booted with
  | Some a => has_vault_ (protocol_runtime (app_protocol a)) = true ∧
      unlocked (protocol_runtime (app_protocol a)) = false
  | None => False
  end.
Proof.
  assert (Hv : match booted with Some a => has_vault_ (protocol_runtime (app_protocol a)) | None => false end = true)
    by (vm_compute; reflexivity).
  assert (Hb := power_on_locked (mkUsb greeting []) (new_store (fresh_nvs, []) fresh_keys 5 : RegistrationSample.Logged)
    (persistence_ Sample.opened) 1000000 (mkPresence 7 idle_gate) fresh_keys 4).
  destruct booted as [a|]; [|discriminate].
  split; [exact Hv|]. exact (proj1 (Hb a eq_refl)).
Defined.

(** A response as the host hears it. *)
Lemma write_frame_exact_witness :
  fst (write_frame (str "ok") (mkTransport _ true kPreHandshake (mkUsb [] []))) = true ∧
  sent (driver_ (snd (write_frame (str "ok") (mkTransport _ true kPreHandshake (mkUsb [] []))))) = str "ok" ++ [10].
Proof.
  assert (Hw : fst (write_frame (str "ok") (mkTransport _ true kPreHandshake (mkUsb [] []))) = true)
    by (vm_compute; reflexivity).
  split; [exact Hw|].
  destruct (write_frame_exact (str "ok") (mkTransport _ true kPreHandshake (mkUsb [] [])) _ _
    (surjective_pairing (write_frame (str "ok") (mkTransport _ true kPreHandshake (mkUsb [] [])))))
    as (_ & k & _ & Hs).
  exact (proj2 (Hs Hw)).
Defined.
End AppSample.
