(* ===== verification/Diagnostics.v ===== *)
(** * Diagnostics of development builds

    The parts of main/app_main.cpp and canonical_device.cpp that a release does
    not contain: how long operations took, kept in memory that survives a reset
    ([M5AUTH_TIMING_DIAGNOSTICS]), and the request for what the screen shows
    ([M5AUTH_TEST_SCREEN_SNAPSHOT]).  A format string has an apostrophe for each
    quotation mark of the source. *)

From S2P Require Import Prelude Bytes Runtime DeviceSession UserPresence Transcript Attempt Json TrustedTime.
From S2P Require Import Display Ui AppMain.

(** ** snprintf *)

Inductive argument := Unsigned (v : Z) | Text (s : bytes) | Int (v : Z).
(** [%d] is only used for numbers that are not negative. *)
Definition argument_text (a : argument) : bytes :=
  match a with Unsigned v | Int v => decimal v | Text s => s end.

(** The conversions are [%llu], [%s] and [%d], each with its argument; [skip] is
    how much of the current one is still to be passed over. *)
Fixpoint format (skip : nat) (f : bytes) (arguments : list argument) : bytes :=
  match f with
  | [] => []
  | c :: f =>
    match skip with
    | S skip => format skip f arguments
    | O =>
      if c =? 37 then
        default [] (argument_text <$> head arguments)
        ++ format (if starts_with (str "llu") f then 3%nat else 1%nat) f (tail arguments)
      else c :: format O f arguments
    end
  end.
Definition quoted (s : string) : bytes := (λ c, if c =? 39 then 34 else c) <$> str s.

(** The text, when it fits the buffer with its terminating zero. *)
Definition snprintf (size : nat) (f : string) (arguments : list argument) : option bytes :=
  let text := format O (quoted f) arguments in
  if Nat.eqb (length text) 0 || Nat.leb size (length text) then None else Some text.

(** ** Timing *)

Definition kTimingRtcMagic : Z := 0x4d354438.
Definition kTimingBuildBytes : nat := 16.

Module TimingOperation.
Inductive t := kNone | kSessionBegin | kSessionAuthorize | kSessionStatus | kSessionComplete | kVaultInstall | kHello.
(** The conversions to and from [std::uint64_t]. *)
Definition code (operation : t) : Z :=
  match operation with
  | kNone => 0 | kSessionBegin => 1 | kSessionAuthorize => 2 | kSessionStatus => 3
  | kSessionComplete => 4 | kVaultInstall => 5 | kHello => 6
  end.
Definition of_code (v : Z) : t :=
  match v with
  | 1 => kSessionBegin | 2 => kSessionAuthorize | 3 => kSessionStatus
  | 4 => kSessionComplete | 5 => kVaultInstall | 6 => kHello | _ => kNone
  end.
End TimingOperation.
Import TimingOperation.

Record TimingSample := mkSample { count : Z; last_us : Z; max_us : Z }.
#[export] Instance eta_sample : Eta TimingSample := λ s, mkSample (count s) (last_us s) (max_us s).
Record ResponseWriteDiagnostics := mkWrite {
  write_count : Z; write_last_us : Z; write_max_us : Z; write_operation : Z; response_bytes : Z;
  fwrite_ok : Z; newline_ok : Z; fflush_ok : Z; ferror_value : Z;
}.
Record TimingDiagnostics := mkTiming {
  session_begin : TimingSample; session_authorize : TimingSample; session_status : TimingSample;
  session_complete : TimingSample; vault_install : TimingSample; hello : TimingSample;
  response_write : ResponseWriteDiagnostics;
}.
#[export] Instance eta_timing : Eta TimingDiagnostics := λ t,
  mkTiming (session_begin t) (session_authorize t) (session_status t) (session_complete t) (vault_install t)
    (hello t) (response_write t).
Definition no_sample : TimingSample := mkSample 0 0 0.
Definition no_timing : TimingDiagnostics :=
  mkTiming no_sample no_sample no_sample no_sample no_sample no_sample (mkWrite 0 0 0 0 0 0 0 0 0).

Record RtcTimingDiagnostics := mkRtc { magic : Z; build : bytes; values : list Z; magic_tail : Z }.

(** The two globals. *)
Record Diagnostics := mkDiagnostics {
  g_timing_diagnostics : TimingDiagnostics;
  g_rtc_timing_diagnostics : RtcTimingDiagnostics;
}.
#[export] Instance eta_diagnostics : Eta Diagnostics := λ d,
  mkDiagnostics (g_timing_diagnostics d) (g_rtc_timing_diagnostics d).

Definition sample_values (s : TimingSample) : list Z := [count s; last_us s; max_us s].
Definition timing_values (t : TimingDiagnostics) : list Z :=
  sample_values (session_begin t) ++ sample_values (session_authorize t) ++ sample_values (session_status t)
  ++ sample_values (session_complete t) ++ sample_values (vault_install t) ++ sample_values (hello t)
  ++ let w := response_write t in
     [write_count w; write_last_us w; write_max_us w; write_operation w; response_bytes w;
      fwrite_ok w; newline_ok w; fflush_ok w; ferror_value w].
Definition timing_of_values (v : list Z) : TimingDiagnostics :=
  let at_ i := nth i v 0 in
  let sample i := mkSample (at_ i) (at_ (i + 1)%nat) (at_ (i + 2)%nat) in
  mkTiming (sample 0%nat) (sample 3%nat) (sample 6%nat) (sample 9%nat) (sample 12%nat) (sample 15%nat)
    (mkWrite (at_ 18%nat) (at_ 19%nat) (at_ 20%nat) (at_ 21%nat) (at_ 22%nat) (at_ 23%nat) (at_ 24%nat)
       (at_ 25%nat) (at_ 26%nat)).

Section Timing.
Context (kTimingDiagnosticsEnabled : bool) (M5AUTH_BUILD_COMMIT : bytes).

(** The build's name as [snprintf] writes it into the zeroed array. *)
Definition build_text : bytes :=
  let name := take (kTimingBuildBytes - 1) M5AUTH_BUILD_COMMIT in
  name ++ zeros (kTimingBuildBytes - length name).

Definition timing_rtc_build_matches (rtc : RtcTimingDiagnostics) : bool :=
  negb (negb (magic rtc =? kTimingRtcMagic) || negb (magic_tail rtc =? Z.lxor kTimingRtcMagic u32_max))
  && bool_decide (build rtc = build_text).

Definition persist_timing_diagnostics_to_rtc (d : Diagnostics) : Diagnostics :=
  if negb kTimingDiagnosticsEnabled then d
  else d <| g_rtc_timing_diagnostics :=
         mkRtc kTimingRtcMagic build_text (timing_values (g_timing_diagnostics d)) (Z.lxor kTimingRtcMagic u32_max) |>.

Definition initialize_timing_diagnostics_persistence (d : Diagnostics) : Diagnostics :=
  if negb kTimingDiagnosticsEnabled then d
  else if negb (timing_rtc_build_matches (g_rtc_timing_diagnostics d)) then
    persist_timing_diagnostics_to_rtc
      (d <| g_timing_diagnostics := no_timing |>
         <| g_rtc_timing_diagnostics := mkRtc 0 (zeros kTimingBuildBytes) (zeros 27) 0 |>)
  else d <| g_timing_diagnostics := timing_of_values (values (g_rtc_timing_diagnostics d)) |>.

Definition is_timing_diagnostics_query (line : bytes) : bool :=
  if negb kTimingDiagnosticsEnabled || Nat.ltb 160 (length line) then false
  else contains (quoted "'v':2") line && contains (quoted "'id':9001") line
       && contains (quoted "'op':'diagnostics.timing'") line && contains (quoted "'params':{}") line.

Definition classify_timing_operation (line : bytes) : t :=
  if contains (quoted "'op':'session.begin'") line then kSessionBegin
  else if contains (quoted "'op':'session.authorize'") line then kSessionAuthorize
  else if contains (quoted "'op':'session.status'") line then kSessionStatus
  else if contains (quoted "'op':'session.complete'") line then kSessionComplete
  else if contains (quoted "'op':'vault.install'") line then kVaultInstall
  else if contains (quoted "'op':'hello'") line then kHello
  else kNone.

Definition timing_operation_name (operation : t) : string :=
  match operation with
  | kSessionBegin => "session.begin" | kSessionAuthorize => "session.authorize"
  | kSessionStatus => "session.status" | kSessionComplete => "session.complete"
  | kVaultInstall => "vault.install" | kHello => "hello" | kNone => "none"
  end.

(** The sample of an operation, changed. *)
Definition timing_sample (operation : t) (f : TimingSample → TimingSample) (d : TimingDiagnostics)
    : option TimingDiagnostics :=
  match operation with
  | kSessionBegin => Some (d <| session_begin := f (session_begin d) |>)
  | kSessionAuthorize => Some (d <| session_authorize := f (session_authorize d) |>)
  | kSessionStatus => Some (d <| session_status := f (session_status d) |>)
  | kSessionComplete => Some (d <| session_complete := f (session_complete d) |>)
  | kVaultInstall => Some (d <| vault_install := f (vault_install d) |>)
  | kHello => Some (d <| hello := f (hello d) |>)
  | kNone => None
  end.

(** [finished_us] is what the timer shows. *)
Definition record_timing (operation : t) (started_us finished_us : Z) (d : Diagnostics) : bool * Diagnostics :=
  let elapsed_us := finished_us - started_us in
  let f s := mkSample ((count s + 1) mod 2 ^ 64) elapsed_us (Z.max (max_us s) elapsed_us) in
  match timing_sample operation f (g_timing_diagnostics d) with
  | None => (false, d)
  | Some timing =>
    if (started_us <=? 0) || (finished_us <? started_us) then (false, d)
    else (true, d <| g_timing_diagnostics := timing |>)
  end.

(** What [write_response] records about a response it has written, or not. *)
Definition record_write (operation : t) (started_us finished_us : Z) (response : bytes) (write_ok : bool)
    (d : Diagnostics) : Diagnostics :=
  let measure := kTimingDiagnosticsEnabled && negb (code operation =? 0) in
  if negb measure || (started_us <=? 0) || (finished_us <? started_us) then d
  else
    let elapsed_us := finished_us - started_us in
    let w := response_write (g_timing_diagnostics d) in
    let flag := if write_ok then 1 else 0 in
    persist_timing_diagnostics_to_rtc
      (d <| g_timing_diagnostics := g_timing_diagnostics d <| response_write :=
         mkWrite ((write_count w + 1) mod 2 ^ 64) elapsed_us (Z.max (write_max_us w) elapsed_us) (code operation)
           (Z.of_nat (length response)) flag flag flag (if write_ok then 0 else 1) |> |>).

Definition sample_arguments (s : TimingSample) : list argument := Unsigned <$> sample_values s.
Definition timing_format : string :=
  "{'v':2,'id':9001,'ok':true,'data':{" ++
  "'session_begin':{'count':%llu,'last_us':%llu,'max_us':%llu}," ++
  "'session_authorize':{'count':%llu,'last_us':%llu,'max_us':%llu}," ++
  "'session_status':{'count':%llu,'last_us':%llu,'max_us':%llu}," ++
  "'session_complete':{'count':%llu,'last_us':%llu,'max_us':%llu}," ++
  "'vault_install':{'count':%llu,'last_us':%llu,'max_us':%llu}," ++
  "'hello':{'count':%llu,'last_us':%llu,'max_us':%llu}," ++
  "'tx_write':{'count':%llu,'op':'%s','response_bytes':%llu," ++
  "'fwrite_ok':%llu,'newline_ok':%llu,'fflush_ok':%llu," ++
  "'ferror':%llu,'last_us':%llu,'max_us':%llu}," ++
  "'reset_reason':%d}}".
Definition timing_arguments (t : TimingDiagnostics) (reset_reason : Z) : list argument :=
  sample_arguments (session_begin t) ++ sample_arguments (session_authorize t)
  ++ sample_arguments (session_status t) ++ sample_arguments (session_complete t)
  ++ sample_arguments (vault_install t) ++ sample_arguments (hello t)
  ++ let w := response_write t in
     [Unsigned (write_count w); Text (str (timing_operation_name (of_code (write_operation w))));
      Unsigned (response_bytes w); Unsigned (fwrite_ok w); Unsigned (newline_ok w); Unsigned (fflush_ok w);
      Unsigned (ferror_value w); Unsigned (write_last_us w); Unsigned (write_max_us w); Int reset_reason].
Definition timing_diagnostics_response (t : TimingDiagnostics) (reset_reason : Z) : bytes :=
  match snprintf 1400 timing_format (timing_arguments t reset_reason) with
  | Some text => text
  | None => quoted "{'v':2,'id':9001,'ok':false,'error':{'code':'internal_error'}}"
  end.
End Timing.

(** ** The screen *)

Module ScreenMode.
Inductive t := kUnlockRequest | kVaultUnavailable | kOpenWeb | kNoAccounts | kOtpRevealed | kAccountView.
#[global] Instance eq_dec : EqDecision t.
Proof. solve_decision. Defined.
End ScreenMode.

Record ScreenSnapshot := mkSnapshot {
  snapshot_runtime_state : State.t;
  trusted_time_readiness : Readiness;
  presence : PresenceView;
  screen_mode : ScreenMode.t;
}.

(** What [render] keeps of the screen it draws. *)
Definition rendered_snapshot (u : CanonicalUiController) (ready : Readiness) (p : PresenceView) : ScreenSnapshot :=
  mkSnapshot (runtime_state_ u) ready p
    (if active p then ScreenMode.kUnlockRequest
     else if storage_error_ u then ScreenMode.kVaultUnavailable
     else if negb (vault_visible_ u) then ScreenMode.kOpenWeb
     else if Nat.eqb (length (credentials_ u)) 0 then ScreenMode.kNoAccounts
     else if reveal_active_ u && bool_decide (ready = kReady) then ScreenMode.kOtpRevealed
     else ScreenMode.kAccountView).

Module ScreenSnapshotRequestKind.
Inductive t := kNotDiagnostic | kInvalidDiagnostic | kValidDiagnostic.
End ScreenSnapshotRequestKind.
Import ScreenSnapshotRequestKind.
Record ScreenSnapshotRequestParse := mkParse { kind : ScreenSnapshotRequestKind.t; request_id : Z }.

Definition kScreenSnapshotOperation : bytes := str "diagnostics.screen_snapshot".
Definition read_nonnegative_json_int : option json → option Z := read_integer int_max.
Definition screen_snapshot_intent_hint (line : bytes) : bool :=
  contains (quoted "'diagnostics.screen_snapshot'") line.

(** [cJSON_IsString(child) && strcmp(child->valuestring, ...) == 0] *)
Definition is_operation (child : json) : bool :=
  match child with JString op => bool_decide (op = kScreenSnapshotOperation) | _ => false end.

(** The variables of the loop over the members. *)
Record parse_state := mkParseState {
  seen_v : bool; seen_id : bool; seen_op : bool; seen_params : bool; valid : bool; parsed_id : option Z;
}.
Definition parse_start : parse_state := mkParseState false false false false true None.

Definition parse_member (s : parse_state) (member : string * json) : parse_state :=
  let '(key, child) := member in
  let '(mkParseState sv si so sp ok id) := s in
  let invalid := mkParseState sv si so sp false id in
  if String.eqb key "v" then
    if sv then invalid
    else mkParseState true si so sp
      (ok && match read_nonnegative_json_int (Some child) with Some version => version =? 2 | None => false end) id
  else if String.eqb key "id" then
    if si then invalid
    else match read_nonnegative_json_int (Some child) with
         | Some request_id => mkParseState sv true so sp ok (Some request_id)
         | None => mkParseState sv true so sp false id
         end
  else if String.eqb key "op" then
    if so then invalid else mkParseState sv si true sp (ok && is_operation child) id
  else if String.eqb key "params" then
    if sp then invalid
    else mkParseState sv si so true (ok && match child with JObject [] => true | _ => false end) id
  else invalid.

Definition all_seen (s : parse_state) : bool :=
  valid s && seen_v s && seen_id s && seen_op s && seen_params s.

Section Snapshot.
Context (kTestScreenSnapshotEnabled : bool) (cJSON_ParseWithLengthOpts : bytes → option json).

Definition parse_screen_snapshot_request (line : bytes) : ScreenSnapshotRequestParse :=
  if negb kTestScreenSnapshotEnabled then mkParse kNotDiagnostic 0
  else if negb (screen_snapshot_intent_hint line) then mkParse kNotDiagnostic 0
  else
    match cJSON_ParseWithLengthOpts line with
    | Some (JObject members) =>
      if negb (existsb (λ '(key, child), String.eqb key "op" && is_operation child) members)
      then mkParse kInvalidDiagnostic 0
      else
        let s := foldl parse_member parse_start members in
        if all_seen s then mkParse kValidDiagnostic (default 0 (parsed_id s))
        else mkParse kInvalidDiagnostic (default 0 (parsed_id s))
    | _ => mkParse kInvalidDiagnostic 0
    end.
End Snapshot.

Definition screen_snapshot_runtime_state (state : State.t) : string :=
  match state with
  | State.kUnprovisioned => "unprovisioned" | State.kReprovisionRequired => "reprovision_required"
  | State.kLocked => "locked" | State.kUnlocked => "unlocked" | State.kError => "error"
  end.
Definition screen_snapshot_time_readiness (readiness : Readiness) : string :=
  match readiness with kNotSynced => "not_synced" | kReady => "ready" | kStale => "stale" end.
Definition screen_snapshot_presence_operation (operation : PresenceOperation) : string :=
  match operation with
  | kPresenceTrustedBrowserUnlock => "trusted_browser_unlock"
  | kPresenceInitialProvisioning => "initial_provisioning"
  | kPresenceRecovery => "recovery"
  | kPresenceBrowserReplacement => "browser_replacement"
  | kPresenceVmkRekey => "vmk_rekey"
  | kPresenceFactoryReset => "factory_reset"
  end.
Definition screen_snapshot_mode (mode : ScreenMode.t) : string :=
  match mode with
  | ScreenMode.kUnlockRequest => "unlock_request" | ScreenMode.kVaultUnavailable => "vault_unavailable"
  | ScreenMode.kOpenWeb => "open_web" | ScreenMode.kNoAccounts => "no_accounts"
  | ScreenMode.kOtpRevealed => "otp_revealed" | ScreenMode.kAccountView => "account_view"
  end.

Definition screen_snapshot_error_response (request_id : Z) (code : string) : bytes :=
  match snprintf 192 "{'v':2,'id':%d,'ok':false,'error':{'code':'%s'}}" [Int request_id; Text (str code)] with
  | Some text => text
  | None => quoted "{'v':2,'id':0,'ok':false,'error':{'code':'internal_error'}}"
  end.

Definition bool_text (b : bool) : bytes := str (if b then "true" else "false").
Definition snapshot_format : string :=
  "{'v':2,'id':%d,'ok':true,'data':{" ++
  "'runtime_state':'%s'," ++
  "'trusted_time_readiness':'%s'," ++
  "'presence':{'active':%s,'confirmed':%s,'operation':'%s'}," ++
  "'screen_mode':'%s'}}".
Definition snapshot_arguments (request_id : Z) (s : ScreenSnapshot) : list argument :=
  let presence_operation :=
    if active (presence s) then screen_snapshot_presence_operation (view_operation (presence s)) else "none"%string in
  [Int request_id; Text (str (screen_snapshot_runtime_state (snapshot_runtime_state s)));
   Text (str (screen_snapshot_time_readiness (trusted_time_readiness s)));
   Text (bool_text (active (presence s))); Text (bool_text (confirmed (presence s)));
   Text (str presence_operation); Text (str (screen_snapshot_mode (screen_mode s)))].
Definition screen_snapshot_response (request_id : Z) (s : ScreenSnapshot) : bytes :=
  match snprintf 512 snapshot_format (snapshot_arguments request_id s) with
  | Some text => text
  | None => screen_snapshot_error_response request_id "internal_error"
  end.
