(* ===== verification/DiagnosticsCorrect.v ===== *)
(** * Correctness of the diagnostics

    Timing survives a reset of the same build and no other; no response is cut
    off; a screen snapshot is given for exactly one form of request, and shows
    nothing of the accounts. *)

From S2P Require Import Prelude Bytes Runtime DeviceSession UserPresence Transcript Attempt Json TrustedTime.
From S2P Require Import Display Ui AppMain Diagnostics.
Import ScreenSnapshotRequestKind.

(** ** Timing *)

Lemma timing_values_restored t : timing_of_values (timing_values t) = t.
Proof. by destruct t as [[] [] [] [] [] [] []]. Qed.

Lemma persisted_matches c d :
  timing_rtc_build_matches c (g_rtc_timing_diagnostics (persist_timing_diagnostics_to_rtc true c d)) = true.
Proof. unfold timing_rtc_build_matches. cbn. by rewrite bool_decide_true. Qed.

(** What the memory that survives a reset holds comes back after it, whatever is in
    the ordinary memory; but after another build, or when that memory holds
    anything else, the timing starts from nothing, under the new build's name. *)
Theorem timing_survives_reset c c' (d : Diagnostics) (t : TimingDiagnostics) :
  let saved := persist_timing_diagnostics_to_rtc true c d <| g_timing_diagnostics := t |> in
  let after := initialize_timing_diagnostics_persistence true c' saved in
  timing_rtc_build_matches c' (g_rtc_timing_diagnostics after) = true ∧
  g_timing_diagnostics after = (if decide (build_text c = build_text c') then g_timing_diagnostics d else no_timing).
Proof.
  cbn zeta. destruct (decide (build_text c = build_text c')) as [He|Hne].
  - assert (Hm : timing_rtc_build_matches c'
      (g_rtc_timing_diagnostics (persist_timing_diagnostics_to_rtc true c d <| g_timing_diagnostics := t |>)) = true).
    { unfold timing_rtc_build_matches. cbn. by rewrite bool_decide_true. }
    unfold initialize_timing_diagnostics_persistence. rewrite Hm. cbn [negb]. split; [exact Hm|].
    cbn. apply timing_values_restored.
  - assert (Hm : timing_rtc_build_matches c'
      (g_rtc_timing_diagnostics (persist_timing_diagnostics_to_rtc true c d <| g_timing_diagnostics := t |>)) = false).
    { unfold timing_rtc_build_matches. cbn. by rewrite bool_decide_false. }
    unfold initialize_timing_diagnostics_persistence. rewrite Hm. cbn [negb]. split; [apply persisted_matches|done].
Qed.

(** ** Texts that fit their buffers *)

Definition arguments_length (arguments : list argument) : nat :=
  list_sum ((λ a, length (argument_text a)) <$> arguments).

Lemma format_length skip f arguments :
  (length (format skip f arguments) ≤ length f + arguments_length arguments)%nat.
Proof.
  revert skip arguments. induction f as [|c f IH]; intros skip arguments; [cbn; lia|]. cbn [format length].
  destruct skip as [|skip]; [|specialize (IH skip arguments); lia]. destruct (c =? 37).
  - rewrite length_app. destruct arguments as [|a arguments]; cbn [hd_error tl fmap option_fmap option_map default length].
    + specialize (IH (if starts_with (str "llu") f then 3 else 1)%nat []). cbn [length]. lia.
    + specialize (IH (if starts_with (str "llu") f then 3 else 1)%nat arguments).
      change (arguments_length (a :: arguments)) with (length (argument_text a) + arguments_length arguments)%nat. unfold id. lia.
  - specialize (IH O arguments). cbn [length]. lia.
Qed.

Lemma format_nonempty c f arguments : head f = Some c → c ≠ 37 → (0 < length (format O f arguments))%nat.
Proof. destruct f as [|d f]; [done|]. intros [= ->] Hc. cbn. rewrite (proj2 (Z.eqb_neq _ _) Hc). cbn. lia. Qed.

Lemma snprintf_fits size f arguments : head (quoted f) = Some 123 →
  (length (quoted f) + arguments_length arguments < size)%nat →
  snprintf size f arguments = Some (format O (quoted f) arguments).
Proof.
  intros Hp Hs. apply (format_nonempty _ _ arguments) in Hp; [|done]. unfold snprintf. pose proof (format_length O (quoted f) arguments).
  rewrite (proj2 (Nat.eqb_neq _ _)) by lia. by rewrite (proj2 (Nat.leb_gt _ _)) by lia.
Qed.

(** A number of 64 bits has at most twenty digits, an [int] at most ten. *)
Lemma u64_digits v : is_u64 v → (length (decimal v) ≤ 20)%nat.
Proof. unfold is_u64, u64_max. intros Hv. apply digits_length; [cbn; lia|lia]. Qed.
Lemma int_digits v : 0 ≤ v ≤ int_max → (length (decimal v) ≤ 10)%nat.
Proof. unfold int_max. intros Hv. apply digits_length; [cbn; lia|lia]. Qed.

(** Every counter is a [std::uint64_t]. *)
Definition timing_wf (t : TimingDiagnostics) : Prop := Forall is_u64 (timing_values t).

#[local] Arguments decimal : simpl never.
#[local] Arguments str : simpl never.
#[local] Arguments read_nonnegative_json_int : simpl never.

Lemma operation_name_length operation : (length (str (timing_operation_name operation)) ≤ 17)%nat.
Proof. destruct operation; vm_compute; lia. Qed.

(** The response with the timing is never cut off: whatever the counters, it fits
    the buffer of 1400 bytes. *)
Theorem timing_response_fits t reset_reason : timing_wf t → 0 ≤ reset_reason ≤ int_max →
  timing_diagnostics_response t reset_reason =
    format O (quoted timing_format) (timing_arguments t reset_reason) ∧
  (length (timing_diagnostics_response t reset_reason) < 1400)%nat.
Proof.
  intros Ht Hr. pose proof (format_length O (quoted timing_format) (timing_arguments t reset_reason)) as Hf.
  assert (Ha : (arguments_length (timing_arguments t reset_reason) ≤ 26 * 20 + 17 + 10)%nat).
  { pose proof (int_digits _ Hr). pose proof (operation_name_length (TimingOperation.of_code (write_operation (response_write t)))).
    unfold timing_wf in Ht. destruct t as [[] [] [] [] [] [] []]. cbn in Ht. rewrite !Forall_cons in Ht.
    destruct_and!. unfold arguments_length, timing_arguments. cbn in *.
    repeat match goal with E : is_u64 ?v |- _ => apply u64_digits in E end. lia. }
  assert (Hq : length (quoted timing_format) = 567%nat) by (vm_compute; reflexivity).
  unfold timing_diagnostics_response. rewrite snprintf_fits; [split; [done|lia]|by vm_compute|lia].
Qed.

(** ** Screen snapshots *)

(** No response about the screen is cut off either. *)
Theorem snapshot_responses_fit request_id s : 0 ≤ request_id ≤ int_max →
  screen_snapshot_response request_id s = format O (quoted snapshot_format) (snapshot_arguments request_id s).
Proof.
  intros Hid%int_digits. unfold screen_snapshot_response. rewrite snprintf_fits; [done| |].
  - by vm_compute.
  - assert (Hq : length (quoted snapshot_format) = 161%nat) by (vm_compute; reflexivity).
    enough (arguments_length (snapshot_arguments request_id s) ≤ 10 + 20 + 10 + 5 + 5 + 22 + 17)%nat by lia.
    destruct s as [state ready [act conf op] mode].
    assert (length (str (screen_snapshot_runtime_state state)) ≤ 20)%nat by (destruct state; vm_compute; lia).
    assert (length (str (screen_snapshot_time_readiness ready)) ≤ 10)%nat by (destruct ready; vm_compute; lia).
    assert (∀ b, length (bool_text b) ≤ 5)%nat as Hb by (intros []; vm_compute; lia).
    assert (length (str (if act then screen_snapshot_presence_operation op else "none"%string)) ≤ 22)%nat
      by (destruct act, op; vm_compute; lia).
    assert (length (str (screen_snapshot_mode mode)) ≤ 17)%nat by (destruct mode; vm_compute; lia).
    pose proof (Hb act). pose proof (Hb conf). unfold arguments_length, snapshot_arguments. cbn. lia.
Qed.

(** A snapshot depends on nothing of the Vault but whether it is visible, has
    accounts, and has a code on the screen. *)
Theorem snapshot_public u u' ready p :
  runtime_state_ u = runtime_state_ u' → storage_error_ u = storage_error_ u' →
  vault_visible_ u = vault_visible_ u' → (credentials_ u = [] ↔ credentials_ u' = []) →
  code_on_screen u ready = code_on_screen u' ready →
  rendered_snapshot u ready p = rendered_snapshot u' ready p.
Proof.
  intros Hr Hs Hv Hc Ho. unfold rendered_snapshot, code_on_screen in *. rewrite Hr, Hs, Hv, Ho.
  by destruct (credentials_ u) eqn:E, (credentials_ u') eqn:E'; try (exfalso; intuition discriminate).
Qed.

(** The line that tells the screens apart. *)
Definition mode_line (mode : ScreenMode.t) : bytes :=
  str match mode with
      | ScreenMode.kUnlockRequest => "UNLOCK REQUEST" | ScreenMode.kVaultUnavailable => "Vault unavailable"
      | ScreenMode.kOpenWeb => "Open Web app" | ScreenMode.kNoAccounts => "No accounts"
      | ScreenMode.kOtpRevealed => "Valid: " | ScreenMode.kAccountView => "click: 1x next"
      end.
Definition prints (text : bytes) (command : draw) : Prop :=
  match command with DPrint _ _ _ _ _ printed => ∃ rest, printed = text ++ rest | _ => False end.


Lemma prints_line `{M5Display} text y : prints text (DPrint kReadableTextSize kColorWhite kColorBlack kContentLeftPx y text).
Proof. exists []. by rewrite app_nil_r. Qed.

(** A snapshot tells the screen that was drawn: the line that marks its mode is
    printed. *)
Theorem snapshot_truthful `{M5Display} u ready p :
  Exists (prints (mode_line (screen_mode (rendered_snapshot u ready p)))) (frame u ready p).
Proof.
  unfold frame. cbn zeta. rewrite !Exists_app. right; right. unfold rendered_snapshot. cbn [screen_mode].
  destruct (active p); [left; apply prints_line|].
  rewrite !Exists_app. right; right. destruct (storage_error_ u); [left; apply prints_line|].
  destruct (vault_visible_ u); cbn [negb]; [|left; apply prints_line].
  destruct (Nat.eqb (length (credentials_ u)) 0); [left; apply prints_line|].
  unfold account_draws. cbn zeta. rewrite !Exists_app. fold (code_on_screen u ready).
  destruct (code_on_screen u ready).
  - left. right. left. by eexists.
  - right; right. rewrite Exists_app. left. left. apply prints_line.
Qed.

(** ** Requests for the screen *)

(** The one form of request that is answered, but for the order of its members. *)
Definition snapshot_members (version request_id : json) : list (string * json) :=
  [("v"%string, version); ("id"%string, request_id); ("op"%string, JString kScreenSnapshotOperation);
   ("params"%string, JObject [])].

(** The members the loop has seen so far. *)
Definition seen_members (s : parse_state) (version request_id : json) : list (string * json) :=
  (if seen_v s then [("v"%string, version)] else []) ++ (if seen_id s then [("id"%string, request_id)] else [])
  ++ (if seen_op s then [("op"%string, JString kScreenSnapshotOperation)] else [])
  ++ (if seen_params s then [("params"%string, JObject [])] else []).
Definition parsed_so_far (l : list (string * json)) (s : parse_state) : Prop :=
  valid s = true → ∃ version request_id, l ≡ₚ seen_members s version request_id ∧
    (seen_v s = true → read_nonnegative_json_int (Some version) = Some 2) ∧
    (seen_id s = true → read_nonnegative_json_int (Some request_id) = parsed_id s ∧ is_Some (parsed_id s)).

Lemma is_operation_inv child : is_operation child = true → child = JString kScreenSnapshotOperation.
Proof. destruct child; try done. by intros ->%bool_decide_eq_true. Qed.
Lemma no_params child : match child with JObject [] => true | _ => false end = true → child = JObject [].
Proof. by destruct child as [| | | | |[]]. Qed.

(** A member the loop accepts is one of the four, not seen before. *)
Lemma parse_member_so_far l s member : parsed_so_far l s → parsed_so_far (member :: l) (parse_member s member).
Proof.
  destruct member as [key child]. intros IH Hv.
  assert (Hok : valid s = true).
  { destruct s as [sv si so sp ok id]. cbn in Hv |- *. repeat case_match; cbn in Hv; try done; by apply andb_prop in Hv as [? _]. }
  destruct (IH Hok) as (v & i & Hl & Hsv & Hsi). clear IH. destruct s as [sv si so sp ok id]. cbn in Hok, Hl, Hsv, Hsi. subst ok.
  cbn [parse_member] in Hv |- *.
  destruct (String.eqb_spec key "v") as [->|_].
  { destruct sv; [done|]. cbn in Hv. exists child, i. cbn. split; [by constructor|]. split; [|done].
    intros _. destruct (read_nonnegative_json_int _); [|done]. by apply Z.eqb_eq in Hv as ->. }
  destruct (String.eqb_spec key "id") as [->|_].
  { destruct si; [done|]. destruct (read_nonnegative_json_int (Some child)) eqn:E; [|done].
    exists v, child. unfold seen_members. cbn in *. rewrite Hl, E. split; [by rewrite Permutation_middle|]. split; [done|].
    intros _. by split. }
  destruct (String.eqb_spec key "op") as [->|_].
  { destruct so; [done|]. cbn in Hv. apply is_operation_inv in Hv as ->. exists v, i. unfold seen_members. cbn in *.
    rewrite Hl, !app_assoc, Permutation_middle, <- !app_assoc. done. }
  destruct (String.eqb_spec key "params") as [->|_]; [|done].
  destruct sp; [done|]. cbn in Hv. apply no_params in Hv as ->. exists v, i. unfold seen_members. cbn in *.
  rewrite Hl, !app_nil_r, !app_assoc. split; [apply Permutation_cons_append|done].
Qed.

Lemma parse_members_so_far l s before : parsed_so_far before s → parsed_so_far (rev l ++ before) (foldl parse_member s l).
Proof.
  revert s before. induction l as [|member l IH]; intros s before Hs; [done|]. cbn [rev foldl]. rewrite <- app_assoc.
  by apply IH, parse_member_so_far.
Qed.

Lemma foldl_rev {A B} (f : A → B → A) l (a : A) : foldl f a l = foldr (flip f) a (rev l).
Proof. revert a. induction l as [|x l IH]; intros a; [done|]. cbn. by rewrite IH, foldr_app. Qed.

(** The four members, in any order: no two of them disturb each other. *)
Lemma parse_members_ordered version request_id id members :
  read_nonnegative_json_int (Some version) = Some 2 → read_nonnegative_json_int (Some request_id) = Some id →
  members ≡ₚ snapshot_members version request_id →
  foldl parse_member parse_start members = mkParseState true true true true true (Some id).
Proof.
  intros Hv Hi Hm.
  transitivity (foldr (flip parse_member) parse_start (snapshot_members version request_id)).
  - transitivity (foldr (flip parse_member) parse_start (rev members)); [apply foldl_rev|].
    symmetry. apply (foldr_permutation (=)); [solve_proper| |by rewrite <- Hm; apply Permutation_rev].
    intros j1 a1 j2 a2 [sv si so sp ok i] Hj H1 H2. unfold snapshot_members in *.
    destruct j1 as [|[|[|[|j1]]]], j2 as [|[|[|[|j2]]]]; try done;
    injection H1 as <-; injection H2 as <-; destruct sv, si, so, sp; cbn; rewrite ?Hv, ?Hi; done.
  - cbn. rewrite Hv, Hi. cbn. rewrite bool_decide_true; done.
Qed.

(** A request is answered exactly when it is an object with the four members, in
    any order and no others: version 2, a number for the request, the operation,
    and no parameters. *)
Theorem snapshot_request_exact parse line id :
  parse_screen_snapshot_request true parse line = mkParse kValidDiagnostic id ↔
  screen_snapshot_intent_hint line = true ∧
  ∃ members version request_id,
    parse line = Some (JObject members) ∧ members ≡ₚ snapshot_members version request_id ∧
    read_nonnegative_json_int (Some version) = Some 2 ∧ read_nonnegative_json_int (Some request_id) = Some id.
Proof.
  unfold parse_screen_snapshot_request. cbn [negb]. split.
  - destruct (screen_snapshot_intent_hint line); [|done]. cbn [negb]. destruct (parse line) as [[| | | | |members]|]; try done.
    destruct (existsb _ members); [|done]. cbn [negb]. destruct (all_seen _) eqn:Hs; [|done]. intros [= <-]. split; [done|].
    assert (Hp : parsed_so_far (rev members ++ []) (foldl parse_member parse_start members)).
    { apply parse_members_so_far. intros _. by exists JNull, JNull. }
    unfold all_seen in Hs. rewrite !andb_true_iff in Hs. destruct Hs as ((((Hok & Hv) & Hi) & Ho) & Hpa).
    destruct (Hp Hok) as (v & i & Hm & Hrv & Hri). destruct (Hri Hi) as [Hid [n Hn]]. exists members, v, i.
    rewrite app_nil_r, <- Permutation_rev in Hm. unfold seen_members in Hm. rewrite Hv, Hi, Ho, Hpa in Hm.
    rewrite Hid, Hn. auto.
  - intros (-> & members & v & i & -> & Hm & Hv & Hi). cbn [negb].
    replace (existsb _ members) with true.
    + cbn [negb]. by rewrite (parse_members_ordered v i id).
    + symmetry. apply existsb_exists. exists ("op"%string, JString kScreenSnapshotOperation). split.
      * apply list_elem_of_In. rewrite Hm. set_solver.
      * cbn. by rewrite bool_decide_true.
Qed.
