(* ===== verification/DiagnosticPass.v ===== *)
(** * The serial loop of development builds

    Where main/app_main.cpp calls the functions of [Diagnostics]: a line may be a
    query for the times or for what the screen shows, which is answered without the
    protocol, and the operations of the protocol are timed.  With both switches off
    the pass is [serial_pass], the one of a release. *)

From S2P Require Import Prelude Bytes VaultFormat VaultCrypto Persistence Runtime Psa RegistrationStore Registration Random.
From S2P Require Import DeviceSession UserPresence Attempt Json TrustedTime TimeService CanonicalProtocol.
From S2P Require Import Transport Display Ui AppMain Diagnostics.
Import TimingOperation.

#[export] Instance timing_operation_eq_dec : EqDecision TimingOperation.t.
Proof. solve_decision. Defined.

(** The device with the diagnostics and what the user interface last kept of its
    screen ([None] before the first drawing). *)
Record DevApp {A : Type} := mkDev {
  dev_app : A;
  dev_diagnostics : Diagnostics;
  rendered_snapshot_ : option ScreenSnapshot;
}.
Arguments DevApp : clear implicits.
#[export] Instance eta_dev_app {A} : Eta (DevApp A) := λ s,
  mkDev A (dev_app s) (dev_diagnostics s) (rendered_snapshot_ s).

Inductive dev_event := DevPass (e : pass_event) | DevDiagnostic (line : bytes).

Section DevLoop.
Context `{MbedtlsGcm} {P G R K N Q D : Type} `{Persistence P} `{RegistrationStore G} `{PresenceBinding R}
  `{Psa K} `{EspNetwork N} `{EspRandom Q} `{UsbDriver D}.
Context (cJSON_ParseWithLength cJSON_ParseWithLengthOpts : bytes → option json)
  (cJSON_PrintUnformatted : json → bytes) (metadata : DeviceMetadata).
Context (kTimingDiagnosticsEnabled kTestScreenSnapshotEnabled : bool) (M5AUTH_BUILD_COMMIT : bytes) (reset_reason : Z).
Abbreviation TheApp := (App P G R K N Q D).
Definition dev_op (A : Type) : Type := DevApp TheApp → A * DevApp TheApp.

Definition in_app {A} (f : app_op A) : dev_op A := λ s,
  let '(x, a) := f (dev_app s) in (x, s <| dev_app := a |>).
Definition on_app (f : TheApp → TheApp) (s : DevApp TheApp) : DevApp TheApp := s <| dev_app := f (dev_app s) |>.
Definition on_diagnostics (f : Diagnostics → Diagnostics) (s : DevApp TheApp) : DevApp TheApp :=
  s <| dev_diagnostics := f (dev_diagnostics s) |>.
Definition timer_us : dev_op Z := in_app (in_protocol (in_time (on_net esp_timer_get_time))).

(** [CanonicalUiController::screen_snapshot]: what the last [render] kept. *)
Definition screen_snapshot (s : DevApp TheApp) : option ScreenSnapshot := rendered_snapshot_ s.

(** [record_timing] with its reading of the timer. *)
Definition record_timing_now (operation : TimingOperation.t) (started_us : Z) : dev_op bool := fn (
  leave_if (bool_decide (operation = kNone) || (started_us <=? 0)) false;;
  finished_us ← call timer_us;
  s ← get_state;
  let '(recorded, diagnostics) := record_timing operation started_us finished_us (dev_diagnostics s) in
  modify (on_diagnostics (λ _, diagnostics));;
  mret recorded).

(** [write_response] with the times of the operation it answers. *)
Definition write_measured (response : bytes) (operation : TimingOperation.t) : dev_op bool := fn (
  let measure := kTimingDiagnosticsEnabled && negb (bool_decide (operation = kNone)) in
  started_us ← (if measure then call timer_us else mret 0);
  write_ok ← call (in_app (in_transport (write_frame response)));
  leave_if (negb measure || (started_us <=? 0)) write_ok;;
  finished_us ← call timer_us;
  modify (on_diagnostics
    (record_write kTimingDiagnosticsEnabled M5AUTH_BUILD_COMMIT operation started_us finished_us response write_ok));;
  mret write_ok).

(** The answer to a query, which the protocol does not see. *)
Definition answer_diagnostic (request response : bytes) (consumed : nat) : dev_op dev_event := fn (
  modify (on_app (consume consumed));;
  written ← call (write_measured response kNone);
  (if negb written then call (in_app fail_transport_session) else mret tt);;
  mret (DevDiagnostic request)).

Definition snapshot_answer (parsed : ScreenSnapshotRequestParse) (snapshot : option ScreenSnapshot) : bytes :=
  match kind parsed, snapshot with
  | ScreenSnapshotRequestKind.kInvalidDiagnostic, _ => screen_snapshot_error_response (request_id parsed) "invalid_request"
  | _, None => screen_snapshot_error_response (request_id parsed) "snapshot_not_ready"
  | _, Some snapshot => screen_snapshot_response (request_id parsed) snapshot
  end.

(** [handle_pass] with the times around it. *)
Definition timed_handle_pass (info : ProtocolFrameInfo) (request : bytes) (consumed : nat) (clock_ms : Z)
    : dev_op dev_event := fn (
  let operation := if kTimingDiagnosticsEnabled then classify_timing_operation request else kNone in
  started_us ← (if bool_decide (operation = kNone) then mret 0 else call timer_us);
  s ← get_state;
  let strict_before := strict_post_handshake (app_transport (dev_app s)) in
  now ← call (in_app monotonic_ms);
  response ← call (in_app (in_protocol (handle_line cJSON_ParseWithLength metadata request now clock_ms)));
  let establishes_handshake := frame_valid info && frame_hello info
    && successful_protocol_response_for_id cJSON_ParseWithLengthOpts (cJSON_PrintUnformatted response)
         (frame_id info) in
  timing_recorded ← (if kTimingDiagnosticsEnabled then call (record_timing_now operation started_us) else mret false);
  (if timing_recorded : bool
   then modify (on_diagnostics (persist_timing_diagnostics_to_rtc kTimingDiagnosticsEnabled M5AUTH_BUILD_COMMIT))
   else mret tt);;
  modify (on_app (consume consumed));;
  written ← call (write_measured (cJSON_PrintUnformatted response) operation);
  if negb written then
    call (in_app fail_transport_session);;
    leave (DevPass (PassLine request))
  else if establishes_handshake then
    modify (on_app (on_transport establish_handshake));;
    leave (DevPass (PassLine request))
  else
    (if strict_before && negb (frame_valid info) then modify (on_app (on_transport fail_session)) else mret tt);;
    leave (DevPass (PassLine request))).

Definition dev_line_pass (newline : nat) (clock_ms : Z) : dev_op dev_event := fn (
  s ← get_state;
  let a := dev_app s in
  let length := trimmed_length (input_ a) newline in
  let consumed := S newline in
  if (kMaxCanonicalV2MessageBytes <? length)%nat then
    let strict := strict_post_handshake (app_transport a) in
    call (in_app teardown_transport_session);;
    modify (on_app (consume consumed));;
    call (in_app (answer_too_long cJSON_PrintUnformatted strict));;
    leave (DevPass PassTooLong)
  else
    let request := take length (input_ a) in
    let frame_info := classify_protocol_frame cJSON_ParseWithLengthOpts request in
    let parsed := parse_screen_snapshot_request kTestScreenSnapshotEnabled cJSON_ParseWithLengthOpts request in
    if is_timing_diagnostics_query kTimingDiagnosticsEnabled request then
      call (answer_diagnostic request
              (timing_diagnostics_response (g_timing_diagnostics (dev_diagnostics s)) reset_reason) consumed)
    else if match kind parsed with ScreenSnapshotRequestKind.kNotDiagnostic => false | _ => true end then
      call (answer_diagnostic request (snapshot_answer parsed (screen_snapshot s)) consumed)
    else if ignored_before_handshake (app_transport a) frame_info then
      modify (on_app (consume consumed));;
      leave (DevPass (PassIgnored request))
    else call (timed_handle_pass frame_info request consumed clock_ms)).

Definition dev_serial_pass (clock_ms : Z) : dev_op dev_event := fn (
  now ← call (in_app monotonic_ms);
  call (in_app (in_protocol (housekeeping now)));;
  connected ← call (in_app (in_transport transport_connected));
  s ← get_state;
  if negb connected then
    call (in_app teardown_transport_session);;
    modify (on_app (on_transport reset_pre_handshake));;
    modify (on_app (λ a : TheApp, drop_input a <| discard_oversized_input_ := false |>));;
    call (in_app poll_delay);;
    leave (DevPass PassDisconnected)
  else if faulted (app_transport (dev_app s)) then
    modify (on_app (λ a : TheApp, drop_input a <| discard_oversized_input_ := false |>));;
    call (in_app poll_delay);;
    leave (DevPass PassFaulted)
  else if discard_oversized_input_ (dev_app s) then
    e ← call (in_app discard_pass);
    leave (DevPass e)
  else
    match find_newline (input_ (dev_app s)) (buffered_input_ (dev_app s)) with
    | None =>
      e ← call (in_app (fill_pass cJSON_PrintUnformatted));
      leave (DevPass e)
    | Some newline => call (dev_line_pass newline clock_ms)
    end).
End DevLoop.
