(* ===== verification/DiagnosticPassCorrect.v ===== *)
(** * Correctness of the serial loop of development builds

    A build with both switches off runs the loop of a release; a diagnostic line
    never reaches the protocol; and timing an operation does not change what is
    done or answered. *)

From S2P Require Import Prelude Bytes VaultFormat VaultCrypto Persistence Runtime Psa RegistrationStore Random.
From S2P Require Import DeviceSession UserPresence Attempt Json TrustedTime TimeService CanonicalProtocol.
From S2P Require Import Transport Display Ui AppMain Diagnostics DiagnosticPass.
Import TimingOperation.

Section DevCorrect.
Context `{MbedtlsGcm} {P G R K N Q D : Type} `{Persistence P} `{RegistrationStore G} `{PresenceBinding R}
  `{Psa K} `{EspNetwork N} `{EspRandom Q} `{UsbDriver D}.
Context (cJSON_ParseWithLength cJSON_ParseWithLengthOpts : bytes → option json)
  (cJSON_PrintUnformatted : json → bytes) (metadata : DeviceMetadata).
Context (kTimingDiagnosticsEnabled kTestScreenSnapshotEnabled : bool) (M5AUTH_BUILD_COMMIT : bytes) (reset_reason : Z).
Abbreviation TheApp := (App P G R K N Q D).
Implicit Types (s : DevApp TheApp).

(** The release's pass on the device of a development build. *)
Definition lifted (f : app_op pass_event) s : dev_event * DevApp TheApp :=
  let '(e, a) := f (dev_app s) in (DevPass e, s <| dev_app := a |>).

Lemma write_untimed response s :
  write_measured kTimingDiagnosticsEnabled M5AUTH_BUILD_COMMIT response kNone s =
  in_app (in_transport (write_frame response)) s.
Proof.
  unfold write_measured. rewrite (bool_decide_true (kNone = kNone)) by done. rewrite andb_false_r.
  rewrite fn_bind_ret. destruct (in_app _ s) as [b s'] eqn:E. by rewrite (fn_call _ _ _ _ _ E).
Qed.

(** Stepping through both passes at once. *)
Lemma fn_call_in_app {A} (f : app_op A) (k : A → ctl (DevApp TheApp) dev_event dev_event) s :
  fn (call (in_app f) ≫= k) s = let '(x, a) := f (dev_app s) in fn (k x) (s <| dev_app := a |>).
Proof. unfold fn, mbind, ctl_bind, call, in_app. by destruct (f (dev_app s)). Qed.
Lemma fn_call_app {A} (f : app_op A) (k : A → ctl TheApp pass_event pass_event) a :
  fn (call f ≫= k) a = let '(x, a) := f a in fn (k x) a.
Proof. unfold fn, mbind, ctl_bind, call. by destruct (f a). Qed.

Lemma fn_call_eq {S X A} (f g : S → A * S) (k : A → ctl S X X) x :
  f x = g x → fn (call f ≫= k) x = fn (call g ≫= k) x.
Proof. intros E. unfold fn, mbind, ctl_bind, call. by rewrite E. Qed.
#[local] Ltac steps :=
  rewrite fn_call_in_app, fn_call_app; cbn [dev_app upd_field].

Lemma handle_untimed info request consumed clock_ms s :
  (kTimingDiagnosticsEnabled = true → classify_timing_operation request = kNone) →
  timed_handle_pass cJSON_ParseWithLength cJSON_ParseWithLengthOpts cJSON_PrintUnformatted metadata
    kTimingDiagnosticsEnabled M5AUTH_BUILD_COMMIT info request consumed clock_ms s =
  lifted (handle_pass cJSON_ParseWithLength cJSON_ParseWithLengthOpts cJSON_PrintUnformatted metadata
    info request consumed clock_ms) s.
Proof.
  intros Hn. unfold timed_handle_pass, lifted, handle_pass.
  replace (if kTimingDiagnosticsEnabled then classify_timing_operation request else kNone) with kNone
    by (destruct kTimingDiagnosticsEnabled; [by rewrite Hn|done]).
  cbn zeta. rewrite (bool_decide_true (kNone = kNone)), fn_bind_ret, !fn_get by done.
  rewrite fn_call_in_app, fn_call_app. destruct (monotonic_ms (dev_app s)) as [now a1].
  steps. destruct (in_protocol _ a1) as [response a2].
  assert (Hk : ∀ k s', fn ((if kTimingDiagnosticsEnabled
      then call (record_timing_now (R:=R) (P:=P) (G:=G) (K:=K) (Q:=Q) (D:=D) kNone 0) else mret false) ≫= k) s' =
    fn (k false : ctl _ dev_event dev_event) s').
  { intros k s'. by destruct kTimingDiagnosticsEnabled. }
  rewrite Hk, fn_bind_ret, !fn_modify.
  rewrite (fn_call_eq _ _ _ _ (write_untimed _ _)). steps. unfold write_response. cbn [on_app dev_app upd_field].
  destruct (in_transport _ (consume _ _)) as [written a3].
  destruct written; cbn [negb]; [destruct (_ && successful_protocol_response_for_id _ _ _)|].
  - done.
  - by destruct (_ && _).
  - steps. by destruct (fail_transport_session a3).
Qed.

Lemma line_untimed newline clock_ms s :
  let request := take (trimmed_length (input_ (dev_app s)) newline) (input_ (dev_app s)) in
  (kTimingDiagnosticsEnabled = true → classify_timing_operation request = kNone) →
  is_timing_diagnostics_query kTimingDiagnosticsEnabled request = false →
  kind (parse_screen_snapshot_request kTestScreenSnapshotEnabled cJSON_ParseWithLengthOpts request)
    = ScreenSnapshotRequestKind.kNotDiagnostic →
  dev_line_pass cJSON_ParseWithLength cJSON_ParseWithLengthOpts cJSON_PrintUnformatted metadata
    kTimingDiagnosticsEnabled kTestScreenSnapshotEnabled M5AUTH_BUILD_COMMIT reset_reason newline clock_ms s =
  lifted (line_pass cJSON_ParseWithLength cJSON_ParseWithLengthOpts cJSON_PrintUnformatted metadata newline clock_ms) s.
Proof.
  cbn zeta. intros Ht Hq Hk. unfold dev_line_pass, lifted, line_pass. rewrite !fn_get. cbn zeta.
  destruct (_ <? _)%nat.
  - steps. destruct (teardown_transport_session _) as [[] a1]. rewrite !fn_modify.
    steps. by destruct (answer_too_long _ _ _).
  - rewrite Hq, Hk. destruct (ignored_before_handshake _ _); [done|]. rewrite !fn_call_tail.
    rewrite handle_untimed by done. done.
Qed.

Lemma answer_spec request response consumed s e s' :
  answer_diagnostic kTimingDiagnosticsEnabled M5AUTH_BUILD_COMMIT request response consumed s = (e, s') →
  e = DevDiagnostic request ∧ dev_diagnostics s' = dev_diagnostics s ∧
  ∃ response written t', write_frame response (app_transport (dev_app s)) = (written, t') ∧
    let a := AppMain.consume consumed (dev_app s) <| app_transport := t' |> in
    dev_app s' = if written : bool then a else snd (fail_transport_session a).
Proof.
  unfold answer_diagnostic. rewrite fn_modify, (fn_call_eq _ _ _ _ (write_untimed _ _)), fn_call_in_app.
  unfold in_transport. cbn [on_app dev_app upd_field].
  assert (Hc : app_transport (AppMain.consume consumed (dev_app s)) = app_transport (dev_app s)).
  { unfold AppMain.consume. by destruct (consume_input_prefix _ _ _). }
  rewrite Hc. destruct (write_frame response _) as [written t'] eqn:Ew.
  destruct written; cbn [negb].
  - rewrite fn_bind_ret. intros [= <- <-]. split_and!; [done..|]. by eexists _, true, t'.
  - rewrite fn_call_in_app. cbn [dev_app upd_field]. destruct (fail_transport_session _) as [[] a] eqn:Ef.
    intros [= <- <-]. split_and!; [done..|]. eexists _, false, t'. split; [done|]. cbn zeta iota. by rewrite Ef.
Qed.

Lemma handle_event info request consumed clock_ms s line s' :
  timed_handle_pass cJSON_ParseWithLength cJSON_ParseWithLengthOpts cJSON_PrintUnformatted metadata
    kTimingDiagnosticsEnabled M5AUTH_BUILD_COMMIT info request consumed clock_ms s ≠ (DevDiagnostic line, s').
Proof. intros E. unfold timed_handle_pass in E. exec E; done. Qed.

(** A diagnostic line is a query or a request for the screen.  It is taken out of
    the buffer, one frame is written, and the protocol and the diagnostics are as
    before; when the frame cannot be written, the session fails. *)
Theorem diagnostic_line_isolated newline clock_ms s line s' :
  dev_line_pass cJSON_ParseWithLength cJSON_ParseWithLengthOpts cJSON_PrintUnformatted metadata
    kTimingDiagnosticsEnabled kTestScreenSnapshotEnabled M5AUTH_BUILD_COMMIT reset_reason newline clock_ms s =
    (DevDiagnostic line, s') →
  (is_timing_diagnostics_query kTimingDiagnosticsEnabled line = true ∨
   kind (parse_screen_snapshot_request kTestScreenSnapshotEnabled cJSON_ParseWithLengthOpts line)
     ≠ ScreenSnapshotRequestKind.kNotDiagnostic) ∧
  dev_diagnostics s' = dev_diagnostics s ∧
  ∃ response written t', write_frame response (app_transport (dev_app s)) = (written, t') ∧
    let a := consume (S newline) (dev_app s) <| app_transport := t' |> in
    dev_app s' = if written : bool then a else snd (fail_transport_session a).
Proof.
  intros E. unfold dev_line_pass in E. exec_step E. cbn zeta in E. exec_step E.
  { exec E; done. }
  exec_step E; [|exec_step E]; rewrite ?fn_call_tail in E.
  1, 2: destruct (answer_spec _ _ _ _ _ _ E) as ([= ->] & Hd & Ha); split; [|done].
  1: by left.
  1: right; by case_match.
  exec_step E; [exec E; done|]. rewrite fn_call_tail in E.
  exfalso. revert E. by apply handle_event.
Qed.
End DevCorrect.

(** ** Timing *)

Section Timed.
Context `{MbedtlsGcm} {P G R K N Q D : Type} `{Persistence P} `{RegistrationStore G} `{PresenceBinding R}
  `{Psa K} `{EspNetwork N} `{EspRandom Q} `{UsbDriver D}.
Context (cJSON_ParseWithLength cJSON_ParseWithLengthOpts : bytes → option json)
  (cJSON_PrintUnformatted : json → bytes) (metadata : DeviceMetadata).
Context (kTimingDiagnosticsEnabled : bool) (M5AUTH_BUILD_COMMIT : bytes).
(** Reading the timer changes nothing. *)
Hypothesis timer_reads : ∀ n : N, snd (esp_timer_get_time n) = n.
Abbreviation TheApp := (App P G R K N Q D).
Implicit Types (s : DevApp TheApp).

Lemma timer_spec s : ∃ t, timer_us s = (t, s).
Proof.
  destruct s as [[[] ? ? ? ?] ? ?]. unfold timer_us, in_app, in_protocol, in_time, on_net. cbn.
  pose proof (timer_reads (net_ time_service_)) as Ht. destruct (esp_timer_get_time _) as [t n]. cbn in *. subst n.
  exists t. by destruct time_service_.
Qed.

Lemma record_spec operation started_us s :
  ∃ b d, record_timing_now operation started_us s = (b, s <| dev_diagnostics := d |>).
Proof.
  destruct s as [a d r]. unfold record_timing_now, leave_if.
  destruct (bool_decide (operation = kNone) || (started_us <=? 0)); [by exists false, d|].
  rewrite fn_bind_ret. destruct (timer_spec (mkDev _ a d r)) as [t Et]. rewrite (fn_call _ _ _ _ _ Et), fn_get.
  cbn [dev_diagnostics]. destruct (record_timing operation started_us t d) as [b d']. by exists b, d'.
Qed.

Lemma write_spec response operation s : ∃ d,
  write_measured kTimingDiagnosticsEnabled M5AUTH_BUILD_COMMIT response operation s =
  let '(b, a) := in_transport (write_frame response) (dev_app s) in
  (b, s <| dev_app := a |> <| dev_diagnostics := d |>).
Proof.
  destruct s as [a d r]. unfold write_measured, leave_if. set (measure := _ && _). clearbody measure. cbn zeta.
  assert (Hm : ∃ t, ∀ k : Z → ctl (DevApp TheApp) bool bool,
    fn ((if measure then call timer_us else mret 0) ≫= k) (mkDev _ a d r) = fn (k t) (mkDev _ a d r)).
  { destruct measure; [|by exists 0]. destruct (timer_spec (mkDev _ a d r)) as [t Et]. exists t. intros k.
    by rewrite (fn_call _ _ _ _ _ Et). }
  destruct Hm as [t ->]. unfold in_app at 1. cbn [dev_app].
  destruct (in_transport _ a) as [b a'] eqn:Ew.
  rewrite (fn_call _ _ _ b (mkDev _ a' d r)) by (unfold in_app; cbn [dev_app]; by rewrite Ew).
  destruct (negb measure || (t <=? 0)); [by exists d|]. rewrite fn_bind_ret.
  destruct (timer_spec (mkDev _ a' d r)) as [t' Et]. rewrite (fn_call _ _ _ _ _ Et), fn_modify. by eexists.
Qed.

(** When reading the timer is all that timing adds, a timed line is handled and
    answered as in a release: only the diagnostics differ. *)
Theorem timing_transparent info request consumed clock_ms s : ∃ d,
  timed_handle_pass cJSON_ParseWithLength cJSON_ParseWithLengthOpts cJSON_PrintUnformatted metadata
    kTimingDiagnosticsEnabled M5AUTH_BUILD_COMMIT info request consumed clock_ms s =
  let '(e, a) := handle_pass cJSON_ParseWithLength cJSON_ParseWithLengthOpts cJSON_PrintUnformatted metadata
                   info request consumed clock_ms (dev_app s) in
  (DevPass e, s <| dev_app := a |> <| dev_diagnostics := d |>).
Proof.
  destruct s as [a d r]. unfold timed_handle_pass, handle_pass. set (operation := if kTimingDiagnosticsEnabled then _ else kNone). clearbody operation.
  cbn zeta.
  assert (Hm : ∃ t, ∀ k : Z → ctl (DevApp TheApp) dev_event dev_event,
    fn ((if bool_decide (operation = kNone) then mret 0 else call timer_us) ≫= k) (mkDev _ a d r) =
    fn (k t) (mkDev _ a d r)).
  { destruct (bool_decide _); [by exists 0|]. destruct (timer_spec (mkDev _ a d r)) as [t Et]. exists t. intros k.
    by rewrite (fn_call _ _ _ _ _ Et). }
  destruct Hm as [t ->]. rewrite !fn_get, fn_call_in_app, fn_call_app. cbn [dev_app upd_field].
  destruct (monotonic_ms a) as [now a1]. rewrite fn_call_in_app, fn_call_app. cbn [dev_app upd_field].
  destruct (in_protocol _ a1) as [response a2].
  set (s2 := mkDev _ a2 _ _).
  assert (Hr : ∃ (b : bool) d', ∀ k, fn ((if kTimingDiagnosticsEnabled then call (record_timing_now operation t) else mret false) ≫= k) s2 =
    fn (k b : ctl (DevApp TheApp) dev_event dev_event) (mkDev _ a2 d' r)).
  { destruct kTimingDiagnosticsEnabled; [|by exists false, d].
    destruct (record_spec operation t s2) as (b & d' & Er). exists b, d'. intros k. by rewrite (fn_call _ _ _ _ _ Er). }
  destruct Hr as (b & d' & ->).
  assert (Hp : ∃ d2, ∀ k : unit → ctl (DevApp TheApp) dev_event dev_event,
    fn ((if b then modify (on_diagnostics (persist_timing_diagnostics_to_rtc kTimingDiagnosticsEnabled M5AUTH_BUILD_COMMIT))
         else mret tt) ≫= k) (mkDev _ a2 d' r) = fn (k tt) (mkDev _ a2 d2 r)).
  { destruct b; [|by exists d']. eexists. intros k. by rewrite fn_modify. }
  destruct Hp as [d2 ->]. rewrite !fn_modify. unfold write_response. cbn [on_app dev_app upd_field].
  destruct (write_spec (cJSON_PrintUnformatted response) operation (mkDev _ (consume consumed a2) d2 r)) as [d3 Ew].
  cbn [dev_app] in Ew. rewrite fn_call_app. destruct (in_transport _ (consume consumed a2)) as [written a3].
  rewrite (fn_call _ _ _ _ _ Ew). exists d3.
  destruct written; cbn [negb]; [destruct (_ && successful_protocol_response_for_id _ _ _)|].
  - done.
  - by destruct (_ && _).
  - rewrite fn_call_in_app, fn_call_app. cbn [dev_app upd_field]. by destruct (fail_transport_session a3).
Qed.
End Timed.

(** ** The build of a release *)

Section Release.
Context `{MbedtlsGcm} {P G R K N Q D : Type} `{Persistence P} `{RegistrationStore G} `{PresenceBinding R}
  `{Psa K} `{EspNetwork N} `{EspRandom Q} `{UsbDriver D}.

(** With both switches off the loop is the one of a release, to the last call. *)
Theorem release_pass_exact parse parse_opts print metadata commit reset_reason clock_ms (s : DevApp (App P G R K N Q D)) :
  dev_serial_pass parse parse_opts print metadata false false commit reset_reason clock_ms s =
  lifted (serial_pass parse parse_opts print metadata clock_ms) s.
Proof.
  unfold dev_serial_pass, serial_pass, lifted.
  do 3 (rewrite fn_call_in_app, fn_call_app; cbn [dev_app upd_field];
        match goal with |- (let '(_, _) := ?x in _) = _ => destruct x as [? ?] end).
  rewrite !fn_get. cbn [dev_app upd_field].
  destruct (negb _); [|destruct (faulted _); [|destruct (discard_oversized_input_ _)]].
  - rewrite fn_call_in_app, fn_call_app. cbn [dev_app upd_field]. destruct (teardown_transport_session _) as [[] ?].
    rewrite !fn_modify, fn_call_in_app, fn_call_app. cbn [on_app dev_app upd_field]. by destruct (poll_delay _).
  - rewrite !fn_modify, fn_call_in_app, fn_call_app. cbn [on_app dev_app upd_field]. by destruct (poll_delay _).
  - rewrite fn_call_in_app, fn_call_tail. cbn [dev_app upd_field]. by destruct (discard_pass _).
  - destruct (find_newline _ _).
    + rewrite !fn_call_tail. rewrite line_untimed by done. done.
    + rewrite fn_call_in_app, fn_call_tail. cbn [dev_app upd_field]. by destruct (fill_pass _ _).
Qed.
End Release.
