(* ===== verification/AccountState.v ===== *)
(** * The accounts of the first generation: validation and encoding

    [m5auth_storage/state.cpp] and state.hpp: the accounts and the Wi-Fi
    credentials the first generation keeps, the rules they obey, and the
    snapshot they are stored as.  A [SensitiveString] is a byte string; what its
    copies wipe are local variables and retired buffers.  [decode_state] writes
    its output only on success. *)

From S2P Require Import Prelude Bytes ByteReader.

Module StoreStatus.
Inductive t :=
  | kOk | kNotReady | kNotFound | kInvalidArgument | kFull | kUnsupportedSchema | kCorrupt | kIo
  | kSecurityInvariant.
#[global] Instance eq_dec : EqDecision t.
Proof. solve_decision. Defined.
Definition is_ok (status : t) : bool := bool_decide (status = kOk).
Lemma ok_true status : is_ok status = true ↔ status = kOk.
Proof. apply bool_decide_eq_true. Qed.
Lemma ok_false status : is_ok status = false ↔ status ≠ kOk.
Proof. apply bool_decide_eq_false. Qed.
End StoreStatus.

Definition kMaxAccounts : nat := 32.
Definition kMaxIssuerBytes : nat := 96.
Definition kMaxAccountBytes : nat := 128.
Definition kMaxDisplayNameBytes : nat := 96.
Definition kMaxSecretBytes : nat := 256.
Definition kMaxSsidBytes : nat := 32.
Definition kMaxWifiPasswordBytes : nat := 64.

Definition kMagic : bytes := str "M5AS".
Definition kFormatVersion : Z := 1.
Definition kMaxSnapshotBytes : Z := 64 * 1024.

Record AccountDraft := mkDraft {
  draft_issuer : bytes;
  draft_account : bytes;
  draft_display_name : bytes;
  draft_secret : bytes;
}.
#[export] Instance draft_eq_dec : EqDecision AccountDraft.
Proof. solve_decision. Defined.

Record AccountRecord := mkAccount {
  account_id : Z;
  account_order : Z;
  account_draft : AccountDraft;
}.
#[export] Instance eta_account : Eta AccountRecord := λ a,
  mkAccount (account_id a) (account_order a) (account_draft a).
#[export] Instance account_eq_dec : EqDecision AccountRecord.
Proof. solve_decision. Defined.

Record AccountsState := mkAccounts {
  next_id : Z;
  last_used_id : Z;
  wifi_ssid : bytes;
  wifi_password : bytes;
  accounts : list AccountRecord;
}.
#[export] Instance eta_accounts : Eta AccountsState := λ s,
  mkAccounts (next_id s) (last_used_id s) (wifi_ssid s) (wifi_password s) (accounts s).
Definition new_accounts : AccountsState := mkAccounts 1 0 [] [] [].

(** The condition [validate_account_draft] and [validate_state] share. *)
Definition draft_rejected (draft : AccountDraft) : bool :=
  Nat.ltb kMaxIssuerBytes (length (draft_issuer draft))
  || Nat.ltb kMaxAccountBytes (length (draft_account draft))
  || Nat.ltb kMaxDisplayNameBytes (length (draft_display_name draft))
  || Nat.eqb (length (draft_secret draft)) 0
  || Nat.ltb kMaxSecretBytes (length (draft_secret draft)).

Definition validate_account_draft (draft : AccountDraft) : StoreStatus.t :=
  if draft_rejected draft then StoreStatus.kInvalidArgument else StoreStatus.kOk.

(** The variables of the loop in [validate_state]. *)
Record validation := mkValidation {
  ids : gset Z;
  orders : list bool;
  max_id : Z;
  last_used_found : bool;
}.

(** One account; [None] is the return of [kCorrupt]. *)
Definition validate_record (state : AccountsState) (v : validation) (account : AccountRecord)
    : option validation :=
  let id := account_id account in
  let order := account_order account in
  if draft_rejected (account_draft account) || (id =? 0) || bool_decide (id ∈ ids v)
     || (Z.of_nat (length (accounts state)) <=? order) || nth (Z.to_nat order) (orders v) false
  then None
  else Some (mkValidation ({[id]} ∪ ids v) (<[Z.to_nat order := true]> (orders v)) (Z.max (max_id v) id)
               ((id =? last_used_id state) || last_used_found v)).

Fixpoint validate_records (state : AccountsState) (v : validation) (records : list AccountRecord)
    : option validation :=
  match records with
  | [] => Some v
  | account :: records =>
    match validate_record state v account with
    | None => None
    | Some v => validate_records state v records
    end
  end.

Definition validate_state (state : AccountsState) : StoreStatus.t :=
  if Nat.ltb kMaxAccounts (length (accounts state)) || Nat.ltb kMaxSsidBytes (length (wifi_ssid state))
     || Nat.ltb kMaxWifiPasswordBytes (length (wifi_password state)) || (next_id state =? 0)
  then StoreStatus.kCorrupt
  else
    let start := mkValidation ∅ (replicate (length (accounts state)) false) 0 (last_used_id state =? 0) in
    match validate_records state start (accounts state) with
    | None => StoreStatus.kCorrupt
    | Some v =>
      if negb (last_used_found v) || (next_id state <=? max_id v) then StoreStatus.kCorrupt else StoreStatus.kOk
    end.

(** ** Encoding *)

Definition append_u16 (out : bytes) (value : Z) : bytes :=
  (out ++ [Z.land value 0xff]) ++ [Z.land (Z.shiftr value 8) 0xff].
Definition append_u32 (out : bytes) (value : Z) : bytes :=
  fold_left (λ out shift, out ++ [byte_at value shift]) [0; 8; 16; 24] out.
Definition append_string (out value : bytes) : option bytes :=
  if Z.of_nat (length value) >? u16_max then None
  else Some (append_u16 out (Z.of_nat (length value)) ++ value).

Definition append_account (out : bytes) (account : AccountRecord) : option bytes :=
  let out := append_u32 out (account_id account) in
  let out := append_u16 out (account_order account) in
  out ← append_string out (draft_issuer (account_draft account));
  out ← append_string out (draft_account (account_draft account));
  out ← append_string out (draft_display_name (account_draft account));
  append_string out (draft_secret (account_draft account)).

Fixpoint append_accounts (out : bytes) (records : list AccountRecord) : option bytes :=
  match records with
  | [] => Some out
  | account :: records => out ← append_account out account; append_accounts out records
  end.

(** The status and [*output], which is cleared when the strings or the whole do
    not fit. *)
Definition encode_state (state : AccountsState) : StoreStatus.t * bytes :=
  if negb (StoreStatus.is_ok (validate_state state)) then (StoreStatus.kInvalidArgument, [])
  else
    let output := [] ++ kMagic in
    let output := append_u16 output kFormatVersion in
    let output := append_u16 output 0 in
    let output := append_u32 output (next_id state) in
    let output := append_u32 output (last_used_id state) in
    let output := append_u16 output (Z.land (Z.of_nat (length (accounts state))) 0xffff) in
    match (output ← append_string output (wifi_ssid state); append_string output (wifi_password state)) with
    | None => (StoreStatus.kInvalidArgument, [])
    | Some output =>
      match append_accounts output (accounts state) with
      | None => (StoreStatus.kInvalidArgument, [])
      | Some output =>
        if Z.of_nat (length output) >? kMaxSnapshotBytes then (StoreStatus.kFull, []) else (StoreStatus.kOk, output)
      end
    end.

(** ** Decoding *)

Definition read_u16 : parser Z :=
  data ← read_bytes 2;
  mret (Z.lor (data !!! 0%nat) (Z.shiftl (data !!! 1%nat) 8)).
Definition read_u32 : parser Z :=
  data ← read_bytes 4;
  mret (Z.lor (Z.lor (Z.lor (data !!! 0%nat) (Z.shiftl (data !!! 1%nat) 8))
    (Z.shiftl (data !!! 2%nat) 16)) (Z.shiftl (data !!! 3%nat) 24)).
Definition read_string (max_length : nat) : parser bytes :=
  length ← read_u16;
  _ ← check (length <=? Z.of_nat max_length);
  read_bytes (Z.to_nat length).

Definition read_account : parser AccountRecord :=
  id ← read_u32;
  order ← read_u16;
  issuer ← read_string kMaxIssuerBytes;
  account ← read_string kMaxAccountBytes;
  display_name ← read_string kMaxDisplayNameBytes;
  secret ← read_string kMaxSecretBytes;
  mret (mkAccount id order (mkDraft issuer account display_name secret)).

Fixpoint read_accounts (count : nat) : parser (list AccountRecord) :=
  match count with
  | O => mret []
  | S count => record ← read_account; records ← read_accounts count; mret (record :: records)
  end.

Definition read_state : parser AccountsState :=
  magic ← read_bytes (length kMagic);
  _ ← check (bool_decide (magic = kMagic));
  format ← read_u16;
  _ ← check (format =? kFormatVersion);
  reserved ← read_u16;
  _ ← check (reserved =? 0);
  next_id ← read_u32;
  last_used_id ← read_u32;
  account_count ← read_u16;
  _ ← check (account_count <=? Z.of_nat kMaxAccounts);
  wifi_ssid ← read_string kMaxSsidBytes;
  wifi_password ← read_string kMaxWifiPasswordBytes;
  accounts ← read_accounts (Z.to_nat account_count);
  mret (mkAccounts next_id last_used_id wifi_ssid wifi_password accounts).

Definition decode_state (data : bytes) : StoreStatus.t * option AccountsState :=
  if Nat.eqb (length data) 0 || (Z.of_nat (length data) >? kMaxSnapshotBytes) then (StoreStatus.kCorrupt, None)
  else
    match run_parser (decoded ← read_state; finished ← at_end; _ ← check finished; mret decoded) data with
    | None => (StoreStatus.kCorrupt, None)
    | Some decoded =>
      if StoreStatus.is_ok (validate_state decoded) then (StoreStatus.kOk, Some decoded)
      else (StoreStatus.kCorrupt, None)
    end.
