(* ===== verification/SensitiveString.v ===== *)
(** * Strings that leave no trace

    The helpers of m5auth_storage/state.cpp that overwrite secrets, and
    [SensitiveString], the string whose copies, moves and end are overwritten.  A
    [std::string] is an object with an address; its buffer may be longer than its
    text, and goes back to the allocator when a longer text is assigned or the object
    ends.  [released] keeps what those buffers held.  (The terminating NUL of a buffer
    is left out.) *)

From S2P Require Import Prelude Bytes.

Record string_object := mkString { size_ : nat; buffer_ : bytes }.
Definition text_of (o : string_object) : bytes := take (size_ o) (buffer_ o).

Record Heap := mkHeap { strings : gmap nat string_object; released : list bytes }.
#[export] Instance eta_heap : Eta Heap := λ h, mkHeap (strings h) (released h).
Definition text_at (h : Heap) (address : nat) : bytes := default [] (text_of <$> strings h !! address).
Definition store_string (address : nat) (o : string_object) (h : Heap) : Heap :=
  h <| strings := <[address := o]> (strings h) |>.

(** ** std::string *)

(** [operator=]: in place when the text fits the buffer. *)
Definition assign_text (text : bytes) (o : string_object) : string_object * list bytes :=
  if Nat.leb (length text) (length (buffer_ o))
  then (mkString (length text) (text ++ drop (length text) (buffer_ o)), [])
  else (mkString (length text) text, [buffer_ o]).
Definition string_assign (address : nat) (text : bytes) (h : Heap) : Heap :=
  match strings h !! address with
  | None => h
  | Some o =>
    let '(o, gone) := assign_text text o in
    store_string address o h <| released := released h ++ gone |>
  end.
Definition string_construct (address : nat) (text : bytes) (h : Heap) : Heap :=
  store_string address (mkString (length text) text) h.
Definition string_destroy (address : nat) (h : Heap) : Heap :=
  match strings h !! address with
  | None => h
  | Some o => mkHeap (delete address (strings h)) (released h ++ [buffer_ o])
  end.

(** ** Overwriting *)

Definition secure_zero (size : nat) (data : bytes) : bytes := zeros (size `min` length data) ++ drop size data.
Definition clear_object (o : string_object) : string_object := mkString 0 (secure_zero (size_ o) (buffer_ o)).
Definition secure_clear (address : nat) (h : Heap) : Heap :=
  match strings h !! address with
  | None => h
  | Some o => if Nat.eqb (size_ o) 0 then h else store_string address (clear_object o) h
  end.

(** ** SensitiveString *)

Definition sensitive_from_text (this : nat) (text : bytes) (h : Heap) : Heap := string_construct this text h.
Definition sensitive_copy_construct (this other : nat) (h : Heap) : Heap := string_construct this (text_at h other) h.
Definition sensitive_move_construct (this other : nat) (h : Heap) : Heap :=
  secure_clear other (sensitive_copy_construct this other h).
Definition sensitive_copy_assign (this other : nat) (h : Heap) : Heap :=
  if Nat.eqb this other then h
  else let h := secure_clear this h in string_assign this (text_at h other) h.
Definition sensitive_move_assign (this other : nat) (h : Heap) : Heap :=
  if Nat.eqb this other then h else secure_clear other (sensitive_copy_assign this other h).
Definition sensitive_destroy (this : nat) (h : Heap) : Heap := string_destroy this (secure_clear this h).

(** ** Properties *)

(** Behind its text a buffer holds zeros. *)
Definition clean_object (o : string_object) : Prop :=
  (size_ o ≤ length (buffer_ o))%nat ∧ drop (size_ o) (buffer_ o) = zeros (length (buffer_ o) - size_ o).
Definition clean (h : Heap) : Prop :=
  map_Forall (λ _, clean_object) (strings h) ∧ Forall (λ b, b = zeros (length b)) (released h).

Lemma clear_clean o : clean_object o →
  clean_object (clear_object o) ∧ buffer_ (clear_object o) = zeros (length (buffer_ o)).
Proof.
  intros [Hs Hd]. unfold clear_object, clean_object, secure_zero. cbn [size_ buffer_].
  rewrite Nat.min_l by done. rewrite Hd.
  assert (E : zeros (size_ o) ++ zeros (length (buffer_ o) - size_ o) = zeros (length (buffer_ o))).
  { unfold zeros. rewrite <- replicate_add. f_equal. lia. }
  rewrite E. unfold zeros. rewrite length_replicate, drop_0. split; [|done]. split; [lia|]. f_equal. lia.
Qed.

Lemma secure_clear_spec address h : clean h →
  clean (secure_clear address h) ∧ text_at (secure_clear address h) address = [] ∧
  (∀ o, strings (secure_clear address h) !! address = Some o → buffer_ o = zeros (length (buffer_ o))) ∧
  (∀ a, a ≠ address → strings (secure_clear address h) !! a = strings h !! a) ∧
  (is_Some (strings (secure_clear address h) !! address) ↔ is_Some (strings h !! address)).
Proof.
  intros [Hs Hr]. unfold secure_clear, text_at. destruct (strings h !! address) as [o|] eqn:Eo.
  2: { rewrite Eo. split_and!; try done. }
  destruct (Hs _ _ Eo) as [Hl Hd]. destruct (Nat.eqb_spec (size_ o) 0) as [E0|].
  - rewrite Eo. cbn. split_and!; try done.
    + unfold text_of. by rewrite E0.
    + intros ? [= <-]. rewrite E0, drop_0, Nat.sub_0_r in Hd. by rewrite Hd at 1.
  - destruct (clear_clean o (conj Hl Hd)) as [Hc Hb]. cbn. split_and!.
    + split; [|done]. by apply map_Forall_insert_2.
    + by rewrite lookup_insert_eq.
    + intros o'. rewrite lookup_insert_eq. intros [= <-]. rewrite Hb. unfold zeros. by rewrite length_replicate.
    + intros a Ha. by rewrite lookup_insert_ne.
    + by rewrite lookup_insert_eq.
Qed.

Lemma construct_clean address text h : clean h → clean (string_construct address text h).
Proof.
  intros [Hs Hr]. split; [|done]. apply map_Forall_insert_2; [|done].
  unfold clean_object. cbn. rewrite drop_all, Nat.sub_diag. by split.
Qed.

(** An object whose buffer is all zeros can be given any text. *)
Lemma assign_clean address text h : clean h →
  (∀ o, strings h !! address = Some o → buffer_ o = zeros (length (buffer_ o))) →
  clean (string_assign address text h) ∧
  (is_Some (strings h !! address) → text_at (string_assign address text h) address = text) ∧
  (∀ a, a ≠ address → strings (string_assign address text h) !! a = strings h !! a).
Proof.
  intros [Hs Hr] Hz. unfold string_assign, text_at. destruct (strings h !! address) as [o|] eqn:Eo.
  2: { split_and!; [done|by intros []|done]. }
  specialize (Hz o eq_refl). unfold assign_text. destruct (Nat.leb_spec (length text) (length (buffer_ o))); cbn.
  - split_and!.
    + split; [|by rewrite app_nil_r]. apply map_Forall_insert_2; [|done]. unfold clean_object. cbn.
      rewrite drop_app_length, length_app, length_drop. split; [lia|]. rewrite Hz at 1. unfold zeros.
      rewrite drop_replicate. f_equal. lia.
    + intros _. rewrite lookup_insert_eq. cbn. unfold text_of. cbn. by rewrite take_app_length.
    + intros a Ha. by rewrite lookup_insert_ne.
  - split_and!.
    + split; [|by apply Forall_app_2; [|constructor]]. apply map_Forall_insert_2; [|done].
      unfold clean_object. cbn. rewrite drop_all, Nat.sub_diag. by split.
    + intros _. rewrite lookup_insert_eq. cbn. unfold text_of. cbn. by rewrite firstn_all.
    + intros a Ha. by rewrite lookup_insert_ne.
Qed.

Lemma text_at_same h h' a : strings h' !! a = strings h !! a → text_at h' a = text_at h a.
Proof. unfold text_at. by intros ->. Qed.

Lemma copy_assign_spec this other h : clean h → is_Some (strings h !! this) → this ≠ other →
  clean (sensitive_copy_assign this other h) ∧
  text_at (sensitive_copy_assign this other h) this = text_at h other ∧
  (∀ a, a ≠ this → strings (sensitive_copy_assign this other h) !! a = strings h !! a).
Proof.
  intros Hc Ht Hne. unfold sensitive_copy_assign. destruct (Nat.eqb_spec this other); [done|].
  destruct (secure_clear_spec this h Hc) as (Hc1 & _ & Hz & Ho & Hi). cbn zeta.
  destruct (assign_clean this (text_at (secure_clear this h) other) _ Hc1 Hz) as (Hc2 & Hx & Ho2).
  split_and!; [done| |].
  - rewrite Hx by by apply Hi. apply text_at_same, Ho. congruence.
  - intros a Ha. by rewrite Ho2, Ho.
Qed.

Lemma move_clean this other h : clean h → is_Some (strings h !! this) → clean (sensitive_move_assign this other h).
Proof.
  intros Hc Ht. unfold sensitive_move_assign. destruct (Nat.eqb_spec this other); [done|].
  apply secure_clear_spec. by apply copy_assign_spec.
Qed.

(** Moving takes the text over and leaves nothing at its old place, neither in the
    source nor in a buffer that was given back; onto itself it changes nothing. *)
Theorem move_leaves_no_trace this other h : clean h → is_Some (strings h !! this) →
  let h' := sensitive_move_assign this other h in
  clean h' ∧
  if Nat.eqb this other then h' = h
  else text_at h' this = text_at h other ∧ text_at h' other = [] ∧
       (∀ o, strings h' !! other = Some o → buffer_ o = zeros (length (buffer_ o))) ∧
       ∀ a, a ≠ this → a ≠ other → text_at h' a = text_at h a.
Proof.
  intros Hc Ht h'. subst h'. unfold sensitive_move_assign. destruct (Nat.eqb_spec this other) as [|Hne]; [done|].
  destruct (copy_assign_spec this other h Hc Ht Hne) as (Hc1 & Hx & Ho).
  destruct (secure_clear_spec other _ Hc1) as (Hc2 & He & Hz & Ho2 & _). split_and!; [done| |done|done|].
  - rewrite <- Hx. by apply text_at_same, Ho2.
  - intros a Ha Hb. apply text_at_same. by rewrite Ho2, Ho.
Qed.

(** *** Every history *)

Inductive string_step : Heap → Heap → Prop :=
  | step_text this text h : strings h !! this = None → string_step h (sensitive_from_text this text h)
  | step_copy this other h : strings h !! this = None → string_step h (sensitive_copy_construct this other h)
  | step_move this other h : strings h !! this = None → string_step h (sensitive_move_construct this other h)
  | step_copy_assign this other h : is_Some (strings h !! this) → string_step h (sensitive_copy_assign this other h)
  | step_move_assign this other h : is_Some (strings h !! this) → string_step h (sensitive_move_assign this other h)
  | step_clear this h : string_step h (secure_clear this h)
  | step_destroy this h : string_step h (sensitive_destroy this h).

Lemma step_clean h h' : string_step h h' → clean h → clean h'.
Proof.
  intros [this text h1 _|this other h1 _|this other h1 _|this other h1 Ht|this other h1 Ht|this h1|this h1] Hc.
  - by apply construct_clean.
  - by apply construct_clean.
  - apply secure_clear_spec. by apply construct_clean.
  - destruct (decide (this = other)) as [->|]; [|by apply copy_assign_spec].
    unfold sensitive_copy_assign. by rewrite Nat.eqb_refl.
  - by apply move_clean.
  - by apply secure_clear_spec.
  - unfold sensitive_destroy, string_destroy. destruct (secure_clear_spec this h1 Hc) as (Hc1 & _ & Hz & _).
    destruct (strings (secure_clear this h1) !! this) as [o|] eqn:Eo; [|done]. destruct Hc1 as [Hs Hr]. split.
    + by apply map_Forall_delete.
    + apply Forall_app_2; [done|]. constructor; [|constructor]. by apply Hz.
Qed.

(** Whatever is done with them, what sensitive strings give back to the allocator
    is zeros. *)
Theorem released_is_zero h h' : clean h → rtc string_step h h' → Forall (λ b, b = zeros (length b)) (released h').
Proof. intros Hc Hs. assert (clean h') as [_ Hr]; [|done]. induction Hs; eauto using step_clean. Qed.
