(* ===== verification/AccountStateCorrect.v ===== *)
(** * Correctness of the accounts' rules and encoding

    [validate_state] accepts exactly the well-formed states, and decoding and
    encoding are inverse on exactly those: every snapshot has one reading and
    every state one snapshot, which always fits. *)

From S2P Require Import Prelude Bytes ByteReader NvsPersistenceCorrect AccountState.

#[local] Arguments le_bytes : simpl never.
#[local] Arguments Z.of_nat : simpl never.
#[local] Arguments draft_rejected : simpl never.

(** ** Well-formed states *)

(** What the C++ types guarantee. *)
Definition draft_typed (d : AccountDraft) : Prop :=
  bytes_ok (draft_issuer d) ∧ bytes_ok (draft_account d) ∧ bytes_ok (draft_display_name d) ∧ bytes_ok (draft_secret d).
Definition account_typed (a : AccountRecord) : Prop :=
  is_u32 (account_id a) ∧ is_u16 (account_order a) ∧ draft_typed (account_draft a).
Definition state_typed (s : AccountsState) : Prop :=
  is_u32 (next_id s) ∧ is_u32 (last_used_id s) ∧ bytes_ok (wifi_ssid s) ∧ bytes_ok (wifi_password s) ∧
  Forall account_typed (accounts s).

Definition draft_wf (d : AccountDraft) : Prop :=
  (length (draft_issuer d) ≤ kMaxIssuerBytes)%nat ∧ (length (draft_account d) ≤ kMaxAccountBytes)%nat ∧
  (length (draft_display_name d) ≤ kMaxDisplayNameBytes)%nat ∧
  (0 < length (draft_secret d) ≤ kMaxSecretBytes)%nat.

(** The rules: identifiers are distinct, not zero and below the next one to be
    given; the orders are the positions 0, ..., n - 1; the account used last, if
    any, exists. *)
Record state_wf (s : AccountsState) : Prop := {
  wf_count : (length (accounts s) ≤ kMaxAccounts)%nat;
  wf_ssid : (length (wifi_ssid s) ≤ kMaxSsidBytes)%nat;
  wf_password : (length (wifi_password s) ≤ kMaxWifiPasswordBytes)%nat;
  wf_drafts : Forall (λ a, draft_wf (account_draft a)) (accounts s);
  wf_ids : NoDup (account_id <$> accounts s);
  wf_id_range : Forall (λ a, 0 < account_id a < next_id s) (accounts s);
  wf_next : 0 < next_id s;
  wf_orders : (account_order <$> accounts s) ≡ₚ seqZ 0 (Z.of_nat (length (accounts s)));
  wf_last : last_used_id s = 0 ∨ last_used_id s ∈ (account_id <$> accounts s);
}.

Lemma draft_rejected_spec d : draft_rejected d = false ↔ draft_wf d.
Proof.
  unfold draft_rejected, draft_wf. rewrite !orb_false_iff, !Nat.ltb_ge, Nat.eqb_neq. intuition lia.
Qed.

(** ** The loop of [validate_state] *)

Section Validation.
Context (s : AccountsState).
Abbreviation n := (length (accounts s)).

Definition record_ok (a : AccountRecord) : Prop :=
  draft_wf (account_draft a) ∧ account_id a ≠ 0 ∧ 0 ≤ account_order a < Z.of_nat n.
Definition admissible (p : list AccountRecord) : Prop :=
  Forall record_ok p ∧ NoDup (account_id <$> p) ∧ NoDup (account_order <$> p).

(** What the variables hold after the accounts [p]. *)
Record describes (p : list AccountRecord) (v : validation) : Prop := {
  d_ids : ∀ id, id ∈ ids v ↔ id ∈ (account_id <$> p);
  d_length : length (orders v) = n;
  d_orders : ∀ i, (i < n)%nat → nth i (orders v) false = true ↔ Z.of_nat i ∈ (account_order <$> p);
  d_max : ∀ m, max_id v ≤ m ↔ 0 ≤ m ∧ Forall (λ a, account_id a ≤ m) p;
  d_last : last_used_found v = true ↔ last_used_id s = 0 ∨ last_used_id s ∈ (account_id <$> p);
}.

Lemma describes_start :
  describes [] (mkValidation ∅ (replicate n false) 0 (last_used_id s =? 0)).
Proof.
  split; cbn.
  - set_solver.
  - apply length_replicate.
  - intros i Hi. rewrite nth_lookup, lookup_replicate_2 by done. set_solver.
  - intros m. rewrite Forall_nil. intuition.
  - rewrite Z.eqb_eq. set_solver.
Qed.

Lemma describes_step p v a :
  describes p v → 0 ≤ account_order a < Z.of_nat n →
  describes (p ++ [a]) (mkValidation ({[account_id a]} ∪ ids v) (<[Z.to_nat (account_order a) := true]> (orders v))
    (Z.max (max_id v) (account_id a)) ((account_id a =? last_used_id s) || last_used_found v)).
Proof.
  intros [Hi Hl Ho Hm Hu] Hr. split; cbn.
  - intros id. rewrite elem_of_union, elem_of_singleton, fmap_app, elem_of_app, Hi. set_solver.
  - by rewrite length_insert.
  - intros i Hlt. rewrite fmap_app, elem_of_app. cbn. rewrite list_elem_of_singleton.
    destruct (decide (i = Z.to_nat (account_order a))) as [->|Hne].
    + rewrite nth_lookup, list_lookup_insert_eq by (rewrite Hl; lia). cbn. split; [right; lia|done].
    + rewrite nth_lookup, list_lookup_insert_ne, <- nth_lookup, Ho by done. split; [by left|].
      intros [?|E]; [done|]. exfalso. apply Hne. rewrite <- E. lia.
  - intros m. rewrite Z.max_lub_iff, Hm, Forall_app, Forall_singleton. tauto.
  - rewrite orb_true_iff, Hu, Z.eqb_eq, fmap_app, elem_of_app. cbn. rewrite list_elem_of_singleton. intuition.
Qed.

Lemma validate_record_spec p v a :
  admissible p → describes p v → 0 ≤ account_order a →
  (validate_record s v a = None ∧ ¬ admissible (p ++ [a])) ∨
  ∃ v', validate_record s v a = Some v' ∧ admissible (p ++ [a]) ∧ describes (p ++ [a]) v'.
Proof.
  intros (Hp1 & Hp2 & Hp3) Hd Hz. unfold validate_record. cbn zeta.
  assert (Ha : admissible (p ++ [a]) ↔ record_ok a ∧ account_id a ∉ (account_id <$> p) ∧ account_order a ∉ (account_order <$> p)).
  { unfold admissible. rewrite !fmap_app, Forall_app, Forall_singleton, !NoDup_app. cbn.
    split; [|set_solver by eauto using NoDup_singleton].
    intros ([_ ?] & (_ & H1 & _) & (_ & H2 & _)). split_and!; [done| |]; intros ?; [eapply H1|eapply H2]; eauto; by left. }
  unfold record_ok in Ha. destruct (_ || _) eqn:E.
  - left. split; [done|]. intros ((Hw & H0 & Hr) & Hi & Ho)%Ha. apply draft_rejected_spec in Hw.
    rewrite Hw in E. rewrite !orb_true_iff, Z.eqb_eq, bool_decide_eq_true, Z.leb_le, (d_ids _ _ Hd), (d_orders _ _ Hd) in E by lia.
    rewrite Z2Nat.id in E by done. intuition (done || lia).
  - right. eexists. split; [done|]. rewrite !orb_false_iff, Z.eqb_neq, bool_decide_eq_false, Z.leb_gt, (d_ids _ _ Hd), draft_rejected_spec in E.
    destruct E as ((((Hw & H0) & Hi) & Hlt) & Ho). split.
    + apply Ha. split_and!; [done|done|done|done|done|]. intros Hin. rewrite <- not_true_iff_false, (d_orders _ _ Hd) in Ho by lia.
      by rewrite Z2Nat.id in Ho by done.
    + by apply describes_step.
Qed.

Lemma validate_records_spec rs : Forall (λ a, 0 ≤ account_order a) rs → ∀ p v,
  admissible p → describes p v →
  (validate_records s v rs = None ∧ ¬ admissible (p ++ rs)) ∨
  ∃ v', validate_records s v rs = Some v' ∧ admissible (p ++ rs) ∧ describes (p ++ rs) v'.
Proof.
  induction 1 as [|a rs Ha _ IH]; intros p v Hp Hd; cbn.
  - right. rewrite app_nil_r. eauto.
  - destruct (validate_record_spec p v a Hp Hd Ha) as [[-> Hn]|(v' & -> & Hp' & Hd')].
    + left. split; [done|]. contradict Hn. destruct Hn as (H1 & H2 & H3).
      rewrite cons_middle, app_assoc in H1, H2, H3. rewrite !fmap_app in H2, H3. apply Forall_app in H1 as [H1 _].
      apply NoDup_app in H2 as [H2 _], H3 as [H3 _]. unfold admissible. by rewrite !fmap_app.
    + rewrite cons_middle, app_assoc. by apply IH.
Qed.
End Validation.

Lemma orders_perm (l : list Z) :
  NoDup l → Forall (λ o, 0 ≤ o < Z.of_nat (length l)) l → l ≡ₚ seqZ 0 (Z.of_nat (length l)).
Proof.
  intros Hn Hr. apply submseteq_length_Permutation.
  - apply NoDup_submseteq; [done|]. intros o Ho. rewrite Forall_forall in Hr. apply elem_of_seqZ. specialize (Hr o Ho). lia.
  - rewrite length_seqZ. lia.
Qed.

Lemma describes_final s v : describes s (accounts s) v →
  negb (last_used_found v) || (next_id s <=? max_id v) = false ↔
  (last_used_id s = 0 ∨ last_used_id s ∈ (account_id <$> accounts s)) ∧
  0 < next_id s ∧ Forall (λ a, account_id a < next_id s) (accounts s).
Proof.
  intros [_ _ _ Hm Hu]. rewrite orb_false_iff, negb_false_iff, Hu, Z.leb_gt.
  rewrite (Z.lt_le_pred (max_id v)), Hm. split; intros (? & ? & Hf); (split_and!; [done|lia|]);
    (eapply Forall_impl; [exact Hf|]); cbn; intros; lia.
Qed.

(** [validate_state] accepts exactly the well-formed states. *)
Theorem validate_state_exact s : state_typed s → validate_state s = StoreStatus.kOk ↔ state_wf s.
Proof.
  intros (Hn & Hl & _ & _ & Ht). unfold validate_state. unfold is_u32 in *.
  assert (Hz : Forall (λ a, 0 ≤ account_order a) (accounts s)).
  { eapply Forall_impl; [exact Ht|]. intros a (_ & Ho & _). unfold is_u16 in Ho. lia. }
  pose proof (validate_records_spec s _ Hz [] _ (conj (Forall_nil_2 _) (conj (NoDup_nil_2) (NoDup_nil_2))) (describes_start s)) as Hv.
  cbn [app] in Hv. destruct (_ || _) eqn:E.
  { split; [done|]. intros [? ? ? _ _ _ ? _ _]. rewrite !orb_true_iff, !Nat.ltb_lt, Z.eqb_eq in E. lia. }
  rewrite !orb_false_iff, !Nat.ltb_ge, Z.eqb_neq in E. destruct E as (((? & ?) & ?) & ?).
  assert (Hadm : admissible s (accounts s) ↔
    Forall (λ a, draft_wf (account_draft a)) (accounts s) ∧ NoDup (account_id <$> accounts s) ∧
    Forall (λ a, account_id a ≠ 0) (accounts s) ∧
    (account_order <$> accounts s) ≡ₚ seqZ 0 (Z.of_nat (length (accounts s)))).
  { unfold admissible, record_ok. rewrite !Forall_and. split.
    - intros ((? & ? & Hr) & ? & ?). split_and!; [done..|]. rewrite <- (length_fmap account_order).
      apply orders_perm; [done|]. rewrite length_fmap. apply Forall_fmap, Forall_and, Hr.
    - intros (? & ? & ? & Hp). split_and!; [done|done| | |done|rewrite Hp; apply NoDup_seqZ];
        apply Forall_forall; intros a Ha%(list_elem_of_fmap_2 account_order); rewrite Hp in Ha;
        apply elem_of_seqZ in Ha; lia. }
  destruct Hv as [[-> Hno]|(v & -> & Hyes & Hd)].
  - split; [done|]. intros [? ? ? Hw Hi Hrg ? Ho ?]. destruct Hno. apply Hadm. split_and!; [done|done| |done].
    eapply Forall_impl; [exact Hrg|]. cbn. lia.
  - pose proof (describes_final _ _ Hd) as Hf. apply Hadm in Hyes as (? & ? & Hne & ?). destruct (_ || _) eqn:E.
    + split; [done|]. intros [? ? ? Hw Hi Hrg ? Ho ?]. enough (true = false) by done. apply Hf.
      split_and!; [done|done|]. eapply Forall_impl; [exact Hrg|]. cbn. lia.
    + destruct (proj1 Hf eq_refl) as (? & ? & Hlt). split; [intros _|done]. constructor; try done.
      apply Forall_forall. intros a Ha. rewrite Forall_forall in Hne, Hlt, Ht. specialize (Hlt a Ha). specialize (Hne a Ha).
      destruct (Ht a Ha) as ([? ?] & _). lia.
Qed.

(** ** The snapshot *)

Definition sized_string (value : bytes) : bytes := le_bytes 2 (Z.of_nat (length value)) ++ value.
Definition account_bytes (a : AccountRecord) : bytes :=
  le_bytes 4 (account_id a) ++ le_bytes 2 (account_order a)
  ++ sized_string (draft_issuer (account_draft a)) ++ sized_string (draft_account (account_draft a))
  ++ sized_string (draft_display_name (account_draft a)) ++ sized_string (draft_secret (account_draft a)).
Definition state_bytes (s : AccountsState) : bytes :=
  kMagic ++ le_bytes 2 kFormatVersion ++ le_bytes 2 0 ++ le_bytes 4 (next_id s) ++ le_bytes 4 (last_used_id s)
  ++ le_bytes 2 (Z.of_nat (length (accounts s))) ++ sized_string (wifi_ssid s) ++ sized_string (wifi_password s)
  ++ mjoin (account_bytes <$> accounts s).

Lemma append_string_sized out value : Z.of_nat (length value) ≤ u16_max → append_string out value = Some (out ++ sized_string value).
Proof.
  intros Hl. unfold append_string. change (append_u16 out) with (NvsPersistence.append_u16 out).
  rewrite Z.gtb_ltb, (proj2 (Z.ltb_ge _ _)) by done.
  by rewrite append_u16_le, <- app_assoc.
Qed.

Lemma append_account_bytes out a : draft_wf (account_draft a) → append_account out a = Some (out ++ account_bytes a).
Proof.
  unfold draft_wf, kMaxIssuerBytes, kMaxAccountBytes, kMaxDisplayNameBytes, kMaxSecretBytes. intros (? & ? & ? & ?).
  unfold append_account. change append_u16 with NvsPersistence.append_u16. change append_u32 with NvsPersistence.append_u32.
  rewrite append_u32_le, append_u16_le. cbn zeta.
  do 4 (rewrite append_string_sized by (unfold u16_max; lia); cbn [mbind option_bind]).
  unfold account_bytes. by rewrite <- !app_assoc.
Qed.

Lemma append_accounts_bytes rs : Forall (λ a, draft_wf (account_draft a)) rs → ∀ out,
  append_accounts out rs = Some (out ++ mjoin (account_bytes <$> rs)).
Proof.
  induction 1 as [|a rs Ha _ IH]; intros out; cbn; [by rewrite app_nil_r|].
  rewrite append_account_bytes by done. cbn. by rewrite IH, app_assoc.
Qed.

Lemma sized_string_length value : length (sized_string value) = (2 + length value)%nat.
Proof. unfold sized_string. by rewrite length_app, le_bytes_length. Qed.
Lemma account_bytes_length a : draft_wf (account_draft a) → (length (account_bytes a) ≤ 590)%nat.
Proof.
  unfold draft_wf, kMaxIssuerBytes, kMaxAccountBytes, kMaxDisplayNameBytes, kMaxSecretBytes. intros (? & ? & ? & ?).
  unfold account_bytes. rewrite !length_app, !sized_string_length, !le_bytes_length. lia.
Qed.

(** A well-formed state always fits: [kFull] is never the answer. *)
Lemma state_bytes_length s : state_wf s → Z.of_nat (length (state_bytes s)) ≤ kMaxSnapshotBytes.
Proof.
  intros [Hc Hs Hp Hd _ _ _ _ _]. unfold kMaxAccounts, kMaxSsidBytes, kMaxWifiPasswordBytes in *. unfold state_bytes.
  assert (Hm : (length (mjoin (account_bytes <$> accounts s)) ≤ length (accounts s) * 590)%nat).
  { clear - Hd. induction Hd as [|a rs Ha _ IH]; [done|].
    change (mjoin (account_bytes <$> a :: rs)) with (account_bytes a ++ mjoin (account_bytes <$> rs)).
    rewrite length_app. cbn [length]. pose proof (account_bytes_length a Ha). lia. }
  rewrite !length_app, !sized_string_length, !le_bytes_length. change (length kMagic) with 4%nat. unfold kMaxSnapshotBytes. lia.
Qed.

Theorem encode_state_exact s : state_typed s →
  encode_state s = (if decide (validate_state s = StoreStatus.kOk) then (StoreStatus.kOk, state_bytes s)
                    else (StoreStatus.kInvalidArgument, [])).
Proof.
  intros Ht. unfold encode_state. case_decide as Hv; [|by rewrite (proj2 (StoreStatus.ok_false _))].
  rewrite (proj2 (StoreStatus.ok_true _) Hv). apply validate_state_exact in Hv as Hw; [|done].
  pose proof (state_bytes_length s Hw) as Hlen. destruct Hw as [Hc Hs Hp Hd _ _ _ _ _].
  unfold kMaxAccounts, kMaxSsidBytes, kMaxWifiPasswordBytes in *.
  change append_u16 with NvsPersistence.append_u16. change append_u32 with NvsPersistence.append_u32.
  cbn [negb]. cbn zeta. rewrite !append_u32_le, !append_u16_le, (append_string_sized _ (wifi_ssid s)) by (unfold u16_max; clear - Hs; lia). cbn [mbind option_bind].
  rewrite append_string_sized by (unfold u16_max; lia). rewrite append_accounts_bytes by done.
  change 0xffff with (Z.ones 16). rewrite Z.land_ones, Z.mod_small by lia. rewrite app_nil_l, <- !app_assoc.
  change (?a ++ ?b ++ ?c ++ ?d ++ ?e ++ ?f ++ ?g ++ ?h ++ ?i) with (state_bytes s).
  rewrite Z.gtb_ltb, (proj2 (Z.ltb_ge _ _)) by done. done.
Qed.

Lemma recognises_le_u16 : recognises read_u16 (exactly (λ v, 0 ≤ v < 65536) (le_bytes 2)).
Proof. exact recognises_read_u16. Qed.
Lemma recognises_le_u32 : recognises read_u32 (exactly (λ v, 0 ≤ v < 256 ^ 4) (le_bytes 4)).
Proof. exact recognises_read_u32. Qed.
#[local] Hint Resolve recognises_le_u16 recognises_le_u32 : m5.

Lemma recognises_string k : Z.of_nat k ≤ u16_max →
  recognises (read_string k) (exactly (λ t : bytes, (length t ≤ k)%nat) sized_string).
Proof.
  unfold u16_max. intros Hk. eapply recognises_ext; [|unfold read_string; recognise]. intros t e _. split.
  - intros H. open_format. rewrite Z.leb_le in *. unfold sized_string. split; [lia|].
    by match goal with H : @eq nat _ _ |- _ => rewrite H, Z2Nat.id by lia end.
  - intros [Hl ->]. unfold sized_string.
    apply (format_bind_intro _ _ (Z.of_nat (length t))); [split; [lia|done]|].
    apply format_check_intro; [apply Z.leb_le; lia|]. split; [done|lia].
Qed.
#[local] Hint Extern 1 (recognises (read_string _) _) => apply recognises_string; done : m5.
#[local] Opaque read_string read_u16 read_u32.

(** What the fields of a record of the snapshot can be. *)
Definition account_readable (a : AccountRecord) : Prop :=
  0 ≤ account_id a < 256 ^ 4 ∧ 0 ≤ account_order a < 65536 ∧
  (length (draft_issuer (account_draft a)) ≤ kMaxIssuerBytes)%nat ∧
  (length (draft_account (account_draft a)) ≤ kMaxAccountBytes)%nat ∧
  (length (draft_display_name (account_draft a)) ≤ kMaxDisplayNameBytes)%nat ∧
  (length (draft_secret (account_draft a)) ≤ kMaxSecretBytes)%nat.

Lemma recognises_account : recognises read_account (exactly account_readable account_bytes).
Proof.
  eapply recognises_ext; [|unfold read_account; recognise]. intros a e _. unfold account_readable. split.
  - intros H. open_format. unfold account_bytes. cbn. rewrite app_nil_r, <- ?app_assoc. split; [tauto|done].
  - destruct a as [id order [issuer account name secret]]. unfold account_bytes. cbn.
    intros [(? & ? & ? & ? & ? & ?) ->]. build_format.
Qed.
#[local] Hint Resolve recognises_account : m5.
#[local] Opaque read_account.

Lemma recognises_accounts count :
  recognises (read_accounts count)
    (exactly (λ rs, length rs = count ∧ Forall account_readable rs) (λ rs, mjoin (account_bytes <$> rs))).
Proof.
  induction count as [|count IH].
  - eapply recognises_ext; [|apply recognises_ret]. intros rs e _. split.
    + intros [-> ->]. done.
    + intros [[Hl _] ->]. by destruct rs.
  - eapply recognises_ext; [|cbn [read_accounts]; apply recognises_bind; [apply recognises_account|intro];
      apply recognises_bind; [apply IH|intro]; apply recognises_ret].
    intros rs e _. split.
    + intros H. open_format. rewrite app_nil_r. destruct_and!. split; [|done]. rewrite Forall_cons. cbn. auto.
    + intros [(Hl & Hf) ->]. destruct rs as [|r rs]; [done|]. apply Forall_cons in Hf as [? ?]. injection Hl as Hl.
      eapply (format_bind_intro _ _ r); [by split|]. eapply (format_bind_last _ _ rs); by split.
Qed.
#[local] Hint Resolve recognises_accounts : m5.
#[local] Opaque read_accounts.

Definition state_readable (s : AccountsState) : Prop :=
  0 ≤ next_id s < 256 ^ 4 ∧ 0 ≤ last_used_id s < 256 ^ 4 ∧ (length (accounts s) ≤ kMaxAccounts)%nat ∧
  (length (wifi_ssid s) ≤ kMaxSsidBytes)%nat ∧ (length (wifi_password s) ≤ kMaxWifiPasswordBytes)%nat ∧
  Forall account_readable (accounts s).

Lemma recognises_state : recognises read_state (exactly state_readable state_bytes).
Proof.
  eapply recognises_ext; [|unfold read_state; recognise]. intros s e _. unfold state_readable. split.
  - intros H. open_format. rewrite ?Z.eqb_eq, ?Z.leb_le, ?bool_decide_eq_true in *. subst. unfold exactly, state_bytes.
    cbn [next_id last_used_id wifi_ssid wifi_password accounts].
    rewrite app_nil_r, <- ?app_assoc. destruct_and!. split; [split_and!; done || lia|].
    by match goal with H : @eq nat _ (Z.to_nat _) |- _ => rewrite H, Z2Nat.id by lia end.
  - destruct s as [next last ssid password rs]. unfold exactly, state_bytes. cbn [next_id last_used_id wifi_ssid wifi_password accounts].
    intros [(? & ? & Hn & ? & ? & ?) ->]. pose proof Hn as Hn'. unfold kMaxAccounts in Hn'.
    build_format; [apply Z.leb_le; lia|].
    eapply (format_bind_last _ _ rs); [|by split]. by rewrite Nat2Z.id.
Qed.

(** ** Snapshots *)

Lemma state_bytes_ok s : state_typed s → bytes_ok (state_bytes s).
Proof.
  assert (Hs : ∀ t, bytes_ok t → bytes_ok (sized_string t)).
  { intros t Ht. apply Forall_app. auto using le_bytes_ok. }
  intros (_ & _ & ? & ? & Ha). unfold state_bytes. rewrite !Forall_app.
  split_and!; auto using le_bytes_ok; [by eapply bool_decide_unpack; vm_compute|].
  apply Forall_join, Forall_fmap. eapply Forall_impl; [exact Ha|]. intros a (_ & _ & ? & ? & ? & ?). cbn.
  unfold account_bytes. rewrite !Forall_app. auto 10 using le_bytes_ok.
Qed.

Lemma readable_typed s : state_readable s → bytes_ok (state_bytes s) → state_typed s.
Proof.
  intros (Hn & Hl & _ & _ & _ & Hr) Hok. unfold state_bytes, sized_string in Hok. rewrite !Forall_app in Hok.
  destruct Hok as (_ & _ & _ & _ & _ & _ & (_ & ?) & (_ & ?) & Ha). unfold state_typed, is_u32, u32_max.
  split_and!; try done; try lia. clear - Hr Ha. induction Hr as [|a rs (Hi & Ho & _) _ IH]; [constructor|].
  change (mjoin (account_bytes <$> a :: rs)) with (account_bytes a ++ mjoin (account_bytes <$> rs)) in Ha.
  apply Forall_app in Ha as [Ha ?]. constructor; [|auto]. unfold account_bytes, sized_string in Ha. rewrite !Forall_app in Ha.
  unfold account_typed, draft_typed, is_u32, is_u16, u32_max, u16_max. split_and!; try lia; tauto.
Qed.

Lemma typed_readable s : state_typed s → state_wf s → state_readable s.
Proof.
  intros (Hn & Hl & _ & _ & Ht) [Hc Hs Hp Hd _ _ _ _ _]. unfold is_u32, u32_max in *.
  split_and!; try done; try lia. apply Forall_forall. intros a Ha. rewrite Forall_forall in Ht, Hd.
  destruct (Ht a Ha) as (Hi & Ho & _). destruct (Hd a Ha) as (? & ? & ? & ?). unfold is_u32, is_u16, u32_max, u16_max in *.
  split_and!; lia.
Qed.

(** A byte string is read as a state exactly when it is the snapshot of that
    well-formed state: nothing else is accepted, and nothing is lost. *)
Theorem snapshot_exact data s : bytes_ok data →
  decode_state data = (StoreStatus.kOk, Some s) ↔
  state_typed s ∧ state_wf s ∧ data = state_bytes s.
Proof.
  intros Hok. unfold decode_state. set (parsed := run_parser _ data).
  assert (Hp : ∀ x, parsed = Some x ↔ state_readable x ∧ data = state_bytes x).
  { intros x. apply (run_parser_spec _ _ recognises_state). done. }
  split.
  - destruct (_ || _); [done|]. destruct parsed as [x|]; [|done]. destruct (StoreStatus.is_ok _) eqn:Ev; [|done].
    intros [= ->]. destruct (proj1 (Hp s) eq_refl) as [Hr ->]. apply readable_typed in Hr as Ht; [|done].
    apply StoreStatus.ok_true, validate_state_exact in Ev; done.
  - intros (Ht & Hw & ->). rewrite (proj2 (Hp s)) by (split; [by apply typed_readable|done]).
    pose proof (state_bytes_length s Hw) as Hl. apply validate_state_exact in Hw; [|done].
    rewrite Hw, Z.gtb_ltb, (proj2 (Z.ltb_ge _ _)) by done. done.
Qed.

(** Every failure is the same one. *)
Lemma decode_state_corrupt data status : status ≠ StoreStatus.kOk →
  (∃ out, decode_state data = (status, out)) → status = StoreStatus.kCorrupt.
Proof. intros Hn [out E]. unfold decode_state in E. repeat case_match; congruence. Qed.
