(* ===== verification/AccountStore.v ===== *)
(** * The account store of the first generation

    [m5auth_storage/storage.cpp]: [Store], which keeps the state of [AccountState]
    as one snapshot in an encrypted NVS partition, over the interface
    [SecurityBackend], and [DevSecurityBackend], which implements it with public
    keys and checks that the partition is encrypted.  A consumer passed to a
    member function acts on a state of its own, threaded next to the store; a
    null one is [None].  Wiping local copies has no counterpart. *)

From S2P Require Import Prelude Bytes Nvs Runtime ByteReader AccountState.

Definition kPartitionLabel : string := "auth_nvs".
Definition kStateNamespace : string := "state".
Definition kSchemaKey : string := "schema".
Definition kSnapshotKey : string := "snapshot".
Definition kProbeNamespace : string := "dev_probe".
Definition kProbeKey : string := "probe".
Definition kProbeValue : bytes := str "M5AUTH-DEV-ENC-PROBE-V1-SAFE".
(** [core::kStorageSchemaVersion] *)
Definition kStorageSchemaVersion : Z := 2.
Definition kDevEncryptionKey : bytes := seqZ 0 32.
Definition kDevTweakKey : bytes := seqZ 0xa0 32.

Definition map_esp_error (error : esp_err_t) : StoreStatus.t :=
  match error with
  | ESP_OK => StoreStatus.kOk
  | ESP_ERR_NVS_NOT_FOUND | ESP_ERR_NOT_FOUND => StoreStatus.kNotFound
  | ESP_ERR_INVALID_ARG => StoreStatus.kInvalidArgument
  | ESP_ERR_NVS_NO_FREE_PAGES => StoreStatus.kFull
  | ESP_ERR_NVS_NEW_VERSION_FOUND => StoreStatus.kUnsupportedSchema
  | ESP_ERR_OTHER _ => StoreStatus.kIo
  end.
Definition esp_ok (error : esp_err_t) : bool := bool_decide (error = ESP_OK).
Definition failed (status : StoreStatus.t) : bool := negb (StoreStatus.is_ok status).

Definition store_status_code (status : StoreStatus.t) : string :=
  match status with
  | StoreStatus.kOk => "ok"
  | StoreStatus.kNotReady => "storage_not_ready"
  | StoreStatus.kNotFound => "not_found"
  | StoreStatus.kInvalidArgument => "invalid_argument"
  | StoreStatus.kFull => "storage_full"
  | StoreStatus.kUnsupportedSchema => "unsupported_schema"
  | StoreStatus.kCorrupt => "storage_corrupt"
  | StoreStatus.kIo => "storage_io"
  | StoreStatus.kSecurityInvariant => "security_invariant"
  end.

(** ** The snapshot in NVS *)

Section Flash.
Context {N : Type} `{Nvs N}.
Abbreviation nvs_op A := (N → A * N).

Definition open_state (mode : nvs_open_mode_t) : nvs_op (StoreStatus.t * Z) := λ n,
  let '((e, handle), n) := nvs_open_from_partition kPartitionLabel kStateNamespace mode n in
  ((map_esp_error e, handle), n).

(** The status and [*schema]. *)
Definition read_schema : nvs_op (StoreStatus.t * Z) := fn (
  x ← call (open_state NVS_READONLY);
  let '(open_status, handle) := x in
  leave_if (failed open_status) (open_status, 0);;
  x ← call (nvs_get_u32 handle kSchemaKey);
  let '(result, schema) := x in
  call (nvs_close handle);;
  mret (map_esp_error result, schema)).

(** [if (result == ESP_OK) result = f(...);] *)
Definition and_then (result : esp_err_t) (f : nvs_op esp_err_t) : nvs_op esp_err_t := λ n,
  if esp_ok result then f n else (result, n).

Definition save_state_unchecked (state : AccountsState) : nvs_op StoreStatus.t := fn (
  let '(status, encoded) := encode_state state in
  leave_if (failed status) status;;
  x ← call (open_state NVS_READWRITE);
  let '(status, handle) := x in
  leave_if (failed status) status;;
  result ← call (nvs_set_blob handle kSnapshotKey encoded);
  result ← call (and_then result (nvs_commit handle));
  call (nvs_close handle);;
  mret (map_esp_error result)).

Definition initialize_fresh_state : nvs_op StoreStatus.t := fn (
  let '(status, encoded) := encode_state new_accounts in
  leave_if (failed status) status;;
  x ← call (open_state NVS_READWRITE);
  let '(status, handle) := x in
  leave_if (failed status) status;;
  result ← call (nvs_set_blob handle kSnapshotKey encoded);
  result ← call (and_then result (nvs_set_u32 handle kSchemaKey kStorageSchemaVersion));
  result ← call (and_then result (nvs_commit handle));
  call (nvs_close handle);;
  mret (map_esp_error result)).

(** The status and, on success, the state. *)
Definition load_state_unchecked : nvs_op (StoreStatus.t * option AccountsState) := fn (
  x ← call (open_state NVS_READONLY);
  let '(status, handle) := x in
  leave_if (failed status) (status, None);;
  x ← call (nvs_get_blob_size handle kSnapshotKey);
  let '(result, size) := x in
  if negb (esp_ok result) || (size =? 0) || (size >? 64 * 1024) then
    call (nvs_close handle);;
    leave (if esp_ok result then StoreStatus.kCorrupt else map_esp_error result, None)
  else
    x ← call (nvs_get_blob handle kSnapshotKey);
    let '(result, encoded) := x in
    call (nvs_close handle);;
    leave_if (negb (esp_ok result)) (map_esp_error result, None);;
    mret (decode_state encoded)).
End Flash.

(** ** The security backend *)

(** The interface. *)
Class SecurityBackend (N : Type) := {
  initialize_partition : N → StoreStatus.t * N;
  verify_encryption_active : N → StoreStatus.t * N;
  erase_user_partition : N → StoreStatus.t * N;
  profile : string;
  production_release_allowed : bool;
}.

(** The functions of ESP-IDF the development backend uses beside those of [Nvs]:
    the initialisation with the keys of its configuration, and the raw flash of a
    partition, found by its label, of which the size is kept. *)
Class EspPartition (N : Type) := {
  nvs_flash_secure_init_with : string → bytes → bytes → N → esp_err_t * N;
  esp_partition_find_first : string → N → option nat * N;
  esp_partition_read : string → nat → nat → N → (esp_err_t * bytes) * N;
}.

Definition kChunkSize : nat := 256.
Definition probe_carry : nat := length kProbeValue - 1.

Section Dev.
Context {N : Type} `{Nvs N} `{EspPartition N}.

Definition dev_initialize_partition : N → StoreStatus.t * N := fn (
  result ← call (nvs_flash_secure_init_with kPartitionLabel kDevEncryptionKey kDevTweakKey);
  mret (map_esp_error result)).

(** The loop of [contains_plain_probe] from [offset] on: the first [carry] bytes
    of [buffer] are the last of what was read before.  [fuel] counts the
    chunks. *)
Fixpoint scan_partition (fuel size offset carry : nat) (buffer : bytes) : N → (bool * StoreStatus.t) * N := fn (
  match fuel with
  | O => mret (false, StoreStatus.kOk)
  | S fuel =>
    if negb (Nat.ltb offset size) then mret (false, StoreStatus.kOk)
    else
      let chunk := Nat.min kChunkSize (size - offset) in
      x ← call (esp_partition_read kPartitionLabel offset chunk);
      let '(result, data) := x in
      leave_if (negb (esp_ok result)) (false, map_esp_error result);;
      let available := (carry + chunk)%nat in
      let buffer := take carry buffer ++ data ++ drop available buffer in
      leave_if (contains kProbeValue (take available buffer)) (true, StoreStatus.kSecurityInvariant);;
      let carry := Nat.min probe_carry available in
      let buffer := take carry (drop (available - carry) buffer) ++ drop carry buffer in
      call (scan_partition fuel size (offset + chunk) carry buffer)
  end).

(** Whether the probe is in the partition in the clear, and the status. *)
Definition contains_plain_probe (size : nat) : N → (bool * StoreStatus.t) * N :=
  scan_partition (S (size / kChunkSize)) size 0 0 (zeros (kChunkSize + probe_carry)).

(** The probe erased; a missing one is no error. *)
Definition dev_erase_probe : N → esp_err_t * N := fn (
  x ← call (nvs_open_from_partition kPartitionLabel kProbeNamespace NVS_READWRITE);
  let '(result, handle) := x in
  if esp_ok result then
    result ← call (nvs_erase_key handle kProbeKey);
    let result := if bool_decide (result = ESP_ERR_NVS_NOT_FOUND) then ESP_OK else result in
    result ← call (and_then result (nvs_commit handle));
    call (nvs_close handle);;
    mret result
  else mret result).

Definition dev_verify_encryption_active : N → StoreStatus.t * N := fn (
  x ← call (nvs_open_from_partition kPartitionLabel kProbeNamespace NVS_READWRITE);
  let '(result, handle) := x in
  leave_if (negb (esp_ok result)) (map_esp_error result);;
  result ← call (nvs_set_blob handle kProbeKey kProbeValue);
  result ← call (and_then result (nvs_commit handle));
  call (nvs_close handle);;
  leave_if (negb (esp_ok result)) (map_esp_error result);;
  partition ← call (esp_partition_find_first kPartitionLabel);
  match partition with
  | None => leave StoreStatus.kNotFound
  | Some size =>
    x ← call (contains_plain_probe size);
    let '(plaintext_found, scan_status) := x in
    result ← call dev_erase_probe;
    leave_if (plaintext_found || failed scan_status) scan_status;;
    mret (map_esp_error result)
  end).

Definition dev_erase_user_partition : N → StoreStatus.t * N := fn (
  result ← call (nvs_flash_erase_partition kPartitionLabel);
  mret (map_esp_error result)).

#[export] Instance DevSecurityBackend : SecurityBackend N := {|
  initialize_partition := dev_initialize_partition;
  verify_encryption_active := dev_verify_encryption_active;
  erase_user_partition := dev_erase_user_partition;
  profile := "development";
  production_release_allowed := false;
|}.
End Dev.

(** ** The store *)

Record AccountMetadata := mkAccountMetadata {
  meta_id : Z;
  meta_order : Z;
  meta_issuer : bytes;
  meta_account : bytes;
  meta_display_name : bytes;
}.
Record WifiStatus := mkWifiStatus { configured : bool; ssid : bytes }.

Record AccountStore {N : Type} := mkAccountStore { flash_ : N; initialization_status_ : StoreStatus.t }.
Arguments AccountStore : clear implicits.
#[export] Instance eta_account_store {N} : Eta (AccountStore N) := λ s,
  mkAccountStore N (flash_ s) (initialization_status_ s).
Definition new_account_store {N} (flash : N) : AccountStore N := mkAccountStore N flash StoreStatus.kNotReady.

Definition require_ready (initialization_status : StoreStatus.t) : StoreStatus.t :=
  if StoreStatus.is_ok initialization_status then StoreStatus.kOk else initialization_status.
Definition validate_display_name (display_name : bytes) : StoreStatus.t :=
  if Nat.leb (length display_name) kMaxDisplayNameBytes then StoreStatus.kOk else StoreStatus.kInvalidArgument.

Definition account_metadata (account : AccountRecord) : AccountMetadata :=
  let d := account_draft account in
  mkAccountMetadata (account_id account) (account_order account) (draft_issuer d) (draft_account d) (draft_display_name d).

(** [std::find_if] by the identifier: the position and the account. *)
Definition find_account (id : Z) (state : AccountsState) : option (nat * AccountRecord) :=
  list_find (λ account, account_id account = id) (accounts state).
Definition set_account (index : nat) (account : AccountRecord) (state : AccountsState) : AccountsState :=
  state <| accounts := <[index := account]> (accounts state) |>.
Definition rename_draft (draft : AccountDraft) (display_name : bytes) : AccountDraft :=
  mkDraft (draft_issuer draft) (draft_account draft) display_name (draft_secret draft).

(** The loop of [replace_accounts] from [index] on; [None] is the return of
    [kFull]. *)
Fixpoint push_accounts (index : nat) (drafts : list AccountDraft) (state : AccountsState) : option AccountsState :=
  match drafts with
  | [] => Some state
  | source :: drafts =>
    if (next_id state =? 0) || (next_id state =? u32_max) then None
    else
      push_accounts (S index) drafts
        (state <| accounts := accounts state ++ [mkAccount (next_id state) (Z.land (Z.of_nat index) 0xffff) source] |>
               <| next_id := (next_id state + 1) mod 2 ^ 32 |>)
  end.

(** The orders made the positions. *)
Definition renumber (records : list AccountRecord) : list AccountRecord :=
  imap (λ index account, account <| account_order := Z.land (Z.of_nat index) 0xffff |>) records.

(** The loop of [reorder_accounts] from [order] on; [None] is the return of
    [kInvalidArgument]. *)
Fixpoint assign_orders (order : nat) (ids : list Z) (seen : list bool) (state : AccountsState) : option AccountsState :=
  match ids with
  | [] => Some state
  | id :: ids =>
    match find_account id state with
    | None => None
    | Some (index, found) =>
      if nth index seen false then None
      else assign_orders (S order) ids (<[index := true]> seen)
             (set_account index (found <| account_order := Z.land (Z.of_nat order) 0xffff |>) state)
    end
  end.

(** The first draft that is not accepted. *)
Fixpoint validate_drafts (drafts : list AccountDraft) : StoreStatus.t :=
  match drafts with
  | [] => StoreStatus.kOk
  | account :: drafts =>
    let status := validate_account_draft account in
    if failed status then status else validate_drafts drafts
  end.

Section Store.
Context {N : Type} `{Nvs N} `{SecurityBackend N}.
Abbreviation St := (AccountStore N).
Definition store_op (A : Type) : Type := St → A * St.

Definition on_flash {A} (f : N → A * N) : store_op A := λ s,
  let '(a, n) := f (flash_ s) in (a, s <| flash_ := n |>).
Definition set_status (status : StoreStatus.t) (s : St) : St := s <| initialization_status_ := status |>.

(** The end of [initialize], once the schema is known. *)
Definition finish_initialize (schema : Z) : store_op StoreStatus.t := fn (
  if negb (schema =? kStorageSchemaVersion) then
    modify (set_status StoreStatus.kUnsupportedSchema);;
    leave StoreStatus.kUnsupportedSchema
  else
    status ← call (on_flash verify_encryption_active);
    modify (set_status status);;
    leave_if (failed status) status;;
    x ← call (on_flash load_state_unchecked);
    modify (set_status (fst x));;
    mret (fst x)).

Definition initialize : store_op StoreStatus.t := fn (
  status ← call (on_flash initialize_partition);
  modify (set_status status);;
  leave_if (failed status) status;;
  x ← call (on_flash read_schema);
  let '(schema_status, schema) := x in
  x ← (if bool_decide (schema_status = StoreStatus.kNotFound) then
         status ← call (on_flash initialize_fresh_state);
         modify (set_status status);;
         mret (status, kStorageSchemaVersion)
       else
         modify (λ s, if failed schema_status then set_status schema_status s else s);;
         mret (schema_status, schema));
  let '(status, schema) := x in
  leave_if (failed status) status;;
  call (finish_initialize schema)).

Definition ready (s : St) : bool := StoreStatus.is_ok (initialization_status_ s).
Definition initialization_status (s : St) : StoreStatus.t := initialization_status_ s.

Definition list_accounts : store_op (StoreStatus.t * list AccountMetadata) := fn (
  s ← get_state;
  let ready_status := require_ready (initialization_status_ s) in
  leave_if (failed ready_status) (ready_status, []);;
  x ← call (on_flash load_state_unchecked);
  let '(status, loaded) := x in
  leave_if (failed status) (status, []);;
  let state := default new_accounts loaded in
  mret (StoreStatus.kOk, stable_sort_by meta_order (account_metadata <$> accounts state))).

Definition replace_accounts (drafts : list AccountDraft) : store_op StoreStatus.t := fn (
  s ← get_state;
  let ready_status := require_ready (initialization_status_ s) in
  leave_if (failed ready_status) ready_status;;
  leave_if (Nat.ltb kMaxAccounts (length drafts)) StoreStatus.kFull;;
  let status := validate_drafts drafts in
  leave_if (failed status) status;;
  x ← call (on_flash load_state_unchecked);
  let '(status, loaded) := x in
  leave_if (failed status) status;;
  let state := default new_accounts loaded in
  match push_accounts 0 drafts (state <| accounts := [] |> <| last_used_id := 0 |>) with
  | None => leave StoreStatus.kFull
  | Some state => call (on_flash (save_state_unchecked state))
  end).

(** The status and [*new_id]. *)
Definition add_account (account : AccountDraft) : store_op (StoreStatus.t * option Z) := fn (
  s ← get_state;
  let ready_status := require_ready (initialization_status_ s) in
  leave_if (failed ready_status) (ready_status, None);;
  let status := validate_account_draft account in
  leave_if (failed status) (status, None);;
  x ← call (on_flash load_state_unchecked);
  let '(status, loaded) := x in
  leave_if (failed status) (status, None);;
  let state := default new_accounts loaded in
  leave_if (Nat.leb kMaxAccounts (length (accounts state)) || (next_id state =? 0) || (next_id state =? u32_max))
    (StoreStatus.kFull, None);;
  let id := next_id state in
  let order := Z.land (Z.of_nat (length (accounts state))) 0xffff in
  let state := state <| next_id := (id + 1) mod 2 ^ 32 |>
                     <| accounts := accounts state ++ [mkAccount id order account] |> in
  status ← call (on_flash (save_state_unchecked state));
  mret (status, if StoreStatus.is_ok status then Some id else None)).

Definition update_account (id : Z) (account : AccountDraft) : store_op StoreStatus.t := fn (
  s ← get_state;
  let ready_status := require_ready (initialization_status_ s) in
  leave_if (failed ready_status) ready_status;;
  leave_if (id =? 0) StoreStatus.kInvalidArgument;;
  let status := validate_account_draft account in
  leave_if (failed status) status;;
  x ← call (on_flash load_state_unchecked);
  let '(status, loaded) := x in
  leave_if (failed status) status;;
  let state := default new_accounts loaded in
  match find_account id state with
  | None => leave StoreStatus.kNotFound
  | Some (index, found) =>
    call (on_flash (save_state_unchecked (set_account index (found <| account_draft := account |>) state)))
  end).

Definition rename_account (id : Z) (display_name : bytes) : store_op StoreStatus.t := fn (
  s ← get_state;
  let ready_status := require_ready (initialization_status_ s) in
  leave_if (failed ready_status) ready_status;;
  leave_if ((id =? 0) || failed (validate_display_name display_name)) StoreStatus.kInvalidArgument;;
  x ← call (on_flash load_state_unchecked);
  let '(status, loaded) := x in
  leave_if (failed status) status;;
  let state := default new_accounts loaded in
  match find_account id state with
  | None => leave StoreStatus.kNotFound
  | Some (index, found) =>
    call (on_flash (save_state_unchecked
      (set_account index (found <| account_draft := rename_draft (account_draft found) display_name |>) state)))
  end).

Definition delete_account (id : Z) : store_op StoreStatus.t := fn (
  s ← get_state;
  let ready_status := require_ready (initialization_status_ s) in
  leave_if (failed ready_status) ready_status;;
  leave_if (id =? 0) StoreStatus.kInvalidArgument;;
  x ← call (on_flash load_state_unchecked);
  let '(status, loaded) := x in
  leave_if (failed status) status;;
  let state := default new_accounts loaded in
  match find_account id state with
  | None => leave StoreStatus.kNotFound
  | Some (index, _) =>
    let state := state <| accounts := renumber (stable_sort_by account_order (delete index (accounts state))) |> in
    let state := if last_used_id state =? id then state <| last_used_id := 0 |> else state in
    call (on_flash (save_state_unchecked state))
  end).

Definition reorder_accounts (ids : list Z) : store_op StoreStatus.t := fn (
  s ← get_state;
  let ready_status := require_ready (initialization_status_ s) in
  leave_if (failed ready_status) ready_status;;
  x ← call (on_flash load_state_unchecked);
  let '(status, loaded) := x in
  leave_if (failed status) status;;
  let state := default new_accounts loaded in
  leave_if (negb (Nat.eqb (length ids) (length (accounts state)))) StoreStatus.kInvalidArgument;;
  match assign_orders 0 ids (replicate (length (accounts state)) false) state with
  | None => leave StoreStatus.kInvalidArgument
  | Some state => call (on_flash (save_state_unchecked state))
  end).

(** The status and, on success, [*id]. *)
Definition get_last_used : store_op (StoreStatus.t * option Z) := fn (
  s ← get_state;
  let ready_status := require_ready (initialization_status_ s) in
  leave_if (failed ready_status) (ready_status, None);;
  x ← call (on_flash load_state_unchecked);
  let '(status, loaded) := x in
  mret (status, if StoreStatus.is_ok status then Some (last_used_id (default new_accounts loaded)) else None)).

Definition set_last_used (id : Z) : store_op StoreStatus.t := fn (
  s ← get_state;
  let ready_status := require_ready (initialization_status_ s) in
  leave_if (failed ready_status) ready_status;;
  leave_if (id =? 0) StoreStatus.kInvalidArgument;;
  x ← call (on_flash load_state_unchecked);
  let '(status, loaded) := x in
  leave_if (failed status) status;;
  let state := default new_accounts loaded in
  leave_if (negb (existsb (λ account, account_id account =? id) (accounts state))) StoreStatus.kNotFound;;
  call (on_flash (save_state_unchecked (state <| last_used_id := id |>)))).

Definition wifi_status : store_op (StoreStatus.t * option WifiStatus) := fn (
  s ← get_state;
  let ready_status := require_ready (initialization_status_ s) in
  leave_if (failed ready_status) (ready_status, None);;
  x ← call (on_flash load_state_unchecked);
  let '(status, loaded) := x in
  let state := default new_accounts loaded in
  mret (status,
    if StoreStatus.is_ok status then
      Some (mkWifiStatus (negb (Nat.eqb (length (wifi_ssid state)) 0)
                          && negb (Nat.eqb (length (wifi_password state)) 0)) (wifi_ssid state))
    else None)).

Definition set_wifi (ssid password : bytes) : store_op StoreStatus.t := fn (
  s ← get_state;
  let ready_status := require_ready (initialization_status_ s) in
  leave_if (failed ready_status) ready_status;;
  leave_if (Nat.eqb (length ssid) 0 || Nat.ltb kMaxSsidBytes (length ssid) || Nat.eqb (length password) 0
            || Nat.ltb kMaxWifiPasswordBytes (length password)) StoreStatus.kInvalidArgument;;
  x ← call (on_flash load_state_unchecked);
  let '(status, loaded) := x in
  leave_if (failed status) status;;
  let state := default new_accounts loaded in
  call (on_flash (save_state_unchecked (state <| wifi_ssid := ssid |> <| wifi_password := password |>)))).

Definition clear_wifi : store_op StoreStatus.t := fn (
  s ← get_state;
  let ready_status := require_ready (initialization_status_ s) in
  leave_if (failed ready_status) ready_status;;
  x ← call (on_flash load_state_unchecked);
  let '(status, loaded) := x in
  leave_if (failed status) status;;
  let state := default new_accounts loaded in
  call (on_flash (save_state_unchecked (state <| wifi_ssid := [] |> <| wifi_password := [] |>)))).

Section Consumers.
Context {C : Type}.
Definition on_store {A} (f : store_op A) (s : St * C) : A * (St * C) :=
  let '(a, store) := f (fst s) in (a, (store, snd s)).
Definition on_consumer {A} (f : C → A * C) (s : St * C) : A * (St * C) :=
  let '(a, c) := f (snd s) in (a, (fst s, c)).

Definition with_account_secret (id : Z) (consumer : option (bytes → C → StoreStatus.t * C))
    : St * C → StoreStatus.t * (St * C) := fn (
  s ← get_state;
  let ready_status := require_ready (initialization_status_ (fst s)) in
  leave_if (failed ready_status) ready_status;;
  leave_if (id =? 0) StoreStatus.kInvalidArgument;;
  match consumer with
  | None => leave StoreStatus.kInvalidArgument
  | Some consumer =>
    x ← call (on_store (on_flash load_state_unchecked));
    let '(status, loaded) := x in
    leave_if (failed status) status;;
    let state := default new_accounts loaded in
    match find_account id state with
    | None => leave StoreStatus.kNotFound
    | Some (_, found) => call (on_consumer (consumer (draft_secret (account_draft found))))
    end
  end).

Definition with_wifi_credentials (consumer : option (bytes → bytes → C → StoreStatus.t * C))
    : St * C → StoreStatus.t * (St * C) := fn (
  s ← get_state;
  let ready_status := require_ready (initialization_status_ (fst s)) in
  leave_if (failed ready_status) ready_status;;
  match consumer with
  | None => leave StoreStatus.kInvalidArgument
  | Some consumer =>
    x ← call (on_store (on_flash load_state_unchecked));
    let '(status, loaded) := x in
    leave_if (failed status) status;;
    let state := default new_accounts loaded in
    leave_if (Nat.eqb (length (wifi_ssid state)) 0 || Nat.eqb (length (wifi_password state)) 0)
      StoreStatus.kNotFound;;
    call (on_consumer (consumer (wifi_ssid state) (wifi_password state)))
  end).
End Consumers.

Definition account_store_reset : store_op StoreStatus.t := fn (
  erase_status ← call (on_flash erase_user_partition);
  if failed erase_status then
    modify (set_status erase_status);;
    leave erase_status
  else
    modify (set_status StoreStatus.kNotReady);;
    call initialize).
End Store.
