(* ===== verification/AccountBook.v ===== *)
(** * The account book

    What the account store keeps, without its representation: the accounts in
    the order they are shown, each with its identifier, the next identifier, the
    account used last and the Wi-Fi credentials.  [book_step] says what every
    request does to it; the rest of the file shows that the changes
    [AccountStore] makes to its state are these, and keep it well-formed. *)

From stdpp Require Import sorting.
From S2P Require Import Prelude Bytes Runtime RuntimeCorrect AccountState AccountStateCorrect AccountStore.

#[local] Arguments Z.of_nat : simpl never.

Record Book := mkBook {
  entries : list (Z * AccountDraft);
  book_next : Z;
  book_last : Z;
  book_wifi : bytes * bytes;
}.
#[export] Instance eta_book : Eta Book := λ b, mkBook (entries b) (book_next b) (book_last b) (book_wifi b).

Definition in_order (s : AccountsState) : list AccountRecord := stable_sort_by account_order (accounts s).
#[local] Arguments in_order : simpl never.
Definition entry (a : AccountRecord) : Z * AccountDraft := (account_id a, account_draft a).
Definition book_of (s : AccountsState) : Book :=
  mkBook (entry <$> in_order s) (next_id s) (last_used_id s) (wifi_ssid s, wifi_password s).

(** ** Requests *)

Inductive request :=
  | Replace (drafts : list AccountDraft)
  | Add (draft : AccountDraft)
  | Update (id : Z) (draft : AccountDraft)
  | Rename (id : Z) (display_name : bytes)
  | Delete (id : Z)
  | Reorder (new_order : list Z)
  | SetLastUsed (id : Z)
  | SetWifi (new_ssid new_password : bytes)
  | ClearWifi.

Definition lookup_entry (id : Z) (b : Book) : option (Z * AccountDraft) :=
  snd <$> list_find (λ e, fst e = id) (entries b).
#[local] Arguments lookup_entry : simpl never.
Definition change_entry (id : Z) (f : AccountDraft → AccountDraft) (b : Book) : Book :=
  b <| entries := (λ e, if decide (fst e = id) then (id, f (snd e)) else e) <$> entries b |>.
Definition has_account (id : Z) (b : Book) : bool := bool_decide (id ∈ (fst <$> entries b)).

#[export] Instance draft_wf_dec d : Decision (draft_wf d).
Proof. unfold draft_wf. apply _. Defined.

(** What a request does: an error, or the new book.  An identifier is never zero
    and the last of the 32-bit ones is never given. *)
Definition book_step (r : request) (b : Book) : StoreStatus.t + Book :=
  let known id k :=
    if id =? 0 then inl StoreStatus.kInvalidArgument
    else if has_account id b then inr k else inl StoreStatus.kNotFound in
  match r with
  | Replace drafts =>
    if Nat.ltb kMaxAccounts (length drafts) then inl StoreStatus.kFull
    else if negb (bool_decide (Forall draft_wf drafts)) then inl StoreStatus.kInvalidArgument
    else if u32_max <? book_next b + Z.of_nat (length drafts) then inl StoreStatus.kFull
    else inr (mkBook (zip (seqZ (book_next b) (Z.of_nat (length drafts))) drafts)
                (book_next b + Z.of_nat (length drafts)) 0 (book_wifi b))
  | Add draft =>
    if negb (bool_decide (draft_wf draft)) then inl StoreStatus.kInvalidArgument
    else if Nat.leb kMaxAccounts (length (entries b)) || (book_next b =? u32_max) then inl StoreStatus.kFull
    else inr (b <| entries := entries b ++ [(book_next b, draft)] |> <| book_next := book_next b + 1 |>)
  | Update id draft =>
    if negb (id =? 0) && negb (bool_decide (draft_wf draft)) then inl StoreStatus.kInvalidArgument
    else known id (change_entry id (λ _, draft) b)
  | Rename id name =>
    if Nat.ltb kMaxDisplayNameBytes (length name) then inl StoreStatus.kInvalidArgument
    else known id (change_entry id (λ d, rename_draft d name) b)
  | Delete id =>
    known id (b <| entries := filter (λ e, fst e ≠ id) (entries b) |>
                <| book_last := if book_last b =? id then 0 else book_last b |>)
  | Reorder ids =>
    if bool_decide (ids ≡ₚ (fst <$> entries b))
    then inr (b <| entries := omap (λ id, lookup_entry id b) ids |>)
    else inl StoreStatus.kInvalidArgument
  | SetLastUsed id => known id (b <| book_last := id |>)
  | SetWifi ssid password =>
    if Nat.eqb (length ssid) 0 || Nat.ltb kMaxSsidBytes (length ssid) || Nat.eqb (length password) 0
       || Nat.ltb kMaxWifiPasswordBytes (length password)
    then inl StoreStatus.kInvalidArgument
    else inr (b <| book_wifi := (ssid, password) |>)
  | ClearWifi => inr (b <| book_wifi := ([], []) |>)
  end.

(** ** The order of display *)

Lemma nodup_key {A B} (key : A → B) l x y :
  NoDup (key <$> l) → x ∈ l → y ∈ l → key x = key y → x = y.
Proof.
  intros Hn Hx Hy E. apply list_elem_of_lookup in Hx as [i Hi], Hy as [j Hj].
  assert (i = j); [|simplify_eq; congruence].
  eapply NoDup_lookup; [exact Hn|rewrite list_lookup_fmap, Hi; done|]. by rewrite list_lookup_fmap, Hj, E.
Qed.

Lemma sort_unique {A} (key : A → Z) l l' :
  l' ≡ₚ l → NoDup (key <$> l) → StronglySorted (λ a b, key a ≤ key b) l' → stable_sort_by key l = l'.
Proof.
  intros Hp Hn Hs. eapply (StronglySorted_unique_strong (λ a b, key a ≤ key b)); [|apply stable_sort_sorted|done|].
  - intros x y Hx Hy ? ?. rewrite stable_sort_perm in Hx. rewrite Hp in Hy.
    apply (nodup_key key l); [done..|lia].
  - by rewrite stable_sort_perm, Hp.
Qed.

Lemma sorted_by_key {A} (key : A → Z) l :
  StronglySorted Z.le (key <$> l) → StronglySorted (λ a b, key a ≤ key b) l.
Proof.
  induction l as [|x l IH]; [constructor|]. cbn. inversion 1; subst. constructor; [auto|].
  by apply (Forall_fmap key (Z.le (key x))).
Qed.
Lemma sorted_keys {A} (key : A → Z) l :
  StronglySorted (λ a b, key a ≤ key b) l → StronglySorted Z.le (key <$> l).
Proof. induction 1 as [|x l _ IH Hx]; constructor; [done|].
  by apply (Forall_fmap key (Z.le (key x))). Qed.
Lemma seqZ_sorted a k : StronglySorted Z.le (seqZ a k).
Proof.
  destruct (decide (0 ≤ k)) as [Hk|]; [|rewrite seqZ_nil by lia; constructor].
  revert a. pattern k. apply natlike_ind; [| |done]; clear k Hk.
  - intros a. constructor.
  - intros k Hk IH a. rewrite seqZ_cons by lia. rewrite Z.pred_succ. constructor; [apply IH|].
    apply Forall_forall. intros x Hx%elem_of_seqZ. lia.
Qed.

(** Identifiers are distinct, so searching finds the one account that has it. *)
Lemma find_account_nodup s id i a : NoDup (account_id <$> accounts s) →
  find_account id s = Some (i, a) ↔ accounts s !! i = Some a ∧ account_id a = id.
Proof.
  intros Hn. split; [by intros (? & ? & _)%list_find_Some|]. intros [Hi <-]. apply list_find_Some. split_and!; [done|done|].
  intros j b Hj Hlt E. enough (i = j) by lia. eapply NoDup_lookup; [exact Hn| |];
    rewrite list_lookup_fmap; [by rewrite Hi|by rewrite Hj, <- E].
Qed.

(** Changing the account found is changing it wherever its identifier is. *)
Lemma set_account_nodup s : NoDup (account_id <$> accounts s) → ∀ id i a a', find_account id s = Some (i, a) →
  accounts (set_account i a' s) = (λ x, if decide (account_id x = id) then a' else x) <$> accounts s.
Proof.
  intros Hn id i a a' Hf. pose proof (proj1 (find_account_nodup _ _ _ _ Hn) Hf) as [Hi Hid]. cbn. apply list_eq. intros j.
  rewrite list_lookup_fmap. destruct (decide (i = j)) as [<-|Hne].
  - rewrite list_lookup_insert_eq by (by eapply lookup_lt_Some). rewrite Hi. cbn. by rewrite decide_True.
  - rewrite list_lookup_insert_ne by done. destruct (accounts s !! j) as [b|] eqn:Ej; [|done]. cbn.
    rewrite decide_False; [done|]. intros E. apply Hne.
    assert (Hb : find_account id s = Some (j, b)) by by apply find_account_nodup. congruence.
Qed.

Section Order.
Context (s : AccountsState) (Hs : state_wf s).

Lemma in_order_perm : in_order s ≡ₚ accounts s.
Proof. apply stable_sort_perm. Qed.
Lemma in_order_length : length (in_order s) = length (accounts s).
Proof. by rewrite in_order_perm. Qed.
Lemma orders_distinct : NoDup (account_order <$> accounts s).
Proof. rewrite (wf_orders _ Hs). apply NoDup_seqZ. Qed.
Lemma in_order_orders : account_order <$> in_order s = seqZ 0 (Z.of_nat (length (accounts s))).
Proof.
  apply (StronglySorted_unique Z.le); [apply sorted_keys, stable_sort_sorted|apply seqZ_sorted|].
  by rewrite in_order_perm, (wf_orders _ Hs).
Qed.

Lemma in_order_is l : l ≡ₚ accounts s → account_order <$> l = seqZ 0 (Z.of_nat (length (accounts s))) → in_order s = l.
Proof.
  intros Hp Ho. apply sort_unique; [done|apply orders_distinct|]. apply sorted_by_key. rewrite Ho. apply seqZ_sorted.
Qed.

Lemma entries_ids : (fst <$> entries (book_of s)) = (account_id <$> in_order s).
Proof. cbn. by rewrite <- list_fmap_compose. Qed.
Lemma entries_ids_perm : (fst <$> entries (book_of s)) ≡ₚ (account_id <$> accounts s).
Proof. by rewrite entries_ids, in_order_perm. Qed.
Lemma entries_length : length (entries (book_of s)) = length (accounts s).
Proof. cbn. by rewrite length_fmap, in_order_length. Qed.

Lemma has_account_spec id : has_account id (book_of s) = bool_decide (id ∈ (account_id <$> accounts s)).
Proof. unfold has_account. apply bool_decide_ext. by rewrite entries_ids_perm. Qed.

Lemma find_account_some id i a : find_account id s = Some (i, a) → accounts s !! i = Some a ∧ account_id a = id.
Proof. intros (? & ? & _)%list_find_Some. done. Qed.
Lemma find_account_none id : find_account id s = None ↔ id ∉ (account_id <$> accounts s).
Proof.
  unfold find_account. rewrite list_find_None, Forall_forall. setoid_rewrite list_elem_of_fmap. naive_solver.
Qed.
Lemma find_account_iff id i a : find_account id s = Some (i, a) ↔ accounts s !! i = Some a ∧ account_id a = id.
Proof. apply find_account_nodup, (wf_ids _ Hs). Qed.

Lemma set_account_fmap id i a a' : find_account id s = Some (i, a) →
  accounts (set_account i a' s) = (λ x, if decide (account_id x = id) then a' else x) <$> accounts s.
Proof. apply set_account_nodup, (wf_ids _ Hs). Qed.
End Order.

(** ** The changes *)

(** The book was changed to [b], and the state is well-formed. *)
Definition becomes (s : AccountsState) (b : Book) : Prop := state_typed s ∧ state_wf s ∧ book_of s = b.

Lemma becomes_new : becomes new_accounts (mkBook [] 1 0 ([], [])).
Proof.
  split_and!; [by repeat constructor; cbn; unfold u32_max; lia| |done].
  by constructor; cbn; try constructor; try lia; left.
Qed.

Lemma becomes_wifi s ssid password : state_typed s → state_wf s → bytes_ok ssid → bytes_ok password →
  (length ssid ≤ kMaxSsidBytes)%nat → (length password ≤ kMaxWifiPasswordBytes)%nat →
  becomes (s <| wifi_ssid := ssid |> <| wifi_password := password |>) (book_of s <| book_wifi := (ssid, password) |>).
Proof. intros (? & ? & _ & _ & ?) [] ? ? ? ?. by split_and!. Qed.

Lemma becomes_last s id : state_typed s → state_wf s → id ∈ (account_id <$> accounts s) →
  becomes (s <| last_used_id := id |>) (book_of s <| book_last := id |>).
Proof.
  intros (? & ? & ? & ? & Ht) [] Hid. split_and!; [|constructor; try done; by right|done].
  assert (is_u32 id); [|by split_and!]. apply list_elem_of_fmap in Hid as (a & -> & Ha). rewrite Forall_forall in Ht.
  by destruct (Ht a Ha).
Qed.

Lemma becomes_add s d : state_typed s → state_wf s → draft_typed d → draft_wf d →
  (length (accounts s) < kMaxAccounts)%nat → next_id s ≠ u32_max →
  let a := mkAccount (next_id s) (Z.of_nat (length (accounts s))) d in
  becomes (s <| next_id := next_id s + 1 |> <| accounts := accounts s ++ [a] |>)
    (book_of s <| entries := entries (book_of s) ++ [(next_id s, d)] |> <| book_next := next_id s + 1 |>).
Proof.
  intros (Hn & Hl & ? & ? & Ht) Hw Hdt Hd Hlt Hne a. set (s' := s <| next_id := _ |> <| accounts := _ |>).
  unfold is_u32, u32_max, kMaxAccounts in *.
  assert (Hw' : state_wf s').
  { destruct Hw as [Hc ? ? Hdr Hi Hr ? Ho Hla]. constructor; cbn; try done.
    - rewrite length_app. unfold kMaxAccounts. cbn. lia.
    - by apply Forall_app_2, Forall_singleton.
    - rewrite fmap_app. apply NoDup_app. split_and!; [done| |apply NoDup_singleton].
      intros x Hx ->%list_elem_of_singleton. apply list_elem_of_fmap in Hx as (b & E & Hb). rewrite Forall_forall in Hr.
      specialize (Hr b Hb). cbn in E. lia.
    - apply Forall_app_2, Forall_singleton; [|cbn; lia]. eapply Forall_impl; [exact Hr|]. cbn. lia.
    - lia.
    - rewrite fmap_app, Ho, length_app, Nat2Z.inj_add, seqZ_app by lia. done.
    - rewrite fmap_app. destruct Hla; [by left|]. right. apply elem_of_app. by left. }
  split_and!; [|done|].
  - split_and!; cbn; unfold is_u32, u32_max; try done; try lia. apply Forall_app_2; [done|]. apply Forall_singleton.
    split_and!; unfold is_u32, is_u16, u32_max, u16_max; cbn; try done; lia.
  - unfold book_of. rewrite (in_order_is _ Hw' (in_order s ++ [a])).
    + by rewrite fmap_app.
    + cbn. by rewrite in_order_perm.
    + rewrite fmap_app, in_order_orders by done. cbn. rewrite length_app, Nat2Z.inj_add, seqZ_app by lia. done.
Qed.

(** An account's draft replaced. *)
Lemma becomes_change s id i a d f : state_typed s → state_wf s → find_account id s = Some (i, a) →
  draft_typed d → draft_wf d → f (account_draft a) = d →
  becomes (set_account i (a <| account_draft := d |>) s) (change_entry id f (book_of s)).
Proof.
  intros (Hn & Hl & ? & ? & Ht) Hw Hf Hdt Hd Hfd. set (a' := a <| account_draft := d |>).
  pose proof (set_account_fmap _ Hw _ _ _ a' Hf) as Hacc. set (s' := set_account i a' s) in *.
  pose proof (find_account_some _ _ _ _ Hf) as [Hi Hid]. apply list_elem_of_lookup_2 in Hi as Ha.
  set (g := λ x, if decide (account_id x = id) then a' else x) in *.
  assert (Heq : ∀ x, x ∈ accounts s → account_id x = id → x = a).
  { intros x Hx Ex. apply (nodup_key account_id (accounts s)); [apply Hw|done|done|congruence]. }
  assert (Hg : ∀ B (p : AccountRecord → B), p a' = p a → p <$> accounts s' = p <$> accounts s).
  { intros B p Hp. rewrite Hacc, <- list_fmap_compose. apply list_fmap_ext. intros j x Hj%list_elem_of_lookup_2. cbn.
    unfold g. case_decide; [|done]. by rewrite (Heq x). }
  assert (Hall : ∀ P : AccountRecord → Prop, P a' → Forall P (accounts s) → Forall P (accounts s')).
  { intros P Ha' HP. rewrite Hacc. apply Forall_fmap. eapply Forall_impl; [exact HP|]. intros x Hx. cbn. unfold g.
    by case_decide. }
  assert (Hlen : length (accounts s') = length (accounts s)) by (cbn; by rewrite length_insert).
  assert (Hw' : state_wf s').
  { destruct Hw as [? ? ? ? ? Hr ? ? ?]. rewrite Forall_forall in Hr. constructor; rewrite ?Hlen; try done.
    - by apply Hall.
    - by rewrite Hg.
    - apply Hall; [exact (Hr a Ha)|]. by apply Forall_forall.
    - by rewrite Hg.
    - by rewrite Hg. }
  split_and!; [|done|].
  - split_and!; try done. apply Hall; [|done]. rewrite Forall_forall in Ht. destruct (Ht a Ha) as (? & ? & _). by split_and!.
  - unfold book_of, change_entry. cbn [entries upd_field]. rewrite (in_order_is _ Hw' (g <$> in_order s)).
    + f_equal. rewrite <- !list_fmap_compose. apply list_fmap_ext. intros j x Hj%list_elem_of_lookup_2. cbn.
      rewrite in_order_perm in Hj. unfold g. case_decide; [|done]. rewrite (Heq x) by done. unfold entry. cbn. by rewrite Hfd, Hid.
    + by rewrite Hacc, in_order_perm.
    + rewrite Hlen, <- in_order_orders, <- list_fmap_compose by done. apply list_fmap_ext.
      intros j x Hj%list_elem_of_lookup_2. cbn. rewrite in_order_perm in Hj. unfold g. case_decide; [|done]. by rewrite (Heq x).
Qed.

Lemma lookup_renumber l j : renumber l !! j = (λ a, a <| account_order := Z.land (Z.of_nat j) 0xffff |>) <$> (l !! j).
Proof. unfold renumber. by rewrite list_lookup_imap. Qed.

(** Renumbering gives the positions, and changes nothing else. *)
Lemma renumber_orders l : (length l ≤ kMaxAccounts)%nat →
  account_order <$> renumber l = seqZ 0 (Z.of_nat (length l)).
Proof.
  unfold kMaxAccounts. intros Hl. apply list_eq. intros j. rewrite list_lookup_fmap, lookup_renumber.
  destruct (l !! j) as [a|] eqn:E.
  - cbn. symmetry. apply lookup_seqZ. apply lookup_lt_Some in E. change 0xffff with (Z.ones 16).
    rewrite Z.land_ones, Z.mod_small by lia. lia.
  - cbn. symmetry. apply lookup_ge_None in E. apply lookup_ge_None. rewrite length_seqZ. lia.
Qed.
Lemma renumber_same {B} (p : AccountRecord → B) l :
  (∀ a o, p (a <| account_order := o |>) = p a) → p <$> renumber l = p <$> l.
Proof.
  intros Hp. apply list_eq. intros j. rewrite !list_lookup_fmap, lookup_renumber. by destruct (l !! j) as [a|]; [apply (f_equal Some), Hp|].
Qed.
Lemma renumber_length l : length (renumber l) = length l.
Proof. apply length_imap. Qed.
Lemma renumber_forall (P : AccountRecord → Prop) l :
  (∀ j a, l !! j = Some a → P (a <| account_order := Z.land (Z.of_nat j) 0xffff |>)) → Forall P (renumber l).
Proof.
  intros HP. apply Forall_lookup. intros j a. rewrite lookup_renumber, fmap_Some. intros (b & Hb & ->). by apply HP.
Qed.

Lemma order_u16 j : is_u16 (Z.land (Z.of_nat j) 0xffff).
Proof. change 0xffff with (Z.ones 16). rewrite Z.land_ones by lia. unfold is_u16, u16_max. lia. Qed.

Lemma filter_all {A} (P : A → Prop) `{∀ x, Decision (P x)} l : Forall P l → filter P l = l.
Proof. induction 1 as [|x l Hx _ IH]; [done|]. by rewrite filter_cons_True, IH. Qed.

(** Deleting at an index is filtering by identifier. *)
Lemma delete_filter s id i a : state_wf s → find_account id s = Some (i, a) →
  delete i (accounts s) = filter (λ x, account_id x ≠ id) (accounts s).
Proof.
  intros Hw [Hi Hid]%find_account_some. apply list_elem_of_split_length in Hi as (l1 & l2 & E & ->).
  pose proof (wf_ids _ Hw) as Hn. rewrite E in Hn |- *. rewrite fmap_app, fmap_cons in Hn.
  apply NoDup_app in Hn as (_ & Hd & Hn2). apply NoDup_cons in Hn2 as [Hn2 _].
  rewrite delete_middle, filter_app, filter_cons_False by (intros H; by apply H).
  rewrite !filter_all; [done|..]; apply Forall_forall; intros x Hx Ex; subst id.
  - apply Hn2. rewrite <- Ex. by apply list_elem_of_fmap_2.
  - apply (Hd (account_id a)); [|by left]. rewrite <- Ex. by apply list_elem_of_fmap_2.
Qed.

Lemma filter_sorted {A} (R : A → A → Prop) (P : A → Prop) `{∀ x, Decision (P x)} l :
  StronglySorted R l → StronglySorted R (filter P l).
Proof.
  induction 1 as [|x l _ IH Hx]; [constructor|]. rewrite filter_cons. case_decide; [|done]. constructor; [done|].
  rewrite Forall_forall in Hx |- *. intros y [_ Hy]%list_elem_of_filter. by apply Hx.
Qed.
Lemma filter_fmap {A B} (f : A → B) (P : B → Prop) `{∀ x, Decision (P x)} (l : list A) :
  filter P (f <$> l) = f <$> filter (P ∘ f) l.
Proof.
  induction l as [|x l IH]; [done|]. rewrite fmap_cons, !filter_cons. cbn. by case_decide; rewrite IH.
Qed.
Lemma filter_nodup {A B} (key : A → B) (P : A → Prop) `{∀ x, Decision (P x)} l :
  NoDup (key <$> l) → NoDup (key <$> filter P l).
Proof. intros Hn. eapply sublist_NoDup; [exact Hn|]. apply fmap_sublist, sublist_filter. Qed.

Section Delete.
Context (s : AccountsState) (Ht : state_typed s) (Hw : state_wf s).
Context (id : Z) (i : nat) (a : AccountRecord) (Hf : find_account id s = Some (i, a)).
Let rest := filter (λ x, account_id x ≠ id) (in_order s).

Lemma delete_sorted : stable_sort_by account_order (delete i (accounts s)) = rest.
Proof.
  rewrite (delete_filter _ _ _ _ Hw Hf). apply sort_unique.
  - unfold rest. by rewrite in_order_perm.
  - apply filter_nodup. by apply orders_distinct.
  - apply filter_sorted, stable_sort_sorted.
Qed.

Lemma becomes_delete :
  let s1 := s <| accounts := renumber (stable_sort_by account_order (delete i (accounts s))) |> in
  becomes (if last_used_id s1 =? id then s1 <| last_used_id := 0 |> else s1)
    (book_of s <| entries := filter (λ e, fst e ≠ id) (entries (book_of s)) |>
               <| book_last := if book_last (book_of s) =? id then 0 else book_last (book_of s) |>).
Proof.
  cbn zeta. rewrite delete_sorted. set (s2 := if _ =? _ then _ else _).
  assert (Hacc : accounts s2 = renumber rest) by (unfold s2; by case_match).
  assert (Hsame : next_id s2 = next_id s ∧ wifi_ssid s2 = wifi_ssid s ∧ wifi_password s2 = wifi_password s)
    by (unfold s2; by case_match).
  assert (Hlast : last_used_id s2 = if last_used_id s =? id then 0 else last_used_id s) by (unfold s2; cbn; by case_match).
  destruct Hsame as (Hn & Hss & Hpw). clearbody s2.
  destruct Ht as (? & Hl & ? & ? & Hty). pose proof Hw as [Hc ? ? Hd Hi Hr ? Ho Hla].
  assert (Hin : ∀ x, x ∈ rest ↔ account_id x ≠ id ∧ x ∈ accounts s).
  { intros x. unfold rest. by rewrite list_elem_of_filter, in_order_perm. }
  assert (Hall : ∀ P : AccountRecord → Prop, (∀ x o, P x → is_u16 o → P (x <| account_order := o |>)) →
    Forall P (accounts s) → Forall P (renumber rest)).
  { intros P HP HF. apply renumber_forall. intros j x Hx%list_elem_of_lookup_2. apply HP; [|apply order_u16].
    rewrite Forall_forall in HF. by apply HF, Hin. }
  assert (Hle : (length rest ≤ length (accounts s))%nat).
  { rewrite <- in_order_length. unfold rest. apply length_filter. }
  assert (Hw' : state_wf s2).
  { constructor; rewrite ?Hacc, ?Hn, ?Hss, ?Hpw, ?Hlast, ?renumber_length; try done; try lia.
    - apply Hall; done.
    - rewrite renumber_same by done. unfold rest. apply filter_nodup. by rewrite in_order_perm.
    - apply Hall; done.
    - by rewrite renumber_orders by lia.
    - rewrite renumber_same by done. case_match eqn:E; [by left|]. apply Z.eqb_neq in E. destruct Hla as [|Hla]; [by left|].
      right. apply list_elem_of_fmap in Hla as (x & E2 & Hx). rewrite E2 in *. apply list_elem_of_fmap_2, Hin. by split. }
  split_and!; [|done|].
  - unfold state_typed. rewrite Hacc, Hn, Hss, Hpw, Hlast. split_and!; try done.
    { case_match; [|done]. unfold is_u32, u32_max. lia. }
    apply Hall; [|done]. intros x o (? & _ & ?) ?. by split_and!.
  - unfold book_of. rewrite (in_order_is _ Hw' (renumber rest)).
    + rewrite Hlast, Hn, Hss, Hpw, renumber_same by done. cbn. f_equal. by rewrite filter_fmap.
    + by rewrite Hacc.
    + rewrite Hacc, renumber_length. apply renumber_orders. lia.
Qed.
End Delete.

(** ** Replacing all accounts *)

Definition fresh_accounts (index : nat) (next : Z) (drafts : list AccountDraft) : list AccountRecord :=
  imap (λ j d, mkAccount (next + Z.of_nat j) (Z.land (Z.of_nat (index + j)) 0xffff) d) drafts.

#[local] Arguments fresh_accounts : simpl never.

Lemma fresh_cons index next d drafts :
  fresh_accounts index next (d :: drafts) =
    mkAccount next (Z.land (Z.of_nat index) 0xffff) d :: fresh_accounts (S index) (next + 1) drafts.
Proof.
  unfold fresh_accounts. rewrite imap_cons, Nat.add_0_r, Z.add_0_r. f_equal. apply imap_ext. intros j x _. cbn.
  f_equal; [lia|f_equal; lia].
Qed.

Lemma push_accounts_spec drafts : ∀ index s, 0 < next_id s ≤ u32_max →
  push_accounts index drafts s =
    if u32_max <? next_id s + Z.of_nat (length drafts) then None
    else Some (s <| accounts := accounts s ++ fresh_accounts index (next_id s) drafts |>
                 <| next_id := next_id s + Z.of_nat (length drafts) |>).
Proof.
  induction drafts as [|d drafts IH]; intros index s Hn; cbn [push_accounts length].
  - rewrite Z.add_0_r, (proj2 (Z.ltb_ge _ _)) by lia. destruct s. cbn. by rewrite app_nil_r.
  - rewrite (proj2 (Z.eqb_neq _ _)) by lia. cbn [orb]. destruct (Z.eqb_spec (next_id s) u32_max) as [E|E].
    { rewrite (proj2 (Z.ltb_lt _ _)) by lia. done. }
    unfold u32_max in *. rewrite IH by (cbn; rewrite Z.mod_small; lia). cbn [next_id accounts upd_field].
    rewrite Z.mod_small by lia. replace (next_id s + 1 + Z.of_nat (length drafts)) with (next_id s + Z.of_nat (S (length drafts))) by lia.
    destruct (_ <? _); [done|]. destruct s. cbn. do 2 f_equal. by rewrite fresh_cons, <- app_assoc.
Qed.

Lemma fresh_lookup index next drafts j :
  fresh_accounts index next drafts !! j =
    (λ d, mkAccount (next + Z.of_nat j) (Z.land (Z.of_nat (index + j)) 0xffff) d) <$> (drafts !! j).
Proof. unfold fresh_accounts. by rewrite list_lookup_imap. Qed.
Lemma fresh_length index next drafts : length (fresh_accounts index next drafts) = length drafts.
Proof. apply length_imap. Qed.
Lemma fresh_ids index next drafts :
  account_id <$> fresh_accounts index next drafts = seqZ next (Z.of_nat (length drafts)).
Proof.
  apply list_eq. intros j. rewrite list_lookup_fmap, fresh_lookup. destruct (drafts !! j) as [d|] eqn:E; cbn; symmetry.
  - apply lookup_seqZ. apply lookup_lt_Some in E. lia.
  - apply lookup_ge_None in E. apply lookup_ge_None. rewrite length_seqZ. lia.
Qed.
Lemma fresh_orders next drafts : (length drafts ≤ kMaxAccounts)%nat →
  account_order <$> fresh_accounts 0 next drafts = seqZ 0 (Z.of_nat (length drafts)).
Proof.
  intros Hl. rewrite <- (fresh_length 0 next drafts), <- renumber_orders by by rewrite fresh_length. f_equal.
  apply list_eq. intros j. rewrite lookup_renumber, fresh_lookup. by destruct (drafts !! j).
Qed.

Lemma becomes_replace s drafts s' : state_typed s → state_wf s →
  Forall draft_typed drafts → Forall draft_wf drafts → (length drafts ≤ kMaxAccounts)%nat →
  push_accounts 0 drafts (s <| accounts := [] |> <| last_used_id := 0 |>) = Some s' →
  becomes s' (mkBook (zip (seqZ (next_id s) (Z.of_nat (length drafts))) drafts)
                (next_id s + Z.of_nat (length drafts)) 0 (book_wifi (book_of s))).
Proof.
  intros (Hn & ? & ? & ? & _) [? ? ? _ _ _ Hp _ _] Hty Hd Hc. unfold is_u32 in *.
  rewrite push_accounts_spec by (cbn; lia). cbn [next_id accounts upd_field]. destruct (Z.ltb_spec u32_max (next_id s + Z.of_nat (length drafts))); [done|].
  intros [= <-]. set (l := fresh_accounts _ _ _). assert (Hl : length l = length drafts) by apply fresh_length.
  match goal with |- becomes ?x _ => set (s1 := x) end.
  assert (Hlook : ∀ P : AccountRecord → Prop,
    (∀ j d, drafts !! j = Some d → P (mkAccount (next_id s + Z.of_nat j) (Z.land (Z.of_nat j) 0xffff) d)) → Forall P l).
  { intros P HP. apply Forall_lookup. intros j x. unfold l. rewrite fresh_lookup, fmap_Some. intros (d & E & ->). by apply HP. }
  assert (Hw' : state_wf s1).
  { constructor; cbn; rewrite ?Hl; try done.
    - apply Hlook. intros j d E. by eapply Forall_lookup_1 in E.
    - unfold l. rewrite fresh_ids. apply NoDup_seqZ.
    - apply Hlook. intros j d E%lookup_lt_Some. cbn. lia.
    - lia.
    - unfold l. by rewrite fresh_orders.
    - by left. }
  split_and!; [|done|].
  - split_and!; cbn; try done; try (unfold is_u32; lia). apply Hlook. intros j d E. split_and!; cbn; [|apply order_u16|by eapply Forall_lookup_1 in E].
    apply lookup_lt_Some in E. unfold is_u32. lia.
  - unfold book_of. rewrite (in_order_is _ Hw' l).
    + cbn. f_equal. apply list_eq. intros j. unfold l. rewrite list_lookup_fmap, fresh_lookup, lookup_zip_with.
      destruct (drafts !! j) as [d|] eqn:E; cbn; [|by destruct (seqZ _ _ !! j)].
      rewrite (proj2 (lookup_seqZ _ _ _ (next_id s + Z.of_nat j))); [done|]. apply lookup_lt_Some in E. lia.
    + done.
    + cbn. rewrite Hl. unfold l. by apply fresh_orders.
Qed.

(** ** Reordering *)

Definition reassigned (k : nat) (ids : list Z) (a : AccountRecord) : AccountRecord :=
  match list_find (λ id, id = account_id a) ids with
  | Some (j, _) => a <| account_order := Z.land (Z.of_nat (k + j)) 0xffff |>
  | None => a
  end.

Lemma reassigned_entry k ids a : entry (reassigned k ids a) = entry a.
Proof. unfold reassigned. by destruct (list_find _ _) as [[]|]. Qed.

Lemma reassigned_cons k id ids a a' : 
  id ∉ ids → (account_id a = id → a' = a <| account_order := Z.land (Z.of_nat k) 0xffff |>) →
  reassigned k (id :: ids) a = reassigned (S k) ids (if decide (account_id a = id) then a' else a).
Proof.
  intros Hid Ha. unfold reassigned. cbn [list_find]. case_decide as E.
  - rewrite decide_True, Ha by done. rewrite (proj2 (list_find_None _ _)); [by rewrite Nat.add_0_r|].
    apply Forall_forall. intros x Hx Ex. cbn in Ex. congruence.
  - rewrite decide_False by done. destruct (list_find _ ids) as [[j x]|]; [|done]. cbn. by rewrite Nat.add_succ_r.
Qed.

(** The identifiers the loop accepts: distinct, of accounts, and not seen. *)
Definition assignable (ids : list Z) (seen : list bool) (s : AccountsState) : Prop :=
  NoDup ids ∧ ∀ id, id ∈ ids → ∃ i a, accounts s !! i = Some a ∧ account_id a = id ∧ nth i seen false = false.

Lemma assignable_cons s id ids seen i a a' :
  length seen = length (accounts s) → accounts s !! i = Some a → account_id a = id → nth i seen false = false →
  assignable (id :: ids) seen s ↔ id ∉ ids ∧ assignable ids (<[i:=true]> seen) (set_account i a' s).
Proof.
  intros Hl Hi Hid Hs. pose proof (lookup_lt_Some _ _ _ Hi) as Hlt. unfold assignable. rewrite NoDup_cons. split.
  - intros [[Hni Hnd] Hin]. split_and!; [done|done|]. intros x Hx. destruct (Hin x ltac:(by right)) as (j & b & Hj & Eb & Hsj).
    assert (i ≠ j) by (intros <-; congruence). exists j, b. cbn.
    by rewrite nth_lookup, !list_lookup_insert_ne, <- nth_lookup by done.
  - intros (Hni & Hnd & Hin). split; [done|]. intros x [->|Hx]%elem_of_cons; [by exists i, a|].
    destruct (Hin x Hx) as (j & b & Hj & Eb & Hsj). cbn in Hj. destruct (decide (i = j)) as [<-|Hne].
    + rewrite nth_lookup, list_lookup_insert_eq in Hsj by lia. done.
    + exists j, b. rewrite nth_lookup, list_lookup_insert_ne, <- nth_lookup in Hsj by done.
      by rewrite list_lookup_insert_ne in Hj by done.
Qed.

Lemma assign_orders_spec ids : ∀ k seen s,
  NoDup (account_id <$> accounts s) → length seen = length (accounts s) →
  match assign_orders k ids seen s with
  | Some s' => assignable ids seen s ∧ s' = s <| accounts := reassigned k ids <$> accounts s |>
  | None => ¬ assignable ids seen s
  end.
Proof.
  induction ids as [|id ids IH]; intros k seen s Hn Hl; cbn [assign_orders].
  { split; [split; [constructor|set_solver]|]. destruct s. unfold upd_field. cbn. by rewrite list_fmap_id. }
  destruct (find_account id s) as [[i a]|] eqn:Ef.
  2:{ apply find_account_none in Ef. intros [_ Hin]. destruct (Hin id ltac:(by left)) as (i & a & Hi & <- & _). apply Ef.
      by eapply list_elem_of_fmap_2, list_elem_of_lookup_2. }
  pose proof (proj1 (find_account_nodup _ _ _ _ Hn) Ef) as [Hi Hid].
  destruct (nth i seen false) eqn:Es.
  { intros [_ Hin]. destruct (Hin id ltac:(by left)) as (j & b & Hj & Eb & Hs).
    assert (Hf : find_account id s = Some (j, b)) by by apply find_account_nodup. congruence. }
  set (a' := a <| account_order := _ |>). pose proof (set_account_nodup s Hn _ _ _ a' Ef) as Hacc.
  assert (Hids : account_id <$> accounts (set_account i a' s) = account_id <$> accounts s).
  { rewrite Hacc, <- list_fmap_compose. apply list_fmap_ext. intros j x _. cbn.
    case_decide as E; [by rewrite E, <- Hid|done]. }
  assert (Hlen : length (<[i:=true]> seen) = length (accounts (set_account i a' s))) by (cbn; by rewrite !length_insert).
  assert (Hrest := assignable_cons s id ids seen i a a' Hl Hi Hid Es).
  specialize (IH (S k) (<[i:=true]> seen) (set_account i a' s) ltac:(by rewrite Hids) Hlen).
  destruct (assign_orders _ _ _ _) as [s'|].
  - destruct IH as [Hok ->].
    assert (Hni : id ∉ ids).
    { intros Hx. destruct Hok as [_ Hin]. destruct (Hin id Hx) as (j & b & Hj & Eb & Hsj). cbn in Hj.
      destruct (decide (i = j)) as [<-|Hne].
      - rewrite nth_lookup, list_lookup_insert_eq in Hsj by (apply lookup_lt_Some in Hi; lia). done.
      - rewrite list_lookup_insert_ne in Hj by done. destruct Hne.
        assert (Hf : find_account id s = Some (j, b)) by by apply find_account_nodup. congruence. }
    split; [by apply Hrest|]. rewrite Hacc, <- list_fmap_compose.
    assert (E : (reassigned (S k) ids ∘ (λ x, if decide (account_id x = id) then a' else x)) <$> accounts s
                = reassigned k (id :: ids) <$> accounts s); [|rewrite E; by destruct s].
    apply list_fmap_ext. intros j x Hj. cbn. symmetry.
    apply reassigned_cons; [done|]. intros E. unfold a'. f_equal.
    apply (nodup_key account_id (accounts s)); [done|by eapply list_elem_of_lookup_2..|congruence].
  - rewrite Hrest. intros [_ ?]. done.
Qed.

Lemma lookup_entry_account s a : state_wf s → a ∈ accounts s → lookup_entry (account_id a) (book_of s) = Some (entry a).
Proof.
  intros Hw Ha. rewrite <- in_order_perm in Ha. apply list_elem_of_lookup in Ha as [j Hj].
  assert (Hn : NoDup (account_id <$> in_order s)) by (rewrite in_order_perm; apply (wf_ids _ Hw)).
  unfold lookup_entry. cbn. rewrite (proj2 (list_find_Some _ _ j (entry a))); [done|].
  rewrite list_lookup_fmap, Hj. split_and!; [done|done|]. intros i e Hi Hlt E. rewrite list_lookup_fmap, fmap_Some in Hi.
  destruct Hi as (b & Hb & ->). cbn in E. enough (i = j) by lia. eapply NoDup_lookup; [exact Hn|..]; rewrite list_lookup_fmap;
    [by rewrite Hb|by rewrite Hj, E].
Qed.

Lemma becomes_reorder s ids s' : state_typed s → state_wf s → length ids = length (accounts s) →
  assign_orders 0 ids (replicate (length (accounts s)) false) s = Some s' →
  ids ≡ₚ (fst <$> entries (book_of s)) ∧
  becomes s' (book_of s <| entries := omap (λ id, lookup_entry id (book_of s)) ids |>).
Proof.
  intros Ht Hw Hlen Ha. pose proof (assign_orders_spec ids 0 (replicate (length (accounts s)) false) s (wf_ids _ Hw)
    ltac:(by rewrite length_replicate)) as Hspec. rewrite Ha in Hspec. destruct Hspec as [[Hnd Hin] ->].
  assert (Hp : ids ≡ₚ (account_id <$> accounts s)).
  { apply submseteq_length_Permutation; [|by rewrite length_fmap, Hlen].
    apply NoDup_submseteq; [done|]. intros x Hx. destruct (Hin x Hx) as (i & a & Hi & <- & _).
    by eapply list_elem_of_fmap_2, list_elem_of_lookup_2. }
  split; [by rewrite entries_ids_perm|]. apply Permutation_map_inv in Hp as (m & -> & Hm).
  change (map account_id m) with (account_id <$> m) in *. rewrite length_fmap in Hlen. set (ids := account_id <$> m) in *.
  destruct Ht as (? & ? & ? & ? & Hty). pose proof Hw as [Hc ? ? Hd Hi Hr ? Ho Hla].
  match goal with |- becomes ?x _ => set (s' := x) end.
  assert (Hacc : accounts s' ≡ₚ reassigned 0 ids <$> m) by (cbn; by rewrite Hm).
  assert (Hj : ∀ j a, m !! j = Some a → reassigned 0 ids a = a <| account_order := Z.of_nat j |>).
  { intros j a Ej. unfold reassigned. assert (Ef : list_find (λ x, x = account_id a) ids = Some (j, account_id a)).
    { apply list_find_Some. split_and!; [unfold ids; by rewrite list_lookup_fmap, Ej|done|].
      intros j2 y Ey Hlt Exy. enough (j2 = j) by lia. eapply NoDup_lookup; [exact Hnd|exact Ey|].
      unfold ids. by rewrite list_lookup_fmap, Ej, Exy. }
    rewrite Ef. apply lookup_lt_Some in Ej. unfold kMaxAccounts in Hc. change 0xffff with (Z.ones 16).
    by rewrite Z.land_ones, Z.mod_small by lia. }
  assert (Horders : account_order <$> (reassigned 0 ids <$> m) = seqZ 0 (Z.of_nat (length m))).
  { apply list_eq. intros j. rewrite !list_lookup_fmap. destruct (m !! j) as [a|] eqn:Ej; cbn; symmetry.
    - rewrite (Hj j) by done. apply lookup_seqZ. apply lookup_lt_Some in Ej. cbn. lia.
    - apply lookup_ge_None in Ej. apply lookup_ge_None. rewrite length_seqZ. lia. }
  assert (Hall : ∀ P : AccountRecord → Prop, (∀ x o, P x → is_u16 o → P (x <| account_order := o |>)) →
    Forall P (accounts s) → Forall P (accounts s')).
  { intros P HP HF. rewrite Hacc. apply Forall_fmap. rewrite Hm in HF. eapply Forall_impl; [exact HF|].
    intros x Hx. cbn. unfold reassigned. destruct (list_find _ _) as [[]|]; [|done]. apply HP; [done|apply order_u16]. }
  assert (Hids : account_id <$> accounts s' = account_id <$> accounts s).
  { cbn. rewrite <- list_fmap_compose. apply list_fmap_ext. intros j x _. cbn. apply (f_equal fst (reassigned_entry 0 ids x)). }
  assert (Hlens : length (accounts s') = length (accounts s)) by apply length_fmap.
  assert (Hw' : state_wf s').
  { constructor; rewrite ?Hlens, ?Hids; try done; try (by apply Hall). by rewrite Hacc, Horders, Hlen. }
  split_and!; [|done|].
  - split_and!; try done. apply Hall; [|done]. intros x o (? & _ & ?) ?. by split_and!.
  - unfold book_of. rewrite (in_order_is _ Hw' (reassigned 0 ids <$> m)); [|done|by rewrite Horders, Hlens, Hlen].
    cbn. f_equal. unfold ids at 2. symmetry.
    transitivity (entry <$> m); [|rewrite <- list_fmap_compose; apply list_fmap_ext; intros j x _; by rewrite <- (reassigned_entry 0 ids x)].
    assert (Hlook : ∀ a, a ∈ m → lookup_entry (account_id a) (book_of s) = Some (entry a)).
    { intros a Ha'. apply lookup_entry_account; [done|]. by rewrite Hm. }
    clear - Hlook. induction m as [|a m IH]; [done|]. cbn. rewrite Hlook by by left. cbn. f_equal. apply IH.
      intros x Hx. apply Hlook. by right.
Qed.

(** Every order of the accounts can be asked for. *)
Lemma assign_orders_total s ids : state_wf s → ids ≡ₚ (fst <$> entries (book_of s)) →
  is_Some (assign_orders 0 ids (replicate (length (accounts s)) false) s).
Proof.
  intros Hw Hp. rewrite entries_ids_perm in Hp.
  pose proof (assign_orders_spec ids 0 (replicate (length (accounts s)) false) s (wf_ids _ Hw)
    ltac:(by rewrite length_replicate)) as Hspec. destruct (assign_orders _ _ _ _); [done|]. destruct Hspec. split.
  - rewrite Hp. apply (wf_ids _ Hw).
  - intros id Hid. rewrite Hp in Hid. apply list_elem_of_fmap in Hid as (a & -> & Ha).
    apply list_elem_of_lookup in Ha as [i Hi]. exists i, a. split_and!; [done|done|].
    rewrite nth_lookup, lookup_replicate_2; [done|]. by eapply lookup_lt_Some.
Qed.
