(* ===== verification/AccountStoreCorrect.v ===== *)
(** * Correctness of the account store

    Over any NVS that behaves as documented, the store is an account book: a
    request that succeeds makes exactly the change [book_step] says, and it is
    durable; one that fails changes nothing unless the write itself failed, and
    it fails only as the book does or as an NVS call did.  The
    check of the partition's encryption finds the probe wherever it is. *)

From S2P Require Import Prelude Bytes ByteReader Nvs Runtime AccountState AccountStateCorrect AccountStore AccountBook.

#[local] Arguments encode_state : simpl never.
#[local] Arguments decode_state : simpl never.
#[local] Arguments state_bytes : simpl never.

Abbreviation snapshot_key := (kStateNamespace, kSnapshotKey).

(** What a read of the snapshot gives is a well-formed state. *)
Definition stored (v : NvsView) (s : AccountsState) : Prop :=
  visible v !! snapshot_key = Some (VBlob (state_bytes s)) ∧ state_typed s ∧ state_wf s.
(** It also survives a power loss. *)
Definition durable (v : NvsView) (s : AccountsState) : Prop := stored v s ∧ pending v = [].

Lemma map_esp_ok e : map_esp_error e = StoreStatus.kOk ↔ e = ESP_OK.
Proof. by destruct e. Qed.
Lemma failed_false status : failed status = false ↔ status = StoreStatus.kOk.
Proof. unfold failed. by rewrite negb_false_iff, StoreStatus.ok_true. Qed.
Lemma failed_true status : failed status = true ↔ status ≠ StoreStatus.kOk.
Proof. unfold failed. by rewrite negb_true_iff, StoreStatus.ok_false. Qed.
Lemma esp_ok_true e : esp_ok e = true ↔ e = ESP_OK.
Proof. apply bool_decide_eq_true. Qed.
Lemma esp_ok_false e : esp_ok e = false ↔ e ≠ ESP_OK.
Proof. apply bool_decide_eq_false. Qed.

Lemma stored_visible v v' s : visible v' = visible v → stored v s → stored v' s.
Proof. intros E [Hs ?]. split; [|done]. by rewrite E. Qed.
Lemma stored_same v v' s : same_values v v' → stored v s → stored v' s.
Proof. intros Hv [Hs ?]. split; [|done]. by rewrite (visible_same _ _ Hv). Qed.

Section Flash.
Context {N : Type} `{NvsLaws N}.
Implicit Types (n : N).

Lemma open_state_spec mode n st h n' : open_state mode n = ((st, h), n') →
  same_values (view n) (view n') ∧ (st = StoreStatus.kOk → handles (view n') !! h = Some kStateNamespace).
Proof.
  unfold open_state. destruct (nvs_open_from_partition _ _ _ _) as [[e x] n1] eqn:E. intros [= <- <- <-].
  apply nvs_open_law in E as [? Ho]. split; [done|]. by intros ?%map_esp_ok%Ho.
Qed.

(** Loading gives the state that is stored, or fails. *)
Lemma load_spec n s st out n' : stored (view n) s → load_state_unchecked n = ((st, out), n') →
  same_values (view n) (view n') ∧ (st = StoreStatus.kOk ∧ out = Some s ∨ st ≠ StoreStatus.kOk ∧ out = None).
Proof.
  intros [Hs [Hty Hw]] E. unfold load_state_unchecked in E. exec_step E. destruct a as [so h].
  apply open_state_spec in Ef as [Hv1 Hh]. exec_step E; [apply failed_true in Ec; simplify_eq; split; [done|by right]|].
  apply failed_false in Ec. specialize (Hh Ec). exec_step E. destruct a as [e size].
  apply nvs_get_blob_size_law in Ef as ((Hv2 & Hh2 & _) & Hsize & _). rewrite <- Hh2 in Hh.
  assert (Hv : same_values (view n) (view s1)) by by eapply same_values_trans. 
  destruct (_ || _) eqn:Eb.
  - do 2 exec_step E. apply nvs_close_law in Ef. split; [by eapply same_values_trans|]. right.
    destruct (esp_ok e) eqn:Ee; simplify_eq; [done|]. by rewrite esp_ok_false, <- map_esp_ok in Ee.
  - rewrite !orb_false_iff, negb_false_iff, esp_ok_true in Eb. destruct Eb as ((-> & _) & _).
    exec_step E. destruct a as [e2 encoded]. apply nvs_get_blob_law in Ef as ((Hv3 & Hh3 & _) & Hblob & _).
    exec_step E. apply nvs_close_law in Ef.
    assert (Hv' : same_values (view n) (view s3)) by (repeat (eapply same_values_trans; [eassumption|]); apply same_values_refl).
    exec_step E; [rewrite negb_true_iff, esp_ok_false, <- map_esp_ok in Ec0; simplify_eq; split; [done|by right]|].
    rewrite negb_false_iff, esp_ok_true in Ec0. subst e2. destruct (Hblob eq_refl _ Hh) as [Hb _].
    destruct (Hb eq_refl) as (v & Hvis & ->). rewrite (visible_same _ _ Hv), Hs in Hvis. injection Hvis as <-.
    exec_step E. split; [done|]. left. 
    rewrite (proj2 (snapshot_exact _ s (state_bytes_ok _ Hty))) in * by done. by simplify_eq.
Qed.

(** The write of a snapshot, and nothing else. *)
Definition snapshot_written (v v' : NvsView) (s : AccountsState) : Prop :=
  visible v' = <[snapshot_key := VBlob (state_bytes s)]> (visible v).

Lemma written_stored v v' s : snapshot_written v v' s → state_typed s → state_wf s → stored v' s.
Proof. intros Hv ? ?. split; [|done]. rewrite Hv. apply lookup_insert_eq. Qed.
Lemma write_visible v v' e w : writes v v' e w →
  visible v' = apply_write (visible v) w ∨ e ≠ ESP_OK ∧ visible v' = visible v.
Proof.
  intros (Hc & _ & _ & [Hp|[He Hp]]); [left; by apply visible_snoc|right]. split; [done|]. unfold visible. by rewrite Hc, Hp.
Qed.

(** Committing changes nothing that is visible. *)
Lemma commit_spec h e n e' n' : and_then e (nvs_commit h) n = (e', n') →
  visible (view n') = visible (view n) ∧ (e' = ESP_OK → e = ESP_OK ∧ pending (view n') = []).
Proof.
  unfold and_then. destruct (esp_ok e) eqn:Ee.
  - apply esp_ok_true in Ee as ->. intros (_ & _ & [[Hc Hp]|(He & Hc & Hp)])%nvs_commit_law.
    + split; [|done]. unfold visible at 1. by rewrite Hc, Hp.
    + split; [|done]. unfold visible. by rewrite Hc, Hp.
  - intros [= <- <-]. apply esp_ok_false in Ee. done.
Qed.

(** Saving writes the snapshot, durably when it succeeds; a failure leaves the
    values alone, or the write done. *)
Lemma save_spec n s st n' : state_typed s → state_wf s → save_state_unchecked s n = (st, n') →
  st = StoreStatus.kOk ∧ snapshot_written (view n) (view n') s ∧ pending (view n') = [] ∨
  st ≠ StoreStatus.kOk ∧ (visible (view n') = visible (view n) ∨ snapshot_written (view n) (view n') s).
Proof.
  intros Hty Hw E. unfold save_state_unchecked in E. rewrite encode_state_exact, decide_True in E by (try apply validate_state_exact; done).
  exec_step E; [done|]. exec_step E. destruct a as [so h]. apply open_state_spec in Ef as [Hv1 Hh].
  exec_step E; [apply failed_true in Ec0; by rewrite (visible_same _ _ Hv1); auto|].
  apply failed_false in Ec0. specialize (Hh Ec0). exec_step E. apply (nvs_set_blob_law _ _ _ _ _ _ _) with (2 := Hh) in Ef as Hset%write_visible.
  exec_step E. apply commit_spec in Ef0 as [Hvis Hok]. exec_step E. apply nvs_close_law in Ef0 as Hv4. exec_step E.
  rewrite map_esp_ok, (proj2 Hv4). unfold snapshot_written. rewrite (visible_same _ _ Hv4), Hvis, <- (visible_same _ _ Hv1).
  destruct (decide (a0 = ESP_OK)) as [Ha|Ha]; [left|right].
  - destruct (Hok Ha) as [-> Hp]. destruct Ef as [?|[]]; done.
  - split; [done|]. destruct Ef as [?|[]]; auto.
Qed.
End Flash.

(** ** Requests *)

Definition request_typed (r : request) : Prop :=
  match r with
  | Replace drafts => Forall draft_typed drafts
  | Add draft | Update _ draft => draft_typed draft
  | Rename _ name => bytes_ok name
  | SetWifi ssid password => bytes_ok ssid ∧ bytes_ok password
  | Delete _ | Reorder _ | SetLastUsed _ | ClearWifi => True
  end.

(** What a request is checked for before the state is loaded, and what it does to
    the state. *)
Definition precheck (r : request) : option StoreStatus.t :=
  let known id := if id =? 0 then Some StoreStatus.kInvalidArgument else None in
  let check status := if failed status then Some status else None in
  match r with
  | Replace drafts =>
    if Nat.ltb kMaxAccounts (length drafts) then Some StoreStatus.kFull else check (validate_drafts drafts)
  | Add draft => check (validate_account_draft draft)
  | Update id draft => match known id with Some e => Some e | None => check (validate_account_draft draft) end
  | Rename id name =>
    if (id =? 0) || failed (validate_display_name name) then Some StoreStatus.kInvalidArgument else None
  | Delete id | SetLastUsed id => known id
  | Reorder _ | ClearWifi => None
  | SetWifi ssid password =>
    if Nat.eqb (length ssid) 0 || Nat.ltb kMaxSsidBytes (length ssid) || Nat.eqb (length password) 0
       || Nat.ltb kMaxWifiPasswordBytes (length password) then Some StoreStatus.kInvalidArgument else None
  end.
Definition modified (r : request) (s : AccountsState) : StoreStatus.t + AccountsState :=
  match r with
  | Replace drafts =>
    match push_accounts 0 drafts (s <| accounts := [] |> <| last_used_id := 0 |>) with
    | None => inl StoreStatus.kFull | Some s => inr s end
  | Add draft =>
    if Nat.leb kMaxAccounts (length (accounts s)) || (next_id s =? 0) || (next_id s =? u32_max)
    then inl StoreStatus.kFull
    else inr (s <| next_id := (next_id s + 1) mod 2 ^ 32 |> <| accounts := accounts s ++
                [mkAccount (next_id s) (Z.land (Z.of_nat (length (accounts s))) 0xffff) draft] |>)
  | Update id draft =>
    match find_account id s with
    | None => inl StoreStatus.kNotFound
    | Some (i, a) => inr (set_account i (a <| account_draft := draft |>) s)
    end
  | Rename id name =>
    match find_account id s with
    | None => inl StoreStatus.kNotFound
    | Some (i, a) => inr (set_account i (a <| account_draft := rename_draft (account_draft a) name |>) s)
    end
  | Delete id =>
    match find_account id s with
    | None => inl StoreStatus.kNotFound
    | Some (i, _) =>
      let s := s <| accounts := renumber (stable_sort_by account_order (delete i (accounts s))) |> in
      inr (if last_used_id s =? id then s <| last_used_id := 0 |> else s)
    end
  | Reorder ids =>
    if negb (Nat.eqb (length ids) (length (accounts s))) then inl StoreStatus.kInvalidArgument
    else match assign_orders 0 ids (replicate (length (accounts s)) false) s with
         | None => inl StoreStatus.kInvalidArgument | Some s => inr s end
  | SetLastUsed id =>
    if negb (existsb (λ a, account_id a =? id) (accounts s)) then inl StoreStatus.kNotFound
    else inr (s <| last_used_id := id |>)
  | SetWifi ssid password => inr (s <| wifi_ssid := ssid |> <| wifi_password := password |>)
  | ClearWifi => inr (s <| wifi_ssid := [] |> <| wifi_password := [] |>)
  end.

Lemma validate_draft_failed d : failed (validate_account_draft d) = negb (bool_decide (draft_wf d)).
Proof.
  unfold validate_account_draft. destruct (draft_rejected d) eqn:E.
  - rewrite bool_decide_false; [done|]. intros Hw%draft_rejected_spec. congruence.
  - apply draft_rejected_spec in E. by rewrite bool_decide_true.
Qed.
Lemma validate_draft_status d : failed (validate_account_draft d) = true → validate_account_draft d = StoreStatus.kInvalidArgument.
Proof. unfold validate_account_draft. by destruct (draft_rejected d). Qed.

Lemma validate_drafts_spec drafts :
  validate_drafts drafts = if bool_decide (Forall draft_wf drafts) then StoreStatus.kOk else StoreStatus.kInvalidArgument.
Proof.
  induction drafts as [|d drafts IH]; [done|]. cbn [validate_drafts].
  pose proof (validate_draft_failed d) as Hd. destruct (failed (validate_account_draft d)) eqn:E.
  - rewrite validate_draft_status by done. rewrite bool_decide_false; [done|]. intros [Hw _]%Forall_cons.
    by rewrite bool_decide_true in Hd.
  - symmetry in Hd. apply negb_false_iff, bool_decide_eq_true in Hd. rewrite IH. apply (f_equal (λ b : bool, if b then _ else _)).
    apply bool_decide_ext. rewrite Forall_cons. tauto.
Qed.

Lemma existsb_id id s : existsb (λ a, account_id a =? id) (accounts s) = bool_decide (id ∈ (account_id <$> accounts s)).
Proof.
  apply Bool.eq_iff_eq_true. rewrite existsb_exists, bool_decide_eq_true, list_elem_of_fmap.
  setoid_rewrite list_elem_of_In. setoid_rewrite Z.eqb_eq. naive_solver.
Qed.

Lemma found_has id s i a : state_wf s → find_account id s = Some (i, a) → has_account id (book_of s) = true.
Proof.
  intros Hw [Hi <-]%find_account_some. rewrite has_account_spec by done. apply bool_decide_eq_true.
  by eapply list_elem_of_fmap_2, list_elem_of_lookup_2.
Qed.
Lemma not_found_has id s : state_wf s → find_account id s = None → has_account id (book_of s) = false.
Proof. intros Hw Hf. rewrite has_account_spec by done. by apply bool_decide_eq_false, find_account_none. Qed.

(** The rules of the store are those of the book. *)
Definition agrees (r : request) (s : AccountsState) : Prop :=
  match precheck r with
  | Some e => book_step r (book_of s) = inl e
  | None =>
    match modified r s with
    | inl e => book_step r (book_of s) = inl e
    | inr s' => ∃ b, book_step r (book_of s) = inr b ∧ becomes s' b
    end
  end.

Section Agrees.
Context (s : AccountsState) (Hty : state_typed s) (Hw : state_wf s).

Lemma next_bounds : 0 < next_id s ≤ u32_max.
Proof. destruct Hty as (Hn & _). unfold is_u32 in Hn. pose proof (wf_next _ Hw). lia. Qed.

Lemma agrees_replace drafts : Forall draft_typed drafts → agrees (Replace drafts) s.
Proof.
  intros Hd. pose proof next_bounds. unfold agrees. cbn [precheck modified book_step].
  destruct (Nat.ltb_spec kMaxAccounts (length drafts)) as [|Hl]; [done|]. rewrite validate_drafts_spec.
  destruct (bool_decide _) eqn:Ed; [|done]. apply bool_decide_eq_true in Ed. change (failed StoreStatus.kOk) with false. cbn iota.
  destruct (push_accounts _ _ _) as [s'|] eqn:E; pose proof E as Ep; rewrite push_accounts_spec in Ep by (cbn; lia);
    cbn [next_id upd_field] in Ep; change (book_next (book_of s)) with (next_id s);
    destruct (u32_max <? next_id s + Z.of_nat (length drafts)); try done.
  eexists. split; [done|]. by apply becomes_replace with (s := s).
Qed.

Lemma agrees_add d : draft_typed d → agrees (Add d) s.
Proof.
  intros Hd. pose proof next_bounds as Hn. unfold agrees. cbn [precheck modified book_step]. rewrite validate_draft_failed.
  destruct (bool_decide_reflect (draft_wf d)) as [Hdw|Hdw]; cbn [negb];
    [|by rewrite validate_draft_status by by rewrite validate_draft_failed, bool_decide_false].
  rewrite (proj2 (Z.eqb_neq (next_id s) 0)), orb_false_r, entries_length by lia.
  change (book_next (book_of s)) with (next_id s). destruct (_ || _) eqn:E; [done|].
  apply orb_false_iff in E as [El%Nat.leb_gt Ex%Z.eqb_neq]. eexists. split; [done|].
  unfold u32_max, kMaxAccounts in *. rewrite Z.mod_small by lia. change 0xffff with (Z.ones 16).
  rewrite Z.land_ones, (Z.mod_small _ (2 ^ 16)) by lia. by apply becomes_add.
Qed.

(** Changing the draft of an account. *)
Lemma agrees_change id f :
  (∀ a, a ∈ accounts s → draft_typed (f (account_draft a)) ∧ draft_wf (f (account_draft a))) →
  match match find_account id s with
        | None => inl StoreStatus.kNotFound
        | Some (i, a) => inr (set_account i (a <| account_draft := f (account_draft a) |>) s)
        end with
  | inl e => (if has_account id (book_of s) then inr (change_entry id f (book_of s)) else inl StoreStatus.kNotFound) = inl e
  | inr s' => ∃ b, (if has_account id (book_of s) then inr (change_entry id f (book_of s)) else inl StoreStatus.kNotFound) = inr b
                   ∧ becomes s' b
  end.
Proof.
  intros Hf. destruct (find_account id s) as [[i a]|] eqn:E.
  - rewrite (found_has _ _ _ _ Hw E). eexists. split; [done|].
    destruct (Hf a) as [? ?]; [by apply find_account_some in E as [E%list_elem_of_lookup_2 _]|].
    by eapply becomes_change.
  - by rewrite (not_found_has _ _ Hw E).
Qed.

Lemma agrees_update id d : draft_typed d → agrees (Update id d) s.
Proof.
  intros Hd. unfold agrees. cbn [precheck modified book_step]. destruct (id =? 0); [done|]. cbn [negb andb].
  rewrite validate_draft_failed. destruct (bool_decide_reflect (draft_wf d)) as [Hdw|Hdw]; cbn [negb];
    [|by rewrite validate_draft_status by by rewrite validate_draft_failed, bool_decide_false].
  by apply (agrees_change id (λ _, d)).
Qed.

Lemma agrees_rename id name : bytes_ok name → agrees (Rename id name) s.
Proof.
  intros Hn. unfold agrees. cbn [precheck modified book_step]. unfold validate_display_name.
  rewrite Nat.ltb_antisym. destruct (Nat.leb_spec (length name) kMaxDisplayNameBytes) as [Hl|Hl]; cbn [negb].
  - rewrite orb_false_r. destruct (id =? 0); [done|]. apply (agrees_change id (λ d, rename_draft d name)).
    intros a Ha. destruct Hty as (_ & _ & _ & _ & Ht). pose proof (wf_drafts _ Hw) as Hd. rewrite Forall_forall in Ht, Hd.
    destruct (Ht a Ha) as (_ & _ & ? & ? & ? & ?), (Hd a Ha) as (? & ? & ? & ?). split; split_and!; cbn; done || lia.
  - by rewrite orb_true_r.
Qed.

Lemma agrees_delete id : agrees (Delete id) s.
Proof.
  unfold agrees. cbn [precheck modified book_step]. destruct (id =? 0); [done|].
  destruct (find_account id s) as [[i a]|] eqn:E.
  - rewrite (found_has _ _ _ _ Hw E). eexists. split; [done|]. by eapply becomes_delete.
  - by rewrite (not_found_has _ _ Hw E).
Qed.

Lemma agrees_reorder ids : agrees (Reorder ids) s.
Proof.
  unfold agrees. cbn [precheck modified book_step]. destruct (Nat.eqb_spec (length ids) (length (accounts s))) as [El|El]; cbn [negb].
  - destruct (assign_orders _ _ _ _) as [s'|] eqn:E.
    + apply becomes_reorder in E as [Hp Hb]; [|done..]. rewrite bool_decide_true by done. by eexists.
    + rewrite bool_decide_false; [done|]. intros Hp. apply assign_orders_total in Hp as [? Hp]; [|done]. congruence.
  - rewrite bool_decide_false; [done|]. intros Hp. apply El. by rewrite Hp, length_fmap, entries_length.
Qed.

Lemma agrees_last id : agrees (SetLastUsed id) s.
Proof.
  unfold agrees. cbn [precheck modified book_step]. destruct (id =? 0); [done|].
  rewrite existsb_id, <- has_account_spec by done. destruct (has_account id (book_of s)) eqn:E; cbn [negb]; [|done].
  eexists. split; [done|]. rewrite has_account_spec, bool_decide_eq_true in E by done. by apply becomes_last.
Qed.

Lemma agrees_wifi ssid password : bytes_ok ssid → bytes_ok password → agrees (SetWifi ssid password) s.
Proof.
  intros. unfold agrees. cbn [precheck modified book_step]. destruct (_ || _) eqn:E; [done|].
  rewrite !orb_false_iff, !Nat.ltb_ge in E. destruct E as (((_ & ?) & _) & ?).
  eexists. split; [done|]. by apply becomes_wifi.
Qed.
Lemma agrees_clear : agrees ClearWifi s.
Proof.
  unfold agrees. cbn [precheck modified book_step]. eexists. split; [done|].
  apply becomes_wifi; try done; cbn; unfold kMaxSsidBytes, kMaxWifiPasswordBytes; lia.
Qed.

Lemma request_agrees r : request_typed r → agrees r s.
Proof.
  destruct r; cbn [request_typed]; intros.
  - by apply agrees_replace.
  - by apply agrees_add.
  - by apply agrees_update.
  - by apply agrees_rename.
  - apply agrees_delete.
  - apply agrees_reorder.
  - apply agrees_last.
  - destruct_and!. by apply agrees_wifi.
  - apply agrees_clear.
Qed.
End Agrees.

(** ** The store is an account book *)

Section Store.
Context {N : Type} `{NvsLaws N} `{!SecurityBackend N}.
Implicit Types (st : AccountStore N).

Definition execute (r : request) : store_op (N:=N) StoreStatus.t :=
  match r with
  | Replace drafts => replace_accounts drafts
  | Add draft => λ st, let '((status, _), st) := add_account draft st in (status, st)
  | Update id draft => update_account id draft
  | Rename id name => rename_account id name
  | Delete id => delete_account id
  | Reorder ids => reorder_accounts ids
  | SetLastUsed id => set_last_used id
  | SetWifi ssid password => set_wifi ssid password
  | ClearWifi => clear_wifi
  end.

(** Every request checks, loads, changes and saves. *)
Lemma execute_eq r st : ready st = true →
  execute r st =
    match precheck r with
    | Some e => (e, st)
    | None =>
      let '((status, loaded), st) := on_flash load_state_unchecked st in
      if failed status then (status, st)
      else match modified r (default new_accounts loaded) with
           | inl e => (e, st)
           | inr s => on_flash (save_state_unchecked s) st
           end
    end.
Proof.
  intros Hr%StoreStatus.ok_true.
  assert (Hq : failed (require_ready (initialization_status_ st)) = false) by (unfold require_ready; by rewrite Hr).
  destruct r; cbn [execute];
    unfold replace_accounts, add_account, update_account, rename_account, delete_account, reorder_accounts,
      set_last_used, set_wifi, clear_wifi, precheck, modified;
    rewrite fn_get; cbn zeta; rewrite Hq; unfold fn, mbind, ctl_bind, leave_if, leave, mret, ctl_ret, call;
    repeat (match goal with
            | |- context [if ?b then _ else _] =>
                lazymatch b with context [fn] => fail | _ => destruct b end
            | |- context [on_flash load_state_unchecked ?s] => destruct (on_flash load_state_unchecked s) as [[? ?] ?]
            | |- context [push_accounts ?a ?b ?c] => destruct (push_accounts a b c)
            | |- context [find_account ?a ?b] => destruct (find_account a b) as [[? ?]|]
            | |- context [assign_orders ?a ?b ?c ?d] => destruct (assign_orders a b c d)
            | |- context [on_flash (save_state_unchecked ?a) ?s] => destruct (on_flash (save_state_unchecked a) s)
            end; try done).
Qed.

(** What a failure leaves, and what it is. *)
Definition refused (v v' : NvsView) (status e load_status : StoreStatus.t) : Prop :=
  visible v' = visible v ∧ status ≠ StoreStatus.kOk ∧ (status = e ∨ status = load_status).
(** The change to the book [b]: made for good on success; otherwise not made, or
    made by a write that was reported as failed. *)
Definition changed (v v' : NvsView) (status : StoreStatus.t) (b : Book) : Prop :=
  ∃ s', becomes s' b ∧
    (status = StoreStatus.kOk ∧ snapshot_written v v' s' ∧ pending v' = [] ∨
     status ≠ StoreStatus.kOk ∧ (visible v' = visible v ∨ snapshot_written v v' s')).

Lemma modified_error r s e : precheck r = None → modified r s = inl e → e ≠ StoreStatus.kOk.
Proof. intros _. destruct r; cbn [modified]; intros E; repeat case_match; by simplify_eq. Qed.
Lemma precheck_error r e : precheck r = Some e → e ≠ StoreStatus.kOk.
Proof.
  destruct r; cbn [precheck]; intros E; repeat case_match; simplify_eq; try done; by apply failed_true.
Qed.

Lemma execute_outcome r st s status st' :
  ready st = true → stored (view (flash_ st)) s → request_typed r → execute r st = (status, st') →
  ready st' = true ∧
  match book_step r (book_of s) with
  | inl e => refused (view (flash_ st)) (view (flash_ st')) status e (fst (fst (load_state_unchecked (flash_ st))))
  | inr b => changed (view (flash_ st)) (view (flash_ st')) status b
  end.
Proof.
  intros Hr Hs Ht E. rewrite execute_eq in E by done. pose proof Hs as (_ & Hty & Hw).
  pose proof (request_agrees s Hty Hw r Ht) as Ha. unfold agrees in Ha. destruct (precheck r) as [e|] eqn:Ep.
  { simplify_eq. rewrite Ha. apply precheck_error in Ep. split; [done|]. by split_and!; [..|left]. }
  unfold on_flash in E. destruct (load_state_unchecked (flash_ st)) as [[ls loaded] n1] eqn:El.
  destruct (load_spec _ _ _ _ _ Hs El) as [Hv [[-> ->]|[Hls ->]]].
  - change (default new_accounts (Some s)) with s in E. change (failed StoreStatus.kOk) with false in E. cbn iota in E.
    destruct (modified r s) as [e|s'] eqn:Em.
    + simplify_eq. rewrite Ha. split; [done|]. apply modified_error in Em; [|done].
      split_and!; [|done|by left]. cbn. by apply visible_same.
    + destruct Ha as (b & -> & Hb). destruct (save_state_unchecked s' _) as [ss n2] eqn:Es. simplify_eq. split; [done|].
      exists s'. split; [done|]. cbn in *. unfold snapshot_written. rewrite <- (visible_same _ _ Hv).
      apply save_spec in Es; [done|apply Hb..].
  - apply failed_true in Hls as Hf. rewrite Hf in E. simplify_eq. split; [done|]. cbn [flash_ upd_field].
    pose proof (visible_same _ _ Hv) as Hvis. destruct (modified r s) as [e|s'].
    + rewrite Ha. by split_and!; [..|right].
    + destruct Ha as (b & -> & Hb). exists s'. split; [done|]. right. by split; [|left].
Qed.

(** One request after the other. *)
Definition execute_all (rs : list request) (st : AccountStore N) : AccountStore N :=
  foldl (λ st r, snd (execute r st)) st rs.

(** C23: Whatever requests are made, in whatever order, and whichever of them the
    NVS fails, what is stored stays a well-formed state of bytes and words of their
    widths, and the store stays ready. *)
Theorem stored_stays_wf rs st s :
  ready st = true → stored (view (flash_ st)) s → Forall request_typed rs →
  ready (execute_all rs st) = true ∧
  ∃ s', stored (view (flash_ (execute_all rs st))) s' ∧ state_typed s' ∧ state_wf s'.
Proof.
  intros Hr Hs Hrs. revert st s Hr Hs. induction Hrs as [|r rs Ht _ IH]; intros st s Hr Hs.
  { split; [done|]. exists s. split; [done|apply Hs]. }
  destruct (execute r st) as [status st'] eqn:E. destruct (execute_outcome _ _ _ _ _ Hr Hs Ht E) as [Hr' Hout].
  assert (Hst : ∃ s', stored (view (flash_ st')) s').
  { destruct (book_step r (book_of s)) as [e|b].
    - destruct Hout as [Hv _]. exists s. by eapply stored_visible.
    - destruct Hout as (s' & (Hty & Hw & _) & [(_ & Hwr & _)|(_ & [Hv|Hwr])]).
      + exists s'. by eapply written_stored.
      + exists s. by eapply stored_visible.
      + exists s'. by eapply written_stored. }
  destruct Hst as [s' Hs']. unfold execute_all. cbn [foldl]. rewrite E. by apply (IH st' s').
Qed.
End Store.

(** ** Which calls failed

    Over an NVS that records what its calls report, the answer of a request is
    exact: it is the error of the first call that failed, or the answer of the
    book. *)

(** The first failure reported, and the status it is turned into. *)
Fixpoint first_error (errors : list esp_err_t) : option esp_err_t :=
  match errors with
  | [] => None
  | e :: errors => if esp_ok e then first_error errors else Some e
  end.
Definition nvs_status (errors : list esp_err_t) : StoreStatus.t :=
  match first_error errors with Some e => map_esp_error e | None => StoreStatus.kOk end.

Lemma first_error_app es1 es2 :
  first_error (es1 ++ es2) = match first_error es1 with Some e => Some e | None => first_error es2 end.
Proof. induction es1 as [|e es IH]; [done|]. cbn. by destruct (esp_ok e). Qed.
Lemma nvs_status_cons e es : nvs_status (e :: es) = if esp_ok e then nvs_status es else map_esp_error e.
Proof. unfold nvs_status. cbn. by destruct (esp_ok e). Qed.
Lemma first_error_some es e : first_error es = Some e → e ≠ ESP_OK.
Proof.
  induction es as [|e' es IH]; [done|]. cbn. destruct (esp_ok e') eqn:E; [done|]. intros [= <-]. by apply esp_ok_false.
Qed.
Lemma nvs_status_ok es : nvs_status es = StoreStatus.kOk ↔ first_error es = None.
Proof.
  induction es as [|e es IH]; [done|]. rewrite nvs_status_cons. cbn. destruct (esp_ok e) eqn:E; [done|].
  apply esp_ok_false in E. by rewrite map_esp_ok.
Qed.

Lemma state_bytes_positive s : (0 < length (state_bytes s))%nat.
Proof. unfold state_bytes. rewrite length_app. change (length kMagic) with 4%nat. lia. Qed.

Section Recorded.
Context {N : Type} `{Nvs0 : !Nvs N} `{!NvsLaws N}.
#[local] Existing Instance recorded_nvs.
#[local] Existing Instance recorded_laws.
Abbreviation Recorder := (N * list esp_err_t)%type.
Implicit Types (n : Recorder).

(** The errors reported between [n] and [n'], and what a function answers to
    them. *)
Definition reports n n' (errors : list esp_err_t) : Prop := snd n' = snd n ++ errors.

Lemma reports_refl n : reports n n [].
Proof. unfold reports. by rewrite app_nil_r. Qed.
Lemma reports_trans n1 n2 n3 es1 es2 : reports n1 n2 es1 → reports n2 n3 es2 → reports n1 n3 (es1 ++ es2).
Proof. unfold reports. intros H1 H2. by rewrite H2, H1, app_assoc. Qed.

Lemma open_reports mode n st h n' : open_state mode n = ((st, h), n') →
  ∃ e, reports n n' [e] ∧ st = map_esp_error e.
Proof.
  unfold open_state. destruct (nvs_open_from_partition _ _ _ _) as [[e x] n1] eqn:E. intros [= <- <- <-].
  apply recorded_inv in E as [_ E]. by exists e.
Qed.
Lemma commit_reports e h n e' n' : and_then e (nvs_commit h) n = (e', n') →
  ∃ es, reports n n' es ∧ nvs_status (e :: es) = map_esp_error e'.
Proof.
  unfold and_then. destruct (esp_ok e) eqn:Ee.
  - intros [_ E]%recorded_inv. exists [e']. split; [done|]. rewrite !nvs_status_cons, Ee.
    destruct (esp_ok e') eqn:E'; [|done]. by apply esp_ok_true in E' as ->.
  - intros [= <- <-]. exists []. split; [apply reports_refl|]. by rewrite nvs_status_cons, Ee.
Qed.

(** Loading what is stored. *)
Lemma load_reports n s st out n' : stored (view n) s → load_state_unchecked n = ((st, out), n') →
  ∃ es, reports n n' es ∧ st = nvs_status es.
Proof.
  intros Hs E. pose proof Hs as (Hvis & Hty & Hw). pose proof (load_spec _ _ _ _ _ Hs E) as [_ Hout].
  unfold load_state_unchecked in E. exec_step E. destruct a as [so h].
  pose proof Ef as (e1 & R1 & ->)%open_reports. apply open_state_spec in Ef as [Hv1 Hh].
  exec_step E. { exists [e1]. split; [done|]. simplify_eq. rewrite nvs_status_cons. by destruct e1. }
  apply failed_false in Ec. specialize (Hh Ec). apply map_esp_ok in Ec as ->.
  exec_step E. destruct a as [e2 size]. pose proof Ef as [_ R2]%recorded_inv. fold (reports s0 s1 (error_first (e2, size))) in R2.
  apply nvs_get_blob_size_law in Ef as ((Hv2 & Hh2 & _) & Hsize & _). cbn in R2.
  pose proof (reports_trans _ _ _ _ _ R1 R2) as R12. cbn [app error_first fst] in R12.
  destruct (_ || _) eqn:Eb.
  - do 2 exec_step E. apply recorded_inv in Ef as [_ R3]. cbn [no_error] in R3.
    exists [ESP_OK; e2]. split; [unfold reports in *; by rewrite R3, app_nil_r|]. simplify_eq.
    rewrite !nvs_status_cons. destruct (esp_ok e2) eqn:E2; [|done]. exfalso. apply esp_ok_true in E2 as ->.
    destruct (Hsize eq_refl _ Hh) as [Hb _]. destruct (Hb eq_refl) as (v & Hv & b & -> & <-).
    rewrite (visible_same _ _ Hv1), Hvis in Hv. injection Hv as <-.
    pose proof (state_bytes_length _ Hw) as Hl. pose proof (state_bytes_positive s).
    cbn [negb esp_ok] in Eb. rewrite Z.gtb_ltb in Eb.
    rewrite !orb_true_iff, Z.eqb_eq, Z.ltb_lt in Eb. unfold kMaxSnapshotBytes in *. destruct Eb as [[?|?]|?]; [done|lia..].
  - rewrite !orb_false_iff, negb_false_iff, esp_ok_true in Eb. destruct Eb as ((-> & _) & _).
    exec_step E. destruct a as [e3 encoded]. pose proof Ef as [_ R3]%recorded_inv. cbn in R3.
    apply nvs_get_blob_law in Ef as (_ & Hblob & _). rewrite <- Hh2 in Hh.
    exec_step E. apply recorded_inv in Ef as [_ R4]. cbn [no_error] in R4.
    assert (R : reports n s3 [ESP_OK; ESP_OK; e3]).
    { unfold reports in *. by rewrite R4, R3, R12, app_nil_r, <- app_assoc. }
    exec_step E; [simplify_eq; eexists; split; [exact R|]; rewrite !nvs_status_cons; rewrite negb_true_iff in Ec; by rewrite Ec|].
    rewrite negb_false_iff in Ec. apply esp_ok_true in Ec as ->. exec_step E. eexists. split; [exact R|].
    destruct (Hblob eq_refl _ Hh) as [Hb _]. destruct (Hb eq_refl) as (v & Hv & ->).
    rewrite (visible_same _ _ Hv2), (visible_same _ _ Hv1), Hvis in Hv. injection Hv as <-.
    rewrite (proj2 (snapshot_exact _ s (state_bytes_ok _ Hty))) in * by done. by simplify_eq.
Qed.

(** Saving a well-formed state. *)
Lemma save_reports n s st n' : state_typed s → state_wf s → save_state_unchecked s n = (st, n') →
  ∃ es, reports n n' es ∧ st = nvs_status es.
Proof.
  intros Hty Hw E. unfold save_state_unchecked in E. rewrite encode_state_exact, decide_True in E by (try apply validate_state_exact; done).
  exec_step E; [done|]. exec_step E. destruct a as [so h]. apply open_reports in Ef as (e1 & R1 & ->).
  exec_step E. { exists [e1]. split; [done|]. rewrite nvs_status_cons. by destruct e1. }
  apply failed_false, map_esp_ok in Ec0 as ->. exec_step E. apply recorded_inv in Ef as [_ R2]. fold (reports s0 s1 (error_only a)) in R2.
  exec_step E. apply commit_reports in Ef as (es & R3 & Hst). exec_step E. apply recorded_inv in Ef as [_ R4].
  exec_step E. exists (ESP_OK :: a :: es). split.
  - pose proof (reports_trans _ _ _ _ _ (reports_trans _ _ _ _ _ R1 R2) R3) as R. unfold reports in *. by rewrite R4, R, app_nil_r.
  - by rewrite nvs_status_cons.
Qed.
(** The answer of a request: the book's, unless a call failed. *)
Definition book_status (r : request) (b : Book) : StoreStatus.t :=
  match book_step r b with inl e => e | inr _ => StoreStatus.kOk end.

Lemma execute_reports r (st : AccountStore Recorder) s status st' :
  ready st = true → stored (view (flash_ st)) s → request_typed r → execute r st = (status, st') →
  ∃ es, reports (flash_ st) (flash_ st') es ∧
    status = match first_error es with Some e => map_esp_error e | None => book_status r (book_of s) end.
Proof.
  intros Hr Hs Ht E. rewrite execute_eq in E by done. pose proof Hs as (_ & Hty & Hw).
  pose proof (request_agrees s Hty Hw r Ht) as Ha. unfold agrees in Ha. unfold book_status.
  destruct (precheck r) as [e|] eqn:Ep. { simplify_eq. rewrite Ha. exists []. split; [apply reports_refl|done]. }
  unfold on_flash in E. destruct (load_state_unchecked (flash_ st)) as [[ls loaded] n1] eqn:El.
  destruct (load_reports _ _ _ _ _ Hs El) as (es1 & R1 & Hls).
  destruct (load_spec _ _ _ _ _ Hs El) as [_ [[-> ->]|[Hne ->]]].
  - symmetry in Hls. apply nvs_status_ok in Hls as Hok. change (failed StoreStatus.kOk) with false in E. cbn iota in E.
    change (default new_accounts (Some s)) with s in E. destruct (modified r s) as [e|s'] eqn:Em.
    + simplify_eq. rewrite Ha. exists es1. split; [exact R1|by rewrite Hok].
    + destruct Ha as (b & -> & Hb). destruct (save_state_unchecked s' _) as [ss n2] eqn:Es. simplify_eq.
      apply save_reports in Es as (es2 & R2 & ->); [|apply Hb..]. exists (es1 ++ es2).
      split; [by eapply reports_trans|]. by rewrite first_error_app, Hok.
  - apply failed_true in Hne as Hf. rewrite Hf in E. simplify_eq. exists es1. split; [done|].
    unfold nvs_status in *. by destruct (first_error es1).
Qed.

(** The snapshot of the new book is what is stored. *)
Definition made (v v' : NvsView) (b : Book) : Prop := ∃ s', becomes s' b ∧ snapshot_written v v' s'.

(** C12: The account store is an account book.  While it is ready and every NVS
    call a request makes succeeds, the request gives exactly what the book says: a
    request that the book refuses is refused with the book's error and changes
    nothing, and one it accepts succeeds with exactly the new book stored, for good.
    Where a call fails, the answer is the error of the first that did, and the old
    book is stored, or the new one where the book accepts the request. *)
Theorem account_store_refines r (st : AccountStore Recorder) s status st' :
  ready st = true → stored (view (flash_ st)) s → request_typed r → execute r st = (status, st') →
  ready st' = true ∧ ∃ errors, reports (flash_ st) (flash_ st') errors ∧
  let v := view (flash_ st) in let v' := view (flash_ st') in
  match first_error errors with
  | None =>
    match book_step r (book_of s) with
    | inl e => status = e ∧ visible v' = visible v
    | inr b => status = StoreStatus.kOk ∧ made v v' b ∧ pending v' = []
    end
  | Some e =>
    e ≠ ESP_OK ∧ status = map_esp_error e ∧
    (visible v' = visible v ∨ ∃ b, book_step r (book_of s) = inr b ∧ made v v' b)
  end.
Proof.
  intros Hr Hs Ht E. destruct (execute_outcome _ _ _ _ _ Hr Hs Ht E) as [Hr' Hout]. split; [done|].
  destruct (execute_reports _ _ _ _ _ Hr Hs Ht E) as (es & R & Hst). exists es. split; [done|]. cbn zeta.
  unfold book_status in Hst. destruct (first_error es) as [e|] eqn:Ee.
  - assert (He : e ≠ ESP_OK) by by eapply first_error_some. split_and!; [done..|].
    destruct (book_step r (book_of s)) as [e'|b]; [left; apply Hout|].
    destruct Hout as (s' & Hb & [(Hok & _)|(_ & [Hv|Hwr])]); [|by left|right; exists b; split; [done|by exists s']].
    rewrite <- map_esp_ok, <- Hst in He. done.
  - destruct (book_step r (book_of s)) as [e'|b]; [split; [done|apply Hout]|].
    destruct Hout as (s' & Hb & [(Hok & Hwr & Hp)|(Hne & _)]); [|done]. split_and!; [done|by exists s'|done].
Qed.

End Recorded.
