(* ===== verification/AccountSecurity.v ===== *)
(** * The account store comes up, and its partition is encrypted

    The scan for the probe finds it wherever it is in the partition, across the
    chunks it reads; the development backend accepts a partition only when the
    probe it has stored cannot be seen in the flash; and the store comes up with
    the accounts that are stored, or with none after a reset. *)

From S2P Require Import Prelude Bytes ByteReader Nvs Runtime AccountState AccountStateCorrect.
From S2P Require Import AccountStore AccountBook AccountStoreCorrect.

#[local] Arguments encode_state : simpl never.
#[local] Arguments decode_state : simpl never.
#[local] Arguments state_bytes : simpl never.
#[local] Arguments contains : simpl never.
#[local] Opaque kProbeValue.

(** ** Searching *)

Definition occurs {A} (needle l : list A) : Prop := ∃ before after, l = before ++ needle ++ after.

Lemma starts_with_spec needle l : starts_with needle l = true ↔ ∃ after, l = needle ++ after.
Proof.
  revert l. induction needle as [|a needle IH]; intros l; cbn.
  - split; [by exists l|done].
  - destruct l as [|b l]; [split; [done|by intros [? ?]]|]. rewrite andb_true_iff, Z.eqb_eq, IH. split.
    + intros [-> [after ->]]. by exists after.
    + intros [after [= -> ->]]. eauto.
Qed.
Lemma contains_unfold needle l :
  contains needle l = starts_with needle l || match l with [] => false | _ :: l => contains needle l end.
Proof. by destruct l. Qed.
Lemma contains_spec needle l : contains needle l = true ↔ occurs needle l.
Proof.
  induction l as [|x l IH]; rewrite contains_unfold, orb_true_iff, starts_with_spec.
  - split; [|].
    + intros [[after ->]|]; [by exists [], after|done].
    + intros (before & after & E). symmetry in E. apply app_eq_nil in E as [-> E]. left. by exists after.
  - rewrite IH. split.
    + intros [[after ->]|(before & after & ->)]; [by exists [], after|by exists (x :: before), after].
    + intros ([|y before] & after & E); [left; by exists after|]. injection E as -> ->. right. by exists before, after.
Qed.

(** Looking at what is new, with as much before it as can belong to an
    occurrence, is enough. *)
Lemma occurs_window {A} (p l : list A) o k :
  ¬ occurs p (take o l) → (o ≤ k)%nat →
  occurs p (take k l) ↔ occurs p (drop (o - Nat.min (length p - 1) o) (take k l)).
Proof.
  intros Hno Hk. rewrite <- (Nat.min_l o k Hk), <- take_take in Hno. generalize dependent (take k l). clear l k Hk.
  intros l Hno. split.
  - intros (before & after & ->). destruct (decide (length before + length p ≤ o)%nat) as [Hle|Hgt].
    + destruct Hno. exists before, (take (o - length before - length p) after). by rewrite !take_app_ge by lia.
    + exists (drop (o - Nat.min (length p - 1) o) before), after. rewrite drop_app_le; [done|]. lia.
  - intros (before & after & E). exists (take (o - Nat.min (length p - 1) o) l ++ before), after.
    by rewrite <- app_assoc, <- E, take_drop.
Qed.

(** ** The flash of the partition *)

(** A read of the raw flash gives what is there; neither finding the partition nor
    reading it changes anything. *)
Class EspPartitionLaws (N : Type) `{NvsLaws N} `{EspPartition N} := {
  raw_flash : N → bytes;
  secure_init_with_law label key tweak n e n' :
    nvs_flash_secure_init_with label key tweak n = (e, n') → same_values (view n) (view n');
  partition_find_law label n size n' : esp_partition_find_first label n = (size, n') →
    same_values (view n) (view n') ∧ raw_flash n' = raw_flash n ∧
    (∀ k, size = Some k → length (raw_flash n) = k);
  partition_read_law label o k n e data n' : esp_partition_read label o k n = ((e, data), n') →
    same_values (view n) (view n') ∧ raw_flash n' = raw_flash n ∧
    (e = ESP_OK → data = take k (drop o (raw_flash n)));
}.

Section Dev.
Context {N : Type} `{EspPartitionLaws N}.
Implicit Types (n : N).

Lemma map_esp_security e : map_esp_error e ≠ StoreStatus.kSecurityInvariant.
Proof. by destruct e. Qed.

(** A read of a part of the flash [l] that fails with [e]. *)
Definition failed_read (l : bytes) (o : nat) (e : esp_err_t) : Prop :=
  ∃ k n data n', raw_flash n = l ∧ (0 < k ≤ kChunkSize)%nat ∧ (o + k ≤ length l)%nat ∧
    esp_partition_read kPartitionLabel o k n = ((e, data), n') ∧ e ≠ ESP_OK.

(** What the scan reports about the flash [l]. *)
Definition scan_result (l : bytes) (found : bool) (status : StoreStatus.t) : Prop :=
  (found = true ∧ status = StoreStatus.kSecurityInvariant ∧ occurs kProbeValue l) ∨
  (found = false ∧ status = StoreStatus.kOk ∧ ¬ occurs kProbeValue l) ∨
  (found = false ∧ ∃ o e, failed_read l o e ∧ status = map_esp_error e ∧ ¬ occurs kProbeValue (take o l)).

(** The window after a chunk: what was kept, and the chunk. *)
Lemma window_spec (l buffer : bytes) offset carry chunk :
  (carry ≤ offset)%nat → (offset + chunk ≤ length l)%nat → (carry + chunk ≤ length buffer)%nat →
  take carry buffer = drop (offset - carry) (take offset l) →
  let b := take carry buffer ++ take chunk (drop offset l) ++ drop (carry + chunk) buffer in
  take (carry + chunk) b = drop (offset - carry) (take (offset + chunk) l) ∧ length b = length buffer ∧
  ∀ c, (c ≤ carry + chunk)%nat →
    take c (take c (drop (carry + chunk - c) b) ++ drop c b) = drop (offset + chunk - c) (take (offset + chunk) l) ∧
    length (take c (drop (carry + chunk - c) b) ++ drop c b) = length buffer.
Proof.
  intros Hc Hl Hb Ht b. set (window := drop (offset - carry) (take (offset + chunk) l)).
  assert (Hw : take carry buffer ++ take chunk (drop offset l) = window).
  { unfold window. rewrite Ht, <- drop_app_le by (rewrite length_take; lia). f_equal.
    rewrite take_take_drop. done. }
  assert (Hlw : length window = (carry + chunk)%nat) by (unfold window; rewrite length_drop, length_take; lia).
  assert (Eb : b = window ++ drop (carry + chunk) buffer) by (unfold b; by rewrite app_assoc, Hw).
  assert (Hlb : length b = length buffer) by (rewrite Eb, length_app, Hlw, length_drop; lia).
  split_and!; [by rewrite Eb, take_app_length'|done|]. intros c Hcc. split.
  - assert (Hlc : length (take c (drop (carry + chunk - c) b)) = c) by (rewrite length_take, length_drop; lia).
    rewrite take_app_length' by done. rewrite Eb, drop_app_le, take_app_length' by (rewrite ?length_drop; lia).
    unfold window. rewrite drop_drop. f_equal. lia.
  - rewrite length_app, length_take, !length_drop. lia.
Qed.

Lemma scan_spec fuel : ∀ n offset carry buffer found status n',
  (offset ≤ length (raw_flash n))%nat → (length (raw_flash n) - offset ≤ kChunkSize * fuel)%nat →
  carry = Nat.min probe_carry offset → take carry buffer = drop (offset - carry) (take offset (raw_flash n)) →
  length buffer = (kChunkSize + probe_carry)%nat → ¬ occurs kProbeValue (take offset (raw_flash n)) →
  scan_partition fuel (length (raw_flash n)) offset carry buffer n = ((found, status), n') →
  same_values (view n) (view n') ∧ raw_flash n' = raw_flash n ∧ scan_result (raw_flash n) found status.
Proof.
  induction fuel as [|fuel IH]; intros n offset carry buffer found status n' Ho Hf Hc Hb Hlen Hno E; cbn [scan_partition] in E.
  { exec_step E. simplify_eq. rewrite take_ge in Hno by lia. split_and!; [done|done|]. right; left. done. }
  destruct (Nat.ltb_spec offset (length (raw_flash n))) as [Hlt|Hge]; cbn [negb] in E.
  2:{ exec_step E. simplify_eq. rewrite take_ge in Hno by lia. split_and!; [done|done|]. right; left. done. }
  set (chunk := Nat.min kChunkSize (length (raw_flash n) - offset)) in *.
  assert (Hchunk : (chunk ≤ kChunkSize)%nat ∧ (offset + chunk ≤ length (raw_flash n))%nat ∧ (0 < chunk)%nat
    ∧ (chunk = kChunkSize ∨ offset + chunk = length (raw_flash n))%nat) by (unfold chunk, kChunkSize; lia).
  destruct Hchunk as (Hch & Hcl & Hcp & Hcc). clearbody chunk. exec_step E. destruct a as [e data].
  pose proof Ef as (Hv & Hraw & Hd)%partition_read_law. symmetry in Hraw. rewrite Hraw in *. exec_step E.
  { simplify_eq. rewrite negb_true_iff, esp_ok_false in Ec. split_and!; [done|done|]. right; right.
    split; [done|]. exists offset, e. split_and!; [|done|done]. by exists chunk, n, data, n'; split_and!. }
  rewrite negb_false_iff, esp_ok_true in Ec. specialize (Hd Ec). subst data.
  assert (Hpc : length kProbeValue = S probe_carry) by (vm_compute; reflexivity).
  destruct (window_spec (raw_flash s) buffer offset carry chunk) as (Hwin & Hlb & Hnext); [lia..|done|]. cbn zeta in *.
  rewrite Hwin in E. assert (Hocc : occurs kProbeValue (take (offset + chunk) (raw_flash s)) ↔
    occurs kProbeValue (drop (offset - carry) (take (offset + chunk) (raw_flash s)))).
  { rewrite (occurs_window _ _ offset) by (done || lia). replace (length kProbeValue - 1)%nat with probe_carry by lia. by subst carry. }
  exec_step E.
  { simplify_eq. split_and!; [done|done|]. left. split_and!; [done|done|]. apply contains_spec, Hocc in Ec0 as (before & after & Eo).
    exists before, (after ++ drop (offset + chunk) (raw_flash n')). rewrite app_assoc, app_assoc, <- (app_assoc before), <- Eo.
    by rewrite take_drop. }
  rewrite fn_call_tail in E. destruct (Hnext (probe_carry `min` (carry + chunk))%nat) as [Hnb Hnl]; [lia|].
  apply IH in E; [|done|lia|lia|rewrite Hnb; f_equal; lia|by rewrite Hnl|by rewrite Hocc, <- contains_spec, Ec0].
  destruct E as (Hv' & ? & ?). split_and!; [by eapply same_values_trans|done|done].
Qed.

Lemma contains_plain_probe_spec n found status n' :
  contains_plain_probe (length (raw_flash n)) n = ((found, status), n') →
  same_values (view n) (view n') ∧ raw_flash n' = raw_flash n ∧ scan_result (raw_flash n) found status.
Proof.
  intros E. eapply scan_spec; [| | | | | |exact E].
  - lia.
  - unfold kChunkSize. pose proof (Nat.div_mod_eq (length (raw_flash n)) 256). pose proof (Nat.mod_upper_bound (length (raw_flash n)) 256). lia.
  - lia.
  - by rewrite !take_0.
  - apply zeros_length.
  - intros (before & after & Eo). rewrite take_0 in Eo. apply (f_equal length) in Eo. rewrite !length_app in Eo.
    assert (Hp : (0 < length kProbeValue)%nat) by (apply Nat.ltb_lt; vm_compute; reflexivity). cbn in Eo. lia.
Qed.

(** C38: The scan of the flash of the partition, completely: it reports the probe
    only if it is somewhere in the flash, and a clean flash only if it is nowhere
    in it, whatever chunks it is read in; otherwise it reports the error of a
    read of a part of the flash, before which no probe is.  So where the reads
    succeed, the probe is found exactly when it occurs, and the status says which;
    the loop covers the whole flash, and nothing that is stored changes. *)
Theorem plain_probe_exact n found status n' :
  contains_plain_probe (length (raw_flash n)) n = ((found, status), n') →
  same_values (view n) (view n') ∧ raw_flash n' = raw_flash n ∧
  scan_result (raw_flash n) found status ∧
  ((∀ o e, ¬ failed_read (raw_flash n) o e) →
   (found = true ↔ occurs kProbeValue (raw_flash n)) ∧
   status = if found then StoreStatus.kSecurityInvariant else StoreStatus.kOk).
Proof.
  intros (Hv & Hraw & Hs)%contains_plain_probe_spec. split_and!; [done..|]. intros Hreads.
  destruct Hs as [(-> & -> & ?)|[(-> & -> & ?)|(_ & o & e & Hf & _)]]; [done|done|]. by destruct (Hreads o e).
Qed.

(** ** The development backend *)

Abbreviation probe_key := (kProbeNamespace, kProbeKey).
(** The values of the other namespaces. *)
Definition others_kept (v v' : NvsView) : Prop := ∀ key, fst key ≠ kProbeNamespace → visible v' !! key = visible v !! key.

Lemma others_same v v' : visible v' = visible v → others_kept v v'.
Proof. by intros E key _; rewrite E. Qed.
Lemma others_trans v1 v2 v3 : others_kept v1 v2 → others_kept v2 v3 → others_kept v1 v3.
Proof. intros H12 H23 key Hk. by rewrite H23, H12. Qed.
Lemma others_write v v' e k x : writes v v' e ((kProbeNamespace, k), x) → others_kept v v'.
Proof.
  intros [E|[_ E]]%write_visible key Hk; rewrite E; [|done]. destruct key as [ns k']. cbn in Hk.
  destruct x as [x|]; cbn; [apply lookup_insert_ne|apply lookup_delete_ne]; congruence.
Qed.
#[local] Hint Resolve others_same others_write visible_same : core.

Lemma dev_erase_probe_spec n e n' : dev_erase_probe n = (e, n') →
  others_kept (view n) (view n') ∧ (e = ESP_OK → visible (view n') !! probe_key = None).
Proof.
  intros E. unfold dev_erase_probe in E. exec_step E. destruct a as [e1 h]. apply nvs_open_law in Ef as [Hv1 Hh].
  destruct (esp_ok e1) eqn:Ee; [|exec_step E; apply esp_ok_false in Ee; split; [by apply others_same, visible_same|done]].
  apply esp_ok_true in Ee. specialize (Hh Ee). subst e1. exec_step E.
  apply (nvs_erase_key_law _ _ _ _ _ _) with (2 := Hh) in Ef as [Hwr Hnf]. cbn zeta in E.
  exec_step E. apply commit_spec in Ef as [Hvis Hok]. exec_step E. apply nvs_close_law in Ef as Hv4. exec_step E.
  assert (Hvis' : visible (view n') = visible (view s0)) by (rewrite (visible_same _ _ Hv4); done).
  split.
  - eapply others_trans; [by apply others_same, visible_same|]. eapply others_trans; [by eapply others_write|]. auto.
  - intros He. destruct (Hok He) as [Hr _]. rewrite Hvis'. destruct (decide (a = ESP_ERR_NVS_NOT_FOUND)) as [->|Hne].
    + destruct (Hnf eq_refl) as [_ Hg]. apply write_visible in Hwr as [Hwr|[_ Hwr]]; rewrite Hwr; [apply lookup_delete_eq|done].
    + rewrite bool_decide_false in Hr by done. subst a. apply write_visible in Hwr as [Hwr|[? _]]; [|done].
      rewrite Hwr. apply lookup_delete_eq.
Qed.

(** Verifying succeeds only after a moment at which the probe was stored for good
    and yet is nowhere in the flash, and leaves no probe behind; whatever happens,
    the other namespaces keep their values. *)
Lemma dev_verify_spec n status n' : dev_verify_encryption_active n = (status, n') →
  others_kept (view n) (view n') ∧
  (status = StoreStatus.kOk →
     visible (view n') !! probe_key = None ∧
     ∃ m, committed (view m) !! probe_key = Some (VBlob kProbeValue) ∧ ¬ occurs kProbeValue (raw_flash m)).
Proof.
  intros E. unfold dev_verify_encryption_active in E. exec_step E. destruct a as [e h].
  apply nvs_open_law in Ef as [Hv1 Hh]. exec_step E.
  { rewrite negb_true_iff, esp_ok_false in Ec. split; [auto|]. by intros ?%map_esp_ok. }
  rewrite negb_false_iff, esp_ok_true in Ec. specialize (Hh Ec). subst e. exec_step E.
  apply (nvs_set_blob_law _ _ _ _ _ _ _) with (2 := Hh) in Ef as Hwr. exec_step E. apply commit_spec in Ef0 as [Hvis Hok].
  clear Ef. exec_step E. rename Ef into Ef0. apply nvs_close_law in Ef0 as Hv4. clear Ef0.
  assert (Hk : others_kept (view n) (view s2)).
  { eapply others_trans; [by apply others_same, visible_same|]. eapply others_trans; [by eapply others_write|].
    apply others_same. by rewrite (visible_same _ _ Hv4). }
  exec_step E. { rewrite negb_true_iff, esp_ok_false in Ec. split; [done|]. by intros ?%map_esp_ok. }
  rewrite negb_false_iff, esp_ok_true in Ec. destruct (Hok Ec) as [-> Hpend].
  assert (Hprobe : committed (view s2) !! probe_key = Some (VBlob kProbeValue)).
  { destruct Hv4 as [-> Hp4]. transitivity (visible (view s1) !! probe_key).
    - unfold visible. by rewrite Hpend.
    - rewrite Hvis. apply write_visible in Hwr as [->|[]]; [|done]. apply lookup_insert_eq. }
  exec_step E. match goal with Hf : esp_partition_find_first _ _ = (?p, _) |- _ =>
    apply partition_find_law in Hf as (Hv5 & Hr5 & Hsize); destruct p as [size|] end.
  2:{ exec_step E. split; [|done]. eapply others_trans; [exact Hk|]. auto. }
  specialize (Hsize _ eq_refl). exec_step E.
  match goal with Hf : contains_plain_probe _ _ = (?p, _) |- _ =>
    destruct p as [found scan_status]; subst size; rewrite <- Hr5 in Hf;
    apply contains_plain_probe_spec in Hf as (Hv6 & Hr6 & Hscan) end.
  exec_step E. match goal with Hf : dev_erase_probe _ = _ |- _ => apply dev_erase_probe_spec in Hf as [Ho7 Hgone] end.
  assert (Hk' : others_kept (view n) (view s5)).
  { eapply others_trans; [exact Hk|]. eapply others_trans; [|exact Ho7]. apply others_same.
    by rewrite (visible_same _ _ Hv6), (visible_same _ _ Hv5). }
  exec_step E.
  { split; [done|]. intros ->. apply orb_true_iff in Ec0 as [->|Hf%failed_true]; [|done].
    by destruct Hscan as [(_ & ? & _)|[(? & _)|(? & _)]]. }
  exec_step E. split; [done|]. intros He%map_esp_ok. split; [by apply Hgone|].
  apply orb_false_iff in Ec0 as [-> ->%failed_false]. destruct Hscan as [(? & _)|[(_ & _ & Hno)|Hbad]]; [done| |].
  2:{ destruct Hbad as (_ & o & e & (k & m & data & m' & _ & _ & _ & _ & Hne) & Hst & _). symmetry in Hst. by apply map_esp_ok in Hst. }
  rewrite Hr5 in Hno. eauto.
Qed.
End Dev.

(** ** What the store needs of a backend *)

Class SecurityBackendLaws (N : Type) `{NvsLaws N} `{!SecurityBackend N} := {
  backend_initialize_law n status n' : initialize_partition n = (status, n') → visible (view n') = visible (view n);
  backend_verify_law n status n' : verify_encryption_active n = (status, n') → others_kept (view n) (view n');
  backend_erase_law n n' : erase_user_partition n = (StoreStatus.kOk, n') → visible (view n') = ∅;
}.

(** The development backend provides it. *)
#[export] Instance dev_backend_laws {N} `{EspPartitionLaws N} : SecurityBackendLaws N.
Proof.
  split; intros n status.
  - intros n' E. cbn in E. unfold dev_initialize_partition in E. exec E. by apply secure_init_with_law, visible_same in Ef.
  - intros n' E. by apply dev_verify_spec in E as [? _].
  - intros E. cbn in E. unfold dev_erase_user_partition in E. exec_step E. exec_step E.
    match goal with Hm : map_esp_error _ = StoreStatus.kOk |- _ => apply map_esp_ok in Hm; subst end.
    apply nvs_erase_law in Ef as [Hc Hp]. unfold visible. by rewrite Hc, Hp.
Qed.

(** Reading a number says that the key is missing with the NVS error alone. *)
Class NvsGetU32NotFound (N : Type) `{Nvs N} := {
  nvs_get_u32_not_found h k n e x n' : nvs_get_u32 h k n = ((e, x), n') → e ≠ ESP_ERR_NOT_FOUND;
}.

Lemma map_esp_not_found e : map_esp_error e = StoreStatus.kNotFound → e = ESP_ERR_NVS_NOT_FOUND ∨ e = ESP_ERR_NOT_FOUND.
Proof. destruct e; auto; done. Qed.

Abbreviation schema_key := (kStateNamespace, kSchemaKey).
Definition has_schema (v : NvsView) : Prop := ∃ x, visible v !! schema_key = Some (VU32 x).

Section Start.
Context {N : Type} `{NvsNotFoundLaws N} `{!NvsGetU32NotFound N}.
Implicit Types (n : N).

Lemma read_schema_spec n status schema n' : read_schema n = ((status, schema), n') →
  visible (view n') = visible (view n) ∧
  (status = StoreStatus.kOk → visible (view n) !! schema_key = Some (VU32 schema)) ∧
  (status = StoreStatus.kNotFound → ¬ has_schema (view n)).
Proof.
  intros E. unfold read_schema in E. exec_step E. destruct a as [so h]. unfold open_state in Ef.
  destruct (nvs_open_from_partition _ _ _ _) as [[e x] n1] eqn:Eo. injection Ef as <- <- <-.
  apply nvs_open_not_found in Eo as Hnf. apply nvs_open_law in Eo as [Hv1 Hh]. destruct Hnf as [Hne Hnone].
  exec_step E.
  { apply failed_true in Ec. simplify_eq. split_and!; [by apply visible_same|done|].
    intros [He|He]%map_esp_not_found [y Hy]; [|done]. by rewrite Hnone in Hy. }
  apply failed_false, map_esp_ok in Ec. specialize (Hh Ec). exec_step E. destruct a as [e2 v].
  apply nvs_get_u32_not_found in Ef as Hne2. apply nvs_get_u32_law in Ef as ((Hv2 & _) & Hok & Hno). exec_step E.
  match goal with Hf : nvs_close _ _ = _ |- _ => apply nvs_close_law in Hf as Hv3 end. exec_step E. simplify_eq.
  rewrite (visible_same _ _ Hv3), (visible_same _ _ Hv2), (visible_same _ _ Hv1). split_and!; [done|..].
  - intros He%map_esp_ok. destruct (Hok He _ Hh) as [Hr _]. destruct (Hr He) as (y & Hy & ->).
    by rewrite (visible_same _ _ Hv1) in Hy.
  - intros [He|He]%map_esp_not_found [y Hy]; [|done]. destruct (Hno He _ Hh) as [_ Hr]. apply (Hr He).
    exists (VU32 y). rewrite (visible_same _ _ Hv1). eauto.
Qed.

Lemma fresh_state_spec n n' : initialize_fresh_state n = (StoreStatus.kOk, n') →
  visible (view n') = <[schema_key := VU32 kStorageSchemaVersion]>
    (<[snapshot_key := VBlob (state_bytes new_accounts)]> (visible (view n))).
Proof.
  destruct becomes_new as (Hty & Hw & _). intros E. unfold initialize_fresh_state in E.
  rewrite encode_state_exact, decide_True in E by (try apply validate_state_exact; done).
  exec_step E; [done|]. exec_step E. destruct a as [so h]. apply open_state_spec in Ef as [Hv1 Hh].
  exec_step E; [by apply failed_true in Ec0|]. apply failed_false in Ec0. specialize (Hh Ec0). exec_step E.
  apply (nvs_set_blob_law _ _ _ _ _ _ _) with (2 := Hh) in Ef as Hw1. pose proof Hw1 as (_ & Hh1 & _).
  clear Ef. exec_step E. rename Ef into Eset. exec_step E. rename Ef into Ecom. exec_step E.
  apply nvs_close_law in Ef as Hv4. exec_step E.
  match goal with Hm : map_esp_error _ = StoreStatus.kOk |- _ => apply map_esp_ok in Hm; subst end. apply commit_spec in Ecom as [Hvis Hok].
  destruct (Hok eq_refl) as [-> _]. unfold and_then in Eset. destruct (esp_ok a) eqn:Ea; [|simplify_eq; by apply esp_ok_false in Ea].
  apply esp_ok_true in Ea as ->. rewrite <- Hh1 in Hh.
  apply (nvs_set_u32_law _ _ _ _ _ _ _) with (2 := Hh) in Eset as Hw2.
  apply write_visible in Hw1 as [Hw1|[]]; [|done]. apply write_visible in Hw2 as [Hw2|[]]; [|done].
  by rewrite (visible_same _ _ Hv4), Hvis, Hw2, Hw1, <- (visible_same _ _ Hv1).
Qed.
End Start.

Section Store.
Context {N : Type} `{NvsNotFoundLaws N} `{!NvsGetU32NotFound N} `{!SecurityBackend N} `{!SecurityBackendLaws N}.
Implicit Types (st : AccountStore N).

Lemma on_flash_inv {A} (f : N → A * N) st a st' : on_flash f st = (a, st') →
  f (flash_ st) = (a, flash_ st') ∧ initialization_status_ st' = initialization_status_ st.
Proof. unfold on_flash. destruct (f (flash_ st)). by intros [= <- <-]. Qed.

Lemma others_stored v v' s : others_kept v v' → stored v s → stored v' s.
Proof. intros Hk [Hs ?]. split; [|done]. by rewrite Hk. Qed.

Ltac flash_call :=
  match goal with
  | Hf : on_flash _ ?st = (_, ?st') |- _ => apply on_flash_inv in Hf; destruct Hf as [Hf ?]
  end.

(** The accounts the store comes up with: those that are stored, or none where
    nothing was ever stored. *)
Definition expected (v : NvsView) (s : AccountsState) : Prop :=
  has_schema v ∧ stored v s ∨ ¬ has_schema v ∧ s = new_accounts.

Lemma load_of_stored n s (ls : StoreStatus.t) out n' : stored (view n) s → load_state_unchecked n = ((ls, out), n') → stored (view n') s.
Proof. intros Hs E. destruct (load_spec _ _ _ _ _ Hs E) as [Hv _]. by eapply stored_same. Qed.

Lemma finish_spec schema st s status st' : stored (view (flash_ st)) s →
  finish_initialize schema st = (status, st') →
  initialization_status_ st' = status ∧ stored (view (flash_ st')) s.
Proof.
  intros Hs E. unfold finish_initialize in E. destruct (negb _).
  { exec_step E. exec_step E. done. }
  exec_step E. flash_call. apply backend_verify_law in Ef as Hk. exec_step E.
  assert (Hs' : stored (view (flash_ s0)) s) by by eapply others_stored.
  exec_step E; [done|]. exec_step E. flash_call. destruct a0 as [ls loaded]. apply (load_of_stored _ s) in Ef0; [|done].
  exec_step E. exec_step E. done.
Qed.

(** Coming up never loses the accounts: those that are stored are stored
    afterwards, whether it succeeds or not, and a device on which nothing was stored
    starts with none.  The status is the one every later operation checks. *)
Theorem store_comes_up st s status st' :
  expected (view (flash_ st)) s → initialize st = (status, st') →
  initialization_status st' = status ∧
  (status = StoreStatus.kOk ∨ has_schema (view (flash_ st)) → stored (view (flash_ st')) s).
Proof.
  intros Hx E. unfold initialize in E. unfold initialization_status. exec_step E. flash_call.
  apply backend_initialize_law in Ef as Hv1. exec_step E. exec_step E.
  { split; [done|]. apply failed_true in Ec. intros [?|Hh]; [done|]. destruct Hx as [[_ Hs]|[? _]]; [|done].
    by eapply stored_visible. }
  apply failed_false in Ec. subst a. clear Ef. exec_step E. flash_call. destruct a as [ss schema].
  apply read_schema_spec in Ef as (Hv2 & Hok & Hno). cbn in Hv2, Hok, Hno.
  assert (Hhas : has_schema (view (flash_ s0)) ↔ has_schema (view (flash_ st))) by (unfold has_schema; by rewrite Hv1).
  exec_step E.
  - apply bool_decide_eq_true in Eb. specialize (Hno Eb). rewrite Hhas in Hno. exec_step E. exec_step E. flash_call.
    exec_step E. exec_step E. exec_step E. cbv beta iota in E. exec_step E; [split; [done|]; apply failed_true in Ec; by intros [?|?]|].
    apply failed_false in Ec. subst a. apply fresh_state_spec in Ef as Hfresh. destruct Hx as [[? _]|[_ ->]]; [done|].
    exec_step E. apply finish_spec with (s := new_accounts) in E as [? ?]; [done|]. destruct becomes_new as (Hty & Hw & _).
    split; [|done]. cbn. rewrite Hfresh, lookup_insert_ne by done. apply lookup_insert_eq.
  - apply bool_decide_eq_false in Eb. exec_step E. exec_step E. exec_step E. cbv beta iota in E. exec_step E.
    { rewrite Ec. split; [done|]. apply failed_true in Ec. intros [?|Hh]; [done|]. destruct Hx as [[_ Hs]|[? _]]; [|done].
      eapply stored_visible; [|exact Hs]. cbn. by rewrite Hv2, Hv1. }
    rewrite Ec in E. apply failed_false in Ec. specialize (Hok Ec). destruct Hx as [[_ Hs]|[Hno' _]].
    + exec_step E. apply finish_spec with (s := s) in E as [? ?]; [done|]. eapply stored_visible; [|exact Hs]. by rewrite Hv2, Hv1.
    + destruct Hno'. apply Hhas. by eexists.
Qed.

(** A reset that succeeds leaves a store that is ready and has no accounts. *)
Theorem reset_forgets st st' : account_store_reset st = (StoreStatus.kOk, st') →
  ready st' = true ∧ stored (view (flash_ st')) new_accounts.
Proof.
  intros E. unfold account_store_reset in E. exec_step E. flash_call. destruct (failed a) eqn:Ea.
  { do 2 exec_step E. by apply failed_true in Ea. }
  apply failed_false in Ea. subst a. apply backend_erase_law in Ef as Hempty. do 2 exec_step E.
  apply store_comes_up with (s := new_accounts) in E as [Hi Hs].
  - split; [apply StoreStatus.ok_true, Hi|]. apply Hs. by left.
  - right. split; [|done]. unfold has_schema. cbn. rewrite Hempty. intros [x Hx]. done.
Qed.

(** ** Reading *)

(** What is shown of the accounts of a book: everything but the secrets, numbered
    in order. *)
Definition listing (b : Book) : list AccountMetadata :=
  imap (λ i e, let d := snd e in
    mkAccountMetadata (fst e) (Z.of_nat i) (draft_issuer d) (draft_account d) (draft_display_name d)) (entries b).

Lemma listing_book s : state_wf s →
  stable_sort_by meta_order (account_metadata <$> accounts s) = listing (book_of s).
Proof.
  intros Hw. transitivity (account_metadata <$> in_order s).
  - apply sort_unique; [by rewrite in_order_perm| |].
    + rewrite <- list_fmap_compose. by apply orders_distinct.
    + apply sorted_by_key. rewrite <- list_fmap_compose. change (meta_order ∘ account_metadata) with account_order.
      rewrite in_order_orders by done. apply seqZ_sorted.
  - unfold listing. cbn. apply list_eq. intros j. rewrite list_lookup_imap, !list_lookup_fmap.
    pose proof (f_equal (lookup j) (in_order_orders s Hw)) as Ho. rewrite list_lookup_fmap in Ho.
    destruct (in_order s !! j) as [a|] eqn:Ej; [|done]. cbn in Ho |- *. symmetry in Ho. apply lookup_seqZ in Ho as [Ho _].
    unfold account_metadata. by rewrite Ho.
Qed.

(** The list is exactly the book's, in order and without a secret. *)
Theorem list_accounts_exact st s status items st' :
  stored (view (flash_ st)) s → list_accounts st = ((status, items), st') →
  visible (view (flash_ st')) = visible (view (flash_ st)) ∧
  (status = StoreStatus.kOk → items = listing (book_of s)) ∧ (status ≠ StoreStatus.kOk → items = []).
Proof.
  intros Hs E. unfold list_accounts in E. exec_step E. cbn zeta in E. exec_step E.
  { apply failed_true in Ec. by simplify_eq. }
  exec_step E. flash_call. destruct a as [ls loaded]. destruct (load_spec _ _ _ _ _ Hs Ef) as [Hv Hl].
  apply visible_same in Hv. exec_step E.
  { apply failed_true in Ec0. by simplify_eq. }
  destruct Hl as [[-> ->]|[? _]]; [|by apply failed_false in Ec0]. exec_step E. simplify_eq.
  split_and!; [done| |done]. intros _. cbn. apply listing_book. apply Hs.
Qed.

(** A secret is handed to the consumer exactly when the account exists, and it is
    that account's; the consumer is called at most once and nothing changes. *)
Theorem account_secret_exact {C} st s (c : C) id consumer status st' c' :
  stored (view (flash_ st)) s → with_account_secret id (Some consumer) (st, c) = (status, (st', c')) →
  visible (view (flash_ st')) = visible (view (flash_ st)) ∧
  ((∃ draft, lookup_entry id (book_of s) = Some (id, draft) ∧ (status, c') = consumer (draft_secret draft) c) ∨
   c' = c ∧ status ≠ StoreStatus.kOk).
Proof.
  intros Hs E. unfold with_account_secret in E. exec_step E. cbn zeta in E. exec_step E.
  { apply failed_true in Ec. simplify_eq. by split; [|right]. }
  exec_step E; [simplify_eq; by split; [|right]|]. exec_step E. unfold on_store in Ef. cbn [fst snd] in Ef.
  destruct (on_flash load_state_unchecked st) as [[ls loaded] st1] eqn:El. injection Ef as <- <-. flash_call.
  destruct (load_spec _ _ _ _ _ Hs El) as [Hv Hl]. apply visible_same in Hv. exec_step E.
  { apply failed_true in Ec1. simplify_eq. by split; [|right]. }
  destruct Hl as [[-> ->]|[? _]]; [|by apply failed_false in Ec1]. cbn zeta in E. change (default new_accounts (Some s)) with s in E.
  destruct (find_account id s) as [[i a]|] eqn:Ef; [|exec_step E; simplify_eq; by split; [|right]].
  exec_step E. unfold on_consumer in E. cbn [fst snd] in E. destruct (consumer _ c) as [r c1] eqn:Ec2. simplify_eq.
  split; [done|]. left. pose proof (find_account_some s id i a Ef) as [Hi Hid]. apply list_elem_of_lookup_2 in Hi.
  exists (account_draft a). split; [|done]. destruct Hs as (_ & _ & Hw). rewrite <- Hid. by rewrite lookup_entry_account.
Qed.
End Store.
