(* ===== verification/AccountSample.v ===== *)
(** * The account store at concrete inputs

    The store over the NVS in memory and a flash that shows nothing of it: it comes
    up empty, and a sequence of requests leaves the book one expects. *)

From S2P Require Import Prelude Bytes Nvs Runtime AccountState AccountStateCorrect.
From S2P Require Import AccountStore AccountBook AccountStoreCorrect AccountSecurity.

Module AccountSample.

(** A partition whose flash shows the given bytes, and one of 600 bytes of which
    nothing can be read in the clear. *)
Definition showing (flash : bytes) : EspPartition MemoryNvs := {|
  nvs_flash_secure_init_with _ _ _ n := (ESP_OK, n);
  esp_partition_find_first _ n := (Some (length flash), n);
  esp_partition_read _ o k n := ((ESP_OK, take k (drop o flash)), n);
|}.
Definition showing_laws flash : @EspPartitionLaws MemoryNvs _ _ (showing flash).
Proof.
  refine (@Build_EspPartitionLaws MemoryNvs _ _ (showing flash) (λ _, flash) _ _ _); intros *.
  - by intros [= <- <-].
  - intros [= <- <-]. by split_and!; [..|intros k [= <-]].
  - intros [= <- <- <-]. by split_and!.
Defined.
Definition ciphered_flash : bytes := replicate 600 0xff.
#[export] Instance sample_partition : EspPartition MemoryNvs := showing ciphered_flash.
#[export] Instance sample_partition_laws : EspPartitionLaws MemoryNvs := showing_laws ciphered_flash.
#[export] Instance memory_get_u32_not_found : NvsGetU32NotFound MemoryNvs.
Proof.
  split. intros h k n e x n' E. cbn in E. unfold memory_read in E. repeat case_match; by simplify_eq.
Defined.

Definition mail : AccountDraft := mkDraft (str "Example") (str "a@example.org") [] (str "JBSWY3DPEHPK3PXP").
Definition shop : AccountDraft := mkDraft (str "Shop") (str "b") (str "My shop") (str "GEZDGNBVGY3TQOJQ").
Definition store0 : AccountStore MemoryNvs := snd (initialize (new_account_store fresh_nvs)).
Definition book_stored (st : AccountStore MemoryNvs) : option Book :=
  book_of <$> snd (fst (load_state_unchecked (flash_ st))).

Example comes_up_empty : ready store0 = true ∧ book_stored store0 = Some (mkBook [] 1 0 ([], [])).
Proof. split; vm_compute; reflexivity. Qed.

(** Two accounts, put in the other order, the one used last deleted: its identifier
    is not given again. *)
Example book_after_requests :
  book_stored (execute_all [Add mail; Add shop; Reorder [2; 1]; SetLastUsed 1; Delete 1; Add mail] store0) =
    Some (mkBook [(2, shop); (3, mail)] 4 0 ([], [])).
Proof. vm_compute. reflexivity. Qed.

Lemma stored0 : stored (view (flash_ store0)) new_accounts.
Proof. destruct becomes_new as (Hty & Hw & _). split; [vm_compute; reflexivity|done]. Qed.

Lemma mail_typed : draft_typed mail.
Proof. split_and!; apply str_ok || constructor. Qed.

(** The same store over an NVS that records what its calls report. *)
#[local] Existing Instance recorded_nvs.
#[local] Existing Instance recorded_laws.
Definition recorder0 : AccountStore (MemoryNvs * list esp_err_t) := mkAccountStore _ (flash_ store0, []) StoreStatus.kOk.

Lemma account_store_refines_witness :
  ∃ errors, snd (flash_ (snd (execute (Add mail) recorder0))) = errors ∧ first_error errors = None ∧ length errors = 6%nat ∧
  fst (execute (Add mail) recorder0) = StoreStatus.kOk ∧
  made (view (flash_ recorder0)) (view (flash_ (snd (execute (Add mail) recorder0)))) (mkBook [(1, mail)] 2 0 ([], [])).
Proof.
  destruct (account_store_refines (Add mail) recorder0 new_accounts (fst (execute (Add mail) recorder0))
    (snd (execute (Add mail) recorder0)) ltac:(vm_compute; reflexivity) stored0 mail_typed ltac:(by destruct (execute _ _)))
    as (_ & errors & R & Hout).
  exists errors. assert (errors = replicate 6 ESP_OK) as -> by (etrans; [symmetry; exact R|vm_compute; reflexivity]).
  destruct Hout as (Hst & Hm & _). split_and!; [exact R|reflexivity|reflexivity|exact Hst|exact Hm].
Defined.

(** The probe across the boundary of two chunks, and the same flash without it. *)
Definition leaking_flash : bytes := replicate 250 0xff ++ kProbeValue ++ replicate 100 0xff.

Lemma plain_probe_exact_witness :
  ¬ occurs kProbeValue ciphered_flash ∧ occurs kProbeValue leaking_flash.
Proof.
  split.
  - destruct (plain_probe_exact fresh_nvs false StoreStatus.kOk fresh_nvs) as (_ & _ & _ & Hx);
      [vm_compute; reflexivity|].
    destruct Hx as [[_ Hf] _]; [|intros Ho; discriminate (Hf Ho)].
    intros o e (k & n & data & n' & _ & _ & _ & Er & Hne). injection Er as <- _ _. by destruct Hne.
  - destruct (@plain_probe_exact MemoryNvs _ _ _ (showing_laws leaking_flash) fresh_nvs true
      StoreStatus.kSecurityInvariant fresh_nvs) as (_ & _ & _ & Hx); [vm_compute; reflexivity|].
    destruct Hx as [[Hf _] _]; [|exact (Hf eq_refl)].
    intros o e (k & n & data & n' & _ & _ & _ & Er & Hne). injection Er as <- _ _. by destruct Hne.
Defined.

Lemma stored_stays_wf_witness :
  ready (execute_all [Add mail; Delete 1] store0) = true ∧
  ∃ s, stored (view (flash_ (execute_all [Add mail; Delete 1] store0))) s ∧ state_typed s ∧ state_wf s.
Proof.
  exact (stored_stays_wf [Add mail; Delete 1] store0 new_accounts ltac:(vm_compute; reflexivity) stored0
    (Forall_cons_2 _ (Add mail) _ mail_typed (Forall_cons_2 _ (Delete 1) _ I (Forall_nil_2 _)))).
Defined.

Lemma snapshot_exact_witness : decode_state (state_bytes new_accounts) = (StoreStatus.kOk, Some new_accounts).
Proof.
  destruct becomes_new as (Hty & Hw & _).
  apply (proj2 (snapshot_exact (state_bytes new_accounts) new_accounts (state_bytes_ok _ Hty))). done.
Defined.
End AccountSample.
