(* ===== verification/UiModel.v ===== *)
(** * The model behind the first user interface

    m5auth_device_sticks3/ui_model.cpp: [UiModel], which keeps the accounts of the
    [AccountStore] in their order of display, the one that is selected, the code
    that is on the screen, and the request the user is asked to confirm.  It
    implements [PresenceBinding] with the gate of [UserPresence]. *)

From S2P Require Import Prelude Bytes UserPresence Attempt AccountStore.

#[export] Instance account_metadata_inhabited : Inhabited AccountMetadata := populate (mkAccountMetadata 0 0 [] [] []).
#[export] Instance account_metadata_eq_dec : EqDecision AccountMetadata.
Proof. solve_decision. Defined.

Definition kOtpRevealDurationMs : Z := 10000.

Definition is_empty (s : bytes) : bool := Nat.eqb (length s) 0.
Definition account_display_label (account : AccountMetadata) : bytes :=
  if negb (is_empty (meta_display_name account)) then meta_display_name account
  else if negb (is_empty (meta_issuer account)) then meta_issuer account
  else meta_account account.

Definition account_equal (left right : AccountMetadata) : bool :=
  (meta_id left =? meta_id right) && (meta_order left =? meta_order right)
  && bool_decide (meta_issuer left = meta_issuer right)
  && bool_decide (meta_account left = meta_account right)
  && bool_decide (meta_display_name left = meta_display_name right).
Fixpoint accounts_equal (left right : list AccountMetadata) : bool :=
  match left, right with
  | [], [] => true
  | l :: left', r :: right' => account_equal l r && accounts_equal left' right'
  | _, _ => false
  end.

(** The order given to [std::sort].  The sort is by insertion; with distinct
    identifiers there is one sorted order ([sorted_only]), so the choice of the
    library's algorithm is not visible. *)
Definition account_before (left right : AccountMetadata) : bool :=
  if negb (meta_order left =? meta_order right) then meta_order left <? meta_order right
  else meta_id left <? meta_id right.
Fixpoint insert_before (x : AccountMetadata) (l : list AccountMetadata) : list AccountMetadata :=
  match l with
  | [] => [x]
  | y :: l' => if account_before y x then y :: insert_before x l' else x :: l
  end.
Definition sort_accounts (l : list AccountMetadata) : list AccountMetadata := foldr insert_before [] l.

Record UiModel := mkUiModel {
  accounts_ : list AccountMetadata;
  selected_id_ : Z;
  reveal_active_ : bool;
  revealed_code_ : Z;
  reveal_deadline_ms_ : Z;
  model_press_generation_ : Z;
  presence_ : UserPresenceGate;
}.
#[export] Instance eta_ui_model : Eta UiModel := λ m,
  mkUiModel (accounts_ m) (selected_id_ m) (reveal_active_ m) (revealed_code_ m) (reveal_deadline_ms_ m)
    (model_press_generation_ m) (presence_ m).
Definition new_ui_model : UiModel := mkUiModel [] 0 false 0 0 0 idle_gate.
Definition model_op (A : Type) : Type := UiModel → A * UiModel.

(** ** The selection *)

Definition contains_id (id : Z) (m : UiModel) : bool :=
  if id =? 0 then false else existsb (λ account, meta_id account =? id) (accounts_ m).
Definition find_selected (m : UiModel) : option (nat * AccountMetadata) :=
  list_find (λ account, meta_id account = selected_id_ m) (accounts_ m).
Definition front_id (l : list AccountMetadata) : Z :=
  match l with [] => 0 | account :: _ => meta_id account end.

Definition hide_reveal : model_op bool := fn (
  m ← get_state;
  let was_active := reveal_active_ m || negb (revealed_code_ m =? 0) || negb (reveal_deadline_ms_ m =? 0) in
  modify (λ m, m <| reveal_active_ := false |> <| revealed_code_ := 0 |> <| reveal_deadline_ms_ := 0 |>);;
  mret was_active).

Definition update_accounts (accounts : list AccountMetadata) (preferred_id : Z) : model_op bool := fn (
  let accounts := sort_accounts accounts in
  m ← get_state;
  let account_snapshot_changed := negb (accounts_equal (accounts_ m) accounts) in
  let previous_selected := selected_id_ m in
  (if account_snapshot_changed
   then call hide_reveal;; modify (λ m, m <| accounts_ := accounts |>)
   else mret tt);;
  m ← get_state;
  (if negb (contains_id (selected_id_ m) m)
   then if contains_id preferred_id m then modify (λ m, m <| selected_id_ := preferred_id |>)
        else modify (λ m, m <| selected_id_ := front_id (accounts_ m) |>)
   else mret tt);;
  m ← get_state;
  mret (account_snapshot_changed || negb (previous_selected =? selected_id_ m))).

(** Where the iterator goes: past the last account comes the first, before the
    first the last. *)
Definition next_index (count index : nat) : nat := if Nat.eqb (S index) count then 0%nat else S index.
Definition previous_index (count index : nat) : nat :=
  if Nat.eqb index 0 then (count - 1)%nat else (index - 1)%nat.

Definition select_by (step : nat → nat → nat) : model_op bool := fn (
  m ← get_state;
  leave_if (gate_active (presence_ m)) false;;
  changed ← call hide_reveal;
  match accounts_ m with
  | [] => modify (λ m, m <| selected_id_ := 0 |>);; leave changed
  | first :: _ =>
    match find_selected m with
    | None => modify (λ m, m <| selected_id_ := meta_id first |>);; leave true
    | Some (index, _) =>
      let id := meta_id ((accounts_ m) !!! step (length (accounts_ m)) index) in
      if negb (id =? selected_id_ m) then modify (λ m, m <| selected_id_ := id |>);; leave true
      else mret changed
    end
  end).
Definition select_next : model_op bool := select_by next_index.
Definition select_previous : model_op bool := select_by previous_index.

Definition selected_account (m : UiModel) : option AccountMetadata := snd <$> find_selected m.
(** Counted from 1; 0 when no account is selected. *)
Fixpoint position_from (index : nat) (id : Z) (l : list AccountMetadata) : nat :=
  match l with
  | [] => 0%nat
  | account :: l => if meta_id account =? id then S index else position_from (S index) id l
  end.
Definition selected_position (m : UiModel) : nat := position_from 0 (selected_id_ m) (accounts_ m).
Definition account_count (m : UiModel) : nat := length (accounts_ m).

(** ** The code on the screen *)

Definition reveal (code now_ms : Z) : model_op bool := fn (
  m ← get_state;
  leave_if (gate_active (presence_ m) || negb (bool_decide (is_Some (selected_account m)))) false;;
  modify (λ m, m <| revealed_code_ := code |> <| reveal_active_ := true |>
                 <| reveal_deadline_ms_ := deadline kOtpRevealDurationMs now_ms |>);;
  mret true).

Definition expire (now_ms : Z) : model_op bool := fn (
  m ← get_state;
  leave_if (negb (reveal_active_ m) || (now_ms <? reveal_deadline_ms_ m)) false;;
  call hide_reveal).

(** ** The request to confirm *)

Definition on_presence {A} (f : UserPresenceGate → A * UserPresenceGate) : model_op A := λ m,
  let '(a, g) := f (presence_ m) in (a, m <| presence_ := g |>).

Definition begin_unlock_request (operation : PresenceOperation) (attempt_id : bytes) (now_ms : Z)
    : model_op bool := fn (
  reveal_was_visible ← call hide_reveal;
  m ← get_state;
  call (on_presence (gate_begin operation attempt_id now_ms (model_press_generation_ m)));;
  m ← get_state;
  mret (reveal_was_visible || gate_active (presence_ m))).

Definition expire_unlock_request (now_ms : Z) : model_op bool := on_presence (gate_expire now_ms).
Definition cancel_unlock_request : model_op unit := on_presence (λ g, (tt, gate_cancel g)).
Definition unlock_request_active (m : UiModel) : bool := gate_active (presence_ m).
Definition unlock_request_confirmed (m : UiModel) : bool :=
  bool_decide (presence_state_ (presence_ m) = kPresenceConfirmed).
Definition unlock_request_operation (m : UiModel) : PresenceOperation := operation_ (presence_ m).
Definition observe_primary_button_state (pressed : bool) : model_op unit :=
  on_presence (λ g, (tt, observe_input_state pressed g)).

Definition primary_button_pressed (now_ms : Z) : model_op bool := fn (
  m ← get_state;
  (if negb (model_press_generation_ m =? u64_max)
   then modify (λ m, m <| model_press_generation_ := model_press_generation_ m + 1 |>)
   else mret tt);;
  m ← get_state;
  leave_if (negb (gate_active (presence_ m))) false;;
  call (on_presence (confirm_current now_ms (model_press_generation_ m)))).

Definition consume_unlock_confirmation (attempt_id : bytes) (now_ms : Z) : model_op bool :=
  on_presence (consume_confirmation attempt_id now_ms).

#[export] Instance model_presence : PresenceBinding UiModel := {|
  begin_presence := begin_unlock_request;
  consume_presence := consume_unlock_confirmation;
  cancel_presence := cancel_unlock_request;
  presence_confirmed := unlock_request_confirmed;
|}.
