(* ===== verification/UiModelCorrect.v ===== *)
(** * Correctness of the model behind the first user interface

    The accounts are shown in the one sorted order; an account is selected whenever
    there is one; going to the next and to the previous account undo each other and
    pass through all of them; a code is only on the screen for the account it was
    revealed for, until its deadline, and never beside a request to confirm. *)

From stdpp Require Import sorting.
From S2P Require Import Prelude Bytes UserPresence Attempt.
From S2P Require Import AccountState AccountStateCorrect AccountStore AccountBook AccountSecurity UiModel.

(** ** The order of display *)

Lemma before_spec a b :
  account_before a b = true ↔ meta_order a < meta_order b ∨ meta_order a = meta_order b ∧ meta_id a < meta_id b.
Proof. unfold account_before. destruct (Z.eqb_spec (meta_order a) (meta_order b)); cbn; lia. Qed.

(** Not after. *)
Definition in_place (a b : AccountMetadata) : Prop := account_before b a = false.
Lemma in_place_spec a b :
  in_place a b ↔ meta_order a < meta_order b ∨ meta_order a = meta_order b ∧ meta_id a ≤ meta_id b.
Proof. unfold in_place. rewrite <- not_true_iff_false, before_spec. lia. Qed.
#[export] Instance in_place_preorder : PreOrder in_place.
Proof. split; [intros a|intros a b c]; rewrite !in_place_spec; lia. Qed.

Lemma insert_before_perm x l : insert_before x l ≡ₚ x :: l.
Proof.
  induction l as [|y l IH]; cbn; [done|]. destruct (account_before y x); [|done].
  rewrite IH. apply Permutation_swap.
Qed.
Lemma sort_accounts_perm l : sort_accounts l ≡ₚ l.
Proof. induction l as [|x l IH]; cbn; [done|]. by rewrite insert_before_perm, IH. Qed.

Lemma insert_before_sorted x l : StronglySorted in_place l → StronglySorted in_place (insert_before x l).
Proof.
  induction 1 as [|y l Hs IH Hy]; cbn; [by repeat constructor|]. destruct (account_before y x) eqn:E.
  - constructor; [done|]. rewrite insert_before_perm. constructor; [|done].
    apply before_spec in E. apply in_place_spec. lia.
  - constructor; [by constructor|]. constructor; [done|]. eapply Forall_impl; [exact Hy|]. intros z. by transitivity y.
Qed.
Lemma sort_accounts_sorted l : StronglySorted in_place (sort_accounts l).
Proof. induction l; cbn; [constructor|by apply insert_before_sorted]. Qed.

(** Accounts as the store lists them: told apart by identifiers that are not 0. *)
Definition listed (l : list AccountMetadata) : Prop := NoDup (meta_id <$> l) ∧ Forall (λ a, meta_id a ≠ 0) l.
#[export] Instance listed_proper : Proper ((≡ₚ) ==> iff) listed.
Proof. intros l l' E. unfold listed. by rewrite E. Qed.
#[export] Instance listed_dec l : Decision (listed l).
Proof. unfold listed. apply _. Defined.

(** There is one sorted order, whatever algorithm finds it. *)
Theorem sorted_only l l' : listed l → l' ≡ₚ l → StronglySorted in_place l' → sort_accounts l = l'.
Proof.
  intros [Hn _] Hp Hs. eapply (StronglySorted_unique_strong in_place); [|apply sort_accounts_sorted|done|].
  - intros x y Hx Hy Hxy Hyx. rewrite sort_accounts_perm in Hx. rewrite Hp in Hy.
    apply (nodup_key meta_id l); [done..|]. apply in_place_spec in Hxy, Hyx. lia.
  - by rewrite sort_accounts_perm, Hp.
Qed.
Lemma sort_accounts_proper l l' : listed l → l' ≡ₚ l → sort_accounts l = sort_accounts l'.
Proof. intros Hl Hp. apply sorted_only; [done|by rewrite sort_accounts_perm|apply sort_accounts_sorted]. Qed.

Lemma accounts_equal_spec l r : accounts_equal l r = true ↔ l = r.
Proof.
  revert r. induction l as [|[i o iss acc dn] l IH]; intros [|[i' o' iss' acc' dn'] r]; cbn; try done.
  unfold account_equal. cbn. rewrite !andb_true_iff, !Z.eqb_eq, !bool_decide_eq_true, IH. naive_solver.
Qed.

(** ** The invariant *)

Definition selection_ok (m : UiModel) : Prop :=
  accounts_ m = [] ∧ selected_id_ m = 0 ∨ ∃ a, a ∈ accounts_ m ∧ meta_id a = selected_id_ m.
Definition nothing_shown (m : UiModel) : Prop :=
  reveal_active_ m = false ∧ revealed_code_ m = 0 ∧ reveal_deadline_ms_ m = 0.

Record model_ok (m : UiModel) : Prop := {
  ok_listed : listed (accounts_ m);
  ok_sorted : StronglySorted in_place (accounts_ m);
  ok_selection : selection_ok m;
  ok_shown : nothing_shown m ∨
             reveal_active_ m = true ∧ gate_active (presence_ m) = false ∧ is_Some (selected_account m);
}.

Lemma find_selected_some m : is_Some (find_selected m) ↔ ∃ a, a ∈ accounts_ m ∧ meta_id a = selected_id_ m.
Proof.
  unfold find_selected. split.
  - intros [[i a] (Hi & Ha & _)%list_find_Some]. exists a. split; [by eapply list_elem_of_lookup_2|done].
  - intros (a & Ha & E). by eapply list_find_elem_of.
Qed.
Lemma contains_id_spec m id : contains_id id m = true ↔ id ≠ 0 ∧ ∃ a, a ∈ accounts_ m ∧ meta_id a = id.
Proof.
  unfold contains_id. destruct (Z.eqb_spec id 0) as [->|Hid]; [naive_solver|].
  rewrite existsb_exists. setoid_rewrite Z.eqb_eq. setoid_rewrite <- list_elem_of_In. naive_solver.
Qed.

Lemma hide_reveal_spec m b m' : hide_reveal m = (b, m') →
  m' = m <| reveal_active_ := false |> <| revealed_code_ := 0 |> <| reveal_deadline_ms_ := 0 |> ∧
  (b = false ↔ nothing_shown m).
Proof.
  intros E. unfold hide_reveal in E. exec_step E. cbn zeta in E. do 2 exec_step E. simplify_eq. split; [done|].
  unfold nothing_shown. rewrite !orb_false_iff, !negb_false_iff, !Z.eqb_eq. tauto.
Qed.

Definition has_id (id : Z) (l : list AccountMetadata) : Prop := id ∈ meta_id <$> l.
#[export] Instance has_id_dec id l : Decision (has_id id l).
Proof. unfold has_id. apply _. Defined.
Lemma contains_listed m id : listed (accounts_ m) → contains_id id m = bool_decide (has_id id (accounts_ m)).
Proof.
  intros [_ Hz]. apply eq_bool_prop_intro. rewrite !Is_true_true, contains_id_spec, bool_decide_eq_true.
  unfold has_id. rewrite list_elem_of_fmap. split; [naive_solver|]. intros (a & -> & Ha). split; [|by eauto].
  rewrite Forall_forall in Hz. by apply Hz.
Qed.

(** The account that is selected after the list has become [l]. *)
Definition reselected (l : list AccountMetadata) (preferred_id selected : Z) : Z :=
  if decide (has_id selected l) then selected
  else if decide (has_id preferred_id l) then preferred_id else front_id (sort_accounts l).

Lemma contains_sorted m l id : listed l → accounts_ m = sort_accounts l →
  contains_id id m = bool_decide (has_id id l).
Proof.
  intros Hl Ha. rewrite contains_listed by by rewrite Ha, sort_accounts_perm. apply bool_decide_ext.
  unfold has_id. by rewrite Ha, sort_accounts_perm.
Qed.

Lemma select_same m id : m <| selected_id_ := id |> = m ↔ id = selected_id_ m.
Proof. destruct m; cbn. split; [by intros [= ->]|by intros ->]. Qed.
(** The part of [update_accounts] that selects. *)
Lemma reselect_exact m l preferred_id (k : unit → ctl UiModel bool bool) :
  listed l → accounts_ m = sort_accounts l →
  fn ((if negb (contains_id (selected_id_ m) m)
       then if contains_id preferred_id m then modify (λ m, m <| selected_id_ := preferred_id |>)
            else modify (λ m, m <| selected_id_ := front_id (accounts_ m) |>)
       else mret tt) ≫= k) m
  = fn (k tt) (m <| selected_id_ := reselected l preferred_id (selected_id_ m) |>).
Proof.
  intros Hl Ha. rewrite !(contains_sorted _ l) by done. unfold reselected.
  case_bool_decide; case_decide; try done; cbn [negb].
  - rewrite fn_bind_ret. f_equal. symmetry. by apply select_same.
  - case_bool_decide; case_decide; try done; by rewrite fn_modify, ?Ha.
Qed.

(** What a new list does: the accounts are those of the list in their order, the
    selected account stays as long as it exists, and no change is reported exactly
    when nothing has changed - then a code that is shown stays. *)
Theorem update_accounts_exact m l preferred_id b m' :
  listed l → update_accounts l preferred_id m = (b, m') →
  accounts_ m' = sort_accounts l ∧ selected_id_ m' = reselected l preferred_id (selected_id_ m) ∧
  presence_ m' = presence_ m ∧ model_press_generation_ m' = model_press_generation_ m ∧
  (b = false ↔ m' = m) ∧
  (accounts_ m = sort_accounts l ∧ m' = m <| selected_id_ := selected_id_ m' |> ∨
   accounts_ m ≠ sort_accounts l ∧ nothing_shown m').
Proof.
  intros Hl E. unfold update_accounts in E. cbn zeta in E. exec_step E.
  destruct (accounts_equal (accounts_ m) (sort_accounts l)) eqn:Ee; cbn [negb orb] in E.
  - apply accounts_equal_spec in Ee. do 2 exec_step E. rewrite (reselect_exact _ l) in E by done. exec E. simplify_eq.
    rewrite select_same, negb_false_iff, Z.eqb_eq. naive_solver.
  - assert (Hne : accounts_ m ≠ sort_accounts l) by by rewrite <- accounts_equal_spec, Ee.
    do 2 exec_step E. apply hide_reveal_spec in Ef as [-> _]. do 2 exec_step E.
    rewrite (reselect_exact _ l) in E by done. exec E. simplify_eq. split_and!; [done..| |by right].
    split; [done|]. intros Em%(f_equal accounts_). cbn in Em. congruence.
Qed.

(** ** Going through the accounts *)

(** The place of the selected account, counted from 0. *)
Definition at_index (m : UiModel) (i : nat) : Prop := meta_id <$> accounts_ m !! i = Some (selected_id_ m).

Lemma find_selected_at m i : NoDup (meta_id <$> accounts_ m) →
  at_index m i ↔ ∃ a, find_selected m = Some (i, a).
Proof.
  unfold at_index, find_selected. intros Hn. split.
  - destruct (accounts_ m !! i) as [a|] eqn:Hi; [|done]. intros [= E]. exists a.
    apply list_find_Some. split_and!; [done|done|]. intros j c Hj Hlt E'. cbn in E'. enough (i = j) by lia.
    eapply NoDup_lookup; [exact Hn|by rewrite list_lookup_fmap, Hi|].
    rewrite list_lookup_fmap, Hj. cbn. congruence.
  - intros [a (Hi & E & _)%list_find_Some]. rewrite Hi. cbn. by rewrite E.
Qed.

Lemma position_from_spec k id l i :
  NoDup (meta_id <$> l) → meta_id <$> l !! i = Some id → position_from k id l = (S (k + i))%nat.
Proof.
  revert k i. induction l as [|a l IH]; intros k [|i]; cbn; try done; rewrite NoDup_cons; intros [Ha Hn] E.
  - injection E as ->. rewrite Z.eqb_refl. by rewrite Nat.add_0_r.
  - destruct (Z.eqb_spec (meta_id a) id) as [<-|_]; [|by rewrite (IH _ i), Nat.add_succ_r].
    destruct Ha. apply list_elem_of_fmap. destruct (l !! i) as [c|] eqn:Hi; [|done]. injection E as E.
    exists c. split; [done|]. by eapply list_elem_of_lookup_2.
Qed.
Lemma selected_position_at m i : NoDup (meta_id <$> accounts_ m) → at_index m i → selected_position m = S i.
Proof. intros Hn Hi. unfold selected_position. by erewrite position_from_spec. Qed.

Definition quiet (m : UiModel) : Prop := gate_active (presence_ m) = false.

Lemma hidden_same m :
  m <| reveal_active_ := false |> <| revealed_code_ := 0 |> <| reveal_deadline_ms_ := 0 |> = m ↔ nothing_shown m.
Proof. unfold nothing_shown. destruct m; cbn. split; [by intros [= <- <- <-]|by intros (-> & -> & ->)]. Qed.

(** A gesture moves the selection by one place and takes the code off the screen;
    it reports whether either has changed anything. *)
Lemma select_by_exact step m i b m' :
  NoDup (meta_id <$> accounts_ m) → quiet m → at_index m i →
  (step (length (accounts_ m)) i < length (accounts_ m))%nat →
  select_by step m = (b, m') →
  accounts_ m' = accounts_ m ∧ at_index m' (step (length (accounts_ m)) i) ∧ nothing_shown m' ∧
  presence_ m' = presence_ m ∧ model_press_generation_ m' = model_press_generation_ m ∧ (b = false ↔ m' = m).
Proof.
  intros Hn Hq Hi Hstep E. unfold select_by in E. do 2 exec_step E.
  { by rewrite Hq in Ec. }
  exec_step E. apply hide_reveal_spec in Ef as [-> Ha].
  destruct (proj1 (find_selected_at m i Hn) Hi) as [c Hc]. rewrite Hc in E.
  destruct (lookup_lt_is_Some_2 _ _ Hstep) as [d Hd]. rewrite (list_lookup_total_correct _ _ _ Hd) in E.
  destruct (accounts_ m) as [|first rest] eqn:El; [done|]. rewrite <- El in *.
  exec_step E; [|apply negb_false_iff, Z.eqb_eq in Eb]; exec E; simplify_eq.
  - split; [done|]. split; [unfold at_index; cbn; by rewrite Hd|]. do 3 (split; [done|]). split; [done|].
    intros Em%(f_equal selected_id_). cbn in Em. by rewrite Em, Z.eqb_refl in Eb.
  - split; [done|]. split; [unfold at_index; cbn; rewrite Hd; cbn; by rewrite Eb|]. do 3 (split; [done|]).
    by rewrite hidden_same.
Qed.

Lemma next_index_mod n i : (i < n)%nat → next_index n i = (S i mod n)%nat.
Proof.
  intros Hi. unfold next_index. destruct (Nat.eqb_spec (S i) n) as [->|].
  - by rewrite Nat.Div0.mod_same.
  - rewrite Nat.mod_small; lia.
Qed.
Lemma next_index_bound n i : (i < n)%nat → (next_index n i < n)%nat.
Proof. unfold next_index. destruct (Nat.eqb_spec (S i) n); lia. Qed.
Lemma previous_index_bound n i : (i < n)%nat → (previous_index n i < n)%nat.
Proof. unfold previous_index. destruct (Nat.eqb_spec i 0); lia. Qed.
Lemma previous_next_index n i : (i < n)%nat → previous_index n (next_index n i) = i.
Proof. unfold previous_index, next_index. destruct (Nat.eqb_spec (S i) n); cbn; [lia|]. by rewrite Nat.sub_0_r. Qed.
Lemma next_previous_index n i : (i < n)%nat → next_index n (previous_index n i) = i.
Proof.
  unfold previous_index, next_index. intros Hi. destruct (Nat.eqb_spec i 0) as [->|]; [|replace (S (i - 1)) with i by lia];
    [replace (S (n - 1)) with n by lia; by rewrite Nat.eqb_refl|]. destruct (Nat.eqb_spec i n); lia.
Qed.
Lemma at_index_bound m i : at_index m i → (i < length (accounts_ m))%nat.
Proof. unfold at_index. intros E. apply lookup_lt_is_Some_1. by destruct (accounts_ m !! i); [eexists|]. Qed.

(** One gesture: the place moves, the rest does not. *)
Lemma select_next_exact m i b m' :
  NoDup (meta_id <$> accounts_ m) → quiet m → at_index m i → select_next m = (b, m') →
  accounts_ m' = accounts_ m ∧ at_index m' (next_index (length (accounts_ m)) i) ∧ nothing_shown m' ∧
  presence_ m' = presence_ m ∧ model_press_generation_ m' = model_press_generation_ m ∧ (b = false ↔ m' = m).
Proof. intros Hn Hq Hi. apply select_by_exact; [done..|]. by apply next_index_bound, at_index_bound. Qed.
Lemma select_previous_exact m i b m' :
  NoDup (meta_id <$> accounts_ m) → quiet m → at_index m i → select_previous m = (b, m') →
  accounts_ m' = accounts_ m ∧ at_index m' (previous_index (length (accounts_ m)) i) ∧ nothing_shown m' ∧
  presence_ m' = presence_ m ∧ model_press_generation_ m' = model_press_generation_ m ∧ (b = false ↔ m' = m).
Proof. intros Hn Hq Hi. apply select_by_exact; [done..|]. by apply previous_index_bound, at_index_bound. Qed.

(** [k] times to the next account: every account is reached, and the first one
    again after the last. *)
Theorem select_next_visits k m i :
  NoDup (meta_id <$> accounts_ m) → quiet m → at_index m i →
  let m' := Nat.iter k (λ m, snd (select_next m)) m in
  accounts_ m' = accounts_ m ∧ quiet m' ∧ at_index m' ((i + k) mod length (accounts_ m))%nat.
Proof.
  intros Hn Hq Hi. cbn zeta. pose proof (at_index_bound _ _ Hi) as Hb. induction k as [|k (Ha & Hqk & Hk)]; cbn [Nat.iter].
  { split; [done|]. split; [done|]. by rewrite Nat.add_0_r, Nat.mod_small. }
  set (mk := Nat.iter k _ m) in *. change (Nat.iter (S k) _ m) with (snd (select_next mk)).
  destruct (select_next mk) as [b m'] eqn:E. cbn [snd].
  apply select_next_exact with (i := ((i + k) mod length (accounts_ m))%nat) in E as (Ha' & Hi' & _ & Hp & _);
    [|by rewrite Ha|done..].
  split; [congruence|]. split; [unfold quiet in *; by rewrite Hp|]. rewrite Ha in Hi'.
  rewrite next_index_mod in Hi' by (apply Nat.mod_upper_bound; lia).
  rewrite <- Nat.add_1_r, Nat.Div0.add_mod_idemp_l in Hi'. by replace (i + S k)%nat with (i + k + 1)%nat by lia.
Qed.

(** The code is gone and everything else is the same. *)
Definition same_but_hidden (m m' : UiModel) : Prop :=
  m' = m <| reveal_active_ := false |> <| revealed_code_ := 0 |> <| reveal_deadline_ms_ := 0 |>.

Lemma back_to_index m m' i : at_index m i → at_index m' i → accounts_ m' = accounts_ m → nothing_shown m' →
  presence_ m' = presence_ m → model_press_generation_ m' = model_press_generation_ m → same_but_hidden m m'.
Proof.
  unfold at_index, same_but_hidden. intros Hi Hi' Ha (? & ? & ?) ? ?. rewrite Ha, Hi in Hi'.
  destruct m, m'; cbn in *. by simplify_eq.
Qed.

Theorem gestures_undo_each_other m i :
  NoDup (meta_id <$> accounts_ m) → quiet m → at_index m i →
  same_but_hidden m (snd (select_previous (snd (select_next m)))) ∧
  same_but_hidden m (snd (select_next (snd (select_previous m)))).
Proof.
  intros Hn Hq Hi. pose proof (at_index_bound _ _ Hi) as Hb. split.
  - destruct (select_next m) as [b1 m1] eqn:E1. cbn [snd].
    apply (select_next_exact m i) in E1 as (Ha & Hi1 & _ & Hp & Hg & _); [|done..]. unfold quiet in Hq. rewrite <- Hp in Hq.
    destruct (select_previous m1) as [b2 m2] eqn:E2. rewrite <- Ha in Hn.
    apply (select_previous_exact _ _ _ _ Hn Hq Hi1) in E2 as (Ha2 & Hi2 & Hn2 & Hp2 & Hg2 & _).
    rewrite Ha, previous_next_index in Hi2 by done. apply (back_to_index _ _ i); cbn; congruence.
  - destruct (select_previous m) as [b1 m1] eqn:E1. cbn [snd].
    apply (select_previous_exact m i) in E1 as (Ha & Hi1 & _ & Hp & Hg & _); [|done..]. unfold quiet in Hq. rewrite <- Hp in Hq.
    destruct (select_next m1) as [b2 m2] eqn:E2. rewrite <- Ha in Hn.
    apply (select_next_exact _ _ _ _ Hn Hq Hi1) in E2 as (Ha2 & Hi2 & Hn2 & Hp2 & Hg2 & _).
    rewrite Ha, next_previous_index in Hi2 by done. apply (back_to_index _ _ i); cbn; congruence.
Qed.

(** ** The invariant, for any sequence of operations *)

Inductive model_event :=
  | UpdateAccounts (accounts : list AccountMetadata) (preferred_id : Z)
  | SelectNext | SelectPrevious
  | Reveal (code now_ms : Z) | ExpireReveal (now_ms : Z) | HideReveal
  | BeginRequest (operation : PresenceOperation) (attempt_id : bytes) (now_ms : Z)
  | ExpireRequest (now_ms : Z) | CancelRequest
  | ObserveButton (pressed : bool) | PressButton (now_ms : Z)
  | ConsumeRequest (attempt_id : bytes) (now_ms : Z).

Definition model_step (ev : model_event) (m : UiModel) : UiModel :=
  match ev with
  | UpdateAccounts accounts preferred_id => snd (update_accounts accounts preferred_id m)
  | SelectNext => snd (select_next m)
  | SelectPrevious => snd (select_previous m)
  | Reveal code now_ms => snd (reveal code now_ms m)
  | ExpireReveal now_ms => snd (expire now_ms m)
  | HideReveal => snd (hide_reveal m)
  | BeginRequest operation attempt_id now_ms => snd (begin_unlock_request operation attempt_id now_ms m)
  | ExpireRequest now_ms => snd (expire_unlock_request now_ms m)
  | CancelRequest => snd (cancel_unlock_request m)
  | ObserveButton pressed => snd (observe_primary_button_state pressed m)
  | PressButton now_ms => snd (primary_button_pressed now_ms m)
  | ConsumeRequest attempt_id now_ms => snd (consume_unlock_confirmation attempt_id now_ms m)
  end.

(** The store lists accounts with distinct identifiers. *)
Definition event_ok (ev : model_event) : Prop :=
  match ev with UpdateAccounts accounts _ => listed accounts | _ => True end.

Inductive model_reachable : UiModel → Prop :=
  | model_new : model_reachable new_ui_model
  | model_next ev m : event_ok ev → model_reachable m → model_reachable (model_step ev m).

Definition keeps_idle {A} (f : UserPresenceGate → A * UserPresenceGate) : Prop :=
  ∀ g, gate_active g = false → gate_active (snd (f g)) = false.
Lemma idle_state g : gate_active g = false ↔ presence_state_ g = kPresenceIdle.
Proof. unfold gate_active. by rewrite negb_false_iff, bool_decide_eq_true. Qed.
Lemma gate_expire_idle now g : presence_state_ g = kPresenceIdle → gate_expire now g = (false, g).
Proof. intros E. unfold gate_expire. by rewrite bool_decide_true. Qed.
Lemma expire_keeps_idle now : keeps_idle (gate_expire now).
Proof. intros g Hg. by rewrite gate_expire_idle by by apply idle_state. Qed.
Lemma cancel_keeps_idle : keeps_idle (λ g, (tt, gate_cancel g)).
Proof. done. Qed.
Lemma observe_keeps_idle pressed : keeps_idle (λ g, (tt, observe_input_state pressed g)).
Proof. intros g Hg. apply idle_state in Hg as Hs. unfold observe_input_state. by rewrite Hs. Qed.
Lemma confirm_keeps_idle now generation : keeps_idle (confirm_current now generation).
Proof.
  intros g Hg. apply idle_state in Hg as Hs. destruct (confirm_current now generation g) as [b g'] eqn:E. cbn [snd].
  unfold confirm_current in E. exec_step E. rewrite gate_expire_idle in Ef by done. simplify_eq. do 2 exec_step E; [done|].
  by rewrite Hs in Ec.
Qed.
Lemma consume_keeps_idle id now : keeps_idle (consume_confirmation id now).
Proof.
  intros g Hg. apply idle_state in Hg as Hs. destruct (consume_confirmation id now g) as [b g'] eqn:E. cbn [snd].
  unfold consume_confirmation in E. exec_step E. rewrite gate_expire_idle in Ef by done. simplify_eq. do 2 exec_step E; [done|].
  by rewrite Hs in Ec.
Qed.
#[local] Hint Resolve expire_keeps_idle cancel_keeps_idle observe_keeps_idle confirm_keeps_idle consume_keeps_idle : m5.

(** Everything the screen of the accounts depends on. *)
Definition same_screen (m m' : UiModel) : Prop :=
  accounts_ m' = accounts_ m ∧ selected_id_ m' = selected_id_ m ∧ reveal_active_ m' = reveal_active_ m ∧
  revealed_code_ m' = revealed_code_ m ∧ reveal_deadline_ms_ m' = reveal_deadline_ms_ m.

Lemma on_presence_screen {A} (f : UserPresenceGate → A * UserPresenceGate) m :
  same_screen m (snd (on_presence f m)) ∧ presence_ (snd (on_presence f m)) = snd (f (presence_ m)).
Proof. unfold on_presence, same_screen. by destruct (f (presence_ m)). Qed.
Lemma press_screen now m :
  same_screen m (snd (primary_button_pressed now m)) ∧
  (quiet m → quiet (snd (primary_button_pressed now m))).
Proof.
  destruct (primary_button_pressed now m) as [b m'] eqn:E. cbn [snd]. unfold primary_button_pressed in E.
  exec_step E.
  assert (∃ m1, same_screen m m1 ∧ presence_ m1 = presence_ m ∧
    fn (m ← get_state; leave_if (negb (gate_active (presence_ m))) false;;
        call (on_presence (confirm_current now (model_press_generation_ m)))) m1 = (b, m')) as (m1 & Hs1 & Hp1 & E').
  { exec_step E; exec_step E; eexists; (split; [|split; [|exact E]]); by repeat split. }
  do 2 exec_step E'; [split; [done|]; unfold quiet; by rewrite Hp1|]. rewrite negb_false_iff in Ec. rewrite fn_call_tail in E'.
  pose proof (on_presence_screen (confirm_current now (model_press_generation_ m1)) m1) as [Hs _].
  rewrite E' in Hs. cbn [snd] in Hs. unfold quiet. rewrite <- Hp1, Ec. split; [|done].
  unfold same_screen in *. naive_solver congruence.
Qed.
Lemma same_screen_ok m m' : same_screen m m' → (quiet m → quiet m') → model_ok m → model_ok m'.
Proof.
  intros (Ha & Hs & Hr & Hc & Hd) Hq [Hl Ho Hsel Hsh].
  split; unfold selection_ok, nothing_shown, selected_account, find_selected in *; rewrite ?Ha, ?Hs, ?Hr, ?Hc, ?Hd; [done..|].
  destruct Hsh as [?|(? & ? & ?)]; [by left|right]. split_and!; [done|by apply Hq|done].
Qed.

Lemma hidden_ok m m' : accounts_ m' = accounts_ m → selected_id_ m' = selected_id_ m → nothing_shown m' → model_ok m → model_ok m'.
Proof.
  intros Ha Hs Hn [Hl Ho Hsel _]. split; unfold selection_ok in *; rewrite ?Ha, ?Hs; [done..|by left].
Qed.
Lemma at_index_ok m : model_ok m → accounts_ m ≠ [] → ∃ i, at_index m i.
Proof.
  intros [_ _ [[? _]|(a & Ha & E)] _] Hne; [done|]. apply list_elem_of_lookup in Ha as [i Hi]. exists i.
  unfold at_index. rewrite Hi. cbn. by rewrite E.
Qed.

(** What a gesture can do, wherever the model is. *)
Lemma select_outcome step m :
  (∀ n i, (i < n)%nat → (step n i < n)%nat) → model_ok m →
  snd (select_by step m) = m ∨
  accounts_ (snd (select_by step m)) = accounts_ m ∧ nothing_shown (snd (select_by step m)) ∧
  presence_ (snd (select_by step m)) = presence_ m ∧ selection_ok (snd (select_by step m)).
Proof.
  intros Hstep Hm. destruct (select_by step m) as [b m'] eqn:E. cbn [snd].
  destruct (gate_active (presence_ m)) eqn:Hq.
  { left. unfold select_by in E. do 2 exec_step E; [done|]. by rewrite Hq in Ec. }
  right. destruct (decide (accounts_ m = [])) as [El|Hne].
  - unfold select_by in E. do 2 exec_step E; [by rewrite Hq in Ec|]. exec_step E. apply hide_reveal_spec in Ef as [-> _]. rewrite El in E. exec E.
    unfold selection_ok. cbn. by repeat split; auto.
  - destruct (at_index_ok m Hm Hne) as [i Hi]. pose proof (at_index_bound _ _ Hi) as Hb.
    apply (select_by_exact step m i) in E as (Ha & Hi' & Hn & Hp & _); [|by apply Hm|done|done|by apply Hstep].
    split_and!; [done|apply Hn..|done|]. right. unfold at_index in Hi'.
    destruct (accounts_ m' !! _) as [a|] eqn:Ej; [|done]. injection Hi' as E'. exists a.
    split; [by eapply list_elem_of_lookup_2|done].
Qed.
Lemma model_select_ok step m :
  (∀ n i, (i < n)%nat → (step n i < n)%nat) → model_ok m → model_ok (snd (select_by step m)).
Proof.
  intros Hstep Hm. destruct (select_outcome step m Hstep Hm) as [->|(Ha & Hn & _ & Hs)]; [done|].
  destruct Hm. split; rewrite ?Ha; [done..|by left].
Qed.

Lemma reselected_ok m l preferred_id selected :
  accounts_ m = sort_accounts l → selected_id_ m = reselected l preferred_id selected → selection_ok m.
Proof.
  intros Ha Hs. unfold selection_ok. rewrite Hs. unfold reselected, has_id.
  assert (Hin : ∀ id, id ∈ meta_id <$> l → ∃ a, a ∈ accounts_ m ∧ meta_id a = id).
  { intros id (a & -> & Hi)%list_elem_of_fmap. exists a. split; [by rewrite Ha, sort_accounts_perm|done]. }
  repeat case_decide; [right; by apply Hin..|]. rewrite <- Ha. destruct (accounts_ m) as [|a k]; [by left|right].
  exists a. split; [constructor|done].
Qed.
Lemma reselected_same m l preferred_id :
  selection_ok m → accounts_ m = sort_accounts l → reselected l preferred_id (selected_id_ m) = selected_id_ m.
Proof.
  assert (Hid : ∀ id, has_id id l ↔ has_id id (sort_accounts l)).
  { intros id. unfold has_id. by rewrite sort_accounts_perm. }
  unfold reselected. intros [[He Hs]|(a & Ha & Hs)] El.
  - assert (Hno : ∀ id, ¬ has_id id l) by (intros id Hin%Hid; rewrite <- El, He in Hin; by apply not_elem_of_nil in Hin).
    rewrite !decide_False by apply Hno. by rewrite <- El, He, Hs.
  - rewrite decide_True; [done|]. apply Hid. rewrite <- El. unfold has_id. apply list_elem_of_fmap. by eauto.
Qed.
Lemma update_ok m l preferred_id : listed l → model_ok m → model_ok (snd (update_accounts l preferred_id m)).
Proof.
  intros Hl Hm. destruct (update_accounts l preferred_id m) as [b m'] eqn:E. cbn [snd].
  apply update_accounts_exact in E as (Ha & Hs & Hp & _ & _ & Hn); [|done].
  destruct Hn as [[He Em]|[_ Hn]].
  - rewrite Hs, reselected_same in Em by (done || apply Hm). destruct m. cbn in Em. by subst m'.
  - split; [by rewrite Ha, sort_accounts_perm|rewrite Ha; apply sort_accounts_sorted|by eapply reselected_ok|by left].
Qed.

Lemma on_presence_ok {A} (f : UserPresenceGate → A * UserPresenceGate) m :
  keeps_idle f → model_ok m → model_ok (snd (on_presence f m)).
Proof.
  intros Hf. destruct (on_presence_screen f m) as [Hs Hp]. apply same_screen_ok; [done|].
  unfold quiet. rewrite Hp. apply Hf.
Qed.

Lemma begin_screen operation id now m :
  let m' := snd (begin_unlock_request operation id now m) in
  accounts_ m' = accounts_ m ∧ selected_id_ m' = selected_id_ m ∧ nothing_shown m' ∧
  presence_ m' = snd (gate_begin operation id now (model_press_generation_ m) (presence_ m)) ∧
  fst (begin_unlock_request operation id now m) = true.
Proof.
  destruct (begin_unlock_request operation id now m) as [b m'] eqn:E. cbn zeta. cbn [fst snd]. unfold begin_unlock_request in E.
  exec_step E. apply hide_reveal_spec in Ef as [-> _]. do 2 exec_step E. unfold on_presence in Ef. cbn in Ef.
  injection Ef as <- <-. exec E. simplify_eq. split_and!; try done. by rewrite orb_true_r.
Qed.

Lemma reveal_exact code now m b m' : reveal code now m = (b, m') →
  (b = true ↔ quiet m ∧ is_Some (selected_account m)) ∧
  (b = false → m' = m) ∧
  (b = true → m' = m <| revealed_code_ := code |> <| reveal_active_ := true |>
                     <| reveal_deadline_ms_ := Z.min u64_max (now + kOtpRevealDurationMs) |>).
Proof.
  intros E. unfold reveal in E. do 2 exec_step E.
  - split_and!; [|done..]. split; [done|]. intros [Hq Hs]. unfold quiet in Hq.
    rewrite Hq, bool_decide_true in Ec by done. done.
  - apply orb_false_iff in Ec as [Hq Hs%negb_false_iff%bool_decide_eq_true]. exec E. simplify_eq.
    split_and!; [by split|done|]. rewrite deadline_min, Z.add_comm. done.
Qed.

(** A code is shown from [reveal] on, and goes when the clock has reached its
    deadline. *)
Lemma expire_exact now m b m' : expire now m = (b, m') →
  (b = true → reveal_active_ m = true ∧ reveal_deadline_ms_ m ≤ now ∧ nothing_shown m' ∧ same_but_hidden m m') ∧
  (b = false → m' = m ∧ (reveal_active_ m = true → now < reveal_deadline_ms_ m)).
Proof.
  intros E. unfold expire in E. do 2 exec_step E.
  - split; [done|]. intros _. split; [done|]. intros Hr. rewrite Hr in Ec. cbn in Ec. by apply Z.ltb_lt.
  - apply orb_false_iff in Ec as [Hr%negb_false_iff Hd%Z.ltb_ge]. rewrite fn_call_tail in E.
    apply hide_reveal_spec in E as [-> Hb]. split; [done|]. intros ->. destruct (proj1 Hb eq_refl) as [Hr' _]. congruence.
Qed.

Lemma step_ok ev m : event_ok ev → model_ok m → model_ok (model_step ev m).
Proof.
  intros He Hm. destruct ev; cbn [model_step].
  - by apply update_ok.
  - apply model_select_ok; [|done]. apply next_index_bound.
  - apply model_select_ok; [|done]. apply previous_index_bound.
  - destruct (reveal code now_ms m) as [b m'] eqn:E. apply reveal_exact in E as (Hb & Hf & Ht). cbn [snd].
    destruct b; [|by rewrite Hf]. destruct (proj1 Hb eq_refl) as [Hq Hs]. rewrite Ht by done.
    destruct Hm. split; [done..|]. by right.
  - destruct (expire now_ms m) as [b m'] eqn:E. apply expire_exact in E as [Ht Hf]. cbn [snd].
    destruct b; [|by destruct (Hf eq_refl) as [-> _]]. destruct (Ht eq_refl) as (_ & _ & Hn & ->). by apply (hidden_ok m).
  - destruct (hide_reveal m) as [b m'] eqn:E. apply hide_reveal_spec in E as [-> _]. by apply (hidden_ok m).
  - destruct (begin_screen operation attempt_id now_ms m) as (Ha & Hs & Hn & _ & _). by apply (hidden_ok m).
  - apply on_presence_ok; auto with m5.
  - apply on_presence_ok; auto with m5.
  - apply on_presence_ok; auto with m5.
  - destruct (press_screen now_ms m). by eapply same_screen_ok.
  - apply on_presence_ok; auto with m5.
Qed.

(** Whatever happens: the accounts are sorted, one of them is selected whenever
    there is one, and a code on the screen is never beside a request. *)
Theorem model_reachable_ok m : model_reachable m → model_ok m.
Proof.
  induction 1 as [|ev m He _ IH]; [|by apply step_ok]. split; [by split; constructor|constructor|by left|by left].
Qed.

(** ** Which code is on the screen *)

Definition shown (m : UiModel) (account : AccountMetadata) (code until_ms : Z) : Prop :=
  reveal_active_ m = true ∧ selected_account m = Some account ∧ revealed_code_ m = code ∧ reveal_deadline_ms_ m = until_ms.

Lemma nothing_not_shown m account code until_ms : nothing_shown m → ¬ shown m account code until_ms.
Proof. intros [H _] [H' _]. congruence. Qed.
Lemma same_screen_shown m m' account code until_ms :
  same_screen m m' → shown m' account code until_ms → shown m account code until_ms.
Proof. intros (Ha & Hs & Hr & Hc & Hd). unfold shown, selected_account, find_selected. by rewrite Ha, Hs, Hr, Hc, Hd. Qed.

Definition revealed_by (ev : model_event) (m : UiModel) (account : AccountMetadata) (code until_ms : Z) : Prop :=
  ∃ now_ms, ev = Reveal code now_ms ∧ selected_account m = Some account ∧
            until_ms = Z.min u64_max (now_ms + kOtpRevealDurationMs).
Definition not_expired_by (until_ms : Z) (ev : model_event) : Prop :=
  match ev with ExpireReveal now_ms => now_ms < until_ms | _ => True end.

Lemma step_shown ev m account code until_ms :
  event_ok ev → model_ok m → shown (model_step ev m) account code until_ms →
  revealed_by ev m account code until_ms ∨ shown m account code until_ms ∧ not_expired_by until_ms ev.
Proof.
  intros He Hm. destruct ev; cbn [model_step]; intros Hs.
  - right. split; [|done]. destruct (update_accounts accounts preferred_id m) as [b m'] eqn:E. cbn [snd] in Hs.
    apply update_accounts_exact in E as (_ & Hid & _ & _ & _ & [[Hl E]|[_ Hn]]); [|by apply nothing_not_shown in Hs|done].
    rewrite Hid, reselected_same in E by (done || apply Hm). destruct m. cbn in E. by subst m'.
  - right. split; [|done]. destruct (select_outcome next_index m next_index_bound Hm) as [E|(_ & Hn & _)].
    + unfold select_next in Hs. by rewrite E in Hs.
    + by apply nothing_not_shown in Hs.
  - right. split; [|done]. destruct (select_outcome previous_index m previous_index_bound Hm) as [E|(_ & Hn & _)].
    + unfold select_previous in Hs. by rewrite E in Hs.
    + by apply nothing_not_shown in Hs.
  - destruct (reveal code0 now_ms m) as [b m'] eqn:E. apply reveal_exact in E as (Hb & Hf & Ht). cbn [snd] in Hs.
    destruct b; [left|right; rewrite Hf in Hs by done; by split]. rewrite Ht in Hs by done.
    destruct Hs as (_ & Ha & <- & <-). by exists now_ms.
  - right. destruct (expire now_ms m) as [b m'] eqn:E. apply expire_exact in E as [Ht Hf]. cbn [snd] in Hs.
    destruct b; [destruct (Ht eq_refl) as (_ & _ & Hn & _); by apply nothing_not_shown in Hs|].
    destruct (Hf eq_refl) as [-> Hd]. split; [done|]. destruct Hs as (Hr & _ & _ & <-). by apply Hd.
  - destruct (hide_reveal m) as [b m'] eqn:E. apply hide_reveal_spec in E as [-> _]. by apply nothing_not_shown in Hs.
  - destruct (begin_screen operation attempt_id now_ms m) as (_ & _ & Hn & _). by apply nothing_not_shown in Hs.
  - right. split; [|done]. eapply same_screen_shown; [|exact Hs]. apply on_presence_screen.
  - right. split; [|done]. eapply same_screen_shown; [|exact Hs]. apply on_presence_screen.
  - right. split; [|done]. eapply same_screen_shown; [|exact Hs]. apply on_presence_screen.
  - right. split; [|done]. eapply same_screen_shown; [|exact Hs]. apply press_screen.
  - right. split; [|done]. eapply same_screen_shown; [|exact Hs]. apply on_presence_screen.
Qed.

Definition model_run (evs : list model_event) : UiModel := foldl (λ m ev, model_step ev m) new_ui_model evs.

Lemma model_run_reachable evs : Forall event_ok evs → model_reachable (model_run evs).
Proof.
  induction evs as [|ev evs IH] using rev_ind; intros He; [constructor|].
  apply Forall_app in He as [He Hev]. unfold model_run. rewrite foldl_app. cbn. apply model_next; [by inversion Hev|by apply IH].
Qed.

(** A code on the screen is the one the last [reveal] was given, for the account
    that was selected then and still is, and no tick of the clock since has
    reached its deadline. *)
Theorem shown_code_was_revealed evs account code until_ms :
  Forall event_ok evs → shown (model_run evs) account code until_ms →
  ∃ e1 now_ms e2, evs = e1 ++ Reveal code now_ms :: e2 ∧ selected_account (model_run e1) = Some account ∧
    until_ms = Z.min u64_max (now_ms + kOtpRevealDurationMs) ∧ Forall (not_expired_by until_ms) e2.
Proof.
  induction evs as [|ev evs IH] using rev_ind; intros He Hs; [by destruct Hs|].
  apply Forall_app in He as [He Hev]. inversion Hev as [|? ? Hev1 _]; subst.
  unfold model_run in Hs. rewrite foldl_app in Hs. cbn in Hs. change (foldl _ new_ui_model evs) with (model_run evs) in Hs.
  apply step_shown in Hs as [(now & -> & Ha & ->)|[Hs Hn]];
    [..|done|by apply model_reachable_ok, model_run_reachable].
  - by exists evs, now, [].
  - destruct (IH He Hs) as (e1 & now & e2 & -> & Ha & Hu & Hf). exists e1, now, (e2 ++ [ev]).
    rewrite <- app_assoc. split_and!; [done..|]. by apply Forall_app_2; [|constructor].
Qed.

(** ** The request to confirm *)

#[export] Instance model_presence_laws : PresenceBindingLaws UiModel.
Proof.
  refine {| presence_given := λ m id, presence_state_ (presence_ m) = kPresenceConfirmed ∧ attempt_id_ (presence_ m) = id |}.
  - intros operation id now m b m' E id' [Hc _]. cbn [begin_presence model_presence] in E.
    destruct (begin_screen operation id now m) as (_ & _ & _ & Hp & _). rewrite E in Hp. cbn [snd] in Hp. by rewrite Hp in Hc.
  - intros id now m m' E. cbn [consume_presence model_presence] in E. unfold consume_unlock_confirmation, on_presence in E.
    destruct (consume_confirmation id now (presence_ m)) as [b g] eqn:Ec. injection E as -> <-.
    apply consume_cases in Ec as [[? _]|(_ & -> & ? & _ & ->)]; [done|]. split; [done|]. by intros id' [].
  - by intros m x m' [= <- <-] id [].
Defined.

(** ** With the account store *)

Lemma listing_listed s : state_wf s → listed (listing (book_of s)).
Proof.
  intros Hw. assert (E : meta_id <$> listing (book_of s) = fst <$> entries (book_of s)).
  { apply list_eq. intros j. unfold listing. rewrite !list_lookup_fmap, list_lookup_imap.
    by destruct (entries (book_of s) !! j). }
  assert (Hp : meta_id <$> listing (book_of s) ≡ₚ account_id <$> accounts s) by by rewrite E, entries_ids_perm.
  split; [rewrite Hp; apply Hw|]. apply (Forall_fmap meta_id (λ id, id ≠ 0)). rewrite Hp. apply Forall_fmap.
  eapply Forall_impl; [apply (wf_id_range _ Hw)|]. intros a [Ha _] Hz. unfold compose in Hz. lia.
Qed.
Lemma numbered_sorted (k : nat) (l : list (Z * AccountDraft)) :
  StronglySorted in_place (imap (λ i e, let d := snd e in
    mkAccountMetadata (fst e) (Z.of_nat (k + i)) (draft_issuer d) (draft_account d) (draft_display_name d)) l).
Proof.
  revert k. induction l as [|e l IH]; intros k; cbn [imap]; [constructor|]. constructor.
  - erewrite imap_ext; [apply (IH (S k))|]. intros i x _. cbn. by rewrite Nat.add_succ_r.
  - apply Forall_lookup. intros i a Ha. rewrite list_lookup_imap in Ha. destruct (l !! i) as [x|]; [|done].
    injection Ha as <-. apply in_place_spec. cbn. lia.
Qed.
Lemma listing_sorted b : StronglySorted in_place (listing b).
Proof. apply (numbered_sorted 0). Qed.

(** After a refresh from the store the screen has the book's accounts in the book's
    order, at the positions the book gives them. *)
Theorem refreshed_from_store m s preferred_id b m' :
  model_ok m → state_wf s → update_accounts (listing (book_of s)) preferred_id m = (b, m') →
  model_ok m' ∧ accounts_ m' = listing (book_of s) ∧
  (∀ i e, entries (book_of s) !! i = Some e → fst e = selected_id_ m' → selected_position m' = S i) ∧
  (entries (book_of s) ≠ [] → ∃ e, e ∈ entries (book_of s) ∧ fst e = selected_id_ m').
Proof.
  intros Hm Hw E. pose proof (listing_listed s Hw) as Hl. pose proof (update_ok m _ preferred_id Hl Hm) as Hm'.
  rewrite E in Hm'. cbn [snd] in Hm'. apply update_accounts_exact in E as (Ha & _); [|done].
  rewrite (sorted_only _ (listing (book_of s))) in Ha by (done || apply listing_sorted). split_and!; [done|done| |].
  - intros i e He Hid. apply selected_position_at; [apply Hm'|]. unfold at_index. rewrite Ha. unfold listing.
    rewrite list_lookup_imap, He. cbn. by rewrite Hid.
  - intros Hne. destruct (ok_selection _ Hm') as [[H0 _]|(a & Hin & Hid)].
    + destruct Hne. rewrite Ha in H0. unfold listing in H0. apply (f_equal length) in H0. rewrite length_imap in H0.
      by apply nil_length_inv.
    + rewrite Ha in Hin. apply list_elem_of_lookup in Hin as [j Hj]. unfold listing in Hj. rewrite list_lookup_imap in Hj.
      destruct (entries (book_of s) !! j) as [e|] eqn:He; [|done]. injection Hj as <-. exists e.
      split; [by eapply list_elem_of_lookup_2|done].
Qed.

(** ** On a small list *)

Module UiModelSample.
Definition mail : AccountMetadata := mkAccountMetadata 7 1 (str "Mail") (str "me") [].
Definition bank : AccountMetadata := mkAccountMetadata 3 0 (str "Bank") (str "me") (str "My bank").
Definition events : list model_event :=
  [UpdateAccounts [mail; bank] 7; Reveal 123456 1000; ExpireReveal 10999; PressButton 10999].

Example shown_until_deadline : shown (model_run events) mail 123456 11000.
Proof. by vm_compute. Qed.
Example hidden_at_deadline : nothing_shown (model_run (events ++ [ExpireReveal 11000])).
Proof. by vm_compute. Qed.
Example labels : account_display_label mail = str "Mail" ∧ account_display_label bank = str "My bank".
Proof. done. Qed.

Lemma shown_code_was_revealed_witness :
  ∃ e1 now_ms e2, events = e1 ++ Reveal 123456 now_ms :: e2 ∧ selected_account (model_run e1) = Some mail ∧
    11000 = Z.min u64_max (now_ms + kOtpRevealDurationMs) ∧ Forall (not_expired_by 11000) e2.
Proof.
  apply shown_code_was_revealed; [|by vm_compute]. repeat constructor; cbn; set_solver.
Defined.
Lemma select_next_visits_witness :
  at_index (Nat.iter 3 (λ m, snd (select_next m)) (model_run events)) 0.
Proof.
  refine (proj2 (proj2 (select_next_visits 3 (model_run events) 1 _ _ _))); [|by vm_compute..].
  vm_compute. repeat constructor; set_solver.
Defined.
End UiModelSample.
