(* ===== verification/AccountTime.v ===== *)
(** * The time service of the first generation

    m5auth_time/time_service.cpp, with the Wi-Fi credentials of an [AccountStore] or of
    the Vault, as the constructor sets [legacy_store_] or [vault_runtime_]:
    synchronisation from the network, from the USB host, when it is due, and the
    factory reset.  The network calls,
    [ensure_network_initialized], [teardown_network] and the wait for an address
    have the text of [TimeService]'s.  Unlike there, the network time replaces the
    anchor whatever the clock showed. *)

From S2P Require Import Prelude Bytes VaultFormat VaultCrypto Persistence Runtime.
From S2P Require Import Nvs AccountState AccountStore AccountStoreCorrect.
From S2P Require Import TrustedTime TimeService TimeServiceCorrect.

Section Connect.
Context {W : Type} `{EspNetwork W}.

Definition connect_and_mark (ssid password : bytes) : service_op (N:=W) SyncResult.t := fn (
  leave_if (Nat.eqb (length ssid) 0 || Nat.ltb TimeService.kMaxSsidBytes (length ssid)
            || Nat.eqb (length password) 0 || Nat.ltb kMaxPasswordBytes (length password))
    SyncResult.kSyncFailed;;
  ready ← call ensure_network_initialized;
  leave_if (negb ready) SyncResult.kNetworkUnavailable;;
  esp_or_fail (esp_wifi_set_config ssid password);;
  esp_or_fail esp_wifi_start;;
  esp_or_fail esp_wifi_connect;;
  got_ip ← call (wait_for_ip wait_fuel 0);
  (if negb got_ip then teardown_and_leave SyncResult.kSyncFailed else mret tt);;
  esp_or_fail esp_netif_sntp_init;;
  result ← call (esp (esp_netif_sntp_sync_wait kSntpTimeout));
  now ← (if bool_decide (result = NetOk) then call (on_net gettimeofday) else mret None);
  call (on_net esp_netif_sntp_deinit);;
  call teardown_network;;
  match now with
  | None => leave SyncResult.kSyncFailed
  | Some tv_sec =>
    leave_if (negb ((tv_sec >=? 0) && acceptable_unix_seconds tv_sec)) SyncResult.kSyncFailed;;
    monotonic_us ← call (on_net esp_timer_get_time);
    modify (λ t, t <| clock_ := mark_synchronized tv_sec monotonic_us kNtp (clock_ t) |>);;
    mret SyncResult.kOk
  end).
End Connect.

(** ** Over a time service and what it takes the credentials from *)

Section Retry.
Context {B W : Type} `{EspNetwork W}.
Definition timed_op (A : Type) : Type := B * TimeService W → A * (B * TimeService W).

Definition on_clock {A} (f : service_op (N:=W) A) : timed_op A := λ s,
  let '(a, t) := f (snd s) in (a, (fst s, t)).

(** [locked] is whether a Vault is not unlocked. *)
Definition time_sync_from_usb (locked : B → bool) (unix_seconds : Z) : timed_op SyncResult.t := fn (
  leave_if (negb (acceptable_unix_seconds unix_seconds)) SyncResult.kInvalidTime;;
  s ← get_state;
  leave_if (locked (fst s)) SyncResult.kLocked;;
  set ← call (on_clock (on_net (settimeofday unix_seconds)));
  leave_if (negb set) SyncResult.kInternalError;;
  now ← call (on_clock (on_net esp_timer_get_time));
  modify (λ s, (fst s, snd s <| clock_ := mark_synchronized unix_seconds now kUsb (clock_ (snd s)) |>));;
  mret SyncResult.kOk).

Context (sync_ntp_once : timed_op SyncResult.t).

(** The loop over the attempts; [backoff] holds the delays still to come. *)
Fixpoint time_boot_attempts (attempts : nat) (backoff : list Z) (result : SyncResult.t) : timed_op SyncResult.t :=
  match attempts with
  | O => fn (mret result)
  | S attempts => fn (
      result ← call sync_ntp_once;
      leave_if (final_result result) result;;
      match backoff with
      | delay :: backoff =>
        call (on_clock (on_net (vTaskDelay delay)));;
        call (time_boot_attempts attempts backoff result)
      | [] => call (time_boot_attempts attempts [] result)
      end)
  end.
Definition time_boot_sync : timed_op SyncResult.t := time_boot_attempts 3 kBootBackoff SyncResult.kNotConfigured.

Definition time_resync_if_due : timed_op SyncResult.t := fn (
  before ← call (on_clock time_status);
  leave_if (negb (bool_decide (readiness before = kNotSynced)) && negb (resync_due before)) SyncResult.kNotDue;;
  now ← call (on_clock (on_net esp_timer_get_time));
  s ← get_state;
  let current := clock_snapshot now (clock_ (snd s)) in
  if bool_decide (readiness current = kNotSynced) then
    leave_if ((last_initial_attempt_us_ (snd s) >=? 0)
              && (now - last_initial_attempt_us_ (snd s) <? kInitialNtpRetrySeconds * kMicroseconds))
      SyncResult.kNotDue;;
    result ← call sync_ntp_once;
    (if negb (bool_decide (result = SyncResult.kLocked))
     then modify (λ s, (fst s, snd s <| last_initial_attempt_us_ := now |>)) else mret tt);;
    (if bool_decide (result = SyncResult.kOk)
     then modify (λ s, (fst s, snd s <| last_initial_attempt_us_ := -1 |>)) else mret tt);;
    mret result
  else
    leave_if (negb (resync_due current)) SyncResult.kNotDue;;
    leave_if ((last_periodic_attempt_us_ (snd s) >=? 0)
              && (now - last_periodic_attempt_us_ (snd s) <? kResyncIntervalSeconds * kMicroseconds))
      SyncResult.kNotDue;;
    modify (λ s, (fst s, snd s <| last_periodic_attempt_us_ := now |>));;
    call sync_ntp_once).
End Retry.

(** ** With an account store: [legacy_store_] *)

Section Sync.
Context {N W : Type} `{Nvs N} `{SecurityBackend N} `{EspNetwork W}.
Definition clocked_op (A : Type) : Type := timed_op (B:=AccountStore N) (W:=W) A.

(** The consumer of the credentials: [outcome] is captured by reference. *)
Definition connect_with (ssid password : bytes) (c : SyncResult.t * TimeService W)
    : StoreStatus.t * (SyncResult.t * TimeService W) :=
  let '(outcome, t) := connect_and_mark ssid password (snd c) in (StoreStatus.kOk, (outcome, t)).
Definition sync_with_store : clocked_op (StoreStatus.t * SyncResult.t) := λ s,
  let '(status, (store, (outcome, t))) :=
    with_wifi_credentials (Some connect_with) (fst s, (SyncResult.kNotConfigured, snd s)) in
  ((status, outcome), (store, t)).

Definition store_sync_ntp_once : clocked_op SyncResult.t := fn (
  x ← call sync_with_store;
  let '(status, outcome) := x in
  leave_if (bool_decide (status = StoreStatus.kNotFound)) SyncResult.kNotConfigured;;
  leave_if (negb (StoreStatus.is_ok status)) SyncResult.kInternalError;;
  mret outcome).

Definition store_boot_sync : clocked_op SyncResult.t := time_boot_sync store_sync_ntp_once.
Definition store_sync_from_usb : Z → clocked_op SyncResult.t := time_sync_from_usb (λ _, false).
Definition store_resync_if_due : clocked_op SyncResult.t := time_resync_if_due store_sync_ntp_once.

Definition store_time_status : clocked_op TimeSnapshot := on_clock time_status.
Definition store_unix_seconds : clocked_op (option Z) := on_clock service_unix_seconds.

Definition prepare_factory_reset : clocked_op unit := on_clock teardown_network.
Definition on_accounts {A} (f : store_op (N:=N) A) : clocked_op A := λ s,
  let '(a, store) := f (fst s) in (a, (store, snd s)).
Definition factory_reset_user_state : clocked_op StoreStatus.t := fn (
  call (on_clock teardown_network);;
  call (on_accounts account_store_reset)).
End Sync.

(** ** With a Vault: [vault_runtime_] *)

Section VaultSync.
Context `{MbedtlsGcm} {P W : Type} `{Persistence P} `{EspNetwork W}.

Definition runtime_sync_ntp_once : sync_op (P:=P) (N:=W) SyncResult.t := fn (
  x ← call read_wifi;
  let '(status, (ssid, password)) := x in
  leave_if (bool_decide (status = kNotFound)) SyncResult.kNotConfigured;;
  leave_if (bool_decide (status = kLocked) || bool_decide (status = kInvalidState)) SyncResult.kLocked;;
  leave_if (negb (is_ok status)) SyncResult.kInternalError;;
  call (on_clock (connect_and_mark ssid password))).

Definition runtime_boot_sync : sync_op (P:=P) (N:=W) SyncResult.t := time_boot_sync runtime_sync_ntp_once.
Definition runtime_sync_from_usb : Z → sync_op (P:=P) (N:=W) SyncResult.t :=
  time_sync_from_usb (λ runtime, negb (unlocked runtime)).
Definition runtime_resync_if_due : sync_op (P:=P) (N:=W) SyncResult.t := time_resync_if_due runtime_sync_ntp_once.
End VaultSync.

(** ** Properties *)

Section Correct.
Context {W : Type} `{EspNetwork W}.
Implicit Types (t : TimeService W).

(** Nothing, or an acceptable time as the new anchor. *)
Definition marked_by (src : Source) (c c' : TrustedClock) : Prop :=
  c' = c ∨ ∃ unix now, acceptable unix ∧ c' = mkClock true unix now src.

(** What a use of the network leaves behind. *)
Definition connected t (r : SyncResult.t) t' : Prop :=
  network_down t' ∧ same_marks t t' ∧ marked_by kNtp (clock_ t) (clock_ t') ∧
  (r ≠ SyncResult.kOk → clock_ t' = clock_ t).

#[local] Ltac rests :=
  unfold same_rest, same_marks in *; cbn in *; destruct_and?; split_and?; congruence.

Lemma connected_still t r t' : network_down t' → same_rest t t' → connected t r t'.
Proof. intros ? [Hc ?]. split_and!; try done. by left. Qed.

Lemma connect_mark_spec ssid password t r t' :
  network_down t → connect_and_mark ssid password t = (r, t') → connected t r t'.
Proof.
  intros Hd E. unfold connect_and_mark, esp_or_fail, teardown_and_leave in E.
  exec_service E;
    repeat match goal with
    | E : ensure_network_initialized _ = _ |- _ => apply ensure_network_spec in E as [? ?]; [|done]
    | E : wait_for_ip _ _ _ = _ |- _ => apply wait_rest in E
    | E : teardown_network _ = _ |- _ => apply teardown_spec in E as [? ?]
    end; cbn in *;
    try (apply connected_still; [by auto using negb_true_iff|rests]).
  - apply connected_still; [by destruct a; auto|done].
  - match goal with E : negb (_ && _) = false |- _ => apply negb_false_iff, andb_true_iff in E as [_ Hu] end.
    apply acceptable_spec in Hu. split_and!; [done|rests|right; unfold mark_synchronized; eauto|done].
Qed.
End Correct.

Section Timed.
Context {B W : Type} `{EspNetwork W} (locked : B → bool) (sync_ntp_once : timed_op (B:=B) (W:=W) SyncResult.t).
Abbreviation SS := (B * TimeService W)%type.
Implicit Types (s : SS).

(** The driver is down again; the clock is as it was, or it shows an acceptable
    time of that source and nothing was locked. *)
Definition timed_safe (src : Source) s s' : Prop :=
  network_down (snd s') ∧ marked_by src (clock_ (snd s)) (clock_ (snd s')) ∧
  (clock_ (snd s') ≠ clock_ (snd s) → locked (fst s') = false).

Lemma on_clock_inv {A} (f : service_op (N:=W) A) s a s' :
  on_clock f s = (a, s') → f (snd s) = (a, snd s') ∧ fst s' = fst s.
Proof. unfold on_clock. destruct (f (snd s)). by intros [= <- <-]. Qed.
Lemma on_clock_net {A} (f : W → A * W) s a s' :
  on_clock (on_net f) s = (a, s') →
  fst s' = fst s ∧ clock_ (snd s') = clock_ (snd s) ∧ (network_down (snd s) → network_down (snd s')).
Proof. intros [E ->]%on_clock_inv. apply on_net_only in E. by rewrite E. Qed.
Lemma on_clock_status s x s' : on_clock time_status s = (x, s') →
  fst s' = fst s ∧ clock_ (snd s') = clock_ (snd s) ∧ (network_down (snd s) → network_down (snd s')).
Proof.
  intros [E ->]%on_clock_inv. unfold time_status in E. destruct (esp_timer_get_time _).
  apply pair_eq in E as [_ <-]. done.
Qed.
Lemma timed_still src s s' : network_down (snd s') → clock_ (snd s') = clock_ (snd s) → timed_safe src s s'.
Proof. intros Hd Hc. split_and!; [done|left; congruence|done]. Qed.
Lemma timed_from src s1 s s' : clock_ (snd s1) = clock_ (snd s) → timed_safe src s1 s' → timed_safe src s s'.
Proof. unfold timed_safe. by intros ->. Qed.

Lemma usb_clocked unix s r s' : time_sync_from_usb locked unix s = (r, s') →
  (network_down (snd s) → timed_safe kUsb s s') ∧ fst s' = fst s ∧
  (r = SyncResult.kOk → acceptable unix ∧
     clock_ (snd s') = mkClock true unix (base_monotonic_us_ (clock_ (snd s'))) kUsb).
Proof.
  intros E. unfold time_sync_from_usb in E. exec_step E; [simplify_eq; split_and!; [by intros; apply timed_still|done..]|].
  apply negb_false_iff, acceptable_spec in Ec. exec_step E.
  exec_step E; [simplify_eq; split_and!; [by intros; apply timed_still|done..]|].
  exec_step E. apply on_clock_net in Ef as (Hf & Hc & Hd).
  exec_step E; [simplify_eq; split_and!; [by intros; apply timed_still; auto|done..]|]. exec_step E.
  apply on_clock_net in Ef as (Hf1 & Hc1 & Hd1). exec E. simplify_eq. cbn.
  split_and!; [|congruence|done]. intros Hn. split_and!; [by apply Hd1, Hd| |]; cbn.
  - right. unfold mark_synchronized. eauto.
  - intros _. congruence.
Qed.

Hypothesis sync_safe : ∀ s r s', network_down (snd s) → sync_ntp_once s = (r, s') →
  timed_safe kNtp s s' ∧ (r ≠ SyncResult.kOk → clock_ (snd s') = clock_ (snd s)).

Lemma boot_clocked attempts backoff r0 s r s' :
  network_down (snd s) → time_boot_attempts sync_ntp_once attempts backoff r0 s = (r, s') → timed_safe kNtp s s'.
Proof.
  revert backoff r0 s. induction attempts as [|n IH]; intros backoff r0 s Hd E; cbn [time_boot_attempts] in E.
  { exec E. simplify_eq. by apply timed_still. }
  exec_step E. apply sync_safe in Ef as (Hs & Hk); [|done]. exec_step E; [by simplify_eq|].
  assert (Hc : clock_ (snd s0) = clock_ (snd s)) by (apply Hk; intros ->; done). apply (timed_from _ s0); [done|].
  pose proof (proj1 Hs) as Hd'.
  exec_step E; [rewrite fn_call_tail in E; by apply IH in E|]. exec_step E.
  apply on_clock_net in Ef as (_ & Hc1 & Hd1). apply (timed_from _ s1); [done|]. rewrite fn_call_tail in E. apply IH in E; auto.
Qed.

Lemma resync_clocked s r s' : network_down (snd s) → time_resync_if_due sync_ntp_once s = (r, s') → timed_safe kNtp s s'.
Proof.
  intros Hd E. unfold time_resync_if_due in E. exec_step E. apply on_clock_status in Ef as (_ & Hc & Hn). specialize (Hn Hd).
  apply (timed_from _ s0); [done|]. exec_step E; [simplify_eq; by apply timed_still|]. exec_step E.
  apply on_clock_net in Ef as (_ & Hc1 & Hn1). specialize (Hn1 Hn). apply (timed_from _ s1); [done|]. exec_step E. cbn zeta in E.
  exec_step E; exec_step E; try (simplify_eq; by apply timed_still).
  - exec_step E. apply sync_safe in Ef as (? & _); [|done]. exec E; by simplify_eq.
  - exec_step E; [simplify_eq; by apply timed_still|]. exec_step E. rewrite fn_call_tail in E.
    by apply sync_safe in E as (? & _).
Qed.

(** Whatever the network stack answers, an operation that starts with the Wi-Fi
    driver down ends with it down, and the clock only moves to a time between 2020
    and 2100, which the network or the host gave while nothing was locked; a USB
    synchronisation that succeeds has set exactly the given time. *)
Lemma time_safe s r s' unix :
  network_down (snd s) →
  ((time_boot_sync sync_ntp_once s = (r, s') ∨ time_resync_if_due sync_ntp_once s = (r, s')) → timed_safe kNtp s s') ∧
  (time_sync_from_usb locked unix s = (r, s') →
     timed_safe kUsb s s' ∧ fst s' = fst s ∧
     (r = SyncResult.kOk → acceptable unix ∧
        clock_ (snd s') = mkClock true unix (base_monotonic_us_ (clock_ (snd s'))) kUsb)).
Proof.
  intros Hd. split.
  - intros [E|E]; [by eapply boot_clocked|by eapply resync_clocked].
  - intros E. apply usb_clocked in E as (Hn & Hm). split; [by apply Hn|done].
Qed.
End Timed.

Section Safe.
Context {N W : Type} `{Nvs N} `{SecurityBackend N} `{EspNetwork W}.
Implicit Types (s : AccountStore N * TimeService W).

(** The consumer is called at most once, and what it returns is the result. *)
Lemma wifi_credentials_cases {C} (consumer : bytes → bytes → C → StoreStatus.t * C) st c status st' c' :
  with_wifi_credentials (N:=N) (Some consumer) (st, c) = (status, (st', c')) →
  c' = c ∧ status ≠ StoreStatus.kOk ∨ ∃ ssid password, consumer ssid password c = (status, c').
Proof.
  intros E. unfold with_wifi_credentials in E. exec_step E. cbn zeta in E. exec_step E.
  { apply failed_true in Ec. simplify_eq. by left. }
  exec_step E. destruct a as [ls loaded]. unfold on_store in Ef. cbn [fst snd] in Ef.
  destruct (on_flash load_state_unchecked st) as [x st1]. simplify_eq. exec_step E.
  { apply failed_true in Ec0. simplify_eq. by left. }
  cbn zeta in E. exec_step E; [simplify_eq; by left|]. rewrite fn_call_tail in E. unfold on_consumer in E. cbn [fst snd] in E.
  destruct (consumer _ _ c) as [r c1] eqn:Ec2. simplify_eq. by right; eauto.
Qed.

Lemma sync_once_clocked s r s' :
  network_down (snd s) → store_sync_ntp_once s = (r, s') →
  timed_safe (λ _, false) kNtp s s' ∧ (r ≠ SyncResult.kOk → clock_ (snd s') = clock_ (snd s)).
Proof.
  intros Hd E. unfold store_sync_ntp_once in E. exec_step E. destruct a as [status outcome].
  unfold sync_with_store in Ef. destruct (with_wifi_credentials _ _) as [x [store [o t]]] eqn:Ew. simplify_eq.
  destruct (wifi_credentials_cases _ _ _ _ _ _ Ew) as [[Ec Hst]|(ssid & password & Ec)].
  - simplify_eq. assert (Hx : snd s' = snd s ∧ r ≠ SyncResult.kOk) by (exec E; simplify_eq; by destruct status).
    destruct Hx as [Hs Hr]. split; [|by rewrite Hs]. by apply timed_still; rewrite Hs.
  - unfold connect_with in Ec. destruct (connect_and_mark ssid password _) as [o' t'] eqn:Ecm. simplify_eq.
    apply connect_mark_spec in Ecm as (Hdn & _ & Hm & Hk); [|done].
    assert (Hx : snd s' = t ∧ r = outcome) by by exec E; simplify_eq. destruct Hx as [<- ->]. by split_and!.
Qed.

(** With an account store nothing is ever locked. *)
Theorem store_time_safe s r s' unix :
  network_down (snd s) →
  ((store_boot_sync s = (r, s') ∨ store_resync_if_due s = (r, s')) →
     network_down (snd s') ∧ marked_by kNtp (clock_ (snd s)) (clock_ (snd s'))) ∧
  (store_sync_from_usb unix s = (r, s') →
     network_down (snd s') ∧ marked_by kUsb (clock_ (snd s)) (clock_ (snd s')) ∧ fst s' = fst s ∧
     (r = SyncResult.kOk → acceptable unix ∧
        clock_ (snd s') = mkClock true unix (base_monotonic_us_ (clock_ (snd s'))) kUsb)).
Proof.
  intros Hd. destruct (time_safe _ _ sync_once_clocked s r s' unix Hd) as [Hn Hu]. split.
  - intros E. by destruct (Hn E) as (? & ? & _).
  - intros E. by destruct (Hu E) as ((? & ? & _) & ? & ?).
Qed.
End Safe.

Section Credentials.
Context {N : Type} `{NvsLaws N} `{!SecurityBackend N}.

(** The consumer of the Wi-Fi credentials gets those that are stored, when there
    are any, and reading them changes nothing. *)
Theorem wifi_credentials_exact {C} (consumer : bytes → bytes → C → StoreStatus.t * C) (st : AccountStore N) c x status st' c' :
  stored (view (flash_ st)) x → with_wifi_credentials (Some consumer) (st, c) = (status, (st', c')) →
  visible (view (flash_ st')) = visible (view (flash_ st)) ∧
  (c' = c ∧ status ≠ StoreStatus.kOk ∨
   wifi_ssid x ≠ [] ∧ wifi_password x ≠ [] ∧ (status, c') = consumer (wifi_ssid x) (wifi_password x) c).
Proof.
  intros Hs E. unfold with_wifi_credentials in E. exec_step E. cbn zeta in E. exec_step E.
  { apply failed_true in Ec. simplify_eq. by split; [|left]. }
  exec_step E. destruct a as [ls loaded]. unfold on_store in Ef. cbn [fst snd] in Ef. unfold on_flash in Ef.
  destruct (load_state_unchecked (flash_ st)) as [[ls1 loaded1] n1] eqn:El. simplify_eq.
  destruct (load_spec _ _ _ _ _ Hs El) as [Hv Hl]. apply visible_same in Hv. exec_step E.
  { apply failed_true in Ec0. simplify_eq. by split; [|left]. }
  destruct Hl as [[-> ->]|[? _]]; [|by apply failed_false in Ec0]. cbn zeta in E. change (default new_accounts (Some x)) with x in E.
  exec_step E; [simplify_eq; by split; [|left]|]. apply orb_false_iff in Ec1 as [H1%Nat.eqb_neq H2%Nat.eqb_neq].
  rewrite fn_call_tail in E. unfold on_consumer in E. cbn [fst snd] in E.
  destruct (consumer _ _ c) as [r c1] eqn:Ec2. simplify_eq. split; [done|]. right. split_and!; [|..|done].
  - intros E. by rewrite E in H1.
  - intros E. by rewrite E in H2.
Qed.
End Credentials.

Section VaultCorrect.
Context `{MbedtlsGcm} {P W : Type} `{Persistence P} `{EspNetwork W}.

Lemma runtime_sync_clocked (s : Runtime P * TimeService W) r s' :
  network_down (snd s) → runtime_sync_ntp_once s = (r, s') →
  timed_safe (λ runtime, negb (unlocked runtime)) kNtp s s' ∧ (r ≠ SyncResult.kOk → clock_ (snd s') = clock_ (snd s)).
Proof.
  intros Hd E. unfold runtime_sync_ntp_once in E. exec_step E. destruct a as [st [ssid password]].
  apply read_wifi_spec in Ef as [Hs Hok].
  exec E; try (simplify_eq; split; [by apply timed_still; rewrite Hs|by rewrite Hs]).
  apply on_clock_inv in E as [Ecm Hf]. rewrite Hs in Ecm. apply connect_mark_spec in Ecm as (? & _ & ? & Hk); [|done].
  split; [|done]. split_and!; [done..|]. intros _. apply negb_false_iff, is_ok_true in Ec1.
  destruct (Hok Ec1) as [Hf' Hu]. by rewrite Hf, Hf', Hu.
Qed.

(** With the Vault, too, the driver ends down, and the clock only moves to a time
    the network or the host gave, with the Vault unlocked. *)
Theorem runtime_time_safe (s : Runtime P * TimeService W) r s' unix :
  network_down (snd s) →
  ((runtime_boot_sync s = (r, s') ∨ runtime_resync_if_due s = (r, s')) →
     timed_safe (λ runtime, negb (unlocked runtime)) kNtp s s') ∧
  (runtime_sync_from_usb unix s = (r, s') →
     timed_safe (λ runtime, negb (unlocked runtime)) kUsb s s' ∧ fst s' = fst s ∧
     (r = SyncResult.kOk → acceptable unix ∧
        clock_ (snd s') = mkClock true unix (base_monotonic_us_ (clock_ (snd s'))) kUsb)).
Proof. apply time_safe, runtime_sync_clocked. Qed.
End VaultCorrect.
