(* ===== verification/AccountProtocol.v ===== *)
(** * The protocol of the first generation

    m5auth_provisioning/protocol.cpp: [Session], which reads one line of JSON, does
    what it asks of the [AccountStore] and of the clock, and answers.  An import is
    collected account by account, validated, and then replaces the stored accounts
    at once.  As in [Json], a request is the value cJSON parsed and a response the
    value handed to its printer; what [c_str] passes on ends at a NUL.  The tree of
    the request is wiped before it is freed ([deleted_request]). *)

From S2P Require Import Prelude Bytes VaultFormat DeviceSession Json JsonWipe SessionHandler CanonicalProtocol.
From S2P Require Import TrustedTime TimeService Nvs AccountState AccountStore AccountTime.

Definition kMaxMessageBytes : nat := 1024.
Definition kMaxSafeJsonInteger : Z := 9007199254740991.

(** ** Readers *)

Definition read_nonnegative_integer : option json → option Z := read_integer int_max.
Definition read_id (item : option json) : option Z :=
  match read_nonnegative_integer item with
  | Some parsed => if parsed =? 0 then None else Some parsed
  | None => None
  end.
Definition read_u64 : option json → option Z := read_integer kMaxSafeJsonInteger.
Definition read_text (object : json) (key : string) : option bytes :=
  match get_item object key with
  | Some (JString text) => Some text
  | _ => None
  end.

(** ** Wiping the request *)

Definition sensitive_key (key : string) : bool := String.eqb key "secret" || String.eqb key "password".
Definition wipe_sensitive_json : json → json := wipe_members sensitive_key.

(** ** Responses *)

(** What [c_str] passes on: a C string ends at its first NUL. *)
Fixpoint c_string (s : bytes) : bytes :=
  match s with
  | [] => []
  | b :: s => if b =? 0 then [] else b :: c_string s
  end.

Definition storage_error_response (id : Z) (status : StoreStatus.t) : json :=
  error_response id (store_status_code status).
Definition status_response (id : Z) (status : StoreStatus.t) : json :=
  if StoreStatus.is_ok status then empty_success id else storage_error_response id status.

Definition time_members (status : TimeSnapshot) : list (string * json) :=
  [text_member "time_state" (str (readiness_name (readiness status)));
   text_member "time_source" (str (source_name (source status)));
   bool_member "time_resync_due" (resync_due status)]
  ++ (if bool_decide (readiness status = kNotSynced)
      then [("last_sync"%string, JNull); ("time_age_seconds"%string, JNull)]
      else [number_member "last_sync" (last_sync_unix_seconds status);
            number_member "time_age_seconds" (age_seconds status)]).
Definition time_status_response (id : Z) (status : TimeSnapshot) : json := success_response id (time_members status).

Definition account_json (account : AccountMetadata) : json :=
  JObject [number_member "id" (meta_id account); number_member "order" (meta_order account);
           text_member "issuer" (c_string (meta_issuer account));
           text_member "account" (c_string (meta_account account));
           text_member "display_name" (c_string (meta_display_name account))].
Definition accounts_list_success (id : Z) (accounts : list AccountMetadata) : json :=
  success_response id [("accounts"%string, JArray (account_json <$> accounts));
                       number_member "count" (Z.of_nat (length accounts))].
Definition import_begin_response (id : Z) : json :=
  success_response id [number_member "max_accounts" (Z.of_nat kMaxAccounts)].
Definition count_success (id : Z) (count : nat) : json :=
  success_response id [number_member "count" (Z.of_nat count)].
Definition selection_response (id selected_id : Z) : json :=
  success_response id [("id"%string, if selected_id =? 0 then JNull else number selected_id)].
Definition wifi_status_success (id : Z) (wifi : WifiStatus) : json :=
  success_response id [bool_member "configured" (configured wifi); text_member "ssid" (c_string (AccountStore.ssid wifi))].
Definition accounts_message_too_large_response : json := error_response 0 "message_too_large".

(** ** The session *)

Record Session {N W : Type} := mkSession {
  import_active_ : bool;
  import_validated_ : bool;
  import_accounts_ : list AccountDraft;
  session_device_ : AccountStore N * TimeService W;
}.
Arguments Session : clear implicits.
#[export] Instance eta_session {N W} : Eta (Session N W) := λ s,
  mkSession N W (import_active_ s) (import_validated_ s) (import_accounts_ s) (session_device_ s).
Definition new_session {N W} (device : AccountStore N * TimeService W) : Session N W :=
  mkSession N W false false [] device.

Section Protocol.
Context {N W : Type} `{Nvs N} `{!SecurityBackend N} `{EspNetwork W}.
Context (cJSON_ParseWithLength : bytes → option json) (metadata : DeviceMetadata).
Definition session_op (A : Type) : Type := Session N W → A * Session N W.

Definition on_device {A} (f : clocked_op A) : session_op A := λ s,
  let '(a, d) := f (session_device_ s) in (a, s <| session_device_ := d |>).
Definition on_book {A} (f : store_op (N:=N) A) : session_op A := on_device (on_accounts f).

Definition clear_import (s : Session N W) : Session N W :=
  s <| import_accounts_ := [] |> <| import_active_ := false |> <| import_validated_ := false |>.

(** *** What is read *)

Definition hello_response (id : Z) : session_op json := fn (
  s ← get_state;
  let store := fst (session_device_ s) in
  snapshot ← call (on_device store_time_status);
  mret (success_response id
    ([text_member "device" (device metadata);
      text_member "firmware" (firmware metadata);
      number_member "protocol" (protocol metadata);
      number_member "storage_schema" (storage_schema metadata);
      text_member "build_commit" (build_commit metadata);
      text_member "security_profile" (str (profile (N:=N)));
      bool_member "storage_ready" (ready store);
      bool_member "production_release_allowed" (production_release_allowed (N:=N))]
     ++ (if ready store then []
         else [text_member "storage_status" (str (store_status_code (initialization_status store)))])
     ++ time_members snapshot))).

Definition answer_time_status (id : Z) : session_op json := fn (
  snapshot ← call (on_device store_time_status);
  mret (time_status_response id snapshot)).

Definition answer_time_sync (id : Z) (params : json) : session_op json :=
  match read_u64 (get_item params "unix_seconds") with
  | None => fn (mret (error_response id "invalid_request"))
  | Some unix_seconds => fn (
      result ← call (on_device (store_sync_from_usb unix_seconds));
      if bool_decide (result = SyncResult.kOk) then call (answer_time_status id)
      else mret (error_response id (sync_result_code result)))
  end.

Definition accounts_list_response (id : Z) : session_op json := fn (
  x ← call (on_book list_accounts);
  let '(status, accounts) := x in
  mret (if StoreStatus.is_ok status then accounts_list_success id accounts else storage_error_response id status)).

Definition answer_selection (id : Z) : session_op json := fn (
  x ← call (on_book get_last_used);
  let '(status, selected) := x in
  mret (if StoreStatus.is_ok status then selection_response id (default 0 selected) else storage_error_response id status)).

Definition wifi_status_response (id : Z) : session_op json := fn (
  x ← call (on_book wifi_status);
  let '(status, wifi) := x in
  mret (if StoreStatus.is_ok status then wifi_status_success id (default (mkWifiStatus false []) wifi)
        else storage_error_response id status)).

(** *** The import *)

Definition answer_import_begin (id : Z) : session_op json := fn (
  modify clear_import;;
  modify (λ s, s <| import_active_ := true |>);;
  mret (import_begin_response id)).

Definition read_draft (params : json) : option AccountDraft :=
  issuer ← read_text params "issuer";
  account ← read_text params "account";
  display_name ← read_text params "display_name";
  secret ← read_text params "secret";
  Some (mkDraft issuer account display_name secret).

Definition answer_import_item (id : Z) (params : json) : session_op json := fn (
  s ← get_state;
  match (if import_active_ s then read_draft params else None) with
  | None => leave (error_response id "invalid_import_item")
  | Some draft =>
    leave_if (Nat.leb kMaxAccounts (length (import_accounts_ s))) (error_response id "storage_full");;
    let status := validate_account_draft draft in
    leave_if (failed status) (storage_error_response id status);;
    modify (λ s, s <| import_accounts_ := import_accounts_ s ++ [draft] |> <| import_validated_ := false |>);;
    s ← get_state;
    mret (count_success id (length (import_accounts_ s)))
  end).

Definition answer_import_validate (id : Z) : session_op json := fn (
  s ← get_state;
  leave_if (negb (import_active_ s)) (error_response id "import_not_active");;
  let status := validate_drafts (import_accounts_ s) in
  leave_if (failed status) (storage_error_response id status);;
  modify (λ s, s <| import_validated_ := true |>);;
  mret (count_success id (length (import_accounts_ s)))).

Definition answer_import_commit (id : Z) : session_op json := fn (
  s ← get_state;
  leave_if (negb (import_active_ s) || negb (import_validated_ s)) (error_response id "import_not_validated");;
  status ← call (on_book (replace_accounts (import_accounts_ s)));
  modify clear_import;;
  mret (status_response id status)).

Definition answer_import_cancel (id : Z) : session_op json := fn (
  modify clear_import;;
  mret (empty_success id)).

(** *** Changes of the store *)

Definition answer_status (id : Z) (f : store_op (N:=N) StoreStatus.t) : session_op json := fn (
  status ← call (on_book f);
  mret (status_response id status)).
Definition refuse_request (id : Z) : session_op json := fn (mret (error_response id "invalid_request")).

Definition answer_rename (id : Z) (params : json) : session_op json :=
  match read_id (get_item params "id"), read_text params "display_name" with
  | Some account_id, Some display_name => answer_status id (rename_account account_id display_name)
  | _, _ => refuse_request id
  end.
Definition answer_delete (id : Z) (params : json) : session_op json :=
  match read_id (get_item params "id") with
  | Some account_id => answer_status id (delete_account account_id)
  | None => refuse_request id
  end.
(** The identifiers, when all of them are. *)
Definition read_ids (item : option json) : option (list Z) :=
  match item with
  | Some (JArray ids) =>
    if Nat.ltb kMaxAccounts (length ids) then None else mapM (λ item, read_id (Some item)) ids
  | _ => None
  end.
Definition answer_reorder (id : Z) (params : json) : session_op json :=
  match read_ids (get_item params "ids") with
  | Some order => answer_status id (reorder_accounts order)
  | None => refuse_request id
  end.
Definition answer_select (id : Z) (params : json) : session_op json :=
  match read_id (get_item params "id") with
  | Some selected => answer_status id (set_last_used selected)
  | None => refuse_request id
  end.
Definition answer_wifi_set (id : Z) (params : json) : session_op json :=
  match read_text params "ssid", read_text params "password" with
  | Some ssid, Some password => answer_status id (set_wifi ssid password)
  | _, _ => refuse_request id
  end.
Definition answer_reset (id : Z) : session_op json := fn (
  modify clear_import;;
  status ← call (on_device factory_reset_user_state);
  mret (status_response id status)).

(** *** The whole line *)

Definition answer (id : Z) (operation : string) (params : json) : session_op json :=
  if String.eqb operation "hello" then hello_response id
  else if String.eqb operation "time.status" then answer_time_status id
  else if String.eqb operation "time.sync" then answer_time_sync id params
  else if String.eqb operation "accounts.list" then accounts_list_response id
  else if String.eqb operation "import.begin" then answer_import_begin id
  else if String.eqb operation "import.item" then answer_import_item id params
  else if String.eqb operation "import.validate" then answer_import_validate id
  else if String.eqb operation "import.commit" then answer_import_commit id
  else if String.eqb operation "import.cancel" then answer_import_cancel id
  else if String.eqb operation "account.rename" then answer_rename id params
  else if String.eqb operation "account.delete" then answer_delete id params
  else if String.eqb operation "accounts.reorder" then answer_reorder id params
  else if String.eqb operation "selection.get" then answer_selection id
  else if String.eqb operation "selection.set" then answer_select id params
  else if String.eqb operation "wifi.status" then wifi_status_response id
  else if String.eqb operation "wifi.set" then answer_wifi_set id params
  else if String.eqb operation "wifi.clear" then answer_status id clear_wifi
  else if String.eqb operation "factory.reset" then answer_reset id
  else fn (mret (error_response id "unsupported_op")).

Definition accounts_handle_line (line : bytes) : session_op json := fn (
  leave_if (Nat.eqb (length line) 0) (error_response 0 "invalid_request");;
  leave_if (Nat.ltb kMaxMessageBytes (length line)) accounts_message_too_large_response;;
  match cJSON_ParseWithLength line with
  | Some (JObject members) =>
    match request_header (JObject members) with
    | inl (id, code) => leave (error_response id code)
    | inr (id, op, params) => call (answer id (text op) params)
    end
  | _ => leave (error_response 0 "invalid_json")
  end).

(** The tree that is freed at the end of a line, on every path. *)
Definition deleted_request (line : bytes) : option json := wipe_sensitive_json <$> cJSON_ParseWithLength line.
End Protocol.
