(* ===== verification/AccountProtocolCorrect.v ===== *)
(** * Correctness of the protocol of the first generation

    What a line can do to the stored accounts is one step of the account book; an
    import replaces them at once by the accounts that were sent, in their order;
    and what is freed of a request has no secret left in it. *)

From S2P Require Import Prelude Bytes VaultFormat DeviceSession Json JsonWipe SessionHandler CanonicalProtocol.
From S2P Require Import TrustedTime TimeService TimeServiceCorrect Nvs AccountState AccountStateCorrect AccountStore.
From S2P Require Import AccountBook AccountStoreCorrect AccountSecurity AccountSample AccountTime AccountProtocol.

(** ** The request that is freed *)

(** Wherever a secret or a password was in the request, there are zeros when it is
    freed. *)
Theorem no_secret_is_freed item key value :
  inside (wipe_sensitive_json item) key (JString value) → sensitive_key key = true → all_zero value = true.
Proof. apply sensitive_wiped. Qed.

Section Protocol.
Context {N W : Type} `{NvsLaws N} `{!SecurityBackend N} `{EspNetwork W}.
Context (cJSON_ParseWithLength : bytes → option json) (metadata : DeviceMetadata).
Implicit Types (s : Session N W).
Abbreviation store_of s := (fst (session_device_ s)).
Abbreviation stored_in s := (view (flash_ (store_of s))).
Abbreviation answer := (answer (N:=N) (W:=W) metadata).
Abbreviation handle_line := (accounts_handle_line (N:=N) (W:=W) cJSON_ParseWithLength metadata).

(** ** Reading the store *)

Lemma last_used_exact (st : AccountStore N) x status id st' :
  stored (view (flash_ st)) x → get_last_used st = ((status, id), st') →
  visible (view (flash_ st')) = visible (view (flash_ st)) ∧
  (status = StoreStatus.kOk → id = Some (last_used_id x)).
Proof.
  intros Hs E. unfold get_last_used in E. exec_step E. cbn zeta in E. exec_step E.
  { apply failed_true in Ec. by simplify_eq. }
  exec_step E. unfold on_flash in Ef. destruct (load_state_unchecked (flash_ st)) as [[ls loaded] n1] eqn:El. simplify_eq.
  destruct (load_spec _ _ _ _ _ Hs El) as [Hv Hl]. apply visible_same in Hv. exec E. simplify_eq. split; [done|].
  intros ->. destruct Hl as [[_ ->]|[? _]]; done.
Qed.

Lemma wifi_status_exact (st : AccountStore N) x status wifi st' :
  stored (view (flash_ st)) x → wifi_status st = ((status, wifi), st') →
  visible (view (flash_ st')) = visible (view (flash_ st)) ∧
  (status = StoreStatus.kOk →
   wifi = Some (mkWifiStatus (bool_decide (wifi_ssid x ≠ [] ∧ wifi_password x ≠ [])) (wifi_ssid x))).
Proof.
  intros Hs E. unfold wifi_status in E. exec_step E. cbn zeta in E. exec_step E.
  { apply failed_true in Ec. by simplify_eq. }
  exec_step E. unfold on_flash in Ef. destruct (load_state_unchecked (flash_ st)) as [[ls loaded] n1] eqn:El. simplify_eq.
  destruct (load_spec _ _ _ _ _ Hs El) as [Hv Hl]. apply visible_same in Hv. exec E. simplify_eq. split; [done|].
  intros ->. destruct Hl as [[_ ->]|[? _]]; [|done]. cbn. do 2 f_equal.
  destruct (wifi_ssid x), (wifi_password x); symmetry; by (rewrite bool_decide_eq_true || rewrite bool_decide_eq_false; naive_solver).
Qed.

(** ** What is asked of the store *)

Definition asked s (op : string) (params : json) : option request :=
  if String.eqb op "import.commit" then
    if import_active_ s && import_validated_ s then Some (Replace (import_accounts_ s)) else None
  else if String.eqb op "account.rename" then
    match read_id (get_item params "id"), read_text params "display_name" with
    | Some id, Some name => Some (Rename id name) | _, _ => None
    end
  else if String.eqb op "account.delete" then Delete <$> read_id (get_item params "id")
  else if String.eqb op "accounts.reorder" then Reorder <$> read_ids (get_item params "ids")
  else if String.eqb op "selection.set" then SetLastUsed <$> read_id (get_item params "id")
  else if String.eqb op "wifi.set" then
    match read_text params "ssid", read_text params "password" with
    | Some ssid, Some password => Some (SetWifi ssid password) | _, _ => None
    end
  else if String.eqb op "wifi.clear" then Some ClearWifi
  else None.

Lemma on_device_inv {A} (f : clocked_op (N:=N) (W:=W) A) s a s' :
  on_device f s = (a, s') → ∃ d, f (session_device_ s) = (a, d) ∧ s' = s <| session_device_ := d |>.
Proof. unfold on_device. destruct (f (session_device_ s)) as [b d]. intros [= -> <-]. eauto. Qed.
Lemma on_book_inv {A} (f : store_op (N:=N) A) s a s' :
  on_book f s = (a, s') →
  ∃ st, f (store_of s) = (a, st) ∧ s' = s <| session_device_ := (st, snd (session_device_ s)) |>.
Proof.
  unfold on_book. intros (d & E & ->)%on_device_inv. unfold on_accounts in E.
  destruct (f (store_of s)) as [b st]. injection E as -> <-. eauto.
Qed.

Lemma answer_status_exact id f s response s' : answer_status id f s = (response, s') →
  ∃ status st, f (store_of s) = (status, st) ∧ response = status_response id status ∧
               s' = s <| session_device_ := (st, snd (session_device_ s)) |>.
Proof. intros E. unfold answer_status in E. exec E. apply on_book_inv in Ef as (st & E & ->). simplify_eq. eauto. Qed.

(** The request is executed as it is, and its status is the answer. *)
Lemma asked_executed id op params s r response s' :
  asked s op params = Some r → answer id op params s = (response, s') →
  ∃ status st, execute r (store_of s) = (status, st) ∧ response = status_response id status ∧ store_of s' = st.
Proof.
  assert (Hd : ∀ f, answer_status id f s = (response, s') →
    ∃ status st, f (store_of s) = (status, st) ∧ response = status_response id status ∧ store_of s' = st).
  { intros f (status & st & E & -> & ->)%answer_status_exact. eauto. }
  unfold asked.
  repeat (match goal with |- context [String.eqb op ?o] => destruct (String.eqb_spec op o) as [->|_] end);
    [..|done]; intros Hr E; unfold AccountProtocol.answer in E; cbn [String.eqb Ascii.eqb Bool.eqb] in E.
  - destruct (import_active_ s && import_validated_ s) eqn:Ei; [|done]. simplify_eq.
    apply andb_true_iff in Ei as [Ha Hv]. unfold answer_import_commit in E. do 2 exec_step E; [by rewrite Ha, Hv in Ec|].
    exec_step E. apply on_book_inv in Ef as (st & Ef & ->). exec E. simplify_eq. eauto.
  - unfold answer_rename in E. destruct (read_id _); [|done]. destruct (read_text _ _); [|done]. simplify_eq. by apply Hd.
  - unfold answer_delete in E. destruct (read_id _); [|done]. simplify_eq/=. by apply Hd.
  - unfold answer_reorder in E. destruct (read_ids _); [|done]. simplify_eq/=. by apply Hd.
  - unfold answer_select in E. destruct (read_id _); [|done]. simplify_eq/=. by apply Hd.
  - unfold answer_wifi_set in E. do 2 (destruct (read_text _ _); [|done]). simplify_eq. by apply Hd.
  - simplify_eq. by apply Hd.
Qed.

(** Of a line that asks for nothing, only the factory reset touches what is stored. *)
Definition reads_only {A} (f : session_op (N:=N) (W:=W) A) : Prop :=
  ∀ s x a s', stored (stored_in s) x → f s = (a, s') → visible (stored_in s') = visible (stored_in s).

Lemma same_device_reads {A} (f : session_op (N:=N) (W:=W) A) :
  (∀ s a s', f s = (a, s') → store_of s' = store_of s) → reads_only f.
Proof. intros Hf s x a s' _ E. by rewrite (Hf _ _ _ E). Qed.
Lemma on_clock_reads {A} (f : service_op (N:=W) A) s a s' :
  on_device (on_clock f) s = (a, s') → store_of s' = store_of s.
Proof. intros (d & E & ->)%on_device_inv. by apply on_clock_inv in E as [_ <-]. Qed.

Lemma hello_reads id : reads_only (hello_response (N:=N) (W:=W) metadata id).
Proof.
  apply same_device_reads. intros s a s' E. unfold hello_response in E. exec_step E. cbn zeta in E. exec_step E.
  apply on_clock_reads in Ef. exec E. by simplify_eq.
Qed.
Lemma time_status_same id s a s' : answer_time_status id s = (a, s') → store_of s' = store_of s.
Proof. intros E. unfold answer_time_status in E. exec_step E. apply on_clock_reads in Ef. exec E. by simplify_eq. Qed.
Lemma time_status_reads id : reads_only (answer_time_status (N:=N) (W:=W) id).
Proof. apply same_device_reads. apply time_status_same. Qed.
Lemma time_sync_reads id params : reads_only (answer_time_sync (N:=N) (W:=W) id params).
Proof.
  apply same_device_reads. intros s a s' E. unfold answer_time_sync in E. destruct (read_u64 _); [|by exec E; simplify_eq].
  exec_step E. apply on_device_inv in Ef as (d & Ef & ->). apply usb_clocked in Ef as (_ & Hf & _).
  exec_step E.
  - rewrite fn_call_tail in E. apply time_status_same in E. rewrite E. done.
  - exec E. by simplify_eq.
Qed.
Lemma list_reads id : reads_only (accounts_list_response (N:=N) (W:=W) id).
Proof.
  intros s x a s' Hs E. unfold accounts_list_response in E. exec_step E. apply on_book_inv in Ef as (st & Ef & ->).
  destruct a0 as [status items]. apply (list_accounts_exact _ _ _ _ _ Hs) in Ef as [Hv _]. exec E. by simplify_eq.
Qed.
Lemma selection_reads id : reads_only (answer_selection (N:=N) (W:=W) id).
Proof.
  intros s x a s' Hs E. unfold answer_selection in E. exec_step E. apply on_book_inv in Ef as (st & Ef & ->).
  destruct a0 as [status items]. apply (last_used_exact _ _ _ _ _ Hs) in Ef as [Hv _]. exec E. by simplify_eq.
Qed.
Lemma wifi_reads id : reads_only (wifi_status_response (N:=N) (W:=W) id).
Proof.
  intros s x a s' Hs E. unfold wifi_status_response in E. exec_step E. apply on_book_inv in Ef as (st & Ef & ->).
  destruct a0 as [status items]. apply (wifi_status_exact _ _ _ _ _ Hs) in Ef as [Hv _]. exec E. by simplify_eq.
Qed.

(** The import keeps what it collects to itself. *)
Ltac same_device := apply same_device_reads; intros s a s' E; exec E; by simplify_eq.
Lemma import_begin_reads id : reads_only (answer_import_begin (N:=N) (W:=W) id).
Proof. unfold answer_import_begin. same_device. Qed.
Lemma import_item_reads id params : reads_only (answer_import_item (N:=N) (W:=W) id params).
Proof.
  unfold answer_import_item. apply same_device_reads. intros s a s' E. exec_step E.
  destruct (if import_active_ s then read_draft params else None); exec E; by simplify_eq.
Qed.
Lemma import_validate_reads id : reads_only (answer_import_validate (N:=N) (W:=W) id).
Proof. unfold answer_import_validate. same_device. Qed.
Lemma import_cancel_reads id : reads_only (answer_import_cancel (N:=N) (W:=W) id).
Proof. unfold answer_import_cancel. same_device. Qed.
Lemma refuse_reads id : reads_only (refuse_request (N:=N) (W:=W) id).
Proof. unfold refuse_request. same_device. Qed.
#[local] Hint Resolve hello_reads time_status_reads time_sync_reads list_reads selection_reads wifi_reads import_begin_reads
  import_item_reads import_validate_reads import_cancel_reads refuse_reads : m5.

Lemma unasked_reads id op params s x response s' :
  stored (stored_in s) x → asked s op params = None → op ≠ "factory.reset"%string →
  answer id op params s = (response, s') → visible (stored_in s') = visible (stored_in s).
Proof.
  intros Hs Hn Hop E. revert Hn. unfold AccountProtocol.answer in E. unfold asked.
  repeat (match type of E with context [String.eqb op ?o] => destruct (String.eqb_spec op o) as [->|_] end);
    cbn [String.eqb Ascii.eqb Bool.eqb]; intros Hn;
    try (match type of E with ?f s = _ => assert (Hf : reads_only f) by auto with m5; by apply (Hf _ _ _ _ Hs E) end).
  - destruct (import_active_ s && import_validated_ s) eqn:Ei; [done|]. unfold answer_import_commit in E. do 2 exec_step E;
      [by simplify_eq|]. apply orb_false_iff in Ec as [Ha%negb_false_iff Hv%negb_false_iff]. by rewrite Ha, Hv in Ei.
  - unfold answer_rename in E. destruct (read_id _); [destruct (read_text _ _); [done|]|]; by apply (refuse_reads id s x response s' Hs E).
  - unfold answer_delete in E. destruct (read_id _); [done|]. by apply (refuse_reads id s x response s' Hs E).
  - unfold answer_reorder in E. destruct (read_ids _); [done|]. by apply (refuse_reads id s x response s' Hs E).
  - unfold answer_select in E. destruct (read_id _); [done|]. by apply (refuse_reads id s x response s' Hs E).
  - unfold answer_wifi_set in E. destruct (read_text _ _); [destruct (read_text _ _); [done|]|]; by apply (refuse_reads id s x response s' Hs E).
  - done.
  - done.
  - exec E. by simplify_eq.
Qed.

(** ** The invariant of a session *)

(** The strings of a request are byte strings. *)
Definition byte_text (root : json) : Prop := ∀ key t, inside root key (JString t) → bytes_ok t.

Record session_ok s : Prop := {
  imports_valid : Forall (λ d, draft_wf d ∧ draft_typed d) (import_accounts_ s);
  imports_bound : (length (import_accounts_ s) ≤ kMaxAccounts)%nat;
  imports_closed : import_active_ s = false → import_accounts_ s = [] ∧ import_validated_ s = false;
}.

Lemma get_item_member members key child : get_item (JObject members) key = Some child → (key, child) ∈ members.
Proof.
  cbn. intros E. destruct (list_find _ members) as [[i [k c]]|] eqn:Ef; [|done]. injection E as <-.
  apply list_find_Some in Ef as (Hi & Hk & _). cbn in Hk. subst k. by eapply list_elem_of_lookup_2.
Qed.
Lemma get_item_inside root key child : get_item root key = Some child → inside root key child.
Proof.
  destruct root as [| | | | |members]; try done. intros E%get_item_member. by constructor.
Qed.
Lemma read_text_bytes params key t : byte_text params → read_text params key = Some t → bytes_ok t.
Proof.
  unfold read_text. intros Hb. destruct (get_item params key) as [c|] eqn:Eg; [|done]. destruct c; try done.
  intros [= <-]. eapply Hb. by apply get_item_inside.
Qed.
Lemma read_draft_typed params d : byte_text params → read_draft params = Some d → draft_typed d.
Proof.
  intros Hb E. unfold read_draft in E.
  repeat (apply bind_Some in E as (? & ?%(read_text_bytes _ _ _ Hb) & E)). injection E as <-. by split_and!.
Qed.
Lemma asked_typed s op params r : session_ok s → byte_text params → asked s op params = Some r → request_typed r.
Proof.
  intros Hs Hb. unfold asked. intros E. repeat case_match; simplify_eq/=; try done.
  - eapply Forall_impl; [apply Hs|]. by intros d [_ ?].
  - by eapply read_text_bytes.
  - by destruct (read_id _); simplify_eq/=.
  - by destruct (read_ids _); simplify_eq/=.
  - by destruct (read_id _); simplify_eq/=.
  - split; by eapply read_text_bytes.
Qed.

Lemma validate_draft_ok d : failed (validate_account_draft d) = false ↔ draft_wf d.
Proof. by rewrite validate_draft_failed, negb_false_iff, bool_decide_eq_true. Qed.

Lemma same_imports_ok s s' :
  import_accounts_ s' = import_accounts_ s → import_active_ s' = import_active_ s →
  import_validated_ s' = import_validated_ s → session_ok s → session_ok s'.
Proof. intros Hi Ha Hv [? ? ?]. by split; rewrite ?Hi, ?Ha, ?Hv. Qed.
Lemma cleared_ok s : session_ok (clear_import s).
Proof. by split; [constructor|cbn; lia|]. Qed.
Lemma on_device_imports {A} (f : clocked_op (N:=N) (W:=W) A) s a s' :
  on_device f s = (a, s') → session_ok s → session_ok s'.
Proof. intros (d & _ & ->)%on_device_inv. by apply same_imports_ok. Qed.
Lemma on_book_imports {A} (f : store_op (N:=N) A) s a s' : on_book f s = (a, s') → session_ok s → session_ok s'.
Proof. apply on_device_imports. Qed.

Definition keeps_session {A} (f : session_op (N:=N) (W:=W) A) : Prop :=
  ∀ s a s', session_ok s → f s = (a, s') → session_ok s'.

Lemma answer_status_keeps id f : keeps_session (answer_status (N:=N) (W:=W) id f).
Proof. intros s a s' Hs E. unfold answer_status in E. exec_step E. apply on_book_imports in Ef; [|done]. exec E. by simplify_eq. Qed.
Lemma refuse_keeps id : keeps_session (refuse_request (N:=N) (W:=W) id).
Proof. intros s a s' Hs E. unfold refuse_request in E. exec E. by simplify_eq. Qed.
Lemma time_status_keeps id : keeps_session (answer_time_status (N:=N) (W:=W) id).
Proof. intros s a s' Hs E. unfold answer_time_status in E. exec_step E. apply on_device_imports in Ef; [|done]. exec E. by simplify_eq. Qed.

Lemma import_item_keeps id params : byte_text params → keeps_session (answer_import_item (N:=N) (W:=W) id params).
Proof.
  intros Hb s a s' Hs E. unfold answer_import_item in E. exec_step E.
  destruct (import_active_ s) eqn:Ea; [|exec E; by simplify_eq].
  destruct (read_draft params) as [d|] eqn:Ed; [|exec E; by simplify_eq].
  apply (read_draft_typed _ _ Hb) in Ed. exec_step E; [by simplify_eq|]. apply Nat.leb_gt in Ec. cbn zeta in E.
  exec_step E; [by simplify_eq|]. apply validate_draft_ok in Ec0. exec E. simplify_eq. destruct Hs as [Hv _ _]. split; cbn.
  - apply Forall_app_2; [done|]. by apply Forall_singleton.
  - rewrite length_app. cbn. lia.
  - congruence.
Qed.
Lemma import_validate_keeps id : keeps_session (answer_import_validate (N:=N) (W:=W) id).
Proof.
  intros s a s' Hs E. unfold answer_import_validate in E. do 2 exec_step E; [by simplify_eq|]. cbn zeta in E.
  apply negb_false_iff in Ec. exec_step E; [by simplify_eq|]. exec E. simplify_eq. destruct Hs. split; cbn; [done..|congruence].
Qed.
Lemma import_commit_keeps id : keeps_session (answer_import_commit (N:=N) (W:=W) id).
Proof.
  intros s a s' Hs E. unfold answer_import_commit in E. do 2 exec_step E; [by simplify_eq|]. exec_step E. exec E. simplify_eq.
  apply cleared_ok.
Qed.

Lemma answer_keeps id op params : byte_text params → keeps_session (answer id op params).
Proof.
  intros Hb s a s' Hs E. unfold AccountProtocol.answer in E.
  repeat (match type of E with context [String.eqb op ?o] => destruct (String.eqb op o) end).
  - unfold hello_response in E. exec_step E. cbn zeta in E. exec_step E. apply on_device_imports in Ef; [|done]. exec E. by simplify_eq.
  - by eapply time_status_keeps.
  - unfold answer_time_sync in E. destruct (read_u64 _); [|exec E; by simplify_eq]. exec_step E.
    apply on_device_imports in Ef; [|done]. exec_step E; [rewrite fn_call_tail in E; by eapply time_status_keeps|]. exec E. by simplify_eq.
  - unfold accounts_list_response in E. exec_step E. apply on_book_imports in Ef; [|done]. destruct a0. exec E. by simplify_eq.
  - unfold answer_import_begin in E. exec E. simplify_eq. by split; [constructor|cbn; lia|].
  - by eapply import_item_keeps.
  - by eapply import_validate_keeps.
  - by eapply import_commit_keeps.
  - unfold answer_import_cancel in E. exec E. simplify_eq. apply cleared_ok.
  - unfold answer_rename in E. destruct (read_id _); [destruct (read_text _ _)|];
      first [by eapply answer_status_keeps|by eapply refuse_keeps].
  - unfold answer_delete in E. destruct (read_id _); first [by eapply answer_status_keeps|by eapply refuse_keeps].
  - unfold answer_reorder in E. destruct (read_ids _); first [by eapply answer_status_keeps|by eapply refuse_keeps].
  - unfold answer_selection in E. exec_step E. apply on_book_imports in Ef; [|done]. destruct a0. exec E. by simplify_eq.
  - unfold answer_select in E. destruct (read_id _); first [by eapply answer_status_keeps|by eapply refuse_keeps].
  - unfold wifi_status_response in E. exec_step E. apply on_book_imports in Ef; [|done]. destruct a0. exec E. by simplify_eq.
  - unfold answer_wifi_set in E. destruct (read_text _ _); [destruct (read_text _ _)|];
      first [by eapply answer_status_keeps|by eapply refuse_keeps].
  - by eapply answer_status_keeps.
  - unfold answer_reset in E. exec_step E. exec_step E. apply on_device_imports in Ef; [|apply cleared_ok]. exec E. by simplify_eq.
  - exec E. by simplify_eq.
Qed.

(** ** A line *)

(** The request a line holds: its identifier, operation and parameters. *)
Definition line_request (line : bytes) : option (Z * string * json) :=
  if Nat.eqb (length line) 0 || Nat.ltb kMaxMessageBytes (length line) then None
  else match cJSON_ParseWithLength line with
       | Some (JObject members) =>
         match request_header (JObject members) with
         | inl _ => None
         | inr (id, op, params) => Some (id, text op, params)
         end
       | _ => None
       end.

Lemma handle_line_cases line s response s' : handle_line line s = (response, s') →
  match line_request line with
  | None => s' = s ∧ response_ok response = false
  | Some (id, op, params) => answer id op params s = (response, s')
  end.
Proof.
  intros E. unfold accounts_handle_line in E. unfold line_request. exec_step E; [by rewrite Ec; simplify_eq|]. rewrite Ec.
  exec_step E; [by rewrite Ec0; simplify_eq|]. rewrite Ec0. cbn [orb].
  destruct (cJSON_ParseWithLength line) as [root|]; [|exec E; by simplify_eq].
  destruct root as [| | | | |members]; exec E; by simplify_eq.
Qed.

(** What is asked of the parser: strings are byte strings. *)
Definition parses_bytes : Prop := ∀ line root, cJSON_ParseWithLength line = Some root → byte_text root.

Lemma line_request_bytes line id op params : parses_bytes → line_request line = Some (id, op, params) → byte_text params.
Proof.
  intros Hp. unfold line_request. destruct (_ || _); [done|]. destruct (cJSON_ParseWithLength line) as [root|] eqn:E; [|done].
  destruct root as [| | | | |members]; try done. unfold request_header.
  destruct (read_nonnegative_int _); [|done]. destruct (read_nonnegative_int _); [|done]. destruct (negb _); [done|].
  destruct (get_item _ "op") as [[]|]; try done. destruct (get_item (JObject members) "params") as [p|] eqn:Ep; [|done].
  destruct p as [| | | | |pm]; try done. intros [= _ _ <-] key t Hin. apply (Hp _ _ E key). apply get_item_member in Ep.
  by eapply inside_member.
Qed.

(** The store is an account book, whatever is sent.  A line that asks the book for
    something does what the book says: what the book refuses is refused and
    changes nothing; what it accepts is answered with the status of the write, and
    on success the new book is stored.  Any other line, the factory reset apart,
    changes nothing that is stored. *)
Theorem line_refines_book line s x response s' :
  parses_bytes → session_ok s → ready (store_of s) = true → stored (stored_in s) x →
  handle_line line s = (response, s') →
  session_ok s' ∧
  match line_request line with
  | None => s' = s ∧ response_ok response = false
  | Some (id, op, params) =>
    match asked s op params with
    | None => op = "factory.reset"%string ∨ visible (stored_in s') = visible (stored_in s)
    | Some r =>
      ready (store_of s') = true ∧ ∃ status, response = status_response id status ∧
      match book_step r (book_of x) with
      | inl e => refused (stored_in s) (stored_in s') status e (fst (fst (load_state_unchecked (flash_ (store_of s)))))
      | inr b => changed (stored_in s) (stored_in s') status b
      end
    end
  end.
Proof.
  intros Hp Hok Hr Hs E. apply handle_line_cases in E. destruct (line_request line) as [[[id op] params]|] eqn:El; [|by destruct E as [-> ?]].
  pose proof (line_request_bytes _ _ _ _ Hp El) as Hb. split; [by eapply answer_keeps|].
  destruct (asked s op params) as [r|] eqn:Ea.
  - pose proof (asked_typed _ _ _ _ Hok Hb Ea) as Ht.
    destruct (asked_executed _ _ _ _ _ _ _ Ea E) as (status & st & Ex & -> & <-).
    destruct (execute_outcome _ _ _ _ _ Hr Hs Ht Ex) as [Hr' Ho]. split; [done|]. by exists status.
  - destruct (decide (op = "factory.reset"%string)) as [->|Hop]; [by left|right]. by eapply unasked_reads.
Qed.

(** ** The answers *)

(** The lists, the selection and the Wi-Fi status that are sent are those of the
    book: nothing of a secret or of the password is in them. *)
Theorem answers_are_the_books id s x response s' :
  stored (stored_in s) x →
  (answer id "accounts.list" (JObject []) s = (response, s') → response_ok response = true →
     response = accounts_list_success id (listing (book_of x))) ∧
  (answer id "selection.get" (JObject []) s = (response, s') → response_ok response = true →
     response = selection_response id (book_last (book_of x))) ∧
  (answer id "wifi.status" (JObject []) s = (response, s') → response_ok response = true →
     response = wifi_status_success id
       (mkWifiStatus (bool_decide (wifi_ssid x ≠ [] ∧ wifi_password x ≠ [])) (fst (book_wifi (book_of x))))).
Proof.
  intros Hs. split_and!; intros E Hr; unfold AccountProtocol.answer in E; cbn [String.eqb Ascii.eqb Bool.eqb] in E.
  - unfold accounts_list_response in E. exec_step E. apply on_book_inv in Ef as (st & Ef & ->). destruct a as [status items].
    apply (list_accounts_exact _ _ _ _ _ Hs) in Ef as (_ & Hk & _). exec E. simplify_eq.
    destruct (StoreStatus.is_ok status) eqn:Est; [|done]. apply StoreStatus.ok_true in Est. by rewrite Hk.
  - unfold answer_selection in E. exec_step E. apply on_book_inv in Ef as (st & Ef & ->). destruct a as [status items].
    apply (last_used_exact _ _ _ _ _ Hs) in Ef as (_ & Hk). exec E. simplify_eq.
    destruct (StoreStatus.is_ok status) eqn:Est; [|done]. apply StoreStatus.ok_true in Est. by rewrite Hk.
  - unfold wifi_status_response in E. exec_step E. apply on_book_inv in Ef as (st & Ef & ->). destruct a as [status items].
    apply (wifi_status_exact _ _ _ _ _ Hs) in Ef as (_ & Hk). exec E. simplify_eq.
    destruct (StoreStatus.is_ok status) eqn:Est; [|done]. apply StoreStatus.ok_true in Est. by rewrite Hk.
Qed.

(** ** An import *)

Definition draft_params (d : AccountDraft) : json :=
  JObject [text_member "issuer" (draft_issuer d); text_member "account" (draft_account d);
           text_member "display_name" (draft_display_name d); text_member "secret" (draft_secret d)].
Definition import_requests (drafts : list AccountDraft) : list (string * json) :=
  [("import.begin"%string, JObject [])] ++ ((λ d, ("import.item"%string, draft_params d)) <$> drafts)
  ++ [("import.validate"%string, JObject [])].

(** The requests one after the other; whether all were answered with success. *)
Fixpoint answer_all (id : Z) (requests : list (string * json)) s : bool * Session N W :=
  match requests with
  | [] => (true, s)
  | (op, params) :: requests =>
    let '(response, s) := answer id op params s in
    let '(ok, s) := answer_all id requests s in (response_ok response && ok, s)
  end.

Lemma answer_all_app id r1 r2 s :
  answer_all id (r1 ++ r2) s =
  let '(ok1, s) := answer_all id r1 s in let '(ok2, s) := answer_all id r2 s in (ok1 && ok2, s).
Proof.
  revert s. induction r1 as [|[op params] r1 IH]; intros s; cbn [app answer_all].
  - by destruct (answer_all id r2 s).
  - destruct (answer id op params s) as [response s1]. rewrite IH. destruct (answer_all id r1 s1) as [ok1 s2].
    destruct (answer_all id r2 s2) as [ok2 s3]. by rewrite andb_assoc.
Qed.

(** The session while an import is collected. *)
Definition collecting (drafts : list AccountDraft) s s' : Prop :=
  import_active_ s' = true ∧ import_accounts_ s' = drafts ∧ session_device_ s' = session_device_ s.

Lemma read_draft_params d : read_draft (draft_params d) = Some d.
Proof. by destruct d. Qed.

Lemma item_collected id d l s s1 :
  collecting l s s1 → draft_wf d → (length l < kMaxAccounts)%nat →
  ∃ s2, answer id "import.item" (draft_params d) s1 = (count_success id (S (length l)), s2) ∧ collecting (l ++ [d]) s s2.
Proof.
  intros (Ha & <- & Hd) Hw Hn. unfold AccountProtocol.answer. cbn [String.eqb Ascii.eqb Bool.eqb].
  destruct (answer_import_item id (draft_params d) s1) as [response s2] eqn:E. exists s2.
  unfold answer_import_item in E. rewrite fn_get in E. rewrite Ha, read_draft_params in E.
  exec_step E; [apply Nat.leb_le in Ec; lia|]. cbn zeta in E.
  exec_step E; [by apply validate_draft_ok in Hw; rewrite Hw in Ec0|]. exec E. simplify_eq. cbn.
  unfold collecting. cbn. rewrite length_app. cbn. by rewrite Nat.add_1_r.
Qed.

Lemma items_collected id drafts l s s1 :
  collecting l s s1 → Forall draft_wf drafts → (length l + length drafts ≤ kMaxAccounts)%nat →
  ∃ s2, answer_all id ((λ d, ("import.item"%string, draft_params d)) <$> drafts) s1 = (true, s2) ∧
        collecting (l ++ drafts) s s2.
Proof.
  intros Hc Hw. revert l s1 Hc. induction Hw as [|d drafts Hd _ IH]; intros l s1 Hc Hn.
  { exists s1. by rewrite app_nil_r. }
  cbn [length] in Hn. destruct (item_collected id d l s s1 Hc Hd) as (s2 & E & Hc2); [lia|].
  destruct (IH (l ++ [d]) s2 Hc2) as (s3 & E3 & Hc3); [rewrite length_app; cbn; lia|]. exists s3.
  rewrite <- app_assoc in Hc3. split; [|done]. cbn [fmap list_fmap answer_all]. by rewrite E, E3.
Qed.

Lemma validate_collected id drafts s s1 :
  collecting drafts s s1 → Forall draft_wf drafts →
  ∃ s2, answer id "import.validate" (JObject []) s1 = (count_success id (length drafts), s2) ∧
        collecting drafts s s2 ∧ import_validated_ s2 = true.
Proof.
  intros (Ha & <- & Hd) Hw. unfold AccountProtocol.answer. cbn [String.eqb Ascii.eqb Bool.eqb].
  destruct (answer_import_validate id s1) as [response s2] eqn:E. exists s2. unfold answer_import_validate in E.
  do 2 exec_step E; [by rewrite Ha in Ec|]. cbn zeta in E. rewrite validate_drafts_spec, bool_decide_true in E by done.
  exec E. simplify_eq. by repeat split.
Qed.

Lemma begin_collecting id s :
  ∃ s1, answer id "import.begin" (JObject []) s = (import_begin_response id, s1) ∧ collecting [] s s1.
Proof.
  unfold AccountProtocol.answer. cbn [String.eqb Ascii.eqb Bool.eqb].
  destruct (answer_import_begin id s) as [r s1] eqn:E. exists s1. unfold answer_import_begin in E. exec E. by simplify_eq.
Qed.
Lemma import_collected id drafts s : Forall draft_wf drafts → (length drafts ≤ kMaxAccounts)%nat →
  ∃ s1, answer_all id (import_requests drafts) s = (true, s1) ∧ collecting drafts s s1 ∧ import_validated_ s1 = true.
Proof.
  intros Hw Hn. destruct (begin_collecting id s) as (s0 & E0 & Hc0).
  destruct (items_collected id drafts [] s s0 Hc0 Hw Hn) as (s2 & E2 & Hc2).
  destruct (validate_collected id drafts s s2 Hc2 Hw) as (s3 & E3 & Hc3). exists s3. split; [|done].
  unfold import_requests. rewrite answer_all_app. cbn [answer_all]. rewrite E0, answer_all_app, E2. cbn [answer_all]. by rewrite E3.
Qed.

(** An import whose accounts are all acceptable is taken account by account without
    touching the store; the commit that succeeds has replaced the stored accounts,
    all of them at once, by the ones sent in the order sent, and kept the Wi-Fi
    credentials. *)
Theorem import_replaces_all id drafts s x ok s1 response s' :
  Forall draft_wf drafts → Forall draft_typed drafts → (length drafts ≤ kMaxAccounts)%nat →
  ready (store_of s) = true → stored (stored_in s) x →
  answer_all id (import_requests drafts) s = (ok, s1) → answer id "import.commit" (JObject []) s1 = (response, s') →
  ok = true ∧ session_device_ s1 = session_device_ s ∧
  (response_ok response = true → ∃ x', stored (stored_in s') x' ∧
     snd <$> entries (book_of x') = drafts ∧ book_last (book_of x') = 0 ∧ book_wifi (book_of x') = book_wifi (book_of x)).
Proof.
  intros Hw Ht Hn Hr Hs E Ec.
  pose proof (import_collected id drafts s Hw Hn) as (s2 & E2 & Hcol).
  rewrite E in E2. injection E2 as -> <-.
  destruct Hcol as ((Ha & Hl & Hd) & Hv). split; [done|]. split; [done|]. intros Hok.
  assert (Has : asked s1 "import.commit" (JObject []) = Some (Replace drafts)) by (unfold asked; cbn; by rewrite Ha, Hv, Hl).
  destruct (asked_executed _ _ _ _ _ _ _ Has Ec) as (status & st & Ex & -> & <-). rewrite <- Hd in Hr, Hs.
  assert (Hst : status = StoreStatus.kOk).
  { unfold status_response in Hok. destruct (StoreStatus.is_ok status) eqn:Est; [by apply StoreStatus.ok_true|done]. }
  destruct (execute_outcome (Replace drafts) _ _ _ _ Hr Hs Ht Ex) as [_ Ho]. destruct (book_step (Replace drafts) (book_of x)) as [e|b] eqn:Eb.
  { by destruct Ho as (_ & ? & _). }
  destruct Ho as (x' & (Hty & Hwf & <-) & [(_ & Hwr & _)|[? _]]); [|done]. exists x'.
  split; [by eapply written_stored|]. cbn [book_step] in Eb.
  destruct (Nat.ltb _ _); [done|]. destruct (negb _); [done|]. destruct (u32_max <? _); [done|]. apply (inj inr) in Eb. rewrite <- Eb. cbn.
  split; [|done]. apply snd_zip. rewrite length_seqZ. lia.
Qed.

(** The factory reset that succeeds forgets the accounts, and the import under way. *)
Theorem reset_line_forgets `{!NvsNotFoundLaws N} `{!NvsGetU32NotFound N} `{!SecurityBackendLaws N} id s response s' :
  answer id "factory.reset" (JObject []) s = (response, s') → 
  import_accounts_ s' = [] ∧ import_active_ s' = false ∧
  (response_ok response = true → ready (store_of s') = true ∧ stored (stored_in s') new_accounts).
Proof.
  intros E. unfold AccountProtocol.answer in E. cbn [String.eqb Ascii.eqb Bool.eqb] in E. unfold answer_reset in E.
  do 2 exec_step E. apply on_device_inv in Ef as (d & Ef & ->). exec E. simplify_eq. split; [done|]. split; [done|].
  unfold status_response. destruct (StoreStatus.is_ok a) eqn:Est; [|done]. apply StoreStatus.ok_true in Est. subst a. intros _.
  unfold factory_reset_user_state in Ef. exec_step Ef. apply on_clock_inv in Ef0 as [_ Hf]. rewrite fn_call_tail in Ef.
  unfold on_accounts in Ef. destruct (account_store_reset _) as [status st] eqn:Er. simplify_eq. cbn. by apply reset_forgets in Er.
Qed.
End Protocol.

(** ** An import, from beginning to end *)

Module AccountProtocolSample.
Import AccountSample.
#[local] Existing Instance TimeSample.good_network.
Definition sample_metadata : DeviceMetadata :=
  mkDeviceMetadata (str "M5StickS3") (str "1.0.1") 2 2 1 (str "0000000").
Definition session0 : Session MemoryNvs Z := new_session (store0, new_time_service 1000000).
Definition imported : bool * Session MemoryNvs Z := answer_all sample_metadata 1 (import_requests [mail; shop]) session0.
Definition committed : json * Session MemoryNvs Z :=
  AccountProtocol.answer sample_metadata 1 "import.commit" (JObject []) (snd imported).

(** The list that is then sent has no secret in it. *)
Example listed_after_import :
  fst (AccountProtocol.answer sample_metadata 2 "accounts.list" (JObject []) (snd committed)) =
  accounts_list_success 2 [mkAccountMetadata 1 0 (str "Example") (str "a@example.org") [];
                           mkAccountMetadata 2 1 (str "Shop") (str "b") (str "My shop")].
Proof. vm_compute. reflexivity. Qed.

Example wiped_before_freed :
  wipe_sensitive_json (draft_params mail) =
  draft_params (mkDraft (str "Example") (str "a@example.org") [] (zeros 16)).
Proof. vm_compute. reflexivity. Qed.

Lemma import_replaces_all_witness :
  ∃ x', stored (view (flash_ (fst (session_device_ (snd committed))))) x' ∧ snd <$> entries (book_of x') = [mail; shop].
Proof.
  destruct (import_replaces_all sample_metadata 1 [mail; shop] session0 new_accounts (fst imported) (snd imported)
    (fst committed) (snd committed)) as (_ & _ & Hc).
  - apply (bool_decide_unpack _). vm_compute. exact I.
  - apply Forall_cons_2; [apply mail_typed|]. apply Forall_cons_2; [|constructor]. split_and!; apply str_ok.
  - vm_compute. lia.
  - vm_compute. reflexivity.
  - exact stored0.
  - apply surjective_pairing.
  - apply surjective_pairing.
  - destruct Hc as (x' & Hs & He & _); [vm_compute; reflexivity|]. by exists x'.
Defined.

(** A parser that knows one line. *)
Definition clear_wifi_line : json :=
  JObject [("v"%string, number 2); ("id"%string, number 7); ("op"%string, JString (str "wifi.clear"));
           ("params"%string, JObject [])].
Definition parse_one (line : bytes) : option json := Some clear_wifi_line.
Lemma parse_one_bytes : parses_bytes parse_one.
Proof.
  intros line root [= <-] key t Hin.
  inversion Hin as [ms k c Hm|ms k c k' c' Hm Hin'|]; subst; apply list_elem_of_In in Hm; cbn in Hm;
    destruct_or! Hm; simplify_eq;
    try (by apply (bool_decide_unpack _); vm_compute); try (by inversion Hin').
  inversion Hin' as [ms k c Hm'|ms k c k' c' Hm' _|]; by apply not_elem_of_nil in Hm'.
Qed.
Definition cleared : json * Session MemoryNvs Z :=
  accounts_handle_line parse_one sample_metadata [0] (snd committed).

Lemma line_refines_book_witness :
  ready (fst (session_device_ (snd cleared))) = true.
Proof.
  destruct import_replaces_all_witness as (x' & Hs & _).
  assert (Hok : session_ok (snd committed)) by (split; [vm_compute; constructor|vm_compute; lia|vm_compute; done]).
  destruct (line_refines_book parse_one sample_metadata [0] (snd committed) x' (fst cleared) (snd cleared) parse_one_bytes
    Hok ltac:(vm_compute; reflexivity) Hs (surjective_pairing _)) as (_ & Hl).
  change (line_request parse_one [0]) with (Some (7, "wifi.clear"%string, JObject [])) in Hl.
  cbn [asked String.eqb Ascii.eqb Bool.eqb] in Hl. exact (proj1 Hl).
Defined.
End AccountProtocolSample.
