(* ===== verification/AccountUi.v ===== *)
(** * The user interface of the first generation

    m5auth_totp/generator.cpp: [Generator], which makes the code of an account of
    the [AccountStore]; and m5auth_device_sticks3/device.cpp: [UiController], whose
    task polls the button, keeps the [UiModel] and prints the screen.  One pass of
    the loop of [run] is a function of what the button reports; what is printed is
    kept as the list of lines since the last clear.  The mutex around the store has
    no counterpart: a pass is one step. *)

From S2P Require Import Prelude Bytes Json UserPresence Attempt TrustedTime TimeService Base32 Hmac Totp.
From S2P Require Import LabelScroll Display Nvs AccountState AccountStore AccountTime AccountProtocol UiModel.

(** ** The generator *)

Definition generate_result_code (result : GenerateResult.t) : string :=
  match result with
  | GenerateResult.kOk => "ok"
  | GenerateResult.kNotSynced => "time_not_synced"
  | GenerateResult.kTimeStale => "time_stale"
  | GenerateResult.kAccountNotFound => "account_not_found"
  | GenerateResult.kInvalidSecret => "invalid_totp_secret"
  | GenerateResult.kCryptoError => "totp_crypto_error"
  | GenerateResult.kStorageError => "storage_error"
  end.

Section Generator.
Context `{MbedtlsHmac} {N W : Type} `{Nvs N} `{!SecurityBackend N} `{EspNetwork W}.

(** What the callback captures by reference: the time service, [result] and
    [*code]. *)
Definition account_captured : Type := TimeService W * (GenerateResult.t * option Z).
Definition in_clock {A} (f : service_op (N:=W) A) : account_captured → A * account_captured := λ s,
  let '(a, t) := f (fst s) in (a, (t, snd s)).
Definition end_with {A} (result : GenerateResult.t) : ctl account_captured StoreStatus.t A :=
  modify (λ s, (fst s, (result, snd (snd s))));; leave StoreStatus.kOk.
Definition end_if (b : bool) (result : GenerateResult.t) : ctl account_captured StoreStatus.t unit :=
  if b then end_with result else mret tt.

Definition account_callback (secret : bytes) : account_captured → StoreStatus.t * account_captured := fn (
  current_status ← call (in_clock time_status);
  end_if (bool_decide (readiness current_status = kNotSynced)) GenerateResult.kNotSynced;;
  end_if (bool_decide (readiness current_status = kStale)) GenerateResult.kTimeStale;;
  now ← call (in_clock service_unix_seconds);
  match now with
  | None => end_with GenerateResult.kTimeStale
  | Some unix_seconds =>
    let '(core, generated) := generate secret unix_seconds in
    match core with
    | CoreResult.kOk => modify (λ s, (fst s, (GenerateResult.kOk, generated)));; mret StoreStatus.kOk
    | CoreResult.kInvalidSecret => end_with GenerateResult.kInvalidSecret
    | CoreResult.kCryptoError => end_with GenerateResult.kCryptoError
    end
  end).

Definition generate_for_account (account_id : Z) : clocked_op (N:=N) (W:=W) (GenerateResult.t * option Z) := fn (
  leave_if (account_id =? 0) (GenerateResult.kAccountNotFound, None);;
  before_storage ← call (on_clock time_status);
  leave_if (bool_decide (readiness before_storage = kNotSynced)) (GenerateResult.kNotSynced, None);;
  leave_if (bool_decide (readiness before_storage = kStale)) (GenerateResult.kTimeStale, None);;
  x ← call (λ s,
    let '(status, (store, (t, out))) :=
      with_account_secret account_id (Some account_callback) (fst s, (snd s, (GenerateResult.kStorageError, None))) in
    ((status, out), (store, t)));
  let '(storage_status, (result, code)) := x in
  leave_if (bool_decide (storage_status = StoreStatus.kNotFound)) (GenerateResult.kAccountNotFound, code);;
  leave_if (negb (StoreStatus.is_ok storage_status)) (GenerateResult.kStorageError, code);;
  mret (result, code)).
End Generator.

(** ** The controller *)

Definition kAccountRefreshIntervalMs : Z := 1000.

Definition readiness_text (readiness : Readiness) : string :=
  match readiness with kNotSynced => "NOT SYNCED" | kReady => "READY" | kStale => "TIME STALE" end.

(** A line printed in the readable size, or the code in its own. *)
Inductive screen_line := Line (text : bytes) | Otp (text : bytes).

(** What the button reports in a pass. *)
Record Buttons := mkButtons { was_pressed : bool; was_hold : bool; was_double_clicked : bool; was_single_clicked : bool }.

Record UiSystem {N W : Type} := mkUiSystem {
  model_ : UiModel;
  ui_device_ : AccountStore N * TimeService W;
  storage_error_ : bool;
  ui_last_result_ : GenerateResult.t;
  screen_ : list screen_line;
  (** the local variables of [run] *)
  previous_readiness : Readiness;
  last_refresh_ms : Z;
}.
Arguments UiSystem : clear implicits.
#[export] Instance eta_ui_system {N W} : Eta (UiSystem N W) := λ s,
  mkUiSystem N W (model_ s) (ui_device_ s) (storage_error_ s) (ui_last_result_ s) (screen_ s)
    (previous_readiness s) (last_refresh_ms s).

Section Controller.
Context `{MbedtlsHmac} {N W : Type} `{Nvs N} `{!SecurityBackend N} `{EspNetwork W}.
Abbreviation Sys := (UiSystem N W).
Definition ui_op (A : Type) : Type := Sys → A * Sys.

Definition on_model {A} (f : model_op A) : ui_op A := λ s,
  let '(a, m) := f (model_ s) in (a, s <| model_ := m |>).
Definition on_ui_device {A} (f : clocked_op (N:=N) (W:=W) A) : ui_op A := λ s,
  let '(a, d) := f (ui_device_ s) in (a, s <| ui_device_ := d |>).

Definition ui_monotonic_ms : ui_op Z := fn (
  microseconds ← call (on_ui_device (on_clock (on_net esp_timer_get_time)));
  mret (if microseconds <=? 0 then 0 else microseconds / 1000)).
Definition ui_time_status : ui_op TimeSnapshot := on_ui_device store_time_status.

(** A failure is drawn once. *)
Definition storage_failed : ui_op bool := fn (
  s ← get_state;
  let changed := negb (storage_error_ s) in
  modify (λ s, s <| storage_error_ := true |>);;
  mret changed).

Definition refresh_accounts : ui_op bool := fn (
  x ← call (on_ui_device (on_accounts list_accounts));
  let '(list_status, accounts) := x in
  if failed list_status then call storage_failed
  else
  x ← call (on_ui_device (on_accounts get_last_used));
  let '(selection_status, last_used) := x in
  if failed selection_status then call storage_failed
  else
  let last_used := default 0 last_used in
  s ← get_state;
  let recovered := storage_error_ s in
  updated ← call (on_model (update_accounts accounts last_used));
  let changed := updated || recovered in
  modify (λ s, (if changed then s <| ui_last_result_ := GenerateResult.kOk |> else s) <| storage_error_ := false |>);;
  s ← get_state;
  let selected := selected_id_ (model_ s) in
  if negb (selected =? 0) && negb (selected =? last_used) then
    set_status ← call (on_ui_device (on_accounts (set_last_used selected)));
    leave_if (negb (failed set_status)) changed;;
    modify (λ s, s <| storage_error_ := true |>);;
    mret true
  else mret changed).

Definition persist_selection : ui_op bool := fn (
  s ← get_state;
  let selected := selected_id_ (model_ s) in
  leave_if (selected =? 0) true;;
  status ← call (on_ui_device (on_accounts (set_last_used selected)));
  modify (λ s, s <| storage_error_ := failed status |>);;
  mret (negb (failed status))).

(** *** The screen *)

Definition line (text : string) : screen_line := Line (str text).
(** What [initialize] leaves on the screen. *)
Definition start_lines : list screen_line := [line "M5 Authenticator"; line "Starting..."].
(** The lines of a request to confirm. *)
Definition request_lines (m : UiModel) : list screen_line :=
  [line "UNLOCK REQUEST"; line (presence_operation_text (unlock_request_operation m))]
  ++ (if unlock_request_confirmed m then [line "Confirmed"; line "Waiting for browser"]
      else [line "Press A to confirm"; line "Expires in 30 sec"]).

(** What [render] prints, from the readiness of the clock. *)
Definition screen_lines (time_readiness : Readiness) (m : UiModel) (storage_error : bool) (result : GenerateResult.t)
    : list screen_line :=
  line "M5 Authenticator" ::
  if unlock_request_active m then request_lines m
  else
    Line (str "Time: " ++ str (readiness_text time_readiness)) ::
    if storage_error then [line "Storage unavailable"]
    else
      match selected_account m with
      | None => [line "No accounts"; line "Open Web setup"]
      | Some selected =>
        [Line (decimal (Z.of_nat (selected_position m)) ++ str " / " ++ decimal (Z.of_nat (account_count m)));
         Line (c_string (account_display_label selected))]
        ++ (if reveal_active_ m && bool_decide (time_readiness = kReady) then [Otp (otp_text (revealed_code_ m))]
            else
              (if negb (bool_decide (result = GenerateResult.kOk)) && negb (bool_decide (result = GenerateResult.kNotSynced))
                  && negb (bool_decide (result = GenerateResult.kTimeStale))
               then [line "OTP unavailable"] else [])
              ++ [line "Click: next"; line "2x: previous"; line "Hold: reveal OTP"])
      end.
Definition render : ui_op unit := fn (
  time_status ← call ui_time_status;
  modify (λ s, s <| screen_ := screen_lines (readiness time_status) (model_ s) (storage_error_ s) (ui_last_result_ s) |>);;
  mret tt).

(** *** The loop *)

Definition set_last_result (result : GenerateResult.t) (s : Sys) : Sys := s <| ui_last_result_ := result |>.

(** Before the loop. *)
Definition run_start : ui_op unit := fn (
  call refresh_accounts;;
  status ← call ui_time_status;
  modify (λ s, s <| previous_readiness := readiness status |>);;
  now_ms ← call ui_monotonic_ms;
  modify (λ s, s <| last_refresh_ms := now_ms |>);;
  call render).

(** The request: it expires, or the press confirms it. *)
Definition pass_request (pressed : bool) (now_ms : Z) : ui_op bool := fn (
  expired ← call (on_model (expire_unlock_request now_ms));
  if pressed : bool then
    confirmed ← call (on_model (primary_button_pressed now_ms));
    mret (confirmed || expired)
  else mret expired).

(** What the clock does to the code; whether it is to be drawn. *)
Definition pass_code (now_ms : Z) (time_readiness : Readiness) (dirty : bool) : ui_op bool := fn (
  s ← get_state;
  let changed := negb (bool_decide (time_readiness = previous_readiness s)) in
  modify (λ s, if changed then s <| previous_readiness := time_readiness |> else s);;
  let dirty := changed || dirty in
  s ← get_state;
  if reveal_active_ (model_ s) then
    hidden ← call (on_model (if negb (bool_decide (time_readiness = kReady)) then hide_reveal else expire now_ms));
    mret (hidden || dirty)
  else mret dirty).

(** The code of the selected account, once nothing is shown: the new [now_ms]. *)
Definition hold_code (now_ms : Z) : ui_op Z := fn (
  modify (set_last_result GenerateResult.kOk);;
  s ← get_state;
  match selected_account (model_ s) with
  | None => mret now_ms
  | Some selected =>
    x ← call (on_ui_device (generate_for_account (meta_id selected)));
    let '(result, code) := x in
    modify (set_last_result result);;
    now_ms ← call ui_monotonic_ms;
    (if bool_decide (result = GenerateResult.kOk)
     then call (on_model (reveal (default 0 code) now_ms));; mret tt else mret tt);;
    mret now_ms
  end).
Definition hold_reveal (now_ms : Z) : ui_op Z := fn (
  hidden ← call (on_model hide_reveal);
  (if hidden : bool then call render else mret tt);;
  call (hold_code now_ms)).

(** A click: whether anything has changed. *)
Definition click_select (select : model_op bool) : ui_op bool := fn (
  modify (set_last_result GenerateResult.kOk);;
  s ← get_state;
  let was_revealing := reveal_active_ (model_ s) in
  selected ← call (on_model select);
  if selected : bool then
    (if was_revealing then call render else mret tt);;
    call persist_selection;;
    mret true
  else mret false).

(** The gestures, which a request keeps from the accounts: whether to draw, and
    the current [now_ms]. *)
Definition pass_gestures (buttons : Buttons) (dirty : bool) (now_ms : Z) : ui_op (bool * Z) := fn (
  s ← get_state;
  if unlock_request_active (model_ s) then mret (dirty, now_ms)
  else if was_hold buttons then
    now_ms ← call (hold_reveal now_ms);
    mret (true, now_ms)
  else if was_double_clicked buttons then
    changed ← call (click_select select_previous);
    mret (dirty || changed, now_ms)
  else if was_single_clicked buttons then
    changed ← call (click_select select_next);
    mret (dirty || changed, now_ms)
  else mret (dirty, now_ms)).

Definition pass_refresh (dirty : bool) (now_ms : Z) : ui_op bool := fn (
  s ← get_state;
  if negb (reveal_active_ (model_ s)) && negb (unlock_request_active (model_ s))
     && (kAccountRefreshIntervalMs <=? (now_ms - last_refresh_ms s) mod 2 ^ 64)
  then
    changed ← call refresh_accounts;
    modify (λ s, s <| last_refresh_ms := now_ms |>);;
    mret (changed || dirty)
  else mret dirty).

(** One pass of the loop; the delay of 20 ms follows. *)
Definition ui_pass (buttons : Buttons) : ui_op unit := fn (
  now_ms ← call ui_monotonic_ms;
  status ← call ui_time_status;
  dirty ← call (pass_request (was_pressed buttons) now_ms);
  dirty ← call (pass_code now_ms (readiness status) dirty);
  s ← get_state;
  let draw_now := dirty && negb (reveal_active_ (model_ s)) in
  (if draw_now then call render else mret tt);;
  x ← call (pass_gestures buttons (dirty && negb draw_now) now_ms);
  let '(dirty, now_ms) := x in
  dirty ← call (pass_refresh dirty now_ms);
  if dirty : bool then call render else mret tt).
End Controller.
