(* ===== verification/AccountUiCorrect.v ===== *)
(** * Correctness of the user interface of the first generation

    A code is that of RFC 6238 for the secret that is stored, at a time of the
    clock; it is on the screen only while the model reveals it, never past its
    deadline or beside a clock that is not ready; and the screen is the rendering of
    the model. *)

From S2P Require Import Prelude Bytes Json UserPresence Attempt TrustedTime TimeService TimeServiceCorrect.
From S2P Require Import Base32 Hmac Totp TotpCorrect LabelScroll Display Nvs AccountState AccountStateCorrect AccountStore.
From S2P Require Import AccountBook AccountStoreCorrect AccountSecurity AccountSample AccountTime AccountProtocol UiModel UiModelCorrect AccountUi.

(** ** The generator *)

Section Generator.
Context `{HmacLaws} {N W : Type} `{NvsLaws N} `{!SecurityBackend N} `{EspNetwork W}.

(** The code [c] is that of [secret], a Base32 text, at a time of the clock. *)
Definition code_of_secret (secret : bytes) (clock : TrustedClock) (c : Z) : Prop :=
  ∃ key now unix, decode_base32 secret = Some key ∧ key ≠ [] ∧ current_unix_seconds now clock = Some unix ∧
    c = totp_reference key unix.

Lemma generate_ok secret unix g : generate secret unix = (CoreResult.kOk, g) →
  ∃ key, decode_base32 secret = Some key ∧ key ≠ [] ∧ g = Some (totp_reference key unix).
Proof.
  unfold generate, generate_with_provider. destruct (decode_base32 secret) as [key|]; [|done]. intros E. exists key.
  split; [done|]. change (generate_raw key unix = (CoreResult.kOk, g)) in E. split; [|by apply generate_raw_ok].
  intros ->. done.
Qed.

Lemma in_clock_inv {A} (f : service_op (N:=W) A) s a s' :
  in_clock f s = (a, s') → f (fst s) = (a, fst s') ∧ snd s' = snd s.
Proof. unfold in_clock. destruct (f (fst s)). by intros [= <- <-]. Qed.

Lemma account_callback_spec secret (s : account_captured (W:=W)) st s' :
  account_callback secret s = (st, s') → snd (snd s) = None →
  st = StoreStatus.kOk ∧ only_net (fst s) (fst s') ∧
  (fst (snd s') ≠ GenerateResult.kOk ∧ snd (snd s') = None ∨
   ∃ c, code_of_secret secret (clock_ (fst s)) c ∧ snd s' = (GenerateResult.kOk, Some c)).
Proof.
  intros E Hn. unfold account_callback, end_if, end_with in E. exec_step E. apply in_clock_inv in Ef as [Ef Hs].
  apply status_inv in Ef as [H1' _].
  destruct (bool_decide (readiness a = kNotSynced)); [exec E; simplify_eq; split_and!; [done|done|left; cbn; by rewrite Hs]|].
  exec_step E. destruct (bool_decide (readiness a = kStale)); [exec E; simplify_eq; split_and!; [done|done|left; cbn; by rewrite Hs]|].
  do 2 exec_step E. apply in_clock_inv in Ef as [Ef Hs0]. apply reading_inv in Ef as [H2' [now Hnow]].
  assert (Hon : only_net (fst s) (fst s1)) by (by eapply only_net_trans). rewrite H1' in Hnow. cbn in Hnow.
  destruct a0 as [unix|]; [|exec E; simplify_eq; split_and!; [done|done|left; cbn; by rewrite Hs0, Hs]].
  destruct (generate secret unix) as [core generated] eqn:Eg.
  destruct core; exec E; simplify_eq; (split_and!; [done|done|]); [right|left; cbn; by rewrite Hs0, Hs..].
  apply generate_ok in Eg as (key & Hd & Hk & ->). exists (totp_reference key unix). split; [|done]. by exists key, now, unix.
Qed.

(** What making a code can do: only the network stack and the NVS have been used;
    nothing but a code of the stored secret is ever written, and it is written
    exactly when the result is [kOk]. *)
Theorem generate_for_account_exact id (s : AccountStore N * TimeService W) x result g s' :
  stored (view (flash_ (fst s))) x → generate_for_account id s = ((result, g), s') →
  visible (view (flash_ (fst s'))) = visible (view (flash_ (fst s))) ∧ only_net (snd s) (snd s') ∧
  (result ≠ GenerateResult.kOk ∧ g = None ∨
   ∃ draft c, lookup_entry id (book_of x) = Some (id, draft) ∧
     code_of_secret (draft_secret draft) (clock_ (snd s)) c ∧ result = GenerateResult.kOk ∧ g = Some c).
Proof.
  intros Hs E. unfold generate_for_account in E. exec_step E; [simplify_eq; split_and!; [done|apply only_net_refl|by left]|].
  exec_step E. apply on_clock_inv in Ef as [Ef Hf]. apply status_inv in Ef as [Hn _].
  exec_step E; [simplify_eq; rewrite Hf; split_and!; [done|done|by left]|].
  exec_step E; [simplify_eq; rewrite Hf; split_and!; [done|done|by left]|]. exec_step E.
  destruct (with_account_secret _ _ _) as [status [store [t out]]] eqn:Ew. simplify_eq. rewrite <- Hf in Hs.
  apply (account_secret_exact _ _ _ _ _ _ _ _ Hs) in Ew as [Hv Hw]. rewrite <- Hf. cbn in Hw.
  assert (Hout : (status ≠ StoreStatus.kOk ∧ t = snd s0 ∧ out = (GenerateResult.kStorageError, None)) ∨
    status = StoreStatus.kOk ∧ ∃ draft, lookup_entry id (book_of x) = Some (id, draft) ∧
      only_net (snd s0) t ∧ (fst out ≠ GenerateResult.kOk ∧ snd out = None ∨
        ∃ c, code_of_secret (draft_secret draft) (clock_ (snd s0)) c ∧ out = (GenerateResult.kOk, Some c))).
  { destruct Hw as [(draft & Hl & Ew)|[Ew Hne]]; [right|left; by simplify_eq]. symmetry in Ew.
    apply account_callback_spec in Ew as (-> & Ho & Hr); [|done]. split; [done|]. by exists draft. }
  clear Hw. assert (Hcl : clock_ (snd s0) = clock_ (snd s)) by by rewrite Hn. destruct out as [o co].
  destruct Hout as [(Hne & -> & [= -> ->])|(-> & draft & Hl & Ho & Hr)].
  - assert (Hx : snd s' = snd s0 ∧ fst s' = store ∧ result ≠ GenerateResult.kOk ∧ g = None).
    { exec E; by simplify_eq. }
    destruct Hx as (-> & -> & ? & ->). split_and!; [done|done|by left].
  - exec E; simplify_eq. split; [done|]. split; [by eapply only_net_trans|]. cbn in Hr. rewrite <- Hcl.
    destruct Hr as [[? ->]|(c & Hc & [= -> ->])]; [by left|right]. by exists draft, c.
Qed.
End Generator.

(** ** The screen *)

Lemma Otp_inj t t' : Otp t = Otp t' → t = t'.
Proof. by intros [= ->]. Qed.

Lemma screen_lines_code readiness m storage_error result t :
  Otp t ∈ screen_lines readiness m storage_error result →
  reveal_active_ m = true ∧ t = otp_text (revealed_code_ m) ∧ readiness = kReady ∧ quiet m ∧ is_Some (selected_account m).
Proof.
  unfold screen_lines, request_lines, unlock_request_active, quiet. intros Hin%list_elem_of_In. cbn in Hin.
  destruct Hin as [?|Hin]; [done|]. destruct (gate_active (presence_ m)).
  { destruct (unlock_request_confirmed m); cbn in Hin; by destruct_or! Hin. }
  destruct Hin as [?|Hin]; [done|]. destruct storage_error; [cbn in Hin; by destruct_or! Hin|].
  destruct (selected_account m) as [a|]; [|cbn in Hin; by destruct_or! Hin]. do 2 (destruct Hin as [?|Hin]; [done|]).
  destruct (reveal_active_ m && bool_decide (readiness = kReady)) eqn:E.
  - apply andb_true_iff in E as [Hr Hd%bool_decide_eq_true]. destruct Hin as [Hin|[]]. apply Otp_inj in Hin as <-. by split_and!.
  - apply in_app_or in Hin as [Hin|Hin]; [|cbn in Hin; by destruct_or! Hin].
    destruct (_ && _ && _); cbn in Hin; by destruct_or! Hin.
Qed.

Section Controller.
Context `{HmacLaws} {N W : Type} `{NvsLaws N} `{!SecurityBackend N} `{EspNetwork W}.
Abbreviation Sys := (UiSystem N W).
Implicit Types (s : Sys).

(** A code on the screen is the one the model reveals. *)
Definition screen_ok s : Prop :=
  ∀ t, Otp t ∈ screen_ s → reveal_active_ (model_ s) = true ∧ t = otp_text (revealed_code_ (model_ s)).
Definition no_code s : Prop := ∀ t, Otp t ∉ screen_ s.

Lemma no_code_ok s : no_code s → screen_ok s.
Proof. by intros Hn t Ht%Hn. Qed.
Lemma hidden_no_code s : screen_ok s → reveal_active_ (model_ s) = false → no_code s.
Proof. intros Hok Hr t Ht. apply Hok in Ht as [Hr' _]. congruence. Qed.
Lemma no_code_same s s' : screen_ s' = screen_ s → no_code s → no_code s'.
Proof. unfold no_code. by intros ->. Qed.

Lemma on_model_inv {A} (f : model_op A) s a s' :
  on_model f s = (a, s') → ∃ m, f (model_ s) = (a, m) ∧ s' = s <| model_ := m |>.
Proof. unfold on_model. destruct (f (model_ s)) as [b m]. intros [= -> <-]. eauto. Qed.
Lemma on_ui_device_inv {A} (f : clocked_op (N:=N) (W:=W) A) s a s' :
  on_ui_device f s = (a, s') → ∃ d, f (ui_device_ s) = (a, d) ∧ s' = s <| ui_device_ := d |>.
Proof. unfold on_ui_device. destruct (f (ui_device_ s)) as [b d]. intros [= -> <-]. eauto. Qed.

(** The model and the screen are as before. *)
Definition same_ui s s' : Prop := model_ s' = model_ s ∧ screen_ s' = screen_ s.
Lemma same_ui_ok s s' : same_ui s s' → screen_ok s → screen_ok s'.
Proof. intros [Hm Hs]. unfold screen_ok. by rewrite Hm, Hs. Qed.
Lemma device_same {A} (f : clocked_op (N:=N) (W:=W) A) s a s' : on_ui_device f s = (a, s') → same_ui s s'.
Proof. by intros (d & _ & ->)%on_ui_device_inv. Qed.
Lemma monotonic_same s a s' : ui_monotonic_ms s = (a, s') → same_ui s s'.
Proof. intros E. unfold ui_monotonic_ms in E. exec_step E. apply device_same in Ef. exec E. by simplify_eq. Qed.

Lemma render_exact s x s' : render s = (x, s') → model_ s' = model_ s ∧ screen_ok s'.
Proof.
  intros E. unfold render in E. exec_step E. apply device_same in Ef as [Hm Hs]. exec E. simplify_eq. split; [done|].
  intros t Ht. cbn in Ht |- *. by apply screen_lines_code in Ht as (? & ? & _).
Qed.

(** The steps that keep the code off the screen. *)
Lemma refresh_screen s b s' : refresh_accounts s = (b, s') → screen_ s' = screen_ s.
Proof.
  assert (Hf : ∀ s b s', storage_failed s = (b, s') → screen_ s' = screen_ s).
  { intros s2 b2 s2' E. unfold storage_failed in E. exec E. by simplify_eq. }
  intros E. unfold refresh_accounts in E. exec_step E. apply device_same in Ef as [_ Hs0]. destruct a as [st1 items].
  exec_step E; [rewrite fn_call_tail in E; apply Hf in E; congruence|]. exec_step E. apply device_same in Ef as [_ Hs1].
  destruct a as [st2 last]. exec_step E; [rewrite fn_call_tail in E; apply Hf in E; congruence|]. cbn zeta in E.
  do 2 exec_step E. apply on_model_inv in Ef as (m & _ & ->). do 2 exec_step E. exec_step E.
  - exec_step E. apply device_same in Ef as [_ Hs2]. exec E; simplify_eq; cbn in *; destruct (a || _); cbn in *; congruence.
  - exec E. simplify_eq. cbn in *. destruct (a || _); cbn in *; congruence.
Qed.
Lemma persist_same s b s' : persist_selection s = (b, s') → same_ui s s'.
Proof.
  intros E. unfold persist_selection in E. exec_step E. cbn zeta in E. exec_step E; [by simplify_eq|]. exec_step E.
  apply device_same in Ef as [? ?]. exec E. by simplify_eq.
Qed.

(** What time leaves of a code. *)
Definition still_shown (now_ms : Z) (readiness : Readiness) s s' : Prop :=
  same_screen (model_ s) (model_ s') ∧ now_ms < reveal_deadline_ms_ (model_ s) ∧ readiness = kReady.

Lemma pass_request_same pressed now_ms s dirty s' : pass_request pressed now_ms s = (dirty, s') →
  same_screen (model_ s) (model_ s') ∧ screen_ s' = screen_ s.
Proof.
  intros E. unfold pass_request in E. exec_step E. apply on_model_inv in Ef as (m1 & Ef & ->).
  pose proof (on_presence_screen (gate_expire now_ms) (model_ s)) as [Hs1 _]. unfold expire_unlock_request in Ef.
  rewrite Ef in Hs1. cbn [snd] in Hs1. exec_step E; [|exec E; by simplify_eq].
  exec_step E. apply on_model_inv in Ef0 as (m2 & Ef2 & ->). cbn [model_] in Ef2. destruct (press_screen now_ms m1) as [Hs2 _].
  cbn in Ef2. rewrite Ef2 in Hs2. exec E. simplify_eq. split; [|done]. cbn. unfold same_screen in *. naive_solver congruence.
Qed.

Lemma pass_code_exact now_ms readiness dirty0 s dirty s' : pass_code now_ms readiness dirty0 s = (dirty, s') →
  screen_ s' = screen_ s ∧
  (reveal_active_ (model_ s') = true → model_ s' = model_ s ∧ readiness = kReady ∧
     (reveal_active_ (model_ s) = true → now_ms < reveal_deadline_ms_ (model_ s))) ∧
  (reveal_active_ (model_ s') = false → reveal_active_ (model_ s) = true → dirty = true).
Proof.
  intros E. unfold pass_code in E. exec_step E. cbn zeta in E. do 2 exec_step E.
  set (s1 := if negb (bool_decide (readiness = previous_readiness s)) then _ else s) in E.
  assert (same_ui s s1) as [Hm Hsc] by (subst s1; by destruct (negb _)). clearbody s1. rewrite <- Hm, <- Hsc. clear Hm Hsc.
  destruct (reveal_active_ (model_ s1)) eqn:Hr; [|exec E; simplify_eq; split_and!; [done|congruence|congruence]].
  exec_step E. exec E. simplify_eq. apply on_model_inv in Ef as (m & Ef & ->). cbn. split; [done|].
  destruct (negb (bool_decide (readiness = kReady))) eqn:Ec.
  - apply hide_reveal_spec in Ef as [-> Hb]. cbn. split; [done|]. intros _ _. destruct a; [done|].
    destruct (proj1 Hb eq_refl) as [Hr' _]. congruence.
  - apply negb_false_iff, bool_decide_eq_true in Ec. apply expire_exact in Ef as [Ht Hf]. destruct a.
    + destruct (Ht eq_refl) as (_ & _ & [Hn _] & _). split; [congruence|done].
    + destruct (Hf eq_refl) as [-> Hd]. split; [auto|congruence].
Qed.

(** Before a gesture the screen is right. *)
Lemma hide_and_draw (hidden : bool) m s : screen_ok s → hide_reveal (model_ s) = (hidden, m) →
  hidden = false → no_code (s <| model_ := m |>).
Proof.
  intros Hok E ->. apply hide_reveal_spec in E as [-> Hb]. destruct (proj1 Hb eq_refl) as [Hr _].
  apply (no_code_same s); [done|]. by apply hidden_no_code.
Qed.

Lemma hold_code_screen now_ms s now' s' : hold_code now_ms s = (now', s') → screen_ s' = screen_ s.
Proof.
  intros E. unfold hold_code in E. do 2 exec_step E. destruct (selected_account _) as [sel|]; [|exec E; by simplify_eq].
  exec_step E. apply device_same in Ef as [_ Hs0]. destruct a as [result code]. do 2 exec_step E.
  apply monotonic_same in Ef as [_ Hs1]. exec_step E.
  - do 2 exec_step E. apply on_model_inv in Ef as (m' & _ & ->). exec E. simplify_eq. cbn in *. congruence.
  - exec E. simplify_eq. cbn in *. congruence.
Qed.
Lemma hold_screen now_ms s now' s' : screen_ok s → hold_reveal now_ms s = (now', s') → no_code s'.
Proof.
  intros Hok E. unfold hold_reveal in E. exec_step E. apply on_model_inv in Ef as (m & Ef & ->). exec_step E.
  - exec_step E. rewrite fn_call_tail in E. apply hold_code_screen in E. eapply no_code_same; [exact E|].
    apply render_exact in Ef0 as [Hm Hk]. apply hidden_no_code; [done|]. rewrite Hm. by apply hide_reveal_spec in Ef as [-> _].
  - exec_step E. rewrite fn_call_tail in E. apply hold_code_screen in E. eapply no_code_same; [exact E|]. by eapply hide_and_draw.
Qed.

(** A click never leaves a code that is not the model's. *)
Lemma select_by_screen step m b m' : select_by step m = (b, m') →
  (b = false → m' = m ∨ nothing_shown m) ∧ (m' = m ∨ nothing_shown m').
Proof.
  intros E. unfold select_by in E. do 2 exec_step E; [simplify_eq; auto|]. exec_step E.
  apply hide_reveal_spec in Ef as [-> Hb].
  destruct (accounts_ m) as [|a0 l]; [exec E; simplify_eq; split; [intros H'; right; by apply Hb|by right]|].
  destruct (find_selected m) as [[index a1]|]; [|exec E; simplify_eq; split; [done|by right]].
  cbn zeta in E. exec_step E; [exec E; simplify_eq; split; [done|by right]|]. exec E. simplify_eq.
  split; [intros H'; right; by apply Hb|by right].
Qed.
Lemma click_screen step s b s' : screen_ok s → click_select (select_by step) s = (b, s') →
  screen_ok s' ∧ (reveal_active_ (model_ s') = true → model_ s' = model_ s).
Proof.
  intros Hok E. unfold click_select in E. do 2 exec_step E. cbn zeta in E. exec_step E.
  apply on_model_inv in Ef as (m & Ef & ->). cbn [model_ set_last_result upd_field] in Ef.
  pose proof (select_by_screen _ _ _ _ Ef) as [Hf Hm].
  assert (Hact : reveal_active_ m = true → m = model_ s).
  { intros Hr. destruct Hm as [->|[Hn _]]; [done|]. congruence. }
  exec_step E.
  - exec_step E.
    + exec_step E. apply render_exact in Ef0 as [Hm1 Hk]. exec_step E. apply persist_same in Ef0. exec E. simplify_eq.
      split; [by eapply same_ui_ok|]. destruct Ef0 as [-> _]. rewrite Hm1. apply Hact.
    + do 2 exec_step E. apply persist_same in Ef0 as [Hm1 Hs1]. exec E. simplify_eq. split.
      * apply no_code_ok. eapply no_code_same; [exact Hs1|]. cbn. apply (no_code_same s); [done|]. by apply hidden_no_code.
      * rewrite Hm1. apply Hact.
  - exec E. simplify_eq. split; [|apply Hact]. destruct (Hf eq_refl) as [->|[Hn _]].
    + by destruct s.
    + apply no_code_ok, (no_code_same s); [done|]. by apply hidden_no_code.
Qed.

Lemma gestures_screen buttons dirty now_ms s x s' : screen_ok s → pass_gestures buttons dirty now_ms s = (x, s') →
  screen_ok s' ∧ (was_hold buttons = false → reveal_active_ (model_ s') = true → model_ s' = model_ s).
Proof.
  intros Hok E. unfold pass_gestures in E. exec_step E. exec_step E; [exec E; by simplify_eq|].
  exec_step E. { exec_step E. apply hold_screen in Ef; [|done]. exec E. simplify_eq. split; [by apply no_code_ok|done]. }
  exec_step E. { exec_step E. apply click_screen in Ef as [? ?]; [|done]. exec E. by simplify_eq. }
  exec_step E; [|exec E; by simplify_eq]. exec_step E. apply click_screen in Ef as [? ?]; [|done]. exec E. by simplify_eq.
Qed.

Lemma update_no_reveal l preferred_id m b m' : update_accounts l preferred_id m = (b, m') →
  reveal_active_ m = false → reveal_active_ m' = false.
Proof.
  intros E Hr. unfold update_accounts in E. cbn zeta in E.
  exec E; simplify_eq; try done; try (apply hide_reveal_spec in Ef as [-> _]; done).
Qed.
Lemma refresh_no_reveal s b s' : refresh_accounts s = (b, s') →
  reveal_active_ (model_ s) = false → reveal_active_ (model_ s') = false.
Proof.
  assert (Hf : ∀ s b s', storage_failed s = (b, s') → model_ s' = model_ s).
  { intros s2 b2 s2' E. unfold storage_failed in E. exec E. by simplify_eq. }
  intros E Hr. unfold refresh_accounts in E. exec_step E. apply device_same in Ef as [Hm0 _]. destruct a as [st1 items].
  exec_step E; [rewrite fn_call_tail in E; apply Hf in E; congruence|]. exec_step E. apply device_same in Ef as [Hm1 _].
  destruct a as [st2 last]. exec_step E; [rewrite fn_call_tail in E; apply Hf in E; congruence|]. cbn zeta in E.
  do 2 exec_step E. apply on_model_inv in Ef as (m & Ef & ->). apply update_no_reveal in Ef; [|congruence].
  do 2 exec_step E. exec_step E.
  - exec_step E. apply device_same in Ef0 as [Hm2 _]. exec E; simplify_eq; cbn in *; destruct (a || _); cbn in *; congruence.
  - exec E. simplify_eq. cbn in *. destruct (a || _); cbn in *; congruence.
Qed.
Lemma pass_refresh_screen dirty now_ms s b s' : screen_ok s → pass_refresh dirty now_ms s = (b, s') →
  screen_ok s' ∧ (reveal_active_ (model_ s') = true → model_ s' = model_ s).
Proof.
  intros Hok E. unfold pass_refresh in E. do 2 exec_step E; [|exec E; by simplify_eq].
  apply andb_true_iff in Eb as [[Hr%negb_true_iff _]%andb_true_iff _]. exec_step E. exec E. simplify_eq. cbn.
  pose proof (refresh_no_reveal _ _ _ Ef Hr) as Hr'. split; [|congruence]. apply no_code_ok.
  apply refresh_screen in Ef. apply (no_code_same s); [done|]. by apply hidden_no_code.
Qed.

(** The end of a pass, after what has changed is drawn. *)
Lemma pass_end buttons (dirty : bool) now_ms s x s' : screen_ok s →
  fn (x ← call (pass_gestures buttons dirty now_ms);
      let '(dirty, now_ms) := x in
      dirty ← call (pass_refresh dirty now_ms);
      if dirty : bool then call render else mret tt) s = (x, s') →
  screen_ok s' ∧ (was_hold buttons = false → reveal_active_ (model_ s') = true → model_ s' = model_ s).
Proof.
  intros Hok E. exec_step E. apply gestures_screen in Ef as [Hk1 Hg]; [|done]. destruct a as [d now1]. exec_step E.
  apply pass_refresh_screen in Ef as [Hk2 Hr]; [|done].
  assert (Hend : screen_ok s' ∧ model_ s' = model_ s1).
  { exec_step E; [rewrite fn_call_tail in E; by apply render_exact in E as [? ?]|exec E; by simplify_eq]. }
  destruct Hend as [Hk Hm]. split; [done|]. intros Hh Ha. rewrite Hm in Ha |- *. rewrite Hr by done. apply Hg; [done|].
  by rewrite <- Hr.
Qed.

Lemma screen_carries s s' : same_screen (model_ s) (model_ s') → screen_ s' = screen_ s → screen_ok s → screen_ok s'.
Proof. intros (_ & _ & Hr & Hc & _) Hs Hok t Ht. rewrite Hs in Ht. apply Hok in Ht as [? ?]. by rewrite Hr, Hc. Qed.

(** A pass: the screen stays right; and unless the button was held, a code that is
    still revealed at the end was revealed before, the clock read in the pass is
    ready, and its time is before the deadline of the code. *)
Theorem ui_pass_exact buttons s now_ms s1 status s2 x s' :
  screen_ok s → ui_monotonic_ms s = (now_ms, s1) → ui_time_status s1 = (status, s2) →
  ui_pass buttons s = (x, s') →
  screen_ok s' ∧
  (was_hold buttons = false → reveal_active_ (model_ s') = true →
   same_screen (model_ s) (model_ s') ∧ readiness status = kReady ∧ now_ms < reveal_deadline_ms_ (model_ s)).
Proof.
  intros Hok E1 E2 E. unfold ui_pass in E. rewrite (fn_call _ _ _ _ _ E1), (fn_call _ _ _ _ _ E2) in E.
  apply monotonic_same in E1 as [Hm1 Hs1]. apply device_same in E2 as [Hm2 Hs2]. exec_step E.
  apply pass_request_same in Ef as [Hm3 Hs3]. exec_step E. apply pass_code_exact in Ef as (Hs4 & Ht & Hf).
  rewrite <- Hm1, <- Hm2. assert (Hok0 : screen_ok s0).
  { apply (screen_carries s); [by rewrite <- Hm1, <- Hm2|congruence|done]. }
  assert (Hlast : reveal_active_ (model_ s3) = true → same_screen (model_ s2) (model_ s3) ∧ readiness status = kReady ∧
            now_ms < reveal_deadline_ms_ (model_ s2)).
  { intros Ha. destruct (Ht Ha) as (Hm & Hrd & Hd). rewrite Hm in Ha |- *. split_and!; [done|done|].
    destruct Hm3 as (_ & _ & _ & _ & <-). by apply Hd. }
  exec_step E. exec_step E.
  - exec_step E. apply render_exact in Ef as [Hm Hk]. apply pass_end in E as [Hk' He]; [|done]. split; [done|].
    intros Hh Ha. rewrite (He Hh Ha), Hm. apply Hlast. by rewrite <- Hm, <- (He Hh Ha).
  - exec_step E. assert (Hok3 : screen_ok s3).
    { destruct (reveal_active_ (model_ s3)) eqn:Ha.
      - destruct (Ht eq_refl) as [Hm _]. apply (same_ui_ok s0); done.
      - apply no_code_ok, (no_code_same s0); [done|]. apply hidden_no_code; [done|].
        destruct (reveal_active_ (model_ s0)) eqn:Ha0; [|done]. rewrite (Hf eq_refl eq_refl) in Eb. done. }
    apply pass_end in E as [Hk' He]; [|done]. split; [done|]. intros Hh Ha. rewrite (He Hh Ha). apply Hlast.
    by rewrite <- (He Hh Ha).
Qed.

(** Holding the button shows, if anything, the code of the selected account: that
    of RFC 6238 for the secret the book has for it, at a time of the clock, until
    ten seconds after the clock was read. *)
Theorem held_code_exact now_ms s b now' s' :
  stored (view (flash_ (fst (ui_device_ s)))) b → reveal_active_ (model_ s) = false →
  hold_code now_ms s = (now', s') → reveal_active_ (model_ s') = true →
  ∃ selected draft c, selected_account (model_ s) = Some selected ∧
    lookup_entry (meta_id selected) (book_of b) = Some (meta_id selected, draft) ∧
    code_of_secret (draft_secret draft) (clock_ (snd (ui_device_ s))) c ∧
    shown (model_ s') selected c (Z.min u64_max (now' + kOtpRevealDurationMs)).
Proof.
  intros Hs Hr E Ha. unfold hold_code in E. do 2 exec_step E. cbn [model_ set_last_result upd_field] in E.
  destruct (selected_account (model_ s)) as [selected|] eqn:Es; [|exec E; simplify_eq; cbn in Ha; congruence].
  exec_step E. apply on_ui_device_inv in Ef as (d & Eg & ->). destruct a as [result g].
  apply (generate_for_account_exact _ _ b) in Eg as (_ & _ & Hg); [|done]. do 2 exec_step E.
  apply monotonic_same in Ef as [Hm _]. cbn in Hm. exec_step E.
  - apply bool_decide_eq_true in Eb. do 2 exec_step E. apply on_model_inv in Ef as (m & Em & ->). exec E. simplify_eq.
    destruct Hg as [[? _]|(draft & c & Hl & Hc & _ & ->)]; [done|]. rewrite Hm in Em. cbn in Em.
    apply reveal_exact in Em as (_ & Hf & Ht). cbn in Ha |- *. destruct a0; [|rewrite Hf in Ha by done; congruence].
    exists selected, draft, c. split_and!; [done|done|done|]. rewrite Ht by done. by split_and!.
  - exec E. simplify_eq. cbn in *. congruence.
Qed.
End Controller.

(** ** On the sample store *)

Module AccountUiSample.
Import AccountSample.
#[local] Existing Instance TimeSample.good_network.
#[local] Existing Instance Sha1.software.
#[local] Existing Instance Sha1.software_laws.
Definition synced : AccountStore MemoryNvs * TimeService Z :=
  snd (store_sync_from_usb 1800000123 (execute_all [Add mail; Add shop] store0, new_time_service 1000000)).
Definition started : UiSystem MemoryNvs Z :=
  snd (run_start (mkUiSystem MemoryNvs Z new_ui_model synced false GenerateResult.kOk [] kNotSynced 0)).
Definition no_button : Buttons := mkButtons false false false false.
Definition held : UiSystem MemoryNvs Z := snd (ui_pass (mkButtons true true false false) started).
Definition clicked : UiSystem MemoryNvs Z := snd (ui_pass (mkButtons true false false true) held).

Example screens :
  screen_ started = [line "M5 Authenticator"; line "Time: READY"; line "1 / 2"; line "Example";
                     line "Click: next"; line "2x: previous"; line "Hold: reveal OTP"] ∧
  screen_ held = [line "M5 Authenticator"; line "Time: READY"; line "1 / 2"; line "Example"; Otp (str "493292")] ∧
  screen_ clicked = [line "M5 Authenticator"; line "Time: READY"; line "2 / 2"; line "My shop";
                     line "Click: next"; line "2x: previous"; line "Hold: reveal OTP"].
Proof. split; [|split]; vm_compute; reflexivity. Qed.

Lemma started_no_code : screen_ok started.
Proof.
  assert (E : existsb (λ l, match l with Otp _ => true | Line _ => false end) (screen_ started) = false)
    by (vm_compute; reflexivity).
  apply no_code_ok. intros t Ht%list_elem_of_In. apply not_true_iff_false in E. rewrite existsb_exists in E.
  apply E. exact (ex_intro _ (Otp t) (conj Ht eq_refl)).
Qed.
Lemma ui_pass_exact_witness : screen_ok held.
Proof.
  exact (proj1 (ui_pass_exact (mkButtons true true false false) started
    (fst (ui_monotonic_ms started)) (snd (ui_monotonic_ms started))
    (fst (ui_time_status (snd (ui_monotonic_ms started)))) (snd (ui_time_status (snd (ui_monotonic_ms started))))
    (fst (ui_pass (mkButtons true true false false) started)) (snd (ui_pass (mkButtons true true false false) started))
    started_no_code (surjective_pairing _) (surjective_pairing _) (surjective_pairing _))).
Defined.
End AccountUiSample.
