(* ===== verification/HostCrypto.v ===== *)
(** * The host build of the cryptography

    The OpenSSL branches of m5auth_vault/vault_crypto.cpp,
    m5auth_session/session_crypto.cpp and p256_public_key.cpp, with which the
    repository tests the firmware on a host.  OpenSSL is the class [OpenSsl]: an
    object is created, used and freed by its handle, a call that returns 1 is
    [true], and what it writes comes with it. *)

From S2P Require Import Prelude Bytes VaultFormat DeviceSession.

Definition INT_MAX : Z := 2 ^ 31 - 1.

(** The calls that create an object; a null pointer is [None]. *)
Inductive openssl_object :=
  | EVP_CIPHER_CTX_new
  | EVP_PKEY_CTX_new_from_name
  | EVP_PKEY_CTX_new_from_pkey (key : Z)
  | EVP_PKEY_CTX_new_id
  | EVP_MD_CTX_new
  | BN_bin2bn (data : bytes)
  | ECDSA_SIG_new.

(** The calls on an object that only return a status and write bytes. *)
Inductive openssl_call :=
  | EVP_EncryptInit_cipher (context : Z)
  | EVP_EncryptInit_ex (context : Z) (key iv : bytes)
  | EVP_CTRL_GCM_SET_IVLEN (context : Z) (size : nat)
  | EVP_EncryptUpdate_aad (context : Z) (aad : bytes)
  | EVP_EncryptUpdate (context : Z) (text : bytes)
  | EVP_EncryptFinal_ex (context : Z)
  | EVP_CTRL_GCM_GET_TAG (context : Z) (size : nat)
  | EVP_DecryptInit_cipher (context : Z)
  | EVP_DecryptInit_ex (context : Z) (key iv : bytes)
  | EVP_DecryptUpdate_aad (context : Z) (aad : bytes)
  | EVP_DecryptUpdate (context : Z) (text : bytes)
  | EVP_CTRL_GCM_SET_TAG (context : Z) (tag : bytes)
  | EVP_DecryptFinal_ex (context : Z)
  | EVP_PKEY_keygen_init (context : Z)
  | EVP_PKEY_CTX_set_group_name (context : Z)
  | EVP_PKEY_get_octet_string_param (key : Z)
  | EVP_PKEY_fromdata_init (context : Z)
  | EVP_PKEY_public_check (context : Z)
  | EVP_PKEY_derive_init (context : Z)
  | EVP_PKEY_derive_set_peer (context peer : Z)
  | EVP_PKEY_derive (context : Z) (size : nat)
  | EVP_PKEY_CTX_hkdf_mode (context : Z)
  | EVP_PKEY_CTX_set_hkdf_md (context : Z)
  | EVP_PKEY_CTX_set1_hkdf_salt (context : Z) (salt : bytes)
  | EVP_PKEY_CTX_set1_hkdf_key (context : Z) (key : bytes)
  | EVP_PKEY_CTX_add1_hkdf_info (context : Z) (info : bytes)
  | i2d_ECDSA_SIG (signature : Z)
  | EVP_DigestVerifyInit (context key : Z)
  | EVP_DigestVerify (context : Z) (signature message : bytes).

(** [openssl_free] is the [_free] of the object's type, which ignores a null
    pointer; the other members create a key in a context, or move two numbers into a
    signature. *)
Class OpenSsl (L : Type) := {
  openssl_new : openssl_object → L → option Z * L;
  openssl_free : Z → L → unit * L;
  openssl : openssl_call → L → (bool * bytes) * L;
  EVP_PKEY_generate : Z → L → (bool * option Z) * L;
  EVP_PKEY_fromdata : Z → bytes → L → (bool * option Z) * L;
  ECDSA_SIG_set0 : Z → Z → Z → L → bool * L;
  RAND_bytes : nat → L → (bool * bytes) * L;
}.

Section Host.
Context {L : Type} `{OpenSsl L}.
Definition host_op (A : Type) : Type := L → A * L.

Definition free (object : option Z) : host_op unit :=
  match object with Some object => openssl_free object | None => λ l, (tt, l) end.
Definition status (c : openssl_call) : host_op bool := fn (
  x ← call (openssl c);
  mret (fst x)).
(** [a == 1 && b == 1 && ...] *)
Fixpoint all_ok (calls : list openssl_call) : host_op bool :=
  match calls with
  | [] => λ l, (true, l)
  | c :: calls => fn (
      ok ← call (status c);
      if negb ok then mret false else call (all_ok calls))
  end.
(** A further call when all is well so far, with what it writes. *)
Definition then_call (ok : bool) (c : openssl_call) : host_op (bool * bytes) :=
  if ok then openssl c else λ l, ((false, []), l).

(** ** vault_crypto.cpp *)

Definition host_fill_random_nonce : host_op (option bytes) := fn (
  x ← call (RAND_bytes kVaultNonceBytes);
  mret (if fst x : bool then Some (snd x) else None)).

Definition fits_int (value : bytes) : bool := Z.of_nat (length value) <=? INT_MAX.
Definition sizes_fit_openssl (payload aad : bytes) : bool := fits_int payload && fits_int aad.

Definition host_aes_gcm_encrypt (plaintext key nonce aad : bytes) : host_op (option (bytes * bytes)) := fn (
  leave_if (negb (sizes_fit_openssl plaintext aad)) None;;
  created ← call (openssl_new EVP_CIPHER_CTX_new);
  match created with
  | None => leave None
  | Some context =>
    ok ← call (all_ok [EVP_EncryptInit_cipher context; EVP_CTRL_GCM_SET_IVLEN context (length nonce);
                       EVP_EncryptInit_ex context key nonce; EVP_EncryptUpdate_aad context aad]);
    x ← call (then_call ok (EVP_EncryptUpdate context plaintext));
    let '(ok, ciphertext) := x in
    y ← call (then_call ok (EVP_EncryptFinal_ex context));
    let '(ok, rest) := y in
    z ← call (then_call ok (EVP_CTRL_GCM_GET_TAG context kVaultTagBytes));
    let '(ok, tag) := z in
    call (openssl_free context);;
    mret (if ok : bool then Some (ciphertext ++ rest, tag) else None)
  end).

(** The calls of a decryption, in both files: all the text that was written. *)
Definition host_gcm_open (context : Z) (ciphertext key nonce aad tag : bytes) : host_op (bool * bytes) := fn (
  ok ← call (all_ok [EVP_DecryptInit_cipher context; EVP_CTRL_GCM_SET_IVLEN context (length nonce);
                     EVP_DecryptInit_ex context key nonce; EVP_DecryptUpdate_aad context aad]);
  x ← call (then_call ok (EVP_DecryptUpdate context ciphertext));
  let '(ok, plaintext) := x in
  y ← call (then_call ok (EVP_CTRL_GCM_SET_TAG context tag));
  let '(ok, _) := y in
  z ← call (then_call ok (EVP_DecryptFinal_ex context));
  let '(ok, rest) := z in
  mret (ok, plaintext ++ rest)).

Definition host_aes_gcm_decrypt (ciphertext key nonce aad tag : bytes) : host_op (option bytes) := fn (
  leave_if (negb (sizes_fit_openssl ciphertext aad)) None;;
  created ← call (openssl_new EVP_CIPHER_CTX_new);
  match created with
  | None => leave None
  | Some context =>
    x ← call (host_gcm_open context ciphertext key nonce aad tag);
    let '(ok, plaintext) := x in
    call (openssl_free context);;
    mret (if ok : bool then Some plaintext else None)
  end).

(** ** session_crypto.cpp *)

Definition host_fill_random (size : nat) : host_op (bool * bytes) := fn (
  leave_if (INT_MAX <? Z.of_nat size) (false, []);;
  call (RAND_bytes size)).

(** The new key and its point. *)
Definition generate_native_key : host_op (option (Z * bytes)) := fn (
  created ← call (openssl_new EVP_PKEY_CTX_new_from_name);
  match created with
  | None => leave None
  | Some context =>
    ready ← call (all_ok [EVP_PKEY_keygen_init context; EVP_PKEY_CTX_set_group_name context]);
    x ← (if ready : bool then call (EVP_PKEY_generate context) else mret (false, None));
    let '(generated, key) := x in
    call (openssl_free context);;
    match (if generated : bool then key else None) with
    | None => leave None
    | Some key =>
      x ← call (openssl (EVP_PKEY_get_octet_string_param key));
      let '(exported, point) := x in
      let ok := exported && Nat.eqb (length point) kP256PublicKeyBytes && uncompressed point in
      if negb ok then call (openssl_free key);; leave None
      else mret (Some (key, point))
    end
  end).

Definition import_native_public (public_key : bytes) : host_op (option Z) := fn (
  created ← call (openssl_new EVP_PKEY_CTX_new_from_name);
  match created with
  | None => leave None
  | Some context =>
    ready ← call (status (EVP_PKEY_fromdata_init context));
    if negb ready then call (openssl_free context);; leave None
    else
      x ← call (EVP_PKEY_fromdata context public_key);
      let '(ok, key) := x in
      call (openssl_free context);;
      mret (if ok : bool then key else None)
  end).

Definition derive_native_shared (private_key : Z) (peer_public_key : bytes) : host_op (option bytes) := fn (
  imported ← call (import_native_public peer_public_key);
  match imported with
  | None => leave None
  | Some peer =>
    created ← call (openssl_new (EVP_PKEY_CTX_new_from_pkey private_key));
    match created with
    | None => call (openssl_free peer);; leave None
    | Some context =>
      ready ← call (all_ok [EVP_PKEY_derive_init context; EVP_PKEY_derive_set_peer context peer]);
      x ← call (then_call ready (EVP_PKEY_derive context kSessionKeyBytes));
      let '(derived, shared_secret) := x in
      call (openssl_free context);;
      call (openssl_free peer);;
      mret (if derived && Nat.eqb (length shared_secret) kSessionKeyBytes then Some shared_secret else None)
    end
  end).

Definition host_derive_hkdf (shared_secret salt info : bytes) : host_op (option bytes) := fn (
  leave_if (negb (fits_int shared_secret) || negb (fits_int salt) || negb (fits_int info)) None;;
  created ← call (openssl_new EVP_PKEY_CTX_new_id);
  match created with
  | None => leave None
  | Some context =>
    ready ← call (all_ok [EVP_PKEY_derive_init context; EVP_PKEY_CTX_hkdf_mode context;
                          EVP_PKEY_CTX_set_hkdf_md context; EVP_PKEY_CTX_set1_hkdf_salt context salt;
                          EVP_PKEY_CTX_set1_hkdf_key context shared_secret;
                          EVP_PKEY_CTX_add1_hkdf_info context info]);
    x ← call (then_call ready (EVP_PKEY_derive context kSessionKeyBytes));
    let '(derived, session_key) := x in
    call (openssl_free context);;
    mret (if derived && Nat.eqb (length session_key) kSessionKeyBytes then Some session_key else None)
  end).

Definition host_decrypt_vmk_gcm (session_key nonce ciphertext tag aad : bytes) : host_op (option bytes) := fn (
  leave_if (negb (fits_int aad)) None;;
  created ← call (openssl_new EVP_CIPHER_CTX_new);
  match created with
  | None => leave None
  | Some context =>
    x ← call (host_gcm_open context ciphertext session_key nonce aad tag);
    let '(ok, vmk) := x in
    call (openssl_free context);;
    mret (if ok && Nat.eqb (length vmk) kVmkBytes then Some vmk else None)
  end).

Definition raw_signature_to_der (signature : bytes) : host_op (option bytes) := fn (
  leave_if (negb (Nat.eqb (length signature) kBrkSignatureBytes)) None;;
  r ← call (openssl_new (BN_bin2bn (take 32 signature)));
  s ← call (openssl_new (BN_bin2bn (take 32 (drop 32 signature))));
  ecdsa ← call (openssl_new ECDSA_SIG_new);
  match r, s, ecdsa with
  | Some r', Some s', Some ecdsa' =>
    set ← call (ECDSA_SIG_set0 ecdsa' r' s');
    if negb set then
      call (free r);; call (free s);; call (free ecdsa);;
      leave None
    else
      x ← call (openssl (i2d_ECDSA_SIG ecdsa'));
      let '(positive, measured) := x in
      if negb positive || Nat.eqb (length measured) 0 then
        call (free ecdsa);;
        leave None
      else
        y ← call (openssl (i2d_ECDSA_SIG ecdsa'));
        let '(written, der) := y in
        call (free ecdsa);;
        mret (if written && Nat.eqb (length der) (length measured) then Some der else None)
  | _, _, _ =>
    call (free r);; call (free s);; call (free ecdsa);;
    leave None
  end).

Definition host_verify_brk (public_key transcript signature : bytes) : host_op bool := fn (
  imported ← call (import_native_public public_key);
  match imported with
  | None => leave false
  | Some key =>
    der ← call (raw_signature_to_der signature);
    match der with
    | None => call (openssl_free key);; leave false
    | Some der_signature =>
      context ← call (openssl_new EVP_MD_CTX_new);
      ok ← match context with
           | None => mret false
           | Some c => call (all_ok [EVP_DigestVerifyInit c key; EVP_DigestVerify c der_signature transcript])
           end;
      call (free context);;
      call (openssl_free key);;
      mret ok
    end
  end).

(** ** p256_public_key.cpp *)

Definition host_valid_p256_public_key (public_key : bytes) : host_op bool := fn (
  leave_if (negb (Nat.eqb (length public_key) kP256PublicKeyBytes) || negb (uncompressed public_key)) false;;
  created ← call (openssl_new EVP_PKEY_CTX_new_from_name);
  match created with
  | None => leave false
  | Some import_context =>
    ready ← call (status (EVP_PKEY_fromdata_init import_context));
    if negb ready then call (openssl_free import_context);; leave false
    else
      x ← call (EVP_PKEY_fromdata import_context public_key);
      let '(ok, key) := x in
      call (openssl_free import_context);;
      match (if ok : bool then key else None) with
      | None => call (free key);; leave false
      | Some key =>
        check_context ← call (openssl_new (EVP_PKEY_CTX_new_from_pkey key));
        valid ← match check_context with
                | None => mret false
                | Some c => call (status (EVP_PKEY_public_check c))
                end;
        call (free check_context);;
        call (openssl_free key);;
        mret valid
      end
  end).

(** ** The session

    [DeviceSession] of the host: the ephemeral key is an object of OpenSSL. *)

Record HostImpl := mkHostImpl { host_descriptor : AttemptDescriptor; host_active : bool; host_key : option Z }.

Definition host_session_op (A : Type) : Type := HostImpl * L → A * (HostImpl * L).
Definition on_host {A} (f : host_op A) : host_session_op A := λ s,
  let '(a, l) := f (snd s) in (a, (fst s, l)).
Definition set_host {R} (i : HostImpl) : ctl (HostImpl * L) R unit := modify (λ s, (i, snd s)).
Definition new_host_impl : HostImpl := mkHostImpl empty_descriptor false None.

Definition host_reset : host_session_op unit := fn (
  s ← get_state;
  call (on_host (free (host_key (fst s))));;
  set_host new_host_impl;;
  mret tt).
Definition host_reset_and_leave {R A} (r : R) : ctl (HostImpl * L) R A := call host_reset;; leave r.

Definition host_session_begin (now_ms : Z) : host_session_op (option AttemptDescriptor) := fn (
  call host_reset;;
  x ← call (on_host (host_fill_random kAttemptIdBytes));
  let '(id_ok, id) := x in
  if negb id_ok then host_reset_and_leave None
  else
  y ← call (on_host (host_fill_random kDeviceChallengeBytes));
  let '(challenge_ok, random) := y in
  if negb challenge_ok then host_reset_and_leave None
  else
  generated ← call (on_host generate_native_key);
  match generated with
  | None => host_reset_and_leave None
  | Some (key, point) =>
    let descriptor := mkDescriptor id random point (deadline_from now_ms) in
    set_host (mkHostImpl descriptor true (Some key));;
    mret (Some descriptor)
  end).

Definition host_session_active (now_ms : Z) (s : HostImpl * L) : bool :=
  host_active (fst s) && (now_ms <? expires_at_ms (host_descriptor (fst s))).

Definition host_verify_brk_signature (brk_public_key transcript signature : bytes) (now_ms : Z)
    : host_session_op bool := fn (
  s ← get_state;
  if negb (host_session_active now_ms s)
     || negb (Nat.eqb (length brk_public_key) kP256PublicKeyBytes)
     || negb (uncompressed brk_public_key)
     || negb (bounded_nonempty transcript kMaxTranscriptBytes)
     || negb (Nat.eqb (length signature) kBrkSignatureBytes)
  then host_reset_and_leave false
  else
    verified ← call (on_host (host_verify_brk brk_public_key transcript signature));
    if negb verified then host_reset_and_leave false
    else mret true).

Definition host_open_vmk (web_public_key hkdf_salt hkdf_info nonce ciphertext tag transcript_aad : bytes)
    (now_ms : Z) : host_session_op (option bytes) := fn (
  s ← get_state;
  if negb (host_session_active now_ms s)
     || negb (Nat.eqb (length web_public_key) kP256PublicKeyBytes)
     || negb (uncompressed web_public_key)
     || negb (bounded_nonempty hkdf_salt kMaxHkdfContextBytes)
     || negb (bounded_nonempty hkdf_info kMaxHkdfContextBytes)
     || negb (Nat.eqb (length nonce) kSessionNonceBytes)
     || negb (Nat.eqb (length ciphertext) kSessionKeyBytes)
     || negb (Nat.eqb (length tag) kSessionTagBytes)
     || negb (bounded_nonempty transcript_aad kMaxTranscriptBytes)
  then host_reset_and_leave None
  else
    shared ← call (on_host (match host_key (fst s) with
                            | Some key => derive_native_shared key web_public_key
                            | None => λ l, (None, l)
                            end));
    derived ← match shared with
              | Some shared_secret => call (on_host (host_derive_hkdf shared_secret hkdf_salt hkdf_info))
              | None => mret None
              end;
    opened ← match derived with
             | Some session_key =>
               call (on_host (host_decrypt_vmk_gcm session_key nonce ciphertext tag transcript_aad))
             | None => mret None
             end;
    call host_reset;;
    mret opened).
End Host.
