(* ===== verification/HostCryptoCorrect.v ===== *)
(** * Correctness of the host build

    Every function frees every object it creates, on every path, and a session owns
    exactly its key; and the host's AES-256-GCM is the firmware's, so that what a
    host test says about it holds on the device. *)

From S2P Require Import Prelude Bytes VaultFormat VaultCrypto DeviceSession HostCrypto.

(** What is relied on of OpenSSL's objects: a new handle is not in use, a key is
    only handed out with success, and a signature takes the numbers it is given. *)
Class OpenSslLaws (L : Type) `{OpenSsl L} := {
  objects : L → gset Z;
  new_law o l r l' : openssl_new o l = (r, l') →
    match r with None => objects l' = objects l | Some h => h ∉ objects l ∧ objects l' = {[h]} ∪ objects l end;
  free_law h l u l' : openssl_free h l = (u, l') → objects l' = objects l ∖ {[h]};
  call_law c l x l' : openssl c l = (x, l') → objects l' = objects l;
  generate_law h l ok key l' : EVP_PKEY_generate h l = ((ok, key), l') →
    match key with None => objects l' = objects l | Some k => ok = true ∧ k ∉ objects l ∧ objects l' = {[k]} ∪ objects l end;
  fromdata_law h point l ok key l' : EVP_PKEY_fromdata h point l = ((ok, key), l') →
    match key with None => objects l' = objects l | Some k => ok = true ∧ k ∉ objects l ∧ objects l' = {[k]} ∪ objects l end;
  set0_law e r s l ok l' : ECDSA_SIG_set0 e r s l = (ok, l') →
    objects l' = if ok then objects l ∖ {[r; s]} else objects l;
  rand_law n l x l' : RAND_bytes n l = (x, l') → objects l' = objects l;
}.

(** ** Objects *)

Section Objects.
Context {L : Type} `{OpenSslLaws L}.
Implicit Types (l : L).

Definition no_leak {A} (f : host_op (L:=L) A) : Prop := ∀ l a l', f l = (a, l') → objects l' = objects l.
(** A handle that comes back is the only new object. *)
Definition hands_over {A} (handle : A → option Z) (f : host_op (L:=L) A) : Prop := ∀ l a l', f l = (a, l') →
  match handle a with
  | None => objects l' = objects l
  | Some h => h ∉ objects l ∧ objects l' = {[h]} ∪ objects l
  end.

Lemma status_leak c : no_leak (status c).
Proof. intros l a l' E. unfold status in E. exec E. by apply call_law in Ef. Qed.
Lemma all_ok_leak calls : no_leak (all_ok calls).
Proof.
  induction calls as [|c calls IH]; intros l a l' E; cbn [all_ok] in E; [by injection E as <- <-|].
  exec E; apply status_leak in Ef; [done|]. apply IH in E. congruence.
Qed.
Lemma then_call_leak ok c : no_leak (then_call ok c).
Proof. intros l a l' E. unfold then_call in E. destruct ok; [by apply call_law in E|by injection E as <- <-]. Qed.
Lemma free_spec o l u l' : free o l = (u, l') →
  objects l' = match o with Some h => objects l ∖ {[h]} | None => objects l end.
Proof. unfold free. destruct o; [apply free_law|by intros [= <- <-]]. Qed.
End Objects.

Create HintDb leaks.
#[export] Hint Resolve status_leak all_ok_leak then_call_leak : leaks.

(** Replaces every call by what it does to the objects. *)
Ltac objects_of :=
  repeat match goal with
  | E : (if ?b then _ else None) = _ |- _ => is_var b; destruct b; simplify_eq
  | E : openssl_new _ _ = (None, _) |- _ => apply new_law in E; cbn in E
  | E : openssl_new _ _ = (Some _, _) |- _ => apply new_law in E as [? ?]
  | E : openssl_new _ _ = (?r, _) |- _ => is_var r; destruct r
  | E : openssl_free _ _ = _ |- _ => apply free_law in E
  | E : free _ _ = _ |- _ => apply free_spec in E; cbn in E
  | E : openssl _ _ = _ |- _ => apply call_law in E
  | E : RAND_bytes _ _ = _ |- _ => apply rand_law in E
  | E : EVP_PKEY_generate _ _ = ((_, ?k), _) |- _ => apply generate_law in E; destruct k; destruct_and?; simplify_eq
  | E : EVP_PKEY_fromdata _ _ _ = ((_, ?k), _) |- _ => apply fromdata_law in E; destruct k; destruct_and?; simplify_eq
  | E : ECDSA_SIG_set0 _ _ _ _ = (?ok, _) |- _ => apply set0_law in E; try (is_var ok; destruct ok); cbn in E
  | E : ?f ?l = (_, _) |- _ =>
      let Hn := fresh in assert (Hn : no_leak f) by (eauto with leaks nocore); apply Hn in E; clear Hn
  end.

(** Equations between sets of objects: the current set in terms of the first. *)
Lemma free_first (h : Z) (X : gset Z) : h ∉ X → ({[h]} ∪ X) ∖ {[h]} = X.
Proof. set_solver. Qed.
Lemma free_second (h k : Z) (X : gset Z) : h ∉ X → k ∉ ({[h]} ∪ X : gset Z) → ({[k]} ∪ ({[h]} ∪ X)) ∖ {[h]} = {[k]} ∪ X.
Proof. set_solver. Qed.
Ltac owned_sets :=
  repeat match goal with
  | E : objects ?l = _ |- _ => first [rewrite E in *|idtac]; clear E
  end;
  repeat first [rewrite free_first in * by assumption|rewrite free_second in * by assumption];
  try done; try set_solver.
Ltac leaks_out := simplify_eq; objects_of; simplify_eq/=; repeat case_match; simplify_eq/=; owned_sets.
Ltac leak_free E := exec E; leaks_out.

Section Leaks.
Context {L : Type} `{OpenSslLaws L}.
Implicit Types (l : L).

Lemma encrypt_leak plaintext key nonce aad : no_leak (host_aes_gcm_encrypt (L:=L) plaintext key nonce aad).
Proof. intros l a l' E. unfold host_aes_gcm_encrypt in E. leak_free E. Qed.
Lemma gcm_open_leak context c key nonce aad tag : no_leak (host_gcm_open (L:=L) context c key nonce aad tag).
Proof. intros l a l' E. unfold host_gcm_open in E. leak_free E. Qed.
#[local] Hint Resolve gcm_open_leak : leaks.
Lemma decrypt_leak c key nonce aad tag : no_leak (host_aes_gcm_decrypt (L:=L) c key nonce aad tag).
Proof. intros l a l' E. unfold host_aes_gcm_decrypt in E. leak_free E. Qed.
Lemma nonce_leak : no_leak (host_fill_random_nonce (L:=L)).
Proof. intros l a l' E. unfold host_fill_random_nonce in E. leak_free E. Qed.
Lemma fill_random_leak size : no_leak (host_fill_random (L:=L) size).
Proof. intros l a l' E. unfold host_fill_random in E. leak_free E. Qed.
Lemma hkdf_leak secret salt info : no_leak (host_derive_hkdf (L:=L) secret salt info).
Proof. intros l a l' E. unfold host_derive_hkdf in E. leak_free E. Qed.
Lemma decrypt_vmk_leak key nonce c tag aad : no_leak (host_decrypt_vmk_gcm (L:=L) key nonce c tag aad).
Proof. intros l a l' E. unfold host_decrypt_vmk_gcm in E. leak_free E. Qed.

Lemma generate_hands_over : hands_over (fmap fst) (generate_native_key (L:=L)).
Proof. intros l a l' E. unfold generate_native_key in E. leak_free E. Qed.
Lemma import_hands_over point : hands_over id (import_native_public (L:=L) point).
Proof. intros l a l' E. unfold import_native_public in E. leak_free E. Qed.
Lemma der_leak signature : no_leak (raw_signature_to_der (L:=L) signature).
Proof. intros l a l' E. unfold raw_signature_to_der in E. leak_free E. Qed.
End Leaks.

#[export] Hint Resolve encrypt_leak gcm_open_leak decrypt_leak nonce_leak fill_random_leak hkdf_leak decrypt_vmk_leak
  der_leak : leaks.

Section Keys.
Context {L : Type} `{OpenSslLaws L}.
Implicit Types (l : L).

#[local] Ltac import_keys :=
  repeat match goal with
  | E : import_native_public _ _ = (?k, _) |- _ => apply import_hands_over in E; try (is_var k; destruct k); cbn in E; destruct_and?
  end.

Lemma shared_leak key peer : no_leak (derive_native_shared (L:=L) key peer).
Proof. intros l a l' E. unfold derive_native_shared in E. exec E; import_keys; leaks_out. Qed.
Lemma verify_leak key transcript signature : no_leak (host_verify_brk (L:=L) key transcript signature).
Proof. intros l a l' E. unfold host_verify_brk in E. exec E; import_keys; leaks_out. Qed.
Lemma valid_leak point : no_leak (host_valid_p256_public_key (L:=L) point).
Proof. intros l a l' E. unfold host_valid_p256_public_key in E. leak_free E. Qed.

(** Verifying a signature, checking a key, agreeing on a secret and opening a
    message leave no object behind, on any path. *)
Theorem host_calls_free_all key point transcript signature secret salt info nonce c tag aad :
  no_leak (derive_native_shared (L:=L) key point) ∧ no_leak (host_verify_brk (L:=L) point transcript signature) ∧
  no_leak (host_valid_p256_public_key (L:=L) point) ∧ no_leak (host_derive_hkdf (L:=L) secret salt info) ∧
  no_leak (host_decrypt_vmk_gcm (L:=L) secret nonce c tag aad) ∧
  no_leak (host_aes_gcm_encrypt (L:=L) c secret nonce aad) ∧ no_leak (host_aes_gcm_decrypt (L:=L) c secret nonce aad tag).
Proof. split_and!; auto using shared_leak, verify_leak, valid_leak, hkdf_leak, decrypt_vmk_leak, encrypt_leak, decrypt_leak. Qed.

(** ** The session *)

(** The session's key is the one object besides those of others. *)
Definition host_owns (others : gset Z) (s : HostImpl * L) : Prop :=
  match host_key (fst s) with
  | None => objects (snd s) = others
  | Some k => k ∉ others ∧ objects (snd s) = {[k]} ∪ others
  end.

Lemma on_host_inv {A} (f : host_op (L:=L) A) s a s' : on_host f s = (a, s') → f (snd s) = (a, snd s') ∧ fst s' = fst s.
Proof. unfold on_host. destruct (f (snd s)). by intros [= <- <-]. Qed.
Lemma on_host_leak {A} (f : host_op (L:=L) A) others s a s' : no_leak f → on_host f s = (a, s') →
  host_owns others s → host_owns others s' ∧ fst s' = fst s.
Proof.
  intros Hn [E Hf]%on_host_inv. unfold host_owns. rewrite Hf. apply Hn in E. rewrite E. by destruct (host_key _).
Qed.

Lemma host_reset_spec others s u s' : host_owns others s → host_reset s = (u, s') →
  fst s' = new_host_impl ∧ objects (snd s') = others.
Proof.
  intros Ho E. unfold host_reset, set_host in E. exec E. apply on_host_inv in Ef as [Ef Hf]. apply free_spec in Ef. cbn.
  split; [done|]. rewrite Ef. unfold host_owns in Ho. destruct (host_key (fst s)); [|done]. destruct Ho as [? ->].
  by apply free_first.
Qed.
Lemma host_reset_leave_spec {A} (r0 r : A) others s s' : host_owns others s →
  fn (host_reset_and_leave r0) s = (r, s') → r = r0 ∧ fst s' = new_host_impl ∧ objects (snd s') = others.
Proof.
  intros Ho E. unfold host_reset_and_leave in E. exec E. apply (host_reset_spec others) in Ef; done.
Qed.
Lemma host_idle_owns others (s : HostImpl * L) : fst s = new_host_impl → objects (snd s) = others → host_owns others s.
Proof. unfold host_owns. by intros -> ->. Qed.
#[local] Hint Resolve host_idle_owns : core.

(** Beginning makes one key or none; opening and a failed verification destroy it. *)
Theorem host_session_owns_key others s :
  host_owns others s →
  (∀ now d s', host_session_begin now s = (d, s') →
     host_owns others s' ∧ (is_Some (host_key (fst s')) ↔ is_Some d)) ∧
  (∀ key transcript signature now ok s', host_verify_brk_signature key transcript signature now s = (ok, s') →
     host_owns others s' ∧ (ok = false → host_key (fst s') = None)) ∧
  (∀ web salt info nonce c tag aad now vmk s', host_open_vmk web salt info nonce c tag aad now s = (vmk, s') →
     host_key (fst s') = None ∧ objects (snd s') = others).
Proof.
  intros Ho. split_and!.
  - intros now d s' E. unfold host_session_begin, set_host in E. exec_step E.
    apply (host_reset_spec others) in Ef as [Hi Hb]; [|done]. pose proof (host_idle_owns others _ Hi Hb) as Ho1. exec_step E.
    apply (on_host_leak _ others) in Ef as [Ho2 Hf2]; [|auto using fill_random_leak|done]. destruct a0 as [id_ok id]. exec_step E.
    { apply (host_reset_leave_spec _ _ others) in E as (-> & Hi' & Hb'); [|done]. split; [auto|]. rewrite Hi'. cbn. by split; intros []. }
    exec_step E. apply (on_host_leak _ others) in Ef as [Ho3 Hf3]; [|auto using fill_random_leak|done].
    destruct a0 as [challenge_ok random]. exec_step E.
    { apply (host_reset_leave_spec _ _ others) in E as (-> & Hi' & Hb'); [|done]. split; [auto|]. rewrite Hi'. cbn. by split; intros []. }
    exec_step E. apply on_host_inv in Ef as [Hg Hf4]. apply generate_hands_over in Hg.
    assert (Hk : host_key (fst s2) = None) by (by rewrite Hf3, Hf2, Hi).
    assert (Hb3 : objects (snd s2) = others) by (unfold host_owns in Ho3; by rewrite Hk in Ho3).
    rewrite Hb3 in Hg. exec_step E.
    + destruct p as [key point]. exec E. cbn in *. unfold host_owns. cbn. split; [done|]. by split; eexists.
    + apply (host_reset_leave_spec _ _ others) in E as (-> & Hi' & Hb').
      * split; [auto|]. rewrite Hi'. cbn. by split; intros [].
      * unfold host_owns. rewrite Hf4, Hk. done.
  - intros key transcript signature now ok s' E. unfold host_verify_brk_signature in E. exec_step E. exec_step E.
    { apply (host_reset_leave_spec _ _ others) in E as (-> & Hi & Hb); [|done]. split; [auto|]. by rewrite Hi. }
    exec_step E. apply (on_host_leak _ others) in Ef as [Ho1 Hf1]; [|auto using verify_leak|done]. exec_step E.
    { apply (host_reset_leave_spec _ _ others) in E as (-> & Hi & Hb); [|done]. split; [auto|]. by rewrite Hi. }
    exec E. by split.
  - intros web salt info nonce c tag aad now vmk s' E. unfold host_open_vmk in E. exec_step E. exec_step E.
    { apply (host_reset_leave_spec _ _ others) in E as (-> & Hi & Hb); [|done]. by rewrite Hi. }
    exec_step E. assert (Hl : ∀ k, no_leak (L:=L) (match k with Some key => derive_native_shared key web | None => λ l, (None, l) end)).
    { intros []; [apply shared_leak|]. by intros l a' l' [= <- <-]. }
    apply (on_host_leak _ others) in Ef as [Ho1 _]; [|apply Hl|done]. clear Hl.
    exec E; repeat match goal with
      | E : on_host _ _ = _ |- _ => apply (on_host_leak _ others) in E as [? _]; [|by auto using hkdf_leak, decrypt_vmk_leak|done]
      | E : host_reset _ = _ |- _ => apply (host_reset_spec others) in E as [Hi Hb]; [|done]
      end; by rewrite Hi.
Qed.
End Keys.
