(* ===== verification/HostGcm.v ===== *)
(** * AES-256-GCM on the host and on the device

    The documented behaviour of a GCM context of OpenSSL as a small machine
    ([gcm_step]), and the theorem that the host's functions then compute what the
    firmware's do with mbed TLS.  A concrete library shows that the behaviour can be
    had. *)

From S2P Require Import Prelude Bytes VaultFormat VaultCrypto DeviceSession HostCrypto HostCryptoCorrect.

(** The two parts of GCM: the key stream, with which encryption and decryption are
    the same operation, and the tag. *)
Class Gcm := {
  ctr : ∀ (key iv text : bytes), bytes;
  gmac : ∀ (key iv aad ciphertext : bytes), bytes;
  ctr_involutive key iv text : ctr key iv (ctr key iv text) = text;
  ctr_length key iv text : length (ctr key iv text) = length text;
  gmac_length key iv aad ciphertext : length (gmac key iv aad ciphertext) = kVaultTagBytes;
}.

(** A context: its direction, the size of its nonce, and what it has been given. *)
Record gcm_context := mkContext {
  encrypts : bool;
  iv_size : nat;
  key_iv : option (bytes * bytes);
  fed_aad : bytes;
  fed : option bytes;
  expected : option bytes;
  finished : bool;
}.
Definition fresh_context (encrypts : bool) : gcm_context := mkContext encrypts 12 None [] None None false.

(** The context a call works on. *)
Definition context_of (c : openssl_call) : option Z :=
  match c with
  | EVP_EncryptInit_cipher h | EVP_EncryptInit_ex h _ _ | EVP_CTRL_GCM_SET_IVLEN h _ | EVP_EncryptUpdate_aad h _
  | EVP_EncryptUpdate h _ | EVP_EncryptFinal_ex h | EVP_CTRL_GCM_GET_TAG h _ | EVP_DecryptInit_cipher h
  | EVP_DecryptInit_ex h _ _ | EVP_DecryptUpdate_aad h _ | EVP_DecryptUpdate h _ | EVP_CTRL_GCM_SET_TAG h _
  | EVP_DecryptFinal_ex h => Some h
  | _ => None
  end.

Section Machine.
Context `{Gcm}.

Definition with_key (encrypting : bool) (key iv : bytes) (s : gcm_context) : option (bytes * gcm_context) :=
  if Bool.eqb (encrypts s) encrypting && Nat.eqb (length key) kVmkBytes && Nat.eqb (length iv) (iv_size s)
  then Some ([], mkContext encrypting (iv_size s) (Some (key, iv)) [] None None false) else None.
Definition with_aad (encrypting : bool) (aad : bytes) (s : gcm_context) : option (bytes * gcm_context) :=
  match key_iv s, fed s with
  | Some k, None =>
    if Bool.eqb (encrypts s) encrypting
    then Some ([], mkContext encrypting (iv_size s) (Some k) (fed_aad s ++ aad) None (expected s) false) else None
  | _, _ => None
  end.
(** The ciphertext is kept; the text comes out whole. *)
Definition with_text (encrypting : bool) (text : bytes) (s : gcm_context) : option (bytes * gcm_context) :=
  match key_iv s, fed s with
  | Some (key, iv), None =>
    if Bool.eqb (encrypts s) encrypting then
      let out := ctr key iv text in
      Some (out, mkContext encrypting (iv_size s) (Some (key, iv)) (fed_aad s)
                   (Some (if encrypting then out else text)) (expected s) false)
    else None
  | _, _ => None
  end.
Definition context_tag (s : gcm_context) : option bytes :=
  match key_iv s with
  | Some (key, iv) => Some (gmac key iv (fed_aad s) (default [] (fed s)))
  | None => None
  end.
Definition with_finished (s : gcm_context) : gcm_context :=
  mkContext (encrypts s) (iv_size s) (key_iv s) (fed_aad s) (fed s) (expected s) true.

(** What a call that returns 1 has written, and the context it leaves. *)
Definition gcm_step (c : openssl_call) (o : option gcm_context) : option (bytes * gcm_context) :=
  match c, o with
  | EVP_EncryptInit_cipher _, _ => Some ([], fresh_context true)
  | EVP_DecryptInit_cipher _, _ => Some ([], fresh_context false)
  | EVP_CTRL_GCM_SET_IVLEN _ size, Some s =>
    Some ([], mkContext (encrypts s) size (key_iv s) (fed_aad s) (fed s) (expected s) (finished s))
  | EVP_EncryptInit_ex _ key iv, Some s => with_key true key iv s
  | EVP_DecryptInit_ex _ key iv, Some s => with_key false key iv s
  | EVP_EncryptUpdate_aad _ aad, Some s => with_aad true aad s
  | EVP_DecryptUpdate_aad _ aad, Some s => with_aad false aad s
  | EVP_EncryptUpdate _ text, Some s => with_text true text s
  | EVP_DecryptUpdate _ text, Some s => with_text false text s
  | EVP_EncryptFinal_ex _, Some s => if encrypts s then Some ([], with_finished s) else None
  | EVP_CTRL_GCM_GET_TAG _ size, Some s =>
    if encrypts s && finished s && Nat.eqb size kVaultTagBytes
    then tag ← context_tag s; Some (tag, s) else None
  | EVP_CTRL_GCM_SET_TAG _ tag, Some s =>
    if encrypts s then None
    else Some ([], mkContext false (iv_size s) (key_iv s) (fed_aad s) (fed s) (Some tag) (finished s))
  | EVP_DecryptFinal_ex _, Some s =>
    if negb (encrypts s) && bool_decide (is_Some (expected s)) && bool_decide (context_tag s = expected s)
    then Some ([], with_finished s) else None
  | _, _ => None
  end.
End Machine.

Class GcmContexts (L : Type) `{OpenSsl L} `{Gcm} := {
  contexts : L → gmap Z gcm_context;
  gcm_law c h l out l' : context_of c = Some h → openssl c l = ((true, out), l') →
    ∃ s', gcm_step c (contexts l !! h) = Some (out, s') ∧ contexts l' = <[h := s']> (contexts l);
}.

Section Equivalence.
Context {L : Type} `{OpenSsl L} `{!Gcm} `{!GcmContexts L}.
Implicit Types (l : L).

Lemma status_true c h l l' : context_of c = Some h → status c l = (true, l') →
  ∃ out s', gcm_step c (contexts l !! h) = Some (out, s') ∧ contexts l' !! h = Some s'.
Proof.
  intros Hc E. unfold status in E. destruct (openssl c l) as [[ok out] l1] eqn:Ef. rewrite (fn_call _ _ _ _ _ Ef) in E.
  apply fn_ret in E as [Hok ->]. cbn in Hok. subst ok. destruct (gcm_law c h l out l' Hc Ef) as (s' & Hs & Hl). exists out, s'. split; [done|]. by rewrite Hl, lookup_insert_eq.
Qed.
Lemma then_true ok c h l out l' : context_of c = Some h → then_call ok c l = ((true, out), l') →
  ok = true ∧ ∃ s', gcm_step c (contexts l !! h) = Some (out, s') ∧ contexts l' !! h = Some s'.
Proof.
  intros Hc E. destruct ok; [|done]. split; [done|]. cbn [then_call] in E.
  destruct (gcm_law c h l out l' Hc E) as (s' & Hs & Hl). exists s'. split; [done|]. by rewrite Hl, lookup_insert_eq.
Qed.
Lemma all_ok_cons c calls l l' : all_ok (c :: calls) l = (true, l') →
  ∃ l1, status c l = (true, l1) ∧ all_ok calls l1 = (true, l').
Proof.
  cbn [all_ok]. intros E. destruct (status c l) as [ok l1] eqn:Ef. rewrite (fn_call _ _ _ _ _ Ef) in E.
  destruct ok; cbn [negb] in E; [|by apply fn_ret in E as [? _]]. rewrite fn_call_tail in E. by exists l1.
Qed.

(** Four calls that prepare a context. *)
Lemma prepared encrypting h key nonce aad l l' :
  all_ok (if encrypting : bool
          then [EVP_EncryptInit_cipher h; EVP_CTRL_GCM_SET_IVLEN h (length nonce); EVP_EncryptInit_ex h key nonce;
                EVP_EncryptUpdate_aad h aad]
          else [EVP_DecryptInit_cipher h; EVP_CTRL_GCM_SET_IVLEN h (length nonce); EVP_DecryptInit_ex h key nonce;
                EVP_DecryptUpdate_aad h aad]) l = (true, l') →
  contexts l' !! h = Some (mkContext encrypting (length nonce) (Some (key, nonce)) aad None None false).
Proof.
  intros E. destruct encrypting.
  all: apply all_ok_cons in E as (l1 & E1 & E); apply all_ok_cons in E as (l2 & E2 & E);
    apply all_ok_cons in E as (l3 & E3 & E); apply all_ok_cons in E as (l4 & E4 & E); injection E as <-.
  all: apply (status_true _ h) in E1 as (o1 & s1 & S1 & C1); [|done]; cbn in S1; injection S1 as <- <-.
  all: apply (status_true _ h) in E2 as (o2 & s2 & S2 & C2); [|done]; rewrite C1 in S2; cbn in S2; injection S2 as <- <-.
  all: apply (status_true _ h) in E3 as (o3 & s3 & S3 & C3); [|done]; rewrite C2 in S3; cbn [gcm_step] in S3;
    unfold with_key in S3; case_match; [|done]; injection S3 as <- <-.
  all: apply (status_true _ h) in E4 as (o4 & s4 & S4 & C4); [|done]; rewrite C3 in S4; cbn in S4; injection S4 as <- <-.
  all: done.
Qed.

(** What the host writes when it succeeds. *)
Lemma host_encrypt_sound plaintext key nonce aad l c t l' :
  host_aes_gcm_encrypt plaintext key nonce aad l = (Some (c, t), l') →
  c = ctr key nonce plaintext ∧ t = gmac key nonce aad c.
Proof.
  intros E. unfold host_aes_gcm_encrypt in E. exec_step E; [done|]. exec_step E. exec_step E; [|by exec E].
  exec_step E. exec_step E. destruct a1 as [ok1 out]. exec_step E. destruct a1 as [ok2 rest]. exec_step E.
  destruct a1 as [ok3 tag]. exec_step E. apply fn_ret in E as [E _]. destruct ok3; [|done]. injection E as <- <-.
  apply (then_true _ _ z) in Ef3 as (-> & x5 & S5 & _); [|done].
  apply (then_true _ _ z) in Ef2 as (-> & x4 & S4 & C4); [|done].
  apply (then_true _ _ z) in Ef1 as (-> & x3 & S3 & C3); [|done].
  apply (prepared true) in Ef0. rewrite Ef0 in S3. cbn in S3. injection S3 as <- <-.
  rewrite C3 in S4. cbn in S4. injection S4 as <- <-. rewrite C4 in S5. cbn in S5. injection S5 as <- _.
  by rewrite app_nil_r.
Qed.

Lemma host_open_sound h c key nonce aad tag l p l' :
  host_gcm_open h c key nonce aad tag l = ((true, p), l') → p = ctr key nonce c ∧ tag = gmac key nonce aad c.
Proof.
  intros E. unfold host_gcm_open in E. exec_step E. exec_step E. destruct a0 as [ok1 out]. exec_step E.
  destruct a0 as [ok2 written]. exec_step E. destruct a0 as [ok3 rest]. apply fn_ret in E as [E _]. injection E as -> <-.
  apply (then_true _ _ h) in Ef2 as (-> & x5 & S5 & _); [|done].
  apply (then_true _ _ h) in Ef1 as (-> & x4 & S4 & C4); [|done].
  apply (then_true _ _ h) in Ef0 as (-> & x3 & S3 & C3); [|done].
  apply (prepared false) in Ef. rewrite Ef in S3. cbn in S3. injection S3 as <- <-.
  rewrite C3 in S4. cbn in S4. injection S4 as <- <-. rewrite C4 in S5. cbn in S5.
  case_bool_decide as Ht; [|done]. injection S5 as <- _. injection Ht as <-. by rewrite app_nil_r.
Qed.

Lemma host_decrypt_sound c key nonce aad tag l p l' :
  host_aes_gcm_decrypt c key nonce aad tag l = (Some p, l') → p = ctr key nonce c ∧ tag = gmac key nonce aad c.
Proof.
  intros E. unfold host_aes_gcm_decrypt in E. exec_step E; [done|]. exec_step E. exec_step E; [|by exec E].
  exec_step E. destruct a0 as [ok out]. exec_step E. apply fn_ret in E as [E _]. destruct ok; [|done].
  injection E as <-. by apply host_open_sound in Ef0.
Qed.
End Equivalence.

(** ** A library that does not fail *)

Class GcmReliable (L : Type) `{GcmContexts L} : Prop := {
  reliable_new l : is_Some (fst (openssl_new EVP_CIPHER_CTX_new l));
  reliable_call c h l : context_of c = Some h → is_Some (gcm_step c (contexts l !! h)) → fst (fst (openssl c l)) = true;
}.

Section Reliable.
Context {L : Type} `{GcmReliable L}.
Implicit Types (l : L).

Lemma reliable_step c h l out s' : context_of c = Some h → gcm_step c (contexts l !! h) = Some (out, s') →
  ∃ l', openssl c l = ((true, out), l') ∧ contexts l' !! h = Some s'.
Proof.
  intros Hc Hs. assert (Hok := reliable_call c h l Hc ltac:(by eexists)).
  destruct (openssl c l) as [[ok out'] l'] eqn:E. cbn in Hok. subst ok.
  destruct (gcm_law c h l out' l' Hc E) as (s2 & S2 & C2). rewrite Hs in S2. injection S2 as <- <-.
  exists l'. split; [done|]. by rewrite C2, lookup_insert_eq.
Qed.
Lemma reliable_then c h l out s' : context_of c = Some h → gcm_step c (contexts l !! h) = Some (out, s') →
  ∃ l', then_call true c l = ((true, out), l') ∧ contexts l' !! h = Some s'.
Proof. apply reliable_step. Qed.
Lemma reliable_cons c h l out s' calls : context_of c = Some h → gcm_step c (contexts l !! h) = Some (out, s') →
  ∃ l', all_ok (c :: calls) l = all_ok calls l' ∧ contexts l' !! h = Some s'.
Proof.
  intros Hc Hs. destruct (reliable_step c h l out s' Hc Hs) as (l' & E & C). exists l'. split; [|done].
  cbn [all_ok]. assert (Es : status c l = (true, l')) by (unfold status; by rewrite (fn_call _ _ _ _ _ E)).
  rewrite (fn_call _ _ _ _ _ Es). cbn [negb]. by rewrite fn_call_tail.
Qed.

#[local] Ltac next_call h l l' C :=
  match goal with |- context [all_ok (?c :: _) l] =>
    edestruct (reliable_cons c h l) as (l' & -> & C);
    [reflexivity|try match goal with C0 : contexts l !! _ = _ |- _ => rewrite C0 end; cbn; unfold with_key; cbn;
                 try match goal with Hk : length _ = _ |- _ => rewrite Hk, !Nat.eqb_refl end; reflexivity|cbn in C]
  end.

Lemma reliable_prepared encrypting h key nonce aad l : length key = kVmkBytes →
  ∃ l', all_ok (if encrypting : bool
          then [EVP_EncryptInit_cipher h; EVP_CTRL_GCM_SET_IVLEN h (length nonce); EVP_EncryptInit_ex h key nonce;
                EVP_EncryptUpdate_aad h aad]
          else [EVP_DecryptInit_cipher h; EVP_CTRL_GCM_SET_IVLEN h (length nonce); EVP_DecryptInit_ex h key nonce;
                EVP_DecryptUpdate_aad h aad]) l = (true, l').
Proof.
  intros Hk. destruct encrypting.
  all: next_call h l l1 C1; next_call h l1 l2 C2; next_call h l2 l3 C3; next_call h l3 l4 C4.
  all: by exists l4.
Qed.

Lemma host_encrypt_complete plaintext key nonce aad l : length key = kVmkBytes → sizes_fit_openssl plaintext aad = true →
  fst (host_aes_gcm_encrypt plaintext key nonce aad l) =
  Some (ctr key nonce plaintext, gmac key nonce aad (ctr key nonce plaintext)).
Proof.
  intros Hk Hs. unfold host_aes_gcm_encrypt. rewrite Hs. cbn [negb]. unfold leave_if. rewrite fn_bind_ret.
  destruct (reliable_new l) as [h Hn]. destruct (openssl_new _ l) as [r l1] eqn:En. cbn in Hn. subst r.
  rewrite (fn_call _ _ _ _ _ En). destruct (reliable_prepared true h key nonce aad l1 Hk) as (l2 & E2).
  rewrite (fn_call _ _ _ _ _ E2). apply (prepared true) in E2.
  edestruct (reliable_then (EVP_EncryptUpdate h plaintext) h l2) as (l3 & E3 & C3); [done|rewrite E2; reflexivity|].
  rewrite (fn_call _ _ _ _ _ E3).
  edestruct (reliable_then (EVP_EncryptFinal_ex h) h l3) as (l4 & E4 & C4); [done|rewrite C3; reflexivity|].
  rewrite (fn_call _ _ _ _ _ E4).
  edestruct (reliable_then (EVP_CTRL_GCM_GET_TAG h kVaultTagBytes) h l4) as (l5 & E5 & C5); [done|rewrite C4; reflexivity|].
  rewrite (fn_call _ _ _ _ _ E5). destruct (openssl_free h l5) as [u l6] eqn:E6. rewrite (fn_call _ _ _ _ _ E6).
  cbn. by rewrite app_nil_r.
Qed.

Lemma host_decrypt_complete c key nonce aad l : length key = kVmkBytes → sizes_fit_openssl c aad = true →
  fst (host_aes_gcm_decrypt c key nonce aad (gmac key nonce aad c) l) = Some (ctr key nonce c).
Proof.
  intros Hk Hs. unfold host_aes_gcm_decrypt. rewrite Hs. cbn [negb]. unfold leave_if. rewrite fn_bind_ret.
  destruct (reliable_new l) as [h Hn]. destruct (openssl_new _ l) as [r l1] eqn:En. cbn in Hn. subst r.
  rewrite (fn_call _ _ _ _ _ En). destruct (reliable_prepared false h key nonce aad l1 Hk) as (l2 & E2).
  assert (Ho : ∃ l', host_gcm_open h c key nonce aad (gmac key nonce aad c) l1 = ((true, ctr key nonce c), l')).
  { unfold host_gcm_open. rewrite (fn_call _ _ _ _ _ E2). apply (prepared false) in E2.
    edestruct (reliable_then (EVP_DecryptUpdate h c) h l2) as (l3 & E3 & C3); [done|rewrite E2; reflexivity|].
    rewrite (fn_call _ _ _ _ _ E3).
    edestruct (reliable_then (EVP_CTRL_GCM_SET_TAG h (gmac key nonce aad c)) h l3) as (l4 & E4 & C4); [done|rewrite C3; reflexivity|].
    rewrite (fn_call _ _ _ _ _ E4).
    edestruct (reliable_then (EVP_DecryptFinal_ex h) h l4) as (l5 & E5 & C5); [done| |].
    { rewrite C4. cbn. rewrite bool_decide_true by done. reflexivity. }
    rewrite (fn_call _ _ _ _ _ E5). exists l5. by rewrite app_nil_r. }
  destruct Ho as [l6 Ho]. rewrite (fn_call _ _ _ _ _ Ho).
  destruct (openssl_free h l6) as [u l7] eqn:E7. by rewrite (fn_call _ _ _ _ _ E7).
Qed.
End Reliable.

(** ** The same cipher *)

(** mbed TLS and OpenSSL implement the one AES-256-GCM. *)
Class SameCipher `{MbedtlsGcm} `{Gcm} : Prop := same_cipher key nonce aad plaintext :
  length key = kVmkBytes →
  mbedtls_gcm_crypt_and_tag key nonce aad plaintext =
    (0, ctr key nonce plaintext, gmac key nonce aad (ctr key nonce plaintext)).

Section Same.
Context {L : Type} `{GcmLaws} `{GcmReliable L} `{!SameCipher}.
Implicit Types (l : L).

Lemma firmware_encrypt plaintext key nonce aad : length key = kVmkBytes →
  aes_gcm_encrypt plaintext key nonce aad = Some (ctr key nonce plaintext, gmac key nonce aad (ctr key nonce plaintext)).
Proof.
  intros Hk. unfold aes_gcm_encrypt. rewrite gcm_setkey_256, same_cipher by done. cbn.
  by rewrite resize_all_alt by by rewrite ctr_length.
Qed.

(** The host's functions are the firmware's: with a library that does not fail they
    encrypt the same and open the same, for every text and header whose length is an
    [int]. *)
Theorem host_equals_firmware text key nonce aad tag l :
  length key = kVmkBytes → sizes_fit_openssl text aad = true →
  fst (host_aes_gcm_encrypt text key nonce aad l) = aes_gcm_encrypt text key nonce aad ∧
  fst (host_aes_gcm_decrypt text key nonce aad tag l) = aes_gcm_decrypt text key nonce aad tag.
Proof.
  intros Hk Hs. split; [by rewrite host_encrypt_complete, firmware_encrypt|].
  destruct (aes_gcm_decrypt text key nonce aad tag) as [p|] eqn:Ed.
  - apply aes_gcm_decrypt_spec in Ed. rewrite firmware_encrypt in Ed by done. injection Ed as <- <-.
    rewrite <- (ctr_involutive key nonce p) at 3. apply host_decrypt_complete; [done|]. done.
  - destruct (host_aes_gcm_decrypt text key nonce aad tag l) as [[p|] l'] eqn:Eh; [|done]. exfalso.
    apply host_decrypt_sound in Eh as [-> ->].
    assert (Hx : aes_gcm_decrypt text key nonce aad (gmac key nonce aad text) = Some (ctr key nonce text)); [|congruence].
    apply aes_gcm_decrypt_spec. by rewrite firmware_encrypt, ctr_involutive.
Qed.
End Same.

(** ** A concrete library *)

Module HostSample.

(** The text in clear, with [checksum_tag] as the tag, as in [checksum_gcm]. *)
#[local] Instance clear_gcm : Gcm.
Proof.
  by refine {| ctr key iv text := text; gmac key iv aad ciphertext := checksum_tag key iv aad ciphertext |}.
Defined.
#[local] Existing Instance checksum_gcm.
#[local] Existing Instance checksum_gcm_laws.

Record Library := mkLibrary { live : gset Z; gcm : gmap Z gcm_context }.
Definition add_object (l : Library) : Z * Library :=
  let h := fresh (live l) in (h, mkLibrary ({[h]} ∪ live l) (gcm l)).

#[local] Instance library : OpenSsl Library := {|
  openssl_new _ l := let '(h, l) := add_object l in (Some h, l);
  openssl_free h l := (tt, mkLibrary (live l ∖ {[h]}) (gcm l));
  openssl c l :=
    match context_of c with
    | Some h =>
      match gcm_step c (gcm l !! h) with
      | Some (out, s) => ((true, out), mkLibrary (live l) (<[h := s]> (gcm l)))
      | None => ((false, []), l)
      end
    | None =>
      ((true, match c with
              | EVP_PKEY_get_octet_string_param _ => 0x04 :: zeros 64
              | EVP_PKEY_derive _ size => zeros size
              | i2d_ECDSA_SIG _ => zeros 70
              | _ => []
              end), l)
    end;
  EVP_PKEY_generate _ l := let '(h, l) := add_object l in ((true, Some h), l);
  EVP_PKEY_fromdata _ _ l := let '(h, l) := add_object l in ((true, Some h), l);
  ECDSA_SIG_set0 _ r s l := (true, mkLibrary (live l ∖ {[r; s]}) (gcm l));
  RAND_bytes n l := ((true, zeros n), l);
|}.

Lemma add_object_spec l h l' : add_object l = (h, l') → h ∉ live l ∧ live l' = {[h]} ∪ live l ∧ gcm l' = gcm l.
Proof. intros [= <- <-]. split_and!; [apply is_fresh|done..]. Qed.

#[local] Instance library_laws : OpenSslLaws Library.
Proof.
  refine {| objects := live |}; cbn -[add_object].
  - intros _ l r l' E. destruct (add_object l) as [h l1] eqn:Ea. apply add_object_spec in Ea as (? & ? & _).
    by injection E as <- <-.
  - by intros h l u l' [= <- <-].
  - intros c l x l' E. repeat case_match; by simplify_eq.
  - intros h l ok key l' E. destruct (add_object l) as [k l1] eqn:Ea. apply add_object_spec in Ea as (? & ? & _).
    by injection E as <- <- <-.
  - intros h point l ok key l' E. destruct (add_object l) as [k l1] eqn:Ea. apply add_object_spec in Ea as (? & ? & _).
    by injection E as <- <- <-.
  - by intros e r s l ok l' [= <- <-].
  - by intros n l x l' [= <- <-].
Defined.

#[local] Instance library_contexts : GcmContexts Library.
Proof.
  refine {| contexts := gcm |}. cbn. intros c h l out l' -> E.
  destruct (gcm_step c (gcm l !! h)) as [[out' s]|]; [|done]. injection E as -> <-. by exists s.
Defined.
#[local] Instance library_reliable : GcmReliable Library.
Proof.
  split; cbn.
  - intros l. by eexists.
  - intros c h l -> [[out s] Hs]. cbn in Hs. by rewrite Hs.
Qed.
#[local] Instance library_same : SameCipher.
Proof. done. Qed.

Definition empty_library : Library := mkLibrary ∅ ∅.

(** Encrypting on the host and opening on the device. *)
Lemma host_equals_firmware_witness :
  fst (host_aes_gcm_encrypt [1; 2; 3] sample_key sample_nonce [9] empty_library) =
    aes_gcm_encrypt [1; 2; 3] sample_key sample_nonce [9] ∧
  fst (host_aes_gcm_decrypt [1; 2; 3] sample_key sample_nonce [9] (zeros 16) empty_library) =
    aes_gcm_decrypt [1; 2; 3] sample_key sample_nonce [9] (zeros 16).
Proof. apply host_equals_firmware; reflexivity. Defined.

(** A session begins with one object and ends with none. *)
Definition started : option AttemptDescriptor * (HostImpl * Library) :=
  host_session_begin 1000 (new_host_impl, empty_library).
Definition opened : option bytes * (HostImpl * Library) :=
  host_open_vmk (0x04 :: zeros 64) [1] [2] (zeros 12) (zeros 32)
    (checksum_tag (zeros 32) (zeros 12) [3] (zeros 32)) [3] 2000 (snd started).
Lemma session_objects :
  is_Some (fst started) ∧ size (live (snd (snd started))) = 1%nat ∧
  fst opened = Some (zeros 32) ∧ live (snd (snd opened)) = ∅.
Proof. split; [by vm_compute; eexists|]. by vm_compute. Qed.
Lemma host_session_owns_key_witness : host_key (fst (snd opened)) = None ∧ live (snd (snd opened)) = ∅.
Proof.
  destruct (host_session_owns_key (L:=Library) ∅ (new_host_impl, empty_library) eq_refl) as (Hb & _ & _).
  destruct (host_session_owns_key (L:=Library) ∅ _ (proj1 (Hb 1000 _ _ (surjective_pairing _)))) as (_ & _ & Hopen).
  exact (Hopen _ _ _ _ _ _ _ 2000 _ _ (surjective_pairing _)).
Defined.
End HostSample.
